(* ===== verification/_CoqProject ===== *)
-Q . S2P
Prelude.v
CppStd.v
Inet.v
Config.v
Json.v
JsonTree.v
Packet.v
Serialize.v
Capture.v
Frames.v
Engine.v
Effects.v
Network.v
NetworkText.v
NetworkBench.v
NetworkSafety.v
NetworkJournal.v
NetworkRollback.v
NetworkControl.v
NetworkSound.v
Lifecycle.v
Process.v
Cli.v
Store.v
Schema.v
Sample.v
Metrics.v
Server.v
Live.v
Runtime.v
