(* ===== verification/Prelude.v ===== *)
(** * WireLab Experiments (magicboxd): verification development

    The program is a Linux daemon: it captures packets on one interface and aggregates them into
    metrics, and it can turn the machine into a NAT router for one device, under a journal and a
    sixty-second confirmation window.  One worker thread serialises every control operation; the
    HTTP and WebSocket handlers only authenticate and enqueue; one more thread captures.

    ** Files, and the code they model

    Foundations:
    - Prelude.v (this file): exceptions as values ([result]), integers of 32 and 64 bits with
      their wrap-around, strings as character lists, the notation scope, the shared lemmas.
    - CppStd.v: the number parsers and printers of the C++ library that the code calls.
    - Inet.v: [inet_pton] and [inet_ntop] as an interface with laws, and an implementation.
    - Json.v: jsoncpp as an interface ([JsonCpp]) with its laws ([JsonCppLaws]); JsonTree.v is an
      implementation that satisfies them, on which the witnesses run.

    Components, each with its data, its operations and its theorems:
    - Config.v: config.hpp and config.cpp, [validate].
    - Serialize.v: json.cpp, the readers and writers of configurations and packets.
    - Packet.v, Capture.v, Frames.v: engine.hpp (metadata) and capture.cpp; [dissect] with checked
      loads, [PcapSource], and an independent description of well-formed frames.
    - Engine.v: engine.cpp; the worker's critical sections interleaved with the control thread.
    - Effects.v, Network.v: network.cpp in a monad of state, exceptions and a log of requests to
      the machine.  Its theorems: NetworkText.v (the nft texts), NetworkSafety.v (the log and the
      guard), NetworkJournal.v (the write-ahead journal), NetworkRollback.v ([restore]),
      NetworkControl.v (how the other operations end), NetworkSound.v (what they keep) and
      Lifecycle.v (the state machine).  NetworkBench.v is a simulated host for the witnesses.
    - Process.v: process.cpp, [command] against the answers of its system calls.
    - Store.v, Schema.v: store.cpp; the tables as finite maps, each method with the faults of its
      statements; the constructor with its schema script.
    - Sample.v, Metrics.v: server.cpp, [ApplianceRuntime::sample]; the bounded tables, the metrics
      document, the flush.
    - Server.v: server.cpp, authentication, routing, status codes and the control queue, over the
      interface [Backend] of the operations a request reaches.
    - Live.v: server.cpp, [LiveSocket]; one socket as interleaved atomic operations.
    - Runtime.v: server.cpp, [ApplianceRuntime] and [run_appliance]; it implements [Backend] with
      the components above, and composes construction, the worker's loop and the shutdown.
    - Cli.v: main.cpp, the command line.

    ** How the components meet

    [Runtime.runtime] holds what [ApplianceRuntime] holds: the controller ([Effects.net]), the
    engine ([Engine.CaptureEngine]), the tables ([Sample.aggregates]), the metrics and the store
    ([Store.db]).  [Runtime.turn] is one iteration of [work]: [tick], the task, the sample.
    [Runtime.process_step] interleaves turns with arrivals; every execution of it is one of
    [Server.server_step] with the runtime as backend.  Invariants of the runtime are proved once
    per operation ([Server.BackendKeeps]) and hold of every task.

    ** What the theorems show

    - Network controller, for every machine: before any change of the network the store holds a
      record that tells how it was (the interfaces of the configuration and the global switches);
      the records form a run of the documented state machine; [restore] runs every undoing action
      whatever fails, unless the store refuses its first record, and one that returns has put the
      switches and interfaces back; [apply] installs every step or rolls back; how [confirm] and
      the constructor end; the forwarding guard goes up first and comes down last; without
      permission nothing is touched; the nft texts cannot be injected into.
    - The process, for every oracle: the first turn at or after the deadline runs the rollback of
      an unconfirmed configuration, and so does the shutdown; tasks are answered in order; the live
      and status documents are always produced, every member given; changing the capture replaces
      everything together or keeps what was there; the tables stay bounded.
    - Configuration: [validate] against an independent specification; the JSON reader accepts
      exactly the documented format; round trips.
    - Capture: [dissect] never reads outside its bytes, recovers the fields of well-formed frames,
      ignores VLAN tags; the engine's queue is bounded, its counters account for every packet in
      every interleaving, and it stops.
    - Store: transactions, the history for every request, a schema script that loses no row.
      Aggregation: exact totals of the tables, the metrics document, the flush for every outcome
      of its statements.
    - Server, live socket, subprocess, command line: authentication, bounds, order, status codes,
      flow control, termination, exactly when a command succeeds, round trip.

    ** Parameters

    What is not under src/ is a parameter: jsoncpp, the C address functions, SQLite's treatment of
    ties and overflow ([Sqlite]), the kernel and the tools the controller runs ([Platform]), the
    order [std::sort] gives to equal elements ([StdSort]), the floating-point rates ([Rates]), and
    clocks, libpcap and the capture thread's progress ([Runtime.answers], asked in order).  Laws
    are assumed only of jsoncpp, the address functions, ORDER BY and [std::sort]; implementations
    satisfying them are given.

    - jsoncpp's reader returns a value, refuses the text, or throws [Json::RuntimeError] on one
      nested beyond its stack limit ([Json.reader_parse]); it reads back what the writer wrote of
      a value within that limit whose strings are plain text ([Json.faithful]).
    - SQLite may end a transaction by itself when a statement fails, so that ROLLBACK reports an
      error ([Store.record_flows], [ended]); it may answer [PRAGMA journal_mode=WAL] with the old
      mode ([Schema.open_faults]).
    - [waitpid] may answer anything, but a child that was sent SIGKILL is reaped, or gone, within
      some number of rounds ([Process.sigkill_ends]); a hypothesis of termination only.

    ** Fuel

    Only [Process.command] runs on fuel, for its two loops over the answers of system calls; its
    termination theorem gives an amount that is enough.  Every other recursion is structural.

    ** Not modelled

    - The framework's event loop, sockets and response headers, the limits it is configured with,
      and the standard output texts: input and output only.
    - The 50 millisecond wait of the worker: a turn without a task stands for its expiry.
    - The store holds the controller's record and the other settings in one table; here the record
      lives in the [Platform] of the controller and the other rows in the runtime's [db]. They use
      different keys, and neither reads the other's.
    - An exception inside the loop over the packets of a batch leaves the tables as they were before
      the batch, where the code keeps the packets before it; the conversions in that loop do not
      throw on the values the program puts there ([Sample.aggregates_exact]).
    - The destructors, which close descriptors and handles; the dashboard (web/), the tests and the
      deployment files. *)
From stdpp Require Export base gmap strings list pretty.
From Stdlib Require Export ZArith Lia Ascii.
#[global] Open Scope list_scope.

Declare Scope mbx_scope.
Delimit Scope mbx_scope with mbx.
#[global] Open Scope Z_scope.

(** ** Exceptions and fallible code *)

(** The C++ exception classes the program throws, or tells apart in a handler. *)
Inductive exn_kind :=
| invalid_argument
| out_of_range
| logic_error
| runtime_error
| json_logic_error
| json_runtime_error.

Record exn := Exn { exn_class : exn_kind; what : string }.

(** A computation that may leave by an exception. *)
Inductive result (A : Type) :=
| Ok (a : A)
| Throw (e : exn).
Arguments Ok {A} a.
Arguments Throw {A} e.

Definition rbind {A B} (m : result A) (k : A -> result B) : result B :=
  match m with Ok a => k a | Throw e => Throw e end.

Notation "'let?' x ':=' m 'in' k" := (rbind m (fun x => k))
  (at level 10, x pattern, m at level 100, k at level 200) : mbx_scope.
Notation "'do?' m ';' k" := (rbind m (fun _ => k))
  (at level 10, m at level 100, k at level 200) : mbx_scope.
#[global] Open Scope mbx_scope.

Definition throw_invalid {A} (msg : string) : result A := Throw (Exn invalid_argument msg).
Definition throw_runtime {A} (msg : string) : result A := Throw (Exn runtime_error msg).

Definition is_ok {A} (m : result A) : bool := match m with Ok _ => true | Throw _ => false end.

(** [for (x : l) f(x)], stopping at the first exception. *)
Fixpoint r_iter {A} (f : A -> result unit) (l : list A) : result unit :=
  match l with
  | [] => Ok tt
  | x :: l' => do? f x; r_iter f l'
  end.

#[export] Instance exn_kind_eq_dec : EqDecision exn_kind.
Proof. solve_decision. Defined.
#[export] Instance exn_eq_dec : EqDecision exn.
Proof. solve_decision. Defined.

(** ** Machine integers: an n-bit value is a [Z] kept in range by these *)

Definition u8 (z : Z) : Z := z mod 2 ^ 8.
Definition u16 (z : Z) : Z := z mod 2 ^ 16.
Definition u32 (z : Z) : Z := z mod 2 ^ 32.
Definition u64 (z : Z) : Z := z mod 2 ^ 64.
Definition s64 (z : Z) : Z := (z + 2 ^ 63) mod 2 ^ 64 - 2 ^ 63.

Notation in_u8 z := (0 <= z < 256).
Notation in_u16 z := (0 <= z < 65536).
Notation in_u32 z := (0 <= z < 4294967296).
Notation in_u64 z := (0 <= z < 18446744073709551616).
Notation in_s64 z := (-9223372036854775808 <= z < 9223372036854775808).

(** ** Characters and strings: a [std::string] is a sequence of bytes *)

Definition code (c : ascii) : Z := Z.of_nat (nat_of_ascii c).
Definition chars (s : string) : list ascii := String.list_ascii_of_string s.
Definition text (l : list ascii) : string := String.string_of_list_ascii l.
Definition size (s : string) : Z := Z.of_nat (String.length s).
Definition nul : ascii := ascii_of_nat 0.
Definition quote : string := String (ascii_of_nat 34) EmptyString.
Definition newline : string := String (ascii_of_nat 10) EmptyString.

(** What a C function sees of [s.c_str()]: the bytes before the first NUL. *)
Fixpoint c_str (s : string) : string :=
  match s with
  | EmptyString => EmptyString
  | String c s' => if decide (c = nul) then EmptyString else String c (c_str s')
  end.

(** [s.find('\0') != npos]. *)
Fixpoint has_nul (s : string) : bool :=
  match s with
  | EmptyString => false
  | String c s' => bool_decide (c = nul) || has_nul s'
  end.

(** One ASCII character other than NUL; a string of these. *)
Definition plain_char (c : ascii) : bool := (1 <=? code c) && (code c <? 128).
Definition plain (s : string) : bool := forallb plain_char (chars s).

(** ** Tactics *)

(** Split the boolean connectives of the context and of the goal. *)
Ltac bool_simp :=
  repeat match goal with
  | H : _ && _ = true |- _ => apply andb_true_iff in H; destruct H
  | H : _ || _ = false |- _ => apply orb_false_iff in H; destruct H
  | H : negb _ = true |- _ => apply negb_true_iff in H
  | H : negb _ = false |- _ => apply negb_false_iff in H
  | H : (_ =? _) = true |- _ => apply Z.eqb_eq in H
  | H : (_ =? _) = false |- _ => apply Z.eqb_neq in H
  | H : (_ <=? _) = true |- _ => apply Z.leb_le in H
  | H : (_ <=? _) = false |- _ => apply Z.leb_gt in H
  | H : (_ <? _) = true |- _ => apply Z.ltb_lt in H
  | H : (_ <? _) = false |- _ => apply Z.ltb_ge in H
  | H : bool_decide _ = true |- _ => apply bool_decide_eq_true in H
  | H : bool_decide _ = false |- _ => apply bool_decide_eq_false in H
  end.

(** [lia] with the defining equations of [/] and [mod] by constants. *)
Ltac dlia := Z.to_euclidean_division_equations; lia.

(** Invert one step of a [result] computation found in the context. *)
Ltac r_inv :=
  repeat match goal with
  | H : Ok _ = Ok _ |- _ => injection H as H; subst
  | H : Throw _ = Throw _ |- _ => injection H as H; subst
  | H : Ok _ = Throw _ |- _ => discriminate H
  | H : Throw _ = Ok _ |- _ => discriminate H
  | H : rbind ?m _ = _ |- _ =>
      let E := fresh "E" in destruct m eqn:E; cbn [rbind] in H
  end.

(** ** Wrap-around *)

Lemma u64_succ n : u64 (u64 n + 1) = u64 (n + 1).
Proof. by apply (Z.add_mod_idemp_l n 1 (2 ^ 64)). Qed.

Lemma u64_add n m : u64 (u64 n + m) = u64 (n + m).
Proof. by apply (Z.add_mod_idemp_l n m (2 ^ 64)). Qed.

(** ** Results *)

Lemma rbind_ok_inv {A B} (m : result A) (k : A -> result B) b :
  rbind m k = Ok b -> exists a, m = Ok a /\ k a = Ok b.
Proof. destruct m; [eauto | discriminate]. Qed.

Lemma rbind_throw_inv {A B} (m : result A) (k : A -> result B) e :
  rbind m k = Throw e -> m = Throw e \/ exists a, m = Ok a /\ k a = Throw e.
Proof. destruct m; cbn; [eauto | intros [= ->]; auto]. Qed.

Lemma r_iter_ok {A} (f : A -> result unit) l :
  r_iter f l = Ok tt <-> Forall (fun x => f x = Ok tt) l.
Proof.
  induction l as [|x l IH]; cbn; [split; auto|].
  rewrite Forall_cons, <- IH. destruct (f x) as [[]|]; cbn; naive_solver.
Qed.

Lemma r_iter_throw {A} (f : A -> result unit) l e :
  r_iter f l = Throw e -> exists x, x ∈ l /\ f x = Throw e.
Proof.
  induction l as [|x l IH]; cbn; [discriminate|]; intros H.
  apply rbind_throw_inv in H as [H|(a & _ & H)]; [exists x; set_solver|].
  destruct (IH H) as (y & ? & ?); exists y; set_solver.
Qed.

(** ** Characters *)

Lemma code_range c : in_u8 (code c).
Proof. unfold code. pose proof (nat_ascii_bounded c). lia. Qed.

Lemma code_inj c d : code c = code d -> c = d.
Proof.
  unfold code. intros H%Nat2Z.inj.
  by rewrite <- (ascii_nat_embedding c), <- (ascii_nat_embedding d), H.
Qed.

Lemma text_chars s : text (chars s) = s.
Proof. apply String.string_of_list_ascii_of_string. Qed.

Lemma chars_text l : chars (text l) = l.
Proof. apply String.list_ascii_of_string_of_list_ascii. Qed.

Lemma length_chars s : Z.of_nat (length (chars s)) = size s.
Proof. unfold chars, size. induction s; cbn; lia. Qed.

Lemma chars_inj s t : chars s = chars t -> s = t.
Proof. intros H. rewrite <- (text_chars s), <- (text_chars t). by f_equal. Qed.

Lemma app_empty_r (s : string) : s +:+ "" = s.
Proof. induction s as [|a s IH]; [done|]. exact (f_equal (String a) IH). Qed.

Lemma app_assoc_s (s t u : string) : (s +:+ t) +:+ u = s +:+ t +:+ u.
Proof. induction s as [|a s IH]; [done|]. exact (f_equal (String a) IH). Qed.

Lemma plain_iff s : plain s = true <-> Forall (fun c => plain_char c = true) (chars s).
Proof. unfold plain. by rewrite forallb_forall, Forall_forall; setoid_rewrite list_elem_of_In. Qed.

Lemma chars_app s t : chars (s +:+ t) = chars s ++ chars t.
Proof.
  unfold chars. induction s as [|c s IH]; [done|]. exact (f_equal (cons c) IH).
Qed.

Lemma c_str_id s : has_nul s = false -> c_str s = s.
Proof.
  induction s as [|c s IH]; cbn; [done|]. intros H. bool_simp.
  rewrite decide_False by done. by rewrite IH.
Qed.

(** ** Machine integers *)

Lemma u64_id z : in_u64 z -> u64 z = z.
Proof. apply (Z.mod_small z (2 ^ 64)). Qed.
Lemma u32_id z : in_u32 z -> u32 z = z.
Proof. apply (Z.mod_small z (2 ^ 32)). Qed.
Lemma u16_id z : in_u16 z -> u16 z = z.
Proof. apply (Z.mod_small z (2 ^ 16)). Qed.
Lemma u64_range z : in_u64 (u64 z).
Proof. by apply (Z.mod_pos_bound z (2 ^ 64)). Qed.
Lemma u32_range z : in_u32 (u32 z).
Proof. by apply (Z.mod_pos_bound z (2 ^ 32)). Qed.
Lemma u16_range z : in_u16 (u16 z).
Proof. by apply (Z.mod_pos_bound z (2 ^ 16)). Qed.
Lemma s64_range z : in_s64 (s64 z).
Proof.
  unfold s64. change (2 ^ 63) with 9223372036854775808.
  change (2 ^ 64) with 18446744073709551616.
  pose proof (Z.mod_pos_bound (z + 9223372036854775808) 18446744073709551616). lia.
Qed.

(** A big-endian 16-bit load, [(hi << 8) | lo]. *)
Lemma be16_bits hi lo :
  in_u8 lo -> Z.lor (Z.shiftl hi 8) lo = hi * 256 + lo.
Proof.
  intros H. rewrite Z.shiftl_mul_pow2 by lia. change 256 with (2 ^ 8).
  enough (Z.land (hi * 2 ^ 8) lo = 0) as Hl
    by (pose proof (Z.add_lor_land (hi * 2 ^ 8) lo); lia).
  apply Z.bits_inj'. intros n Hn. rewrite Z.land_spec, Z.bits_0.
  destruct (Z.lt_ge_cases n 8).
  - by rewrite Z.mul_pow2_bits_low.
  - rewrite (Z.bits_above_log2 lo), andb_false_r; [done|lia|].
    destruct (decide (lo = 0)) as [->|]; [cbn; lia|]. apply Z.log2_lt_pow2; [lia|].
    apply Z.lt_le_trans with (2 ^ 8); [lia|]. apply Z.pow_le_mono_r; lia.
Qed.

(** The network mask [0xffffffff << k] on 32 bits, and its complement. *)
Lemma u32_testbit z n : 0 <= n -> Z.testbit (u32 z) n = (n <? 32) && Z.testbit z n.
Proof.
  intros Hn. unfold u32. destruct (Z.ltb_spec n 32).
  - by rewrite Z.mod_pow2_bits_low.
  - rewrite Z.mod_pow2_bits_high by lia. done.
Qed.

Lemma in_u32_testbit a n : in_u32 a -> 32 <= n -> Z.testbit a n = false.
Proof.
  intros Ha Hn. rewrite <- (u32_id a Ha), u32_testbit by lia.
  by rewrite (proj2 (Z.ltb_ge n 32)).
Qed.

Lemma land_net_mask a k :
  in_u32 a -> 0 <= k <= 32 ->
  Z.land a (u32 (Z.shiftl 4294967295 k)) = a / 2 ^ k * 2 ^ k.
Proof.
  intros Ha Hk. change 4294967295 with (Z.ones 32).
  rewrite <- Z.shiftr_div_pow2, <- Z.shiftl_mul_pow2 by lia.
  apply Z.bits_inj'. intros n Hn. rewrite Z.land_spec, u32_testbit by done.
  rewrite !Z.shiftl_spec by done.
  destruct (Z.lt_ge_cases n k).
  - rewrite !(Z.testbit_neg_r _ (n - k)) by lia. by rewrite !andb_false_r.
  - rewrite Z.shiftr_spec, Z.testbit_ones_nonneg by lia.
    replace (n - k + k) with n by lia.
    destruct (Z.ltb_spec n 32); cbn.
    + rewrite (proj2 (Z.ltb_lt (n - k) 32)) by lia. by rewrite andb_true_r.
    + by rewrite andb_false_r, in_u32_testbit.
Qed.

Lemma lxor_net_mask k :
  0 <= k <= 32 -> Z.lxor (u32 (Z.shiftl 4294967295 k)) 4294967295 = 2 ^ k - 1.
Proof.
  intros Hk. change 4294967295 with (Z.ones 32).
  replace (2 ^ k - 1) with (Z.ones k) by (rewrite Z.ones_equiv; lia).
  apply Z.bits_inj'. intros n Hn. rewrite Z.lxor_spec, u32_testbit by done.
  rewrite Z.shiftl_spec, (Z.testbit_ones_nonneg 32 n), (Z.testbit_ones_nonneg k n) by lia.
  destruct (Z.lt_ge_cases n k).
  - rewrite (Z.testbit_neg_r _ (n - k)) by lia.
    rewrite !(proj2 (Z.ltb_lt n _)) by lia. done.
  - rewrite Z.testbit_ones_nonneg by lia. rewrite (proj2 (Z.ltb_ge n k)) by lia.
    destruct (Z.ltb_spec n 32); cbn; [|done].
    by rewrite (proj2 (Z.ltb_lt (n - k) 32)) by lia.
Qed.

Lemma land_low_bits a k :
  0 <= k -> Z.land a (2 ^ k - 1) = a mod 2 ^ k.
Proof.
  intros Hk. by rewrite <- Z.land_ones, Z.ones_equiv, <- Z.sub_1_r by done.
Qed.

Lemma shiftr_8 a k : 0 <= k -> Z.shiftr a k = a / 2 ^ k.
Proof. apply Z.shiftr_div_pow2. Qed.

(** Hint databases of the development. *)
Create HintDb mbx discriminated.
#[export] Hint Resolve code_range u16_range u32_range u64_range s64_range : mbx.
