(* ===== verification/CppStd.v ===== *)
(** * Number parsing and printing of the C++ standard library

    What the program uses of [<charconv>] and [<string>]: [std::from_chars] on unsigned
    32-bit targets, [std::stoul(_, nullptr, 16)], [std::stoll], [std::to_string] and
    [std::string::substr]. *)
From S2P Require Import Prelude.

(** ** Digits *)

Definition digit_value (c : ascii) : option Z :=
  let n := code c in
  if (48 <=? n) && (n <=? 57) then Some (n - 48)
  else if (97 <=? n) && (n <=? 122) then Some (n - 87)
  else if (65 <=? n) && (n <=? 90) then Some (n - 55)
  else None.

Definition digit_in (base : Z) (c : ascii) : option Z :=
  match digit_value c with
  | Some d => if d <? base then Some d else None
  | None => None
  end.

(** The values of the longest prefix of [cs] made of digits of [base]. *)
Fixpoint digits_prefix (base : Z) (cs : list ascii) : list Z :=
  match cs with
  | [] => []
  | c :: cs' => match digit_in base c with
                | Some d => d :: digits_prefix base cs'
                | None => []
                end
  end.

Definition digits_number (base : Z) (ds : list Z) : Z :=
  fold_left (fun acc d => acc * base + d) ds 0.

(** ** [std::from_chars(first, last, unsigned&, base)]: no white space, sign or prefix *)

Inductive from_chars_result :=
| FcOk (value : Z) (consumed : nat)
| FcInvalidArgument
| FcResultOutOfRange (consumed : nat).

Definition from_chars_unsigned (base : Z) (cs : list ascii) : from_chars_result :=
  match digits_prefix base cs with
  | [] => FcInvalidArgument
  | ds => let v := digits_number base ds in
          if v <? 2 ^ 32 then FcOk v (length ds) else FcResultOutOfRange (length ds)
  end.

(** ** [strtoul], [strtoll]: white space, a sign and, in base 16, [0x] come first *)

Definition is_space (c : ascii) : bool :=
  (code c =? 32) || ((9 <=? code c) && (code c <=? 13)).

Fixpoint skip_space (cs : list ascii) : list ascii :=
  match cs with
  | c :: cs' => if is_space c then skip_space cs' else cs
  | [] => []
  end.

Definition opt_sign (cs : list ascii) : bool * list ascii :=
  match cs with
  | c :: cs' => if code c =? 45 then (true, cs')
                else if code c =? 43 then (false, cs')
                else (false, cs)
  | [] => (false, [])
  end.

Definition skip_hex_prefix (cs : list ascii) : list ascii :=
  match cs with
  | z :: x :: d :: rest =>
      if (code z =? 48) && ((code x =? 120) || (code x =? 88)) &&
         bool_decide (is_Some (digit_in 16 d))
      then d :: rest else cs
  | _ => cs
  end.

(** The sign, the magnitude and the unread rest; [None] when no digit was read. *)
Definition strto (base : Z) (cs : list ascii) : option (bool * Z * list ascii) :=
  let '(neg, cs2) := opt_sign (skip_space cs) in
  let cs3 := if base =? 16 then skip_hex_prefix cs2 else cs2 in
  match digits_prefix base cs3 with
  | [] => None
  | ds => Some (neg, digits_number base ds, drop (length ds) cs3)
  end.

Definition stoul_hex (s : string) : result Z :=
  match strto 16 (chars (c_str s)) with
  | None => throw_invalid "stoul"
  | Some (neg, v, _) =>
      if v <? 2 ^ 64 then Ok (u64 (if neg then - v else v))
      else Throw (Exn out_of_range "stoul")
  end.

(** The value and how many characters were read. *)
Definition stoll (s : string) : result (Z * Z) :=
  match strto 10 (chars (c_str s)) with
  | None => throw_invalid "stoll"
  | Some (neg, v, rest) =>
      let n := if neg then - v else v in
      if (- 2 ^ 63 <=? n) && (n <? 2 ^ 63)
      then Ok (n, size (c_str s) - Z.of_nat (length rest))
      else Throw (Exn out_of_range "stoll")
  end.

(** ** [std::to_string], [std::string::substr] *)

Definition to_string (n : Z) : string := pretty n.

Definition substr (s : string) (pos n : nat) : result string :=
  if (length (chars s) <? pos)%nat then Throw (Exn out_of_range "basic_string::substr")
  else Ok (text (take n (drop pos (chars s)))).

(** ** Lemmas *)

Lemma digit_in_range base c d : 0 <= base -> digit_in base c = Some d -> 0 <= d < base.
Proof.
  unfold digit_in, digit_value. intros Hb H.
  repeat case_match; simplify_eq; bool_simp; lia.
Qed.

(** Two characters parsed whole are two digits. *)
Lemma from_chars_pair base a b v :
  2 <= base <= 16 ->
  from_chars_unsigned base [a; b] = FcOk v 2 <->
  exists x y, digit_in base a = Some x /\ digit_in base b = Some y /\ v = x * base + y.
Proof.
  intros Hbase. unfold from_chars_unsigned. cbn [digits_prefix].
  destruct (digit_in base a) as [x|] eqn:Ea; [|naive_solver].
  destruct (digit_in base b) as [y|] eqn:Eb; cbn [length].
  - replace (digits_number base [x; y]) with (x * base + y) by (cbn; lia).
    apply digit_in_range in Ea, Eb; [|lia..].
    rewrite (proj2 (Z.ltb_lt (x * base + y) (2 ^ 32))) by nia. naive_solver.
  - split; [case_match; discriminate | naive_solver].
Qed.

Lemma digit_in_skips base c d :
  digit_in base c = Some d ->
  is_space c = false /\ (code c =? 45) = false /\ (code c =? 43) = false.
Proof.
  unfold digit_in, digit_value, is_space. intros H.
  destruct (code c =? 32) eqn:?, (9 <=? code c) eqn:?, (code c <=? 13) eqn:?,
    (code c =? 45) eqn:?, (code c =? 43) eqn:?; try done;
  repeat case_match; simplify_eq; bool_simp; lia.
Qed.

Lemma digit_in_16_not_nul c d : digit_in 16 c = Some d -> c <> nul.
Proof. intros H ->. discriminate H. Qed.

(** [std::stoul(_, nullptr, 16)] on two hexadecimal digits. *)
Lemma stoul_hex_pair a b x y :
  digit_in 16 a = Some x -> digit_in 16 b = Some y ->
  stoul_hex (text [a; b]) = Ok (x * 16 + y).
Proof.
  intros Ha Hb. unfold stoul_hex.
  assert (c_str (text [a; b]) = text [a; b]) as ->.
  { cbn. rewrite !decide_False; eauto using digit_in_16_not_nul. }
  rewrite chars_text. unfold strto. cbn [skip_space].
  destruct (digit_in_skips _ _ _ Ha) as (-> & Hm & Hp).
  cbn [opt_sign]. rewrite Hm, Hp. cbn [Z.eqb Pos.eqb skip_hex_prefix digits_prefix].
  rewrite Ha, Hb. replace (digits_number 16 [x; y]) with (x * 16 + y) by (cbn; lia).
  apply digit_in_range in Ha, Hb; [|lia..].
  rewrite (proj2 (Z.ltb_lt _ _)) by lia. rewrite u64_id; [|lia]. f_equal; lia.
Qed.
