(* ===== verification/Inet.v ===== *)
(** * The C library's address functions

    [inet_pton] and [inet_ntop] are parameters of the model: the class [Inet] names them, the
    class [InetLaws] states the documented behaviour the program relies on, and [DottedQuad]
    is a concrete implementation used by the witnesses. *)
From S2P Require Import Prelude CppStd.

(** A [struct in_addr], or any [u32] in network order: its four bytes. *)
Record in_addr := InAddr { octet1 : Z; octet2 : Z; octet3 : Z; octet4 : Z }.

Definition in_addr_wf (a : in_addr) : Prop :=
  in_u8 (octet1 a) /\ in_u8 (octet2 a) /\ in_u8 (octet3 a) /\ in_u8 (octet4 a).

(** [ntohl(address.s_addr)]: the big-endian value of the four bytes. *)
Definition ntohl (a : in_addr) : Z :=
  ((octet1 a * 256 + octet2 a) * 256 + octet3 a) * 256 + octet4 a.

(** [htonl]: the address whose big-endian value is [n]. *)
Definition htonl (n : Z) : in_addr :=
  InAddr (n / 16777216 mod 256) (n / 65536 mod 256) (n / 256 mod 256) (n mod 256).

Lemma ntohl_range a : in_addr_wf a -> in_u32 (ntohl a).
Proof. intros (? & ? & ? & ?). unfold ntohl. lia. Qed.

Class Inet := {
  (** [inet_pton(AF_INET, s, &a) == 1] and the address it stores *)
  inet_pton : string -> option in_addr;
  (** [inet_ntop(AF_INET, bytes)] *)
  inet_ntop4 : in_addr -> string;
  (** [inet_ntop(AF_INET6, bytes)] on sixteen bytes *)
  inet_ntop6 : list Z -> string;
}.

Definition dotted_char (c : ascii) : bool :=
  bool_decide (is_Some (digit_in 10 c)) || (code c =? 46).

(** POSIX: [inet_pton] accepts dotted-decimal text only and stores four bytes; [inet_ntop]
    prints an address in the form [inet_pton] reads, and never the empty string. *)
Class InetLaws `{Inet} : Prop := {
  inet_pton_wf s a : inet_pton s = Some a -> in_addr_wf a;
  inet_pton_dotted s a : inet_pton s = Some a -> Forall (fun c => dotted_char c = true) (chars s);
  inet_pton_ntop a : in_addr_wf a -> inet_pton (inet_ntop4 a) = Some a;
  inet_ntop6_nonempty l : inet_ntop6 l <> EmptyString;
}.

(** ** A concrete implementation *)

Definition quad_octet (cs : list ascii) : option (Z * list ascii) :=
  let ds := digits_prefix 10 cs in
  let v := digits_number 10 ds in
  if (1 <=? length ds)%nat && (length ds <=? 3)%nat && (v <=? 255)
  then Some (v, drop (length ds) cs) else None.

Definition quad_dot (cs : list ascii) : option (list ascii) :=
  match cs with
  | c :: cs' => if code c =? 46 then Some cs' else None
  | [] => None
  end.

Definition quad_pton (s : string) : option in_addr :=
  '(a, c1) ← quad_octet (chars s); c1 ← quad_dot c1;
  '(b, c2) ← quad_octet c1; c2 ← quad_dot c2;
  '(c, c3) ← quad_octet c2; c3 ← quad_dot c3;
  '(d, c4) ← quad_octet c3;
  match c4 with [] => Some (InAddr a b c d) | _ => None end.

Definition quad_ntop (a : in_addr) : string :=
  to_string (octet1 a) +:+ "." +:+ to_string (octet2 a) +:+ "." +:+
  to_string (octet3 a) +:+ "." +:+ to_string (octet4 a).

Fixpoint plain_ntop6 (l : list Z) : string :=
  match l with
  | [] => "::"
  | b :: l' => to_string b +:+ ":" +:+ plain_ntop6 l'
  end.

#[export] Instance DottedQuad : Inet := {|
  inet_pton := quad_pton; inet_ntop4 := quad_ntop; inet_ntop6 := plain_ntop6
|}.

(** ** Its laws *)

Lemma digits_prefix_app base l r :
  length (digits_prefix base l) = length l ->
  (match r with c :: _ => digit_in base c = None | [] => True end) ->
  digits_prefix base (l ++ r) = digits_prefix base l.
Proof.
  intros Hl Hr. induction l as [|c l IH]; cbn in *.
  - destruct r; cbn; [done|]. by rewrite Hr.
  - destruct (digit_in base c); cbn in *; [|done]. f_equal. apply IH. lia.
Qed.

Lemma quad_octet_sound cs v rest :
  quad_octet cs = Some (v, rest) ->
  in_u8 v /\ exists p, cs = p ++ rest /\ Forall (fun c => dotted_char c = true) p.
Proof.
  unfold quad_octet. set (ds := digits_prefix 10 cs). intros H.
  case_match eqn:E; [|done]. simplify_eq. bool_simp.
  assert (Forall (fun d => 0 <= d) ds /\
          Forall (fun c => dotted_char c = true) (take (length ds) cs)) as [Hd Hp].
  { subst ds. clear. induction cs as [|c cs IH]; cbn; [done|].
    destruct (digit_in 10 c) as [d|] eqn:Ec; cbn; [|done].
    destruct IH; repeat split; constructor; auto.
    - apply digit_in_range in Ec; lia.
    - unfold dotted_char. by rewrite Ec. }
  split.
  - split; [|lia]. unfold digits_number.
    enough (forall acc, 0 <= acc -> 0 <= fold_left (fun a d => a * 10 + d) ds acc) by auto with lia.
    clear -Hd. induction Hd; cbn; intros; [done|]. apply IHHd. lia.
  - exists (take (length ds) cs). by rewrite take_drop.
Qed.

Lemma quad_dot_sound cs rest :
  quad_dot cs = Some rest ->
  exists c, cs = c :: rest /\ dotted_char c = true.
Proof.
  unfold quad_dot. intros H. repeat case_match; simplify_eq. eexists; split; [done|].
  unfold dotted_char. apply orb_true_iff. auto.
Qed.

Lemma quad_octet_to_string n r :
  in_u8 n -> (match r with c :: _ => digit_in 10 c = None | [] => True end) ->
  quad_octet (chars (to_string n) ++ r) = Some (n, r).
Proof.
  intros Hn Hr.
  set (cs k := chars (to_string (Z.of_nat k))).
  assert (Forall (fun k => length (digits_prefix 10 (cs k)) = length (cs k) /\
                           digits_number 10 (digits_prefix 10 (cs k)) = Z.of_nat k /\
                           (1 <= length (cs k))%nat /\ (length (cs k) <= 3)%nat)
            (seq 0 256)) as Hall.
  { apply (bool_decide_unpack _). vm_compute. exact I. }
  rewrite Forall_forall in Hall.
  destruct (Hall (Z.to_nat n)) as (Hlen & Hval & H1 & H3); [apply elem_of_seq; lia|].
  subst cs. cbn beta in *. rewrite Z2Nat.id in * by lia. unfold quad_octet.
  rewrite digits_prefix_app, Hlen, Hval by done.
  rewrite (proj2 (Nat.leb_le 1 _)), (proj2 (Nat.leb_le _ 3)), (proj2 (Z.leb_le n 255)) by lia.
  cbn. by rewrite drop_app_length.
Qed.

#[export] Instance DottedQuad_laws : @InetLaws DottedQuad.
Proof.
  split.
  - intros s a H. cbn in H. unfold quad_pton in H.
    repeat (apply bind_Some in H as ([? ?] & ? & H) || apply bind_Some in H as (? & ? & H)).
    case_match; simplify_eq. unfold in_addr_wf; cbn.
    repeat match goal with H : quad_octet _ = _ |- _ => apply quad_octet_sound in H as [? _] end.
    done.
  - intros s a H. cbn in H. unfold quad_pton in H.
    repeat (apply bind_Some in H as ([? ?] & ? & H) || apply bind_Some in H as (? & ? & H)).
    case_match; simplify_eq.
    repeat match goal with
    | H : quad_octet _ = _ |- _ => apply quad_octet_sound in H as [_ (? & ? & ?)]
    | H : quad_dot _ = _ |- _ => apply quad_dot_sound in H as (? & ? & ?)
    end; subst.
    repeat match goal with H : chars s = _ |- _ => rewrite H end.
    repeat (apply Forall_app_2 || apply Forall_cons_2 || done).
  - intros a (? & ? & ? & ?). cbn. unfold quad_pton, quad_ntop.
    rewrite !chars_app. destruct a as [o1 o2 o3 o4]; cbn [octet1 octet2 octet3 octet4] in *.
    rewrite <- (app_nil_r (chars (to_string o4))).
    repeat (rewrite quad_octet_to_string by done; cbn [mbind option_bind];
            try change (quad_dot (chars "." ++ ?l)) with (Some l); cbn [mbind option_bind]).
    done.
  - intros [|b l]; cbn; [done|]. destruct (to_string b); done.
Qed.
