(* ===== verification/Config.v ===== *)
(** * Network configuration and its validation (include/magicbox/config.hpp, src/config.cpp)

    [NetworkConfig] is the record of the header; [validate] returns the list of messages the
    code returns.  [valid_config] is an independent specification: what a usable routed
    topology is, in terms of address ranges rather than masks. *)
From S2P Require Import Prelude CppStd Inet.

(** ** Data *)

Record NetworkConfig := {
  outer_interface : string;
  inner_interface : string;
  device_ipv4 : string;
  inner_gateway_ipv4 : string;
  inner_prefix : Z;
  outer_ipv4 : string;
  outer_prefix : Z;
  outer_gateway_ipv4 : string;
  outer_mac : string;
  vlan_id : option Z
}.

(** The member initialisers of the struct. *)
Definition default_config : NetworkConfig := {|
  outer_interface := ""; inner_interface := ""; device_ipv4 := ""; inner_gateway_ipv4 := "";
  inner_prefix := 24; outer_ipv4 := ""; outer_prefix := 24; outer_gateway_ipv4 := "";
  outer_mac := ""; vlan_id := None
|}.

(** The member types: [unsigned] prefixes and a [uint16_t] VLAN identifier. *)
Definition config_typed (c : NetworkConfig) : Prop :=
  in_u32 (inner_prefix c) /\ in_u32 (outer_prefix c) /\
  match vlan_id c with Some v => in_u16 v | None => True end.

(** ** The checks of src/config.cpp *)

Definition interface_char (c : ascii) : bool :=
  ((97 <=? code c) && (code c <=? 122)) || ((65 <=? code c) && (code c <=? 90)) ||
  ((48 <=? code c) && (code c <=? 57)) || (code c =? 95) || (code c =? 45) || (code c =? 46).

Definition valid_interface (name : string) : bool :=
  if bool_decide (name = "") || (15 <? size name) || bool_decide (name = ".") ||
     bool_decide (name = "..")
  then false
  else forallb interface_char (chars name).

(** One iteration of the loop: the value of [bytes[i]], or [None] for [return false]. *)
Definition mac_group (value : list ascii) (i : nat) : option Z :=
  let start := drop (i * 3) value in
  match from_chars_unsigned 16 (take 2 start) with
  | FcOk byte 2 =>
      if (i <? 5)%nat && negb (bool_decide (start !! 2%nat = Some ":"%char)) then None
      else Some byte
  | _ => None
  end.

Definition unicast_mac (value : string) : bool :=
  if negb (size value =? 17) then false
  else match mapM (mac_group (chars value)) (seq 0 6) with
       | None => false
       | Some bytes =>
           let nonzero := fold_left (fun acc byte => acc || negb (byte =? 0)) bytes false in
           nonzero && (Z.land (hd 0 bytes) 1 =? 0)
       end.

(** [0xffffffffU << (32 - prefix)]. *)
Definition prefix_mask (prefix : Z) : Z := u32 (Z.shiftl 4294967295 (32 - prefix)).

(** [~mask] on [unsigned]. *)
Definition not32 (mask : Z) : Z := Z.lxor mask 4294967295.

Definition usable (address mask : Z) : bool :=
  negb (Z.land address (not32 mask) =? 0) && negb (Z.land address (not32 mask) =? not32 mask).

Definition report (failed : bool) (message : string) : list string :=
  if failed then [message] else [].

Section Validate.
Context `{Inet}.

Definition unicast_ipv4 (value : string) : bool :=
  match inet_pton (c_str value) with
  | None => false
  | Some address =>
      if has_nul value then false
      else let host := ntohl address in
           let first := Z.shiftr host 24 in
           negb (first =? 0) && negb (first =? 127) && (first <? 224)
  end.

(** The lambda [host]: it ignores the return code, so an unread address stays zero. *)
Definition host (text : string) : Z :=
  match inet_pton (c_str text) with
  | Some address => ntohl address
  | None => 0
  end.

(** The checks made on the fields one by one. *)
Definition syntax_errors (c : NetworkConfig) : list string :=
  report (negb (valid_interface (outer_interface c))) "Invalid outer interface name" ++
  report (negb (valid_interface (inner_interface c))) "Invalid inner interface name" ++
  report (bool_decide (outer_interface c = inner_interface c)) "Interfaces must be distinct" ++
  concat (map (fun value => report (negb (unicast_ipv4 value))
                              ("Expected a unicast IPv4 address: " +:+ value))
    [device_ipv4 c; inner_gateway_ipv4 c; outer_ipv4 c; outer_gateway_ipv4 c]) ++
  report ((inner_prefix c <? 1) || (30 <? inner_prefix c) ||
          (outer_prefix c <? 1) || (30 <? outer_prefix c))
    "This initial routed topology supports prefixes 1 through 30" ++
  report (bool_decide (device_ipv4 c = inner_gateway_ipv4 c))
    "Device and inner gateway addresses must differ" ++
  report (bool_decide (outer_ipv4 c = outer_gateway_ipv4 c))
    "Outer address and gateway must differ" ++
  report (negb (unicast_mac (outer_mac c))) "Expected a nonzero unicast MAC address" ++
  report (match vlan_id c with Some v => (v <? 1) || (4094 <? v) | None => false end)
    "VLAN ID must be 1 through 4094, or absent".

(** The topology checks, made when every field is well formed. *)
Definition topology_errors (c : NetworkConfig) : list string :=
  let inner_mask := prefix_mask (inner_prefix c) in
  let outer_mask := prefix_mask (outer_prefix c) in
  let inner := host (inner_gateway_ipv4 c) in
  let device := host (device_ipv4 c) in
  let outer := host (outer_ipv4 c) in
  let gateway := host (outer_gateway_ipv4 c) in
  let common_mask := if inner_prefix c <? outer_prefix c then inner_mask else outer_mask in
  report (negb (usable inner inner_mask) || negb (usable device inner_mask) ||
          negb (usable outer outer_mask) || negb (usable gateway outer_mask))
    "Network and broadcast addresses are not usable hosts" ++
  report (negb (Z.land inner inner_mask =? Z.land device inner_mask))
    "Device must be on the inner gateway subnet" ++
  report (negb (Z.land outer outer_mask =? Z.land gateway outer_mask))
    "Outer gateway must be on the outer subnet" ++
  report (Z.land inner common_mask =? Z.land outer common_mask)
    "Inner and outer subnets must not overlap".

Definition validate (c : NetworkConfig) : list string :=
  let errors := syntax_errors c in
  match errors with
  | [] => topology_errors c
  | _ => errors
  end.

(** ** Specification *)

(** A Linux interface name of the accepted alphabet. *)
Definition interface_name (s : string) : Prop :=
  1 <= size s <= 15 /\ s <> "." /\ s <> ".." /\
  forall c, c ∈ chars s ->
    c ∈ chars "abcdefghijklmnopqrstuvwxyzABCDEFGHIJKLMNOPQRSTUVWXYZ0123456789_-.".

(** Text that reads as the unicast address [a] (0/8, 127/8 and 224/3 are excluded). *)
Definition reads_unicast (s : string) (a : Z) : Prop :=
  has_nul s = false /\ (exists w, inet_pton s = Some w /\ ntohl w = a) /\
  2 ^ 24 <= a < 224 * 2 ^ 24 /\ ~ (127 * 2 ^ 24 <= a < 128 * 2 ^ 24).

(** The subnet of [a] under [prefix] is the interval from its network address to its
    broadcast address. *)
Definition network_address (a prefix : Z) : Z := a - a mod 2 ^ (32 - prefix).
Definition broadcast_address (a prefix : Z) : Z := network_address a prefix + 2 ^ (32 - prefix) - 1.
Definition in_subnet (x a prefix : Z) : Prop :=
  network_address a prefix <= x <= broadcast_address a prefix.
Definition host_address (a prefix : Z) : Prop :=
  network_address a prefix < a < broadcast_address a prefix.

(** Six hexadecimal pairs joined by colons: a nonzero address with the group bit clear. *)
Definition mac_pair (p : ascii * ascii) (b : Z) : Prop :=
  exists x y, digit_in 16 p.1 = Some x /\ digit_in 16 p.2 = Some y /\ b = 16 * x + y.
Definition colon_pairs (ps : list (ascii * ascii)) : list ascii :=
  tail (concat (map (fun p => [":"%char; p.1; p.2]) ps)).
Definition mac_bytes (s : string) (bs : list Z) : Prop :=
  length bs = 6%nat /\
  exists ps, Forall2 mac_pair ps bs /\ chars s = colon_pairs ps.
Definition unicast_mac_address (s : string) : Prop :=
  exists bs, mac_bytes s bs /\ (exists b, b ∈ bs /\ b <> 0) /\ Z.even (hd 0 bs) = true.

Record valid_config (c : NetworkConfig) : Prop := {
  vc_outer_interface : interface_name (outer_interface c);
  vc_inner_interface : interface_name (inner_interface c);
  vc_distinct : outer_interface c <> inner_interface c;
  vc_inner_prefix : 1 <= inner_prefix c <= 30;
  vc_outer_prefix : 1 <= outer_prefix c <= 30;
  vc_mac : unicast_mac_address (outer_mac c);
  vc_vlan : forall v, vlan_id c = Some v -> 1 <= v <= 4094;
  vc_texts : device_ipv4 c <> inner_gateway_ipv4 c /\ outer_ipv4 c <> outer_gateway_ipv4 c;
  vc_addresses : exists device inner outer gateway,
    reads_unicast (device_ipv4 c) device /\ reads_unicast (inner_gateway_ipv4 c) inner /\
    reads_unicast (outer_ipv4 c) outer /\ reads_unicast (outer_gateway_ipv4 c) gateway /\
    host_address device (inner_prefix c) /\ host_address inner (inner_prefix c) /\
    host_address outer (outer_prefix c) /\ host_address gateway (outer_prefix c) /\
    in_subnet device inner (inner_prefix c) /\
    in_subnet gateway outer (outer_prefix c) /\
    forall x, ~ (in_subnet x inner (inner_prefix c) /\ in_subnet x outer (outer_prefix c))
}.
End Validate.

(** A configuration of the unit tests. *)
Definition sample_config : NetworkConfig := {|
  outer_interface := "outer0"; inner_interface := "inner0"; device_ipv4 := "10.0.0.5";
  inner_gateway_ipv4 := "10.0.0.1"; inner_prefix := 24; outer_ipv4 := "192.168.50.99";
  outer_prefix := 24; outer_gateway_ipv4 := "192.168.50.1"; outer_mac := "02:11:22:33:44:55";
  vlan_id := Some 100
|}.

(** ** Interface names *)

Lemma interface_char_spec c :
  interface_char c = bool_decide
    (c ∈ chars "abcdefghijklmnopqrstuvwxyzABCDEFGHIJKLMNOPQRSTUVWXYZ0123456789_-.").
Proof. destruct c as [[] [] [] [] [] [] [] []]; reflexivity. Qed.

Lemma valid_interface_spec s : valid_interface s = true <-> interface_name s.
Proof.
  unfold valid_interface, interface_name.
  assert (s = "" <-> size s < 1) as Hnil.
  { destruct s; unfold size; cbn; [split; [lia|done]|]. split; [done|]. lia. }
  assert (forallb interface_char (chars s) = true <-> forall c, c ∈ chars s ->
    c ∈ chars "abcdefghijklmnopqrstuvwxyzABCDEFGHIJKLMNOPQRSTUVWXYZ0123456789_-.") as Hall.
  { rewrite forallb_forall. setoid_rewrite <- list_elem_of_In.
    setoid_rewrite interface_char_spec. by setoid_rewrite bool_decide_eq_true. }
  destruct (_ || _) eqn:E.
  - split; [done|]. intros (Hs & Hd & Hdd & _).
    apply orb_true_iff in E as [E|E]; [|by apply bool_decide_eq_true in E].
    apply orb_true_iff in E as [E|E]; [|by apply bool_decide_eq_true in E].
    apply orb_true_iff in E as [E|E]; bool_simp; [apply Hnil in E|]; lia.
  - bool_simp. rewrite Hall.
    match goal with H : s <> "" |- _ => rewrite Hnil in H end. intuition lia.
Qed.

(** ** IPv4 addresses *)

Section AddressSpec.
Context `{InetLaws}.

Lemma host_range s : in_u32 (host s).
Proof.
  unfold host. destruct (inet_pton (c_str s)) eqn:E; [|lia].
  by eapply ntohl_range, inet_pton_wf.
Qed.

Lemma unicast_ipv4_spec s : unicast_ipv4 s = true <-> exists a, reads_unicast s a.
Proof.
  unfold unicast_ipv4, reads_unicast. split.
  - intros E. destruct (inet_pton (c_str s)) as [w|] eqn:Ew; [|done].
    destruct (has_nul s) eqn:En; [done|]. rewrite c_str_id in Ew by done.
    pose proof (ntohl_range w ltac:(by eapply inet_pton_wf)).
    exists (ntohl w). rewrite shiftr_8 in E by lia. bool_simp. change (2 ^ 24) with 16777216 in *.
    split; [done|]. split; [eauto|]. dlia.
  - intros (a & Hn & (w & Hw & <-) & Hr & Hl). rewrite c_str_id by done. rewrite Hw, Hn.
    rewrite shiftr_8 by lia. change (2 ^ 24) with 16777216 in *.
    rewrite (proj2 (Z.eqb_neq (ntohl w / 16777216) 0)) by dlia.
    rewrite (proj2 (Z.eqb_neq (ntohl w / 16777216) 127)) by dlia.
    by rewrite (proj2 (Z.ltb_lt (ntohl w / 16777216) 224)) by dlia.
Qed.

Lemma reads_unicast_host s a : reads_unicast s a -> host s = a.
Proof.
  intros (Hn & (w & Hw & <-) & _). unfold host. rewrite c_str_id by done. by rewrite Hw.
Qed.

Lemma unicast_ipv4_reads s : unicast_ipv4 s = true <-> reads_unicast s (host s).
Proof.
  rewrite unicast_ipv4_spec. split; [|eauto].
  intros [a Ha]. by rewrite (reads_unicast_host _ _ Ha).
Qed.
End AddressSpec.

(** ** The strings of a valid configuration are ASCII text *)

Lemma digit_plain c d : digit_in 16 c = Some d -> plain_char c = true.
Proof. destruct c as [[] [] [] [] [] [] [] []]; vm_compute; done. Qed.

Lemma interface_name_plain s : interface_name s -> plain s = true.
Proof.
  intros (_ & _ & _ & Hs). apply plain_iff, Forall_forall. intros c Hc. specialize (Hs c Hc).
  rewrite <- bool_decide_eq_true, <- interface_char_spec in Hs. revert Hs.
  destruct c as [[] [] [] [] [] [] [] []]; vm_compute; done.
Qed.

Lemma mac_plain s : unicast_mac_address s -> plain s = true.
Proof.
  intros (bs & (_ & ps & Hps & Hs) & _). apply plain_iff. rewrite Hs. unfold colon_pairs.
  apply Forall_tail, Forall_concat, Forall_map.
  eapply Forall2_Forall_l in Hps; [exact Hps|]. apply Forall_true.
  intros b [x y] (d & e & Hd & He & _). cbn in *.
  repeat constructor; eauto using digit_plain.
Qed.

Lemma reads_unicast_plain `{InetLaws} s a : reads_unicast s a -> plain s = true.
Proof.
  intros (_ & (w & Hw & _) & _). apply plain_iff.
  eapply Forall_impl; [by eapply inet_pton_dotted|]. intros c.
  destruct c as [[] [] [] [] [] [] [] []]; vm_compute; done.
Qed.

Lemma valid_config_plain `{InetLaws} c : valid_config c ->
  Forall (fun s => plain s = true) [outer_interface c; inner_interface c; device_ipv4 c;
    inner_gateway_ipv4 c; outer_ipv4 c; outer_gateway_ipv4 c; outer_mac c].
Proof.
  intros [Ho Hi _ _ _ Hm _ _ (d & i & o & g & Hd & Hn & Hu & Hg & _)].
  repeat constructor; eauto using interface_name_plain, mac_plain, reads_unicast_plain.
Qed.

(** ** Subnets: masks and intervals *)

Section Subnet.
Context (prefix : Z) (Hprefix : 1 <= prefix <= 30).
Let k := 32 - prefix.

Lemma pow_host_bits : 4 <= 2 ^ k.
Proof. subst k. change 4 with (2 ^ 2). apply Z.pow_le_mono_r; lia. Qed.

Lemma usable_spec a : in_u32 a -> usable a (prefix_mask prefix) = true <-> host_address a prefix.
Proof.
  intros Ha. unfold usable, not32, prefix_mask, host_address, broadcast_address, network_address.
  fold k. rewrite lxor_net_mask, land_low_bits by lia.
  pose proof pow_host_bits. pose proof (Z.mod_pos_bound a (2 ^ k)).
  rewrite andb_true_iff, !negb_true_iff, !Z.eqb_neq. lia.
Qed.

Lemma in_subnet_spec x a : in_subnet x a prefix <-> x / 2 ^ k = a / 2 ^ k.
Proof.
  unfold in_subnet, broadcast_address, network_address. fold k.
  pose proof pow_host_bits. pose proof (Z.div_mod a (2 ^ k)). pose proof (Z.div_mod x (2 ^ k)).
  pose proof (Z.mod_pos_bound a (2 ^ k)). pose proof (Z.mod_pos_bound x (2 ^ k)).
  split; [|nia]. intros. symmetry.
  apply Z.div_unique with (x - a / 2 ^ k * 2 ^ k); lia.
Qed.

Lemma same_subnet_spec x a :
  in_u32 x -> in_u32 a ->
  (Z.land a (prefix_mask prefix) =? Z.land x (prefix_mask prefix)) = true <->
  in_subnet x a prefix.
Proof.
  intros. unfold prefix_mask. fold k. rewrite !land_net_mask, Z.eqb_eq, in_subnet_spec by lia.
  pose proof pow_host_bits. split; [intros E|by intros ->].
  symmetry. by apply Z.mul_cancel_r in E; [|lia].
Qed.
End Subnet.

Lemma in_subnet_refl a p : 1 <= p <= 30 -> in_subnet a a p.
Proof. intros. by apply in_subnet_spec. Qed.

(** A longer prefix gives a smaller subnet. *)
Lemma in_subnet_coarser x a p q :
  1 <= p -> p <= q <= 30 -> in_subnet x a q -> in_subnet x a p.
Proof.
  intros Hp Hq. rewrite !in_subnet_spec by lia. intros E.
  replace (32 - p) with ((32 - q) + (q - p)) by lia.
  rewrite Z.pow_add_r, <- !Z.div_div by (try apply Z.pow_pos_nonneg; lia || apply Z.pow_nonzero; lia).
  by rewrite E.
Qed.

(** Two subnets meet exactly when they agree under the shorter prefix. *)
Lemma subnets_meet a b p q :
  1 <= p <= 30 -> 1 <= q <= 30 ->
  (exists x, in_subnet x a p /\ in_subnet x b q) <-> in_subnet b a (Z.min p q).
Proof.
  intros Hp Hq. split.
  - intros (x & Ha & Hb).
    apply (in_subnet_coarser _ _ (Z.min p q)) in Ha; [|lia..].
    apply (in_subnet_coarser _ _ (Z.min p q)) in Hb; [|lia..].
    rewrite in_subnet_spec in * by lia. congruence.
  - destruct (Z.le_ge_cases p q).
    + rewrite Z.min_l by done. intros Hb. exists b. eauto using in_subnet_refl.
    + rewrite Z.min_r by done. intros Hb. exists a. split; [by apply in_subnet_refl|].
      rewrite in_subnet_spec in * by done. done.
Qed.

(** ** MAC addresses *)

Lemma mac_group_spec value i b :
  mac_group value i = Some b <->
  exists x y tl, drop (i * 3) value = x :: y :: tl /\ mac_pair (x, y) b /\
    ((i < 5)%nat -> head tl = Some ":"%char).
Proof.
  unfold mac_group. generalize (drop (i * 3) value) as start. intros start.
  assert (forall x y, from_chars_unsigned 16 [x; y] = FcOk b 2 <-> mac_pair (x, y) b) as Hpair.
  { intros. rewrite from_chars_pair by lia. unfold mac_pair; cbn.
    by setoid_rewrite (Z.mul_comm _ 16). }
  destruct start as [|x [|y tl]].
  - split; [done | by intros (? & ? & ? & ? & _)].
  - split; [|by intros (? & ? & ? & ? & _)]. intros E. exfalso. cbn in E.
    unfold from_chars_unsigned in E. cbn [digits_prefix] in E.
    destruct (digit_in 16 x); cbn [length] in E; [|done]. by destruct (_ <? _).
  - change (take 2 (x :: y :: tl)) with [x; y].
    change ((x :: y :: tl) !! 2%nat) with (tl !! 0%nat). split.
    + intros E. destruct (from_chars_unsigned 16 [x; y]) as [v [|[|[|n]]]| |n] eqn:Ev; try done.
      case_match eqn:Eb; [done|]. simplify_eq.
      exists x, y, tl. split; [done|]. split; [by apply Hpair|].
      intros Hi%Nat.ltb_lt. rewrite Hi in Eb. cbn in Eb. bool_simp. by destruct tl.
    + intros (x' & y' & tl' & [= <- <- <-] & Hp & Hc). apply Hpair in Hp. rewrite Hp.
      destruct (Nat.ltb_spec i 5) as [Hi|Hi]; cbn; [|done].
      rewrite bool_decide_true; [done|]. specialize (Hc Hi). by destruct tl.
Qed.

Lemma mac_groups_spec s bs :
  size s = 17 /\ mapM (mac_group (chars s)) (seq 0 6) = Some bs <-> mac_bytes s bs.
Proof.
  unfold mac_bytes. rewrite mapM_Some. split.
  - intros [Hsize Hall]. pose proof (Forall2_length _ _ _ Hall) as Hlen. split; [done|].
    assert (length (chars s) = 17%nat) as Hs by (pose proof (length_chars s); lia).
    destruct (chars s) as [|c0 [|c1 [|c2 [|c3 [|c4 [|c5 [|c6 [|c7 [|c8 [|c9 [|c10 [|c11
      [|c12 [|c13 [|c14 [|c15 [|c16 [|]]]]]]]]]]]]]]]]]]; try discriminate Hs.
    exists [(c0, c1); (c3, c4); (c6, c7); (c9, c10); (c12, c13); (c15, c16)].
    cbn [seq] in Hall.
    repeat match goal with
    | H : Forall2 _ (_ :: _) _ |- _ =>
        apply Forall2_cons_inv_l in H
          as (? & ? & (? & ? & ? & ? & ? & ?)%mac_group_spec & H & ->)
    | H : Forall2 _ [] _ |- _ => apply Forall2_nil_inv_l in H as ->
    | H : drop _ _ = _ |- _ => cbn in H; injection H as <- <- <-
    | H : (_ < 5)%nat -> _ |- _ => cbn in H; (specialize (H ltac:(lia)); injection H as ->) || clear H
    end.
    split; [by repeat constructor | done].
  - intros (Hlen & ps & Hps & Hs). pose proof (Forall2_length _ _ _ Hps) as Hlen'.
    rewrite Hlen in Hlen'.
    destruct ps as [|[a0 b0] [|[a1 b1] [|[a2 b2] [|[a3 b3] [|[a4 b4] [|[a5 b5] [|]]]]]]];
      try discriminate Hlen'.
    unfold colon_pairs in Hs; cbn in Hs. rewrite Hs. split.
    { rewrite <- length_chars, Hs. done. }
    cbn [seq].
    repeat match goal with
    | H : Forall2 _ (_ :: _) _ |- _ => apply Forall2_cons_inv_l in H as (? & ? & ? & H & ->)
    | H : Forall2 _ [] _ |- _ => apply Forall2_nil_inv_l in H as ->
    end.
    repeat (apply Forall2_cons; split); [..|done]; apply mac_group_spec;
      (do 3 eexists; split; [reflexivity|]; split; [done|]; cbn; done || lia).
Qed.

Lemma mac_pair_range p b : mac_pair p b -> in_u8 b.
Proof.
  intros (x & y & Hx & Hy & ->). apply digit_in_range in Hx, Hy; lia.
Qed.

Lemma fold_nonzero bytes acc :
  fold_left (fun acc byte => acc || negb (byte =? 0)) bytes acc = true <->
  acc = true \/ exists b, b ∈ bytes /\ b <> 0.
Proof.
  revert acc. induction bytes as [|b bs IH]; intros acc; cbn; [set_solver|].
  rewrite IH, orb_true_iff, negb_true_iff, Z.eqb_neq. set_solver.
Qed.

Lemma unicast_mac_spec s : unicast_mac s = true <-> unicast_mac_address s.
Proof.
  unfold unicast_mac, unicast_mac_address. setoid_rewrite <- mac_groups_spec.
  destruct (Z.eqb_spec (size s) 17) as [Hs|Hs]; cbn [negb]; [|naive_solver].
  destruct (mapM _ _) as [bs|]; [|naive_solver].
  rewrite andb_true_iff, fold_nonzero, Z.eqb_eq.
  assert (Z.land (hd 0 bs) 1 = 0 <-> Z.even (hd 0 bs) = true) as ->.
  { change 1 with (Z.ones 1). rewrite Z.land_ones, Z.even_spec by lia.
    change (2 ^ 1) with 2. rewrite <- Z.even_spec, Zeven_mod. by rewrite Z.eqb_eq. }
  naive_solver.
Qed.

(** ** [validate] *)

Lemma report_nil b m : report b m = [] <-> b = false.
Proof. by destruct b. Qed.

#[local] Hint Rewrite (@app_nil string) report_nil orb_false_iff negb_false_iff @bool_decide_eq_false : report.

Section ValidateSpec.
Context `{InetLaws}.

Lemma validate_nil c : validate c = [] <-> syntax_errors c = [] /\ topology_errors c = [].
Proof. unfold validate. destruct (syntax_errors c); naive_solver. Qed.

Lemma syntax_errors_spec c :
  syntax_errors c = [] <->
  interface_name (outer_interface c) /\ interface_name (inner_interface c) /\
  outer_interface c <> inner_interface c /\
  (reads_unicast (device_ipv4 c) (host (device_ipv4 c)) /\
   reads_unicast (inner_gateway_ipv4 c) (host (inner_gateway_ipv4 c)) /\
   reads_unicast (outer_ipv4 c) (host (outer_ipv4 c)) /\
   reads_unicast (outer_gateway_ipv4 c) (host (outer_gateway_ipv4 c))) /\
  (1 <= inner_prefix c <= 30 /\ 1 <= outer_prefix c <= 30) /\
  device_ipv4 c <> inner_gateway_ipv4 c /\ outer_ipv4 c <> outer_gateway_ipv4 c /\
  unicast_mac_address (outer_mac c) /\
  (forall v, vlan_id c = Some v -> 1 <= v <= 4094).
Proof.
  unfold syntax_errors. cbn [map concat]. autorewrite with report.
  rewrite !valid_interface_spec, !unicast_ipv4_reads, unicast_mac_spec, !Z.ltb_ge.
  destruct (vlan_id c) as [v|].
  - rewrite orb_false_iff, !Z.ltb_ge. split; [|naive_solver].
    intros (? & ? & ? & (? & ? & ? & ? & _) & ? & ? & ? & ? & ?).
    split_and!; try done; try lia. intros ? [= <-]. lia.
  - split; [|naive_solver].
    intros (? & ? & ? & (? & ? & ? & ? & _) & ? & ? & ? & ? & ?). split_and!; try done; lia.
Qed.

Lemma common_mask_spec p q inner outer :
  1 <= p <= 30 -> 1 <= q <= 30 -> in_u32 inner -> in_u32 outer ->
  let mask := if p <? q then prefix_mask p else prefix_mask q in
  (Z.land inner mask =? Z.land outer mask) = false <->
  forall x, ~ (in_subnet x inner p /\ in_subnet x outer q).
Proof.
  intros Hp Hq Hi Ho mask.
  assert (mask = prefix_mask (Z.min p q)) as ->
    by (subst mask; destruct (Z.ltb_spec p q); f_equal; lia).
  rewrite <- not_true_iff_false, same_subnet_spec, <- (subnets_meet inner outer) by lia.
  naive_solver.
Qed.

Lemma topology_errors_spec c :
  1 <= inner_prefix c <= 30 -> 1 <= outer_prefix c <= 30 ->
  let inner := host (inner_gateway_ipv4 c) in let device := host (device_ipv4 c) in
  let outer := host (outer_ipv4 c) in let gateway := host (outer_gateway_ipv4 c) in
  topology_errors c = [] <->
  (host_address inner (inner_prefix c) /\ host_address device (inner_prefix c) /\
   host_address outer (outer_prefix c) /\ host_address gateway (outer_prefix c)) /\
  in_subnet device inner (inner_prefix c) /\ in_subnet gateway outer (outer_prefix c) /\
  forall x, ~ (in_subnet x inner (inner_prefix c) /\ in_subnet x outer (outer_prefix c)).
Proof.
  intros Hi Ho. cbn zeta. unfold topology_errors. autorewrite with report.
  rewrite common_mask_spec, !same_subnet_spec, !usable_spec by auto using host_range.
  tauto.
Qed.

Lemma validate_iff c : validate c = [] <-> valid_config c.
Proof.
  rewrite validate_nil, syntax_errors_spec. split.
  - intros [(? & ? & ? & (? & ? & ? & ?) & [? ?] & ? & ? & ? & ?) Ht].
    apply topology_errors_spec in Ht as ((? & ? & ? & ?) & ? & ? & ?); [|done..].
    split; try done. eauto 20.
  - intros [? ? ? ? ? ? ? [? ?] (d & i & o & g & Hd & Hi & Ho & Hg & ?)].
    apply reads_unicast_host in Hd as Hd', Hi as Hi', Ho as Ho', Hg as Hg'; subst.
    split; [tauto|]. apply topology_errors_spec; tauto.
Qed.
(** C10: [validate] accepts a configuration exactly when it describes a usable topology: valid
    distinct interface names, prefixes 1 to 30, a nonzero unicast MAC, a VLAN in 1..4094, four
    unicast IPv4 addresses that are host addresses of their subnets, the device on the inner
    gateway's subnet, the gateway on the outer subnet, and no address common to both subnets. *)
Theorem validate_correct c : validate c = [] <-> valid_config c.
Proof. apply validate_iff. Qed.
End ValidateSpec.

(** The test suite's configuration meets the specification. *)
Lemma validate_correct_witness : valid_config sample_config.
Proof. apply (validate_correct sample_config). vm_compute. reflexivity. Defined.
