(* ===== verification/Json.v ===== *)
(** * The JSON library interface

    jsoncpp is not part of the repository: the class [JsonCpp] names the operations of
    [Json::Value], [Json::CharReader] and [Json::writeString] the program uses, and
    [JsonCppLaws] states their documented behaviour.  Client files are written and proved
    against these classes; [JsonTree] is a concrete implementation, with its laws, for the
    witnesses. *)
From S2P Require Import Prelude CppStd.

(** ** Interface *)

(** [Json::ValueType]. *)
Inductive ValueType :=
| nullValue
| intValue
| uintValue
| realValue
| stringValue
| booleanValue
| arrayValue
| objectValue.

#[export] Instance ValueType_eq_dec : EqDecision ValueType.
Proof. solve_decision. Defined.

Class JsonCpp := {
  Value : Type;
  (** constructors: [Json::Value()], from a [std::string], a [UInt], an [Int] or [Int64], a
      [bool], and [Json::Value(Json::arrayValue)], [Json::Value(Json::objectValue)] *)
  null : Value;
  of_string : string -> Value;
  of_uint : Z -> Value;
  of_int : Z -> Value;
  of_bool : bool -> Value;
  empty_array : Value;
  empty_object : Value;
  (** observers *)
  type : Value -> ValueType;
  isUInt : Value -> bool;
  asUInt : Value -> result Z;
  asInt64 : Value -> result Z;
  asString : Value -> result string;
  (** objects: [v[key]], [isMember], [getMemberNames], [v[key] = x] *)
  at_key : Value -> string -> result Value;
  isMember : Value -> string -> result bool;
  getMemberNames : Value -> result (list string);
  set_key : Value -> string -> Value -> result Value;
  (** arrays: [for (x : v)], [v[i]], [v.append(x)] *)
  elements : Value -> list Value;
  at_index : Value -> nat -> result Value;
  append : Value -> Value -> result Value;
  (** [v == w] *)
  equals : Value -> Value -> bool;
  (** text: [CharReader::parse] (strict settings; [inl] carries the formatted errors; it throws
      on a document nested beyond its stackLimit) and [Json::writeString] *)
  reader_parse : string -> result (string + Value);
  write_string : Value -> string;
  (** the values the written text stands for: nested at most so many levels deep, their strings
      valid text *)
  faithful : nat -> Value -> Prop;
  (** values no operation above tells apart, such as the integer 24 held as [intValue] or as
      [uintValue] *)
  json_equiv : Value -> Value -> Prop;
}.

(** The reader's stackLimit of 1000 counts the value being read and those around it. *)
Definition stack_levels : nat := 999.

Section Derived.
Context `{JsonCpp}.

Definition isNull (v : Value) : bool := bool_decide (type v = nullValue).
Definition isString (v : Value) : bool := bool_decide (type v = stringValue).
Definition isObject (v : Value) : bool := bool_decide (type v = objectValue).

(** The precondition of the keyed operations: "type() is one of nullValue, objectValue". *)
Definition keyed (v : Value) : Prop := type v = nullValue \/ type v = objectValue.

(** A sequence of assignments [v[k1] = x1; v[k2] = x2; ...]. *)
Fixpoint set_keys (v : Value) (l : list (string * Value)) : result Value :=
  match l with
  | [] => Ok v
  | (k, x) :: l' => let? v' := set_key v k x in set_keys v' l'
  end.

(** The binding the last of these assignments leaves. *)
Fixpoint assoc_last {A} (l : list (string * A)) (k : string) : option A :=
  match l with
  | [] => None
  | (k', x) :: l' =>
      match assoc_last l' k with
      | Some y => Some y
      | None => if String.eqb k k' then Some x else None
      end
  end.

(** The non-const [v[key]]: a missing member is inserted as null.  [touch] is the value it
    leaves behind. *)
Definition touch (v : Value) (k : string) : result Value :=
  let? present := isMember v k in if present then Ok v else set_key v k null.

(** [v.empty()]. *)
Definition json_empty (v : Value) : bool :=
  match type v with
  | nullValue | arrayValue | objectValue => bool_decide (elements v = [])
  | _ => false
  end.
End Derived.

Class JsonCppLaws `{JsonCpp} : Prop := {
  type_null : type null = nullValue;
  type_of_string s : type (of_string s) = stringValue;
  type_of_uint n : type (of_uint n) = uintValue;
  type_of_int n : type (of_int n) = intValue;
  type_of_bool b : type (of_bool b) = booleanValue;
  type_empty_array : type empty_array = arrayValue;
  type_empty_object : type empty_object = objectValue;
  (** isUInt: an integral value in the range of [unsigned] *)
  isUInt_of_uint n : in_u32 n -> isUInt (of_uint n) = true;
  isUInt_of_int n : in_u32 n -> isUInt (of_int n) = true;
  isUInt_numeric v : isUInt v = true ->
    type v = intValue \/ type v = uintValue \/ type v = realValue;
  asUInt_of_uint n : in_u32 n -> asUInt (of_uint n) = Ok n;
  asUInt_of_int n : in_u32 n -> asUInt (of_int n) = Ok n;
  asUInt_isUInt v : isUInt v = true -> exists n, asUInt v = Ok n /\ in_u32 n;
  asString_of_string s : asString (of_string s) = Ok s;
  asString_of_int n : in_s64 n -> asString (of_int n) = Ok (to_string n);
  asString_null : asString null = Ok EmptyString;
  asInt64_of_int n : in_s64 n -> asInt64 (of_int n) = Ok n;
  asString_string v : type v = stringValue -> exists s, asString v = Ok s;
  (** keyed access: throws on other types, yields null for a missing member *)
  at_key_keyed v k : keyed v -> exists x, at_key v k = Ok x;
  at_key_unkeyed v k : ~ keyed v -> exists m, at_key v k = Throw (Exn json_logic_error m);
  isMember_unkeyed v k : ~ keyed v -> exists m, isMember v k = Throw (Exn json_logic_error m);
  isMember_keyed v k : keyed v -> exists b, isMember v k = Ok b;
  at_key_missing v k : isMember v k = Ok false -> at_key v k = Ok null;
  isMember_nullValue v k : type v = nullValue -> isMember v k = Ok false;
  isMember_empty k : isMember empty_object k = Ok false;
  getMemberNames_keyed v : keyed v -> exists l, getMemberNames v = Ok l /\
    forall k, k ∈ l <-> isMember v k = Ok true;
  set_key_keyed v k x : keyed v -> exists v', set_key v k x = Ok v' /\ type v' = objectValue /\
    (forall k', at_key v' k' = if String.eqb k' k then Ok x else at_key v k') /\
    (forall k', isMember v' k' = if String.eqb k' k then Ok true else isMember v k');
  (** arrays *)
  elements_null : elements null = [];
  elements_empty : elements empty_array = [];
  append_array v x : type v = nullValue \/ type v = arrayValue -> exists v',
    append v x = Ok v' /\ type v' = arrayValue /\ elements v' = elements v ++ [x];
  (** comparison with a string *)
  equals_string v s : equals v (of_string s) = true <->
    type v = stringValue /\ asString v = Ok s;
  (** equivalence, and the text round trip up to it *)
  json_equiv_equivalence :: Equivalence json_equiv;
  equiv_null v w : json_equiv v w -> isNull v = isNull w;
  equiv_string v w : json_equiv v w -> isString v = isString w;
  equiv_object v w : json_equiv v w -> isObject v = isObject w;
  equiv_isUInt v w : json_equiv v w -> isUInt v = isUInt w;
  equiv_asUInt v w : json_equiv v w -> asUInt v = asUInt w;
  equiv_asString v w : json_equiv v w -> asString v = asString w;
  equiv_isMember v w k : json_equiv v w -> isMember v k = isMember w k;
  equiv_names v w : json_equiv v w -> getMemberNames v = getMemberNames w;
  equiv_at_key v w k x : json_equiv v w -> at_key v k = Ok x ->
    exists y, at_key w k = Ok y /\ json_equiv x y;
  equiv_elements v w : json_equiv v w -> Forall2 json_equiv (elements v) (elements w);
  write_no_nul v : has_nul (write_string v) = false;
  reader_parse_throws t e : reader_parse t = Throw e -> exn_class e = json_runtime_error;
  faithful_null n : faithful n null;
  faithful_uint n z : in_u32 z -> faithful n (of_uint z);
  faithful_int n z : in_s64 z -> faithful n (of_int z);
  faithful_bool n b : faithful n (of_bool b);
  faithful_string n s : plain s = true -> faithful n (of_string s);
  faithful_set_key n v k x v' : faithful (S n) v -> plain k = true -> faithful n x ->
    set_key v k x = Ok v' -> faithful (S n) v';
  parse_write v : faithful stack_levels v ->
    exists w, reader_parse (write_string v) = Ok (inr w) /\ json_equiv v w;
}.

(** ** Consequences of the laws *)

Lemma assoc_last_names {A} (l : list (string * A)) k :
  is_Some (assoc_last l k) <-> k ∈ map fst l.
Proof.
  induction l as [|[k' x] l IH]; cbn; [split; [by intros [] | set_solver]|].
  rewrite elem_of_cons, <- IH. destruct (assoc_last l k), (String.eqb_spec k k'); naive_solver.
Qed.

(** Turn the type tests of the context into equations on [type]. *)
Ltac type_simp := unfold isNull, isString, isObject in *; bool_simp.

Section Laws.
Context `{JsonCppLaws}.

Lemma isMember_null k : isMember null k = Ok false.
Proof. apply isMember_nullValue, type_null. Qed.

Lemma keyed_null : keyed null.
Proof. left. apply type_null. Qed.

Lemma keyed_object v : type v = objectValue -> keyed v.
Proof. by right. Qed.

Lemma isObject_keyed v : isObject v = true -> keyed v.
Proof. intros Hv. type_simp. by right. Qed.

Lemma isString_of_string s : isString (of_string s) = true.
Proof. apply bool_decide_eq_true, type_of_string. Qed.

Lemma isString_ok v : isString v = true -> exists s, asString v = Ok s.
Proof. intros Hv. type_simp. by apply asString_string. Qed.

Lemma isUInt_isNull v : isUInt v = true -> isNull v = false.
Proof.
  intros Hu. apply bool_decide_eq_false. intros Hn. apply isUInt_numeric in Hu.
  intuition congruence.
Qed.

Lemma set_keys_keyed v l :
  keyed v -> exists v', set_keys v l = Ok v' /\ (l <> [] -> type v' = objectValue) /\ keyed v' /\
    (forall k, at_key v' k = match assoc_last l k with Some x => Ok x | None => at_key v k end) /\
    (forall k, isMember v' k = match assoc_last l k with Some _ => Ok true | None => isMember v k end).
Proof.
  revert v. induction l as [|[k x] l IH]; intros v Hv; cbn; [naive_solver|].
  destruct (set_key_keyed v k x Hv) as (v1 & -> & Ht & Hat & Hmem). cbn.
  destruct (IH v1 (keyed_object _ Ht)) as (v2 & Hv2 & Ht2 & Hk & Hat2 & Hmem2).
  exists v2. split; [done|]. split.
  { intros _. destruct l; [|by apply Ht2]. injection Hv2 as <-. done. }
  split; [done|]. split; intros k'.
  - rewrite Hat2, Hat. by destruct (assoc_last l k'), (String.eqb k' k).
  - rewrite Hmem2, Hmem. by destruct (assoc_last l k'), (String.eqb k' k).
Qed.

Lemma set_keys_faithful n v l v' :
  faithful (S n) v -> Forall (fun kx => plain kx.1 = true /\ faithful n kx.2) l ->
  set_keys v l = Ok v' -> faithful (S n) v'.
Proof.
  intros Hv Hl. revert v Hv. induction Hl as [|[k x] l [Hk Hx] _ IH]; cbn; intros v Hv Hs.
  { by injection Hs as <-. }
  destruct (set_key v k x) as [v1|] eqn:H1; [|done]. cbn in Hs.
  exact (IH v1 (faithful_set_key _ _ _ _ _ Hv Hk Hx H1) Hs).
Qed.
End Laws.
