(* ===== verification/JsonTree.v ===== *)
(** * A concrete JSON library

    An inductive tree type implementing the interface of Json.v and satisfying its laws; the
    witnesses of the client theorems run on it.  Objects are association lists. *)
From stdpp Require Import countable.
From S2P Require Import Prelude CppStd Json.

(** ** Data *)

Inductive tree :=
| JNull
| JInt (n : Z)
| JUInt (n : Z)
| JString (s : string)
| JBool (b : bool)
| JArray (l : list tree)
| JObject (l : list (string * tree)).

(** ** Operations *)

Definition tree_type (v : tree) : ValueType :=
  match v with
  | JNull => nullValue
  | JInt _ => intValue
  | JUInt _ => uintValue
  | JString _ => stringValue
  | JBool _ => booleanValue
  | JArray _ => arrayValue
  | JObject _ => objectValue
  end.

Definition json_error {A} (msg : string) : result A := Throw (Exn json_logic_error msg).

Definition tree_isUInt (v : tree) : bool :=
  match v with
  | JInt n | JUInt n => (0 <=? n) && (n <? 4294967296)
  | _ => false
  end.

Definition tree_asUInt (v : tree) : result Z :=
  match v with
  | JNull => Ok 0
  | JInt n | JUInt n =>
      if (0 <=? n) && (n <? 4294967296) then Ok n else json_error "LargestInt out of UInt range"
  | JBool b => Ok (if b then 1 else 0)
  | _ => json_error "Value is not convertible to UInt."
  end.

Definition tree_asInt64 (v : tree) : result Z :=
  match v with
  | JNull => Ok 0
  | JInt n | JUInt n =>
      if (- 2 ^ 63 <=? n) && (n <? 2 ^ 63) then Ok n else json_error "LargestUInt out of Int64 range"
  | JBool b => Ok (if b then 1 else 0)
  | _ => json_error "Value is not convertible to Int64."
  end.

Definition tree_asString (v : tree) : result string :=
  match v with
  | JNull => Ok ""
  | JInt n | JUInt n => Ok (to_string n)
  | JString s => Ok s
  | JBool b => Ok (if b then "true" else "false")
  | _ => json_error "Type is not convertible to string"
  end.

Fixpoint field (l : list (string * tree)) (k : string) : option tree :=
  match l with
  | [] => None
  | (k', x) :: l' => if String.eqb k k' then Some x else field l' k
  end.

Fixpoint set_field (l : list (string * tree)) (k : string) (x : tree) : list (string * tree) :=
  match l with
  | [] => [(k, x)]
  | (k', y) :: l' => if String.eqb k k' then (k, x) :: l' else (k', y) :: set_field l' k x
  end.

Definition tree_at_key (v : tree) (k : string) : result tree :=
  match v with
  | JNull => Ok JNull
  | JObject l => Ok (default JNull (field l k))
  | _ => json_error "requires objectValue or nullValue"
  end.

Definition tree_isMember (v : tree) (k : string) : result bool :=
  match v with
  | JNull => Ok false
  | JObject l => Ok (bool_decide (is_Some (field l k)))
  | _ => json_error "requires objectValue or nullValue"
  end.

Definition tree_names (v : tree) : result (list string) :=
  match v with
  | JNull => Ok []
  | JObject l => Ok (map fst l)
  | _ => json_error "value must be objectValue"
  end.

Definition tree_set_key (v : tree) (k : string) (x : tree) : result tree :=
  match v with
  | JNull => Ok (JObject [(k, x)])
  | JObject l => Ok (JObject (set_field l k x))
  | _ => json_error "requires objectValue"
  end.

Definition tree_elements (v : tree) : list tree :=
  match v with
  | JArray l => l
  | JObject l => map snd l
  | _ => []
  end.

Definition tree_at_index (v : tree) (i : nat) : result tree :=
  match v with
  | JNull => Ok JNull
  | JArray l => Ok (default JNull (l !! i))
  | _ => json_error "requires arrayValue"
  end.

Definition tree_append (v x : tree) : result tree :=
  match v with
  | JNull => Ok (JArray [x])
  | JArray l => Ok (JArray (l ++ [x]))
  | _ => json_error "requires arrayValue"
  end.

(** ** Text: an injective encoding of trees in binary digits *)

Fixpoint to_gen (v : tree) : gen_tree (Z + (string + bool)) :=
  match v with
  | JNull => GenNode 0 []
  | JInt n => GenNode 1 [GenLeaf (inl n)]
  | JUInt n => GenNode 2 [GenLeaf (inl n)]
  | JString s => GenLeaf (inr (inl s))
  | JBool b => GenLeaf (inr (inr b))
  | JArray l => GenNode 3 (map to_gen l)
  | JObject l => GenNode 4 (map (fun '(k, x) => GenNode 5 [GenLeaf (inr (inl k)); to_gen x]) l)
  end.

Fixpoint of_gen (t : gen_tree (Z + (string + bool))) : tree :=
  match t with
  | GenLeaf (inr (inl s)) => JString s
  | GenLeaf (inr (inr b)) => JBool b
  | GenNode 1 [GenLeaf (inl n)] => JInt n
  | GenNode 2 [GenLeaf (inl n)] => JUInt n
  | GenNode 3 l => JArray (map of_gen l)
  | GenNode 4 l =>
      JObject (map (fun t => match t with
                             | GenNode 5 [GenLeaf (inr (inl k)); x] => (k, of_gen x)
                             | _ => (EmptyString, JNull)
                             end) l)
  | _ => JNull
  end.

Fixpoint pos_text (p : positive) : string :=
  match p with
  | xH => EmptyString
  | xO p' => String "0" (pos_text p')
  | xI p' => String "1" (pos_text p')
  end.

Fixpoint text_pos (s : string) : positive :=
  match s with
  | EmptyString => xH
  | String c s' => if Ascii.eqb c "0" then xO (text_pos s') else xI (text_pos s')
  end.

Definition tree_write (v : tree) : string := pos_text (encode (to_gen v)).

(** The levels of nesting around the innermost value. *)
Fixpoint depth (v : tree) : nat :=
  match v with
  | JArray ((_ :: _) as l) => S (max_list_with depth l)
  | JObject ((_ :: _) as l) => S (max_list_with (fun kx => depth kx.2) l)
  | _ => 0
  end.

Definition tree_faithful (n : nat) (v : tree) : Prop := (depth v <= n)%nat.

Definition tree_parse (s : string) : result (string + tree) :=
  match decode (A := gen_tree (Z + (string + bool))) (text_pos s) with
  | Some t =>
      if negb (bool_decide (pos_text (encode t) = s)) then Ok (inl "Syntax error")
      else if (stack_levels <? depth (of_gen t))%nat
      then Throw (Exn json_runtime_error "Exceeded stackLimit in readValue().")
      else Ok (inr (of_gen t))
  | None => Ok (inl "Syntax error")
  end.

(** ** The text round trip and decidable equality *)

Lemma of_to_gen v : of_gen (to_gen v) = v.
Proof.
  revert v. fix IH 1. intros [| | | | | l | l]; cbn; try done; f_equal.
  - induction l as [|x l IHl]; cbn; [done|]. by rewrite IH, IHl.
  - induction l as [|[k x] l IHl]; cbn; [done|]. by rewrite IH, IHl.
Qed.

#[export] Instance tree_eq_dec : EqDecision tree.
Proof.
  refine (fun v w => cast_if (decide (to_gen v = to_gen w))).
  - abstract (by rewrite <- (of_to_gen v), <- (of_to_gen w), e).
  - abstract (by intros ->).
Defined.

Lemma text_pos_text p : text_pos (pos_text p) = p.
Proof. induction p; cbn; congruence. Qed.

#[export] Instance JsonTree : JsonCpp := {|
  Value := tree;
  null := JNull; of_string := JString; of_uint := JUInt; of_int := JInt; of_bool := JBool;
  empty_array := JArray []; empty_object := JObject [];
  type := tree_type; isUInt := tree_isUInt; asUInt := tree_asUInt; asInt64 := tree_asInt64;
  asString := tree_asString; at_key := tree_at_key; isMember := tree_isMember;
  getMemberNames := tree_names; set_key := tree_set_key; elements := tree_elements;
  at_index := tree_at_index; append := tree_append;
  equals := fun v w => bool_decide (v = w);
  reader_parse := tree_parse; write_string := tree_write; faithful := tree_faithful;
  json_equiv := eq
|}.

(** ** Laws *)

Lemma field_set l k x k' :
  field (set_field l k x) k' = if String.eqb k' k then Some x else field l k'.
Proof.
  induction l as [|[k1 y] l IH]; [done|]; cbn [set_field].
  destruct (String.eqb_spec k k1) as [->|Hk]; cbn [field].
  - by destruct (String.eqb k' k1).
  - rewrite IH. destruct (String.eqb_spec k' k) as [Heq|]; [subst k'|done].
    by rewrite (proj2 (String.eqb_neq k k1) Hk).
Qed.

Lemma field_names_elem l k : k ∈ map fst l <-> is_Some (field l k).
Proof.
  induction l as [|[k' x] l IH]; cbn; [split; [set_solver | by intros []]|].
  rewrite elem_of_cons, IH. destruct (String.eqb_spec k k'); [naive_solver|].
  intuition congruence.
Qed.

Lemma tree_parse_write v : (depth v <= stack_levels)%nat -> tree_parse (tree_write v) = Ok (inr v).
Proof.
  intros Hv. unfold tree_parse, tree_write. rewrite text_pos_text, decode_encode, of_to_gen.
  rewrite bool_decide_true by done. cbn [negb]. by rewrite (proj2 (Nat.ltb_ge _ _) Hv).
Qed.

(** A document beyond the stack limit makes the reader throw. *)
Lemma tree_parse_deep v : (stack_levels < depth v)%nat ->
  tree_parse (tree_write v) = Throw (Exn json_runtime_error "Exceeded stackLimit in readValue().").
Proof.
  intros Hv. unfold tree_parse, tree_write. rewrite text_pos_text, decode_encode, of_to_gen.
  rewrite bool_decide_true by done. cbn [negb]. by rewrite (proj2 (Nat.ltb_lt _ _) Hv).
Qed.

Lemma depth_object l n :
  (depth (JObject l) <= S n)%nat <-> Forall (fun kx => depth kx.2 <= n)%nat l.
Proof.
  transitivity (max_list_with (fun kx => depth kx.2) l <= n)%nat.
  - destruct l as [|[k x] l]; cbn; lia.
  - induction l as [|[k x] l IH]; cbn [max_list_with]; [split; [by constructor|lia]|].
    rewrite Forall_cons, <- IH. cbn. lia.
Qed.

Lemma depth_field l n k x :
  (depth (JObject l) <= S n)%nat -> (depth x <= n)%nat -> (depth (JObject (set_field l k x)) <= S n)%nat.
Proof.
  rewrite !depth_object. intros Hl Hx. induction Hl as [|[k1 y] l Hy Hl IH]; cbn [set_field]; [by repeat constructor|].
  destruct (String.eqb k k1); by constructor.
Qed.

Lemma pos_text_no_nul p : has_nul (pos_text p) = false.
Proof. induction p; cbn; done. Qed.

#[export] Instance JsonTree_laws : @JsonCppLaws JsonTree.
Proof.
  split; try done.
  - intros n Hn. cbn. apply andb_true_iff. lia.
  - intros n Hn. cbn. apply andb_true_iff. lia.
  - intros [] Hv; try discriminate Hv; auto.
  - intros n Hn. cbn. by rewrite (proj2 (andb_true_iff _ _)) by lia.
  - intros n Hn. cbn. by rewrite (proj2 (andb_true_iff _ _)) by lia.
  - intros [] Hv; try discriminate Hv; cbn in *; rewrite Hv; bool_simp; eauto.
  - intros n Hn. cbn -[Z.pow]. by rewrite (proj2 (andb_true_iff _ _)) by lia.
  - intros [] Hv; try discriminate Hv; cbn; eauto.
  - intros [] k [Hv|Hv]; try discriminate Hv; cbn; eauto.
  - intros [] k Hv; unfold keyed in Hv; cbn in *; eauto; tauto.
  - intros [] k Hv; unfold keyed in Hv; cbn in *; eauto; tauto.
  - intros [] k [Hv|Hv]; try discriminate Hv; cbn; eauto.
  - intros [] k Hv; try discriminate Hv; cbn in *; [done|].
    injection Hv as Hv. apply bool_decide_eq_false in Hv. by destruct (field l k); [destruct Hv; eauto|].
  - intros [] k Hv; try discriminate Hv; done.
  - intros [] [Hv|Hv]; try discriminate Hv; cbn; eexists; split; try done; intros k.
    + set_solver.
    + rewrite field_names_elem. case_bool_decide; naive_solver.
  - intros [| | | | | |l] k x [Hv|Hv]; try discriminate Hv; cbn;
      (eexists; split; [done|]; split; [done|]); split; intros k'.
    + cbn. by destruct (String.eqb k' k).
    + cbn. by destruct (String.eqb k' k).
    + cbn. rewrite field_set. by destruct (String.eqb k' k).
    + cbn. rewrite field_set. by destruct (String.eqb k' k).
  - intros [] x [Hv|Hv]; try discriminate Hv; cbn; eauto.
  - intros v s. cbn. rewrite bool_decide_eq_true. split; [by intros ->|].
    intros [Ht Hs]. destruct v; try discriminate Ht. cbn in Hs. congruence.
  - apply eq_equivalence.
  - by intros v w ->.
  - by intros v w ->.
  - by intros v w ->.
  - by intros v w ->.
  - by intros v w ->.
  - by intros v w ->.
  - by intros v w k ->.
  - by intros v w ->.
  - intros v w k x -> Hx. by exists x.
  - intros v w ->. cbn. induction (tree_elements w); auto.
  - intros v. apply pos_text_no_nul.
  - intros t e. cbn. unfold tree_parse. destruct (decode _) as [g|]; [|done].
    destruct (negb _); [done|]. destruct (_ <? _)%nat; [|done]. by intros [= <-].
  - intros n. cbn. unfold tree_faithful. cbn. lia.
  - intros n z _. cbn. unfold tree_faithful. cbn. lia.
  - intros n z _. cbn. unfold tree_faithful. cbn. lia.
  - intros n b. cbn. unfold tree_faithful. cbn. lia.
  - intros n s _. cbn. unfold tree_faithful. cbn. lia.
  - intros n v k x v' Hv _ Hx. cbn in *. destruct v; try done; cbn; intros [= <-].
    + unfold tree_faithful in *. cbn. lia.
    + by apply depth_field.
  - intros v Hv. exists v. split; [by apply tree_parse_write | done].
Qed.
