(* ===== verification/Packet.v ===== *)
(** * Packet metadata (include/magicbox/engine.hpp)

    The enumerations and the metadata record that capture, engine and aggregation exchange. *)
From S2P Require Import Prelude.

Module Protocol.
Inductive t := other | tcp | udp | icmp.
End Protocol.

Module Application.
Inductive t := unknown | http | dns | tls.
End Application.

#[export] Instance Protocol_eq_dec : EqDecision Protocol.t.
Proof. solve_decision. Defined.
#[export] Instance Application_eq_dec : EqDecision Application.t.
Proof. solve_decision. Defined.

(** [timestamp] counts nanoseconds since the epoch, the period of libstdc++'s system clock. *)
Record PacketMetadata := {
  timestamp : Z;
  wire_bytes : Z;
  source_ip : string;
  destination_ip : string;
  source_port : option Z;
  destination_port : option Z;
  protocol : Protocol.t;
  application : Application.t
}.

(** [PacketMetadata p{}; p.timestamp = ts; p.wire_bytes = n;]. *)
Definition blank_packet (ts n : Z) : PacketMetadata := {|
  timestamp := ts; wire_bytes := n; source_ip := ""; destination_ip := "";
  source_port := None; destination_port := None; protocol := Protocol.other;
  application := Application.unknown
|}.

Definition with_addresses (p : PacketMetadata) (src dst : string) : PacketMetadata := {|
  timestamp := timestamp p; wire_bytes := wire_bytes p; source_ip := src; destination_ip := dst;
  source_port := source_port p; destination_port := destination_port p;
  protocol := protocol p; application := application p
|}.

Definition with_protocol (p : PacketMetadata) (pr : Protocol.t) : PacketMetadata := {|
  timestamp := timestamp p; wire_bytes := wire_bytes p; source_ip := source_ip p;
  destination_ip := destination_ip p; source_port := source_port p;
  destination_port := destination_port p; protocol := pr; application := application p
|}.

Definition with_ports (p : PacketMetadata) (src dst : Z) : PacketMetadata := {|
  timestamp := timestamp p; wire_bytes := wire_bytes p; source_ip := source_ip p;
  destination_ip := destination_ip p; source_port := Some src; destination_port := Some dst;
  protocol := protocol p; application := application p
|}.

Definition with_application (p : PacketMetadata) (a : Application.t) : PacketMetadata := {|
  timestamp := timestamp p; wire_bytes := wire_bytes p; source_ip := source_ip p;
  destination_ip := destination_ip p; source_port := source_port p;
  destination_port := destination_port p; protocol := protocol p; application := a
|}.

#[export] Instance PacketMetadata_eq_dec : EqDecision PacketMetadata.
Proof. solve_decision. Defined.

(** The value ranges of the members: 32-bit wire length, 16-bit ports. *)
Definition port_typed (o : option Z) : Prop := match o with Some v => in_u16 v | None => True end.
Definition packet_typed (p : PacketMetadata) : Prop :=
  in_u32 (wire_bytes p) /\ port_typed (source_port p) /\ port_typed (destination_port p).
