(* ===== verification/Serialize.v ===== *)
(** * JSON serialisation (src/json.cpp)

    [parse_json], [json_text], [config_json], [config_from_json] and [packet_json] over the
    JSON library interface. *)
From S2P Require Import Prelude CppStd Inet Config Json JsonTree Packet.

Section Serialize.
Context `{JsonCpp}.

Definition parse_json (input : string) : result Value :=
  let? read := reader_parse input in
  match read with
  | inl errors => throw_invalid ("Invalid JSON: " +:+ errors)
  | inr v => Ok v
  end.

Definition json_text (value : Value) : string := write_string value.

(** The members [config_json] assigns, in its order. *)
Definition config_members (c : NetworkConfig) : list (string * Value) := [
  ("outer_interface", of_string (outer_interface c));
  ("inner_interface", of_string (inner_interface c));
  ("device_ipv4", of_string (device_ipv4 c));
  ("inner_gateway_ipv4", of_string (inner_gateway_ipv4 c));
  ("inner_prefix", of_uint (inner_prefix c));
  ("outer_ipv4", of_string (outer_ipv4 c));
  ("outer_prefix", of_uint (outer_prefix c));
  ("outer_gateway_ipv4", of_string (outer_gateway_ipv4 c));
  ("outer_mac", of_string (outer_mac c));
  ("vlan_id", match vlan_id c with Some id => of_int id | None => null end)
].

Definition config_json (c : NetworkConfig) : result Value := set_keys null (config_members c).

(** The lambda [string]. *)
Definition string_member (v : Value) (name : string) : result string :=
  let? x := at_key v name in
  if negb (isString x) then throw_invalid ("Expected string: " +:+ name)
  else let? x := at_key v name in asString x.

Definition known_field (shape : Value) (name : string) : result unit :=
  let? b := isMember shape name in
  if negb b then throw_invalid ("Unknown field: " +:+ name) else Ok tt.

Definition vlan_member (v : Value) : result (option Z) :=
  let? x := at_key v "vlan_id" in
  if isNull x then Ok None
  else if negb (isUInt x) then throw_invalid "Invalid VLAN ID"
  else let? n := asUInt x in
       if 4094 <? n then throw_invalid "Invalid VLAN ID" else Ok (Some (u16 n)).

Definition join_errors (errors : list string) : string :=
  fold_left (fun message error => message +:+ (error +:+ "; ")) errors EmptyString.

Definition config_from_json `{Inet} (v : Value) : result NetworkConfig :=
  if negb (isObject v) then throw_invalid "Configuration must be an object" else
  let? shape := config_json default_config in
  let? names := getMemberNames v in
  do? r_iter (known_field shape) names;
  let? c_outer_interface := string_member v "outer_interface" in
  let? c_inner_interface := string_member v "inner_interface" in
  let? c_device_ipv4 := string_member v "device_ipv4" in
  let? c_inner_gateway_ipv4 := string_member v "inner_gateway_ipv4" in
  let? c_outer_ipv4 := string_member v "outer_ipv4" in
  let? c_outer_gateway_ipv4 := string_member v "outer_gateway_ipv4" in
  let? c_outer_mac := string_member v "outer_mac" in
  let? ip := at_key v "inner_prefix" in
  let? op := at_key v "outer_prefix" in
  if negb (isUInt ip) || negb (isUInt op) then throw_invalid "Prefixes must be unsigned integers" else
  let? c_inner_prefix := asUInt ip in
  let? c_outer_prefix := asUInt op in
  let? has_vlan := isMember v "vlan_id" in
  if negb has_vlan then throw_invalid "vlan_id is required (null for untagged)" else
  let? c_vlan_id := vlan_member v in
  let c := {|
    outer_interface := c_outer_interface; inner_interface := c_inner_interface;
    device_ipv4 := c_device_ipv4; inner_gateway_ipv4 := c_inner_gateway_ipv4;
    inner_prefix := c_inner_prefix; outer_ipv4 := c_outer_ipv4; outer_prefix := c_outer_prefix;
    outer_gateway_ipv4 := c_outer_gateway_ipv4; outer_mac := c_outer_mac; vlan_id := c_vlan_id
  |} in
  match validate c with
  | [] => Ok c
  | errors => throw_invalid (join_errors errors)
  end.

(** [duration_cast<milliseconds>(timestamp.time_since_epoch()).count()]. *)
Definition timestamp_ms (p : PacketMetadata) : Z := Z.quot (timestamp p) 1000000.

Definition protocol_name (p : Protocol.t) : string :=
  match p with
  | Protocol.other => "other" | Protocol.tcp => "tcp"
  | Protocol.udp => "udp" | Protocol.icmp => "icmp"
  end.

Definition application_name (a : Application.t) : string :=
  match a with
  | Application.unknown => "unknown" | Application.http => "http"
  | Application.dns => "dns" | Application.tls => "tls"
  end.

Definition port_value (port : option Z) : Value :=
  match port with Some n => of_int n | None => null end.

Definition packet_json (p : PacketMetadata) : result Value :=
  set_keys null [
    ("timestamp_ms", of_int (timestamp_ms p));
    ("source_ip", of_string (source_ip p));
    ("destination_ip", of_string (destination_ip p));
    ("source_port", port_value (source_port p));
    ("destination_port", port_value (destination_port p));
    ("wire_bytes", of_uint (wire_bytes p));
    ("protocol", of_string (protocol_name (protocol p)));
    ("application", of_string (application_name (application p)))
  ].
End Serialize.

(** ** Specification of the configuration format *)

Section Spec.
Context `{JsonCpp}.

Definition field_names : list string :=
  ["outer_interface"; "inner_interface"; "device_ipv4"; "inner_gateway_ipv4"; "inner_prefix";
   "outer_ipv4"; "outer_prefix"; "outer_gateway_ipv4"; "outer_mac"; "vlan_id"].

Definition reads_string (v : Value) (k s : string) : Prop :=
  exists x, at_key v k = Ok x /\ isString x = true /\ asString x = Ok s.

Definition reads_uint (v : Value) (k : string) (n : Z) : Prop :=
  exists x, at_key v k = Ok x /\ isUInt x = true /\ asUInt x = Ok n.

Definition reads_vlan (v : Value) (o : option Z) : Prop :=
  exists x, at_key v "vlan_id" = Ok x /\
  match o with
  | None => isNull x = true
  | Some n => isUInt x = true /\ asUInt x = Ok n /\ n <= 4094
  end.

(** [v] is an object with exactly the ten members, which hold the fields of [c]. *)
Record reads_config (v : Value) (c : NetworkConfig) : Prop := {
  rc_object : isObject v = true;
  rc_members k : isMember v k = Ok true <-> k ∈ field_names;
  rc_outer_interface : reads_string v "outer_interface" (outer_interface c);
  rc_inner_interface : reads_string v "inner_interface" (inner_interface c);
  rc_device : reads_string v "device_ipv4" (device_ipv4 c);
  rc_inner_gateway : reads_string v "inner_gateway_ipv4" (inner_gateway_ipv4 c);
  rc_outer : reads_string v "outer_ipv4" (outer_ipv4 c);
  rc_outer_gateway : reads_string v "outer_gateway_ipv4" (outer_gateway_ipv4 c);
  rc_mac : reads_string v "outer_mac" (outer_mac c);
  rc_inner_prefix : reads_uint v "inner_prefix" (inner_prefix c);
  rc_outer_prefix : reads_uint v "outer_prefix" (outer_prefix c);
  rc_vlan : reads_vlan v (vlan_id c)
}.
End Spec.

(** ** Lemmas *)

(** A computation whose only exceptions are [std::invalid_argument]. *)
Definition only_invalid {A} (m : result A) : Prop :=
  forall e, m = Throw e -> exn_class e = invalid_argument.

Lemma only_invalid_ok {A} (a : A) : only_invalid (Ok a).
Proof. intros e [=]. Qed.
Lemma only_invalid_throw {A} msg : only_invalid (throw_invalid (A := A) msg).
Proof. by intros e [= <-]. Qed.
Lemma only_invalid_bind {A B} (m : result A) (k : A -> result B) :
  only_invalid m -> (forall a, m = Ok a -> only_invalid (k a)) -> only_invalid (rbind m k).
Proof. intros Hm Hk e [He|(a & Ha & He)]%rbind_throw_inv; [by apply Hm | by eapply Hk]. Qed.
Lemma only_invalid_iter {A} (f : A -> result unit) l :
  (forall x, only_invalid (f x)) -> only_invalid (r_iter f l).
Proof. intros Hf e (x & _ & He)%r_iter_throw. by eapply Hf. Qed.
#[export] Hint Resolve only_invalid_ok only_invalid_throw : mbx.

Section Format.
Context `{JL : JsonCppLaws} `{IL : InetLaws}.

Lemma config_json_spec c :
  exists v, config_json c = Ok v /\ isObject v = true /\
    (forall k, at_key v k = Ok (default null (assoc_last (config_members c) k))) /\
    (forall k, isMember v k = Ok (bool_decide (is_Some (assoc_last (config_members c) k)))).
Proof.
  destruct (set_keys_keyed null (config_members c) keyed_null) as (v & Hv & Ho & _ & Hat & Hmem).
  exists v. split; [done|]. split; [by apply bool_decide_eq_true, Ho|].
  split; intros k; rewrite ?Hat, ?Hmem; destruct (assoc_last _ k); cbn; try done.
  - apply at_key_missing, isMember_null.
  - apply isMember_null.
Qed.

Lemma config_members_names c k :
  is_Some (assoc_last (config_members c) k) <-> k ∈ field_names.
Proof. apply assoc_last_names. Qed.

Lemma known_field_spec c shape name :
  config_json c = Ok shape ->
  known_field shape name = if bool_decide (name ∈ field_names) then Ok tt
                           else throw_invalid ("Unknown field: " +:+ name).
Proof.
  destruct (config_json_spec c) as (v & -> & _ & _ & Hmem). intros [= <-].
  unfold known_field. rewrite Hmem, (bool_decide_ext _ _ (config_members_names c name)).
  cbn [rbind]. by destruct (bool_decide _).
Qed.

Lemma string_member_spec v k s :
  keyed v -> string_member v k = Ok s <-> reads_string v k s.
Proof.
  intros Hv. unfold string_member, reads_string.
  destruct (at_key_keyed v k Hv) as [x ->]. cbn.
  destruct (isString x) eqn:Hx; cbn; split; try done; [by eauto|..];
    intros (y & [= <-] & ? & ?); [done | congruence].
Qed.

Lemma string_member_invalid v k : keyed v -> only_invalid (string_member v k).
Proof.
  intros Hv. unfold string_member. destruct (at_key_keyed v k Hv) as [x ->]. cbn.
  destruct (isString x) eqn:Hx; cbn; [|auto with mbx].
  destruct (isString_ok _ Hx) as [s ->]. auto with mbx.
Qed.

Lemma vlan_member_spec v o :
  keyed v -> vlan_member v = Ok o <-> reads_vlan v o.
Proof.
  intros Hv. unfold vlan_member, reads_vlan.
  destruct (at_key_keyed v "vlan_id" Hv) as [x ->]. cbn.
  destruct (isNull x) eqn:Hn.
  - split; [intros [= <-]; eauto|]. intros (y & [= <-] & Ho). destruct o; [|done].
    destruct Ho as [Hu _]. apply isUInt_isNull in Hu. congruence.
  - destruct (isUInt x) eqn:Hu; cbn.
    + destruct (asUInt_isUInt _ Hu) as (n & Hn' & Hr). rewrite Hn'; cbn.
      destruct (Z.ltb_spec 4094 n).
      * split; [done|]. intros (y & [= <-] & Ho). destruct o; [|congruence].
        destruct Ho as (_ & Ho & ?). replace z with n in * by congruence. lia.
      * rewrite u16_id by lia. split; [intros [= <-]; eauto 10 with lia|].
        intros (y & [= <-] & Ho). destruct o; [|congruence]. destruct Ho as (_ & Ho & _). congruence.
    + split; [done|]. intros (y & [= <-] & Ho). destruct o; [|congruence].
      destruct Ho as [Ho _]. congruence.
Qed.

Lemma vlan_member_invalid v : keyed v -> only_invalid (vlan_member v).
Proof.
  intros Hv. unfold vlan_member. destruct (at_key_keyed v "vlan_id" Hv) as [x ->]. cbn.
  destruct (isNull x); [auto with mbx|]. destruct (isUInt x) eqn:Hu; cbn; [|auto with mbx].
  destruct (asUInt_isUInt _ Hu) as (n & -> & _); cbn. destruct (4094 <? n); auto with mbx.
Qed.

Lemma uint_invalid v : isUInt v = true -> only_invalid (asUInt v).
Proof. intros (n & -> & _)%asUInt_isUInt. auto with mbx. Qed.

Lemma reads_string_member v k s : keyed v -> reads_string v k s -> isMember v k = Ok true.
Proof.
  intros Hv (x & Hx & Hs & _). destruct (isMember_keyed v k Hv) as [[] Hm]; [done|].
  apply at_key_missing in Hm. replace x with null in Hs by congruence.
  type_simp. rewrite type_null in *. done.
Qed.

Lemma reads_uint_member v k n : keyed v -> reads_uint v k n -> isMember v k = Ok true.
Proof.
  intros Hv (x & Hx & Hs & _). destruct (isMember_keyed v k Hv) as [[] Hm]; [done|].
  apply at_key_missing in Hm. replace x with null in Hs by congruence.
  apply isUInt_isNull in Hs. type_simp. by rewrite type_null in *.
Qed.

(** ** The configuration format *)

(** Run [config_from_json] up to the validation step. *)
Lemma config_from_json_reads v c :
  reads_config v c ->
  config_from_json v = match validate c with
                       | [] => Ok c
                       | errors => throw_invalid (join_errors errors)
                       end.
Proof.
  intros [Ho Hm H1 H2 H3 H4 H5 H6 H7 (ip & Hip & Hip1 & Hip2) (op & Hop & Hop1 & Hop2) Hvl].
  pose proof (isObject_keyed _ Ho) as Hv.
  unfold config_from_json. rewrite Ho. cbn [negb].
  destruct (config_json_spec default_config) as (shape & Hshape & _). rewrite Hshape. cbn [rbind].
  destruct (getMemberNames_keyed v Hv) as (names & -> & Hnames). cbn [rbind].
  assert (r_iter (known_field shape) names = Ok tt) as ->.
  { apply r_iter_ok, Forall_forall. intros k Hk%Hnames%Hm.
    rewrite (known_field_spec _ _ _ Hshape). by rewrite bool_decide_true. }
  cbn [rbind].
  apply string_member_spec in H1, H2, H3, H4, H5, H6, H7; try done.
  rewrite H1, H2, H3, H4, H5, H6, H7, Hip, Hop. cbn [rbind].
  rewrite Hip1, Hop1, Hip2, Hop2. cbn [rbind negb orb].
  rewrite (proj2 (Hm "vlan_id")) by (unfold field_names; set_solver). cbn [rbind negb].
  apply vlan_member_spec in Hvl; [|done]. rewrite Hvl. cbn [rbind]. by destruct c.
Qed.

Lemma config_from_json_ok_inv v c :
  config_from_json v = Ok c -> reads_config v c /\ validate c = [].
Proof.
  unfold config_from_json. intros Hrun.
  destruct (isObject v) eqn:Ho; cbn [negb] in Hrun; [|done].
  pose proof (isObject_keyed _ Ho) as Hv.
  destruct (config_json_spec default_config) as (shape & Hshape & _).
  rewrite Hshape in Hrun. cbn [rbind] in Hrun.
  destruct (getMemberNames_keyed v Hv) as (names & Hget & Hnames).
  rewrite Hget in Hrun. cbn [rbind] in Hrun.
  apply rbind_ok_inv in Hrun as ([] & Hiter & Hrun).
  apply rbind_ok_inv in Hrun as (f1 & F1 & Hrun). apply rbind_ok_inv in Hrun as (f2 & F2 & Hrun).
  apply rbind_ok_inv in Hrun as (f3 & F3 & Hrun). apply rbind_ok_inv in Hrun as (f4 & F4 & Hrun).
  apply rbind_ok_inv in Hrun as (f5 & F5 & Hrun). apply rbind_ok_inv in Hrun as (f6 & F6 & Hrun).
  apply rbind_ok_inv in Hrun as (f7 & F7 & Hrun).
  apply rbind_ok_inv in Hrun as (ip & Hip & Hrun). apply rbind_ok_inv in Hrun as (op & Hop & Hrun).
  destruct (isUInt ip) eqn:Hipu; cbn [negb orb] in Hrun; [|done].
  destruct (isUInt op) eqn:Hopu; cbn [negb orb] in Hrun; [|done].
  apply rbind_ok_inv in Hrun as (ipn & Hipn & Hrun). apply rbind_ok_inv in Hrun as (opn & Hopn & Hrun).
  apply rbind_ok_inv in Hrun as (hv & Hhv & Hrun). destruct hv; cbn [negb] in Hrun; [|done].
  apply rbind_ok_inv in Hrun as (vl & Hvl & Hrun).
  destruct (validate _) eqn:Hval in Hrun; [|done]. injection Hrun as <-. split; [|done].
  apply string_member_spec in F1, F2, F3, F4, F5, F6, F7; try done.
  apply vlan_member_spec in Hvl; [|done].
  assert (reads_uint v "inner_prefix" ipn) as Hi by (exists ip; done).
  assert (reads_uint v "outer_prefix" opn) as Hq by (exists op; done).
  split; cbn; try done. intros k. split.
  - intros Hk%Hnames. rewrite r_iter_ok, Forall_forall in Hiter. specialize (Hiter _ Hk).
    rewrite (known_field_spec _ _ _ Hshape) in Hiter. by case_bool_decide.
  - unfold field_names. rewrite !elem_of_cons, elem_of_nil. intros Hk.
    destruct_or?; subst; eauto using reads_string_member, reads_uint_member.
Qed.

Lemma config_from_json_iff v c :
  config_from_json v = Ok c <-> reads_config v c /\ valid_config c.
Proof.
  rewrite <- validate_iff. split; [apply config_from_json_ok_inv|].
  intros [Hr Hc]. by rewrite (config_from_json_reads v c Hr), Hc.
Qed.

(** C23: [config_from_json] accepts a value exactly when it is an object with exactly the ten
    documented members, of the right types, and the configuration they hold is a valid
    topology; it then returns that configuration. *)
Theorem config_from_json_correct v c :
  config_from_json v = Ok c <-> reads_config v c /\ valid_config c.
Proof. apply config_from_json_iff. Qed.

Lemma config_from_json_only_invalid v e :
  config_from_json v = Throw e -> exn_class e = invalid_argument.
Proof.
  revert e. change (only_invalid (config_from_json v)). unfold config_from_json.
  destruct (isObject v) eqn:Ho; cbn [negb]; [|auto with mbx].
  pose proof (isObject_keyed _ Ho) as Hv.
  destruct (config_json_spec default_config) as (shape & Hshape & _). rewrite Hshape. cbn [rbind].
  destruct (getMemberNames_keyed v Hv) as (names & -> & _). cbn [rbind].
  apply only_invalid_bind.
  { apply only_invalid_iter. intros k. rewrite (known_field_spec _ _ _ Hshape).
    case_bool_decide; auto with mbx. }
  intros _ _. do 7 (apply only_invalid_bind; [by apply string_member_invalid|]; intros ? _).
  destruct (at_key_keyed v "inner_prefix" Hv) as [ip ->].
  destruct (at_key_keyed v "outer_prefix" Hv) as [op ->]. cbn [rbind].
  destruct (isUInt ip) eqn:Hip; cbn [negb orb]; [|auto with mbx].
  destruct (isUInt op) eqn:Hop; cbn [negb orb]; [|auto with mbx].
  do 2 (apply only_invalid_bind; [by apply uint_invalid|]; intros ? _).
  destruct (isMember_keyed v "vlan_id" Hv) as [[] ->]; cbn [rbind negb]; [|auto with mbx].
  apply only_invalid_bind; [by apply vlan_member_invalid|]. intros vl _.
  destruct (validate _); auto with mbx.
Qed.

(** Whatever the value, the only exception [config_from_json] lets out is
    [std::invalid_argument], which the control queue answers with status 422. *)
Theorem config_from_json_rejects v e :
  config_from_json v = Throw e -> exn_class e = invalid_argument.
Proof. apply config_from_json_only_invalid. Qed.

(** ** Round trips *)

Lemma config_json_reads c v :
  config_typed c -> (forall n, vlan_id c = Some n -> n <= 4094) ->
  config_json c = Ok v -> reads_config v c.
Proof.
  intros (Hip & Hop & Hvt) Hvl Hv.
  destruct (config_json_spec c) as (v' & Hv' & Ho & Hat & Hmem).
  replace v' with v in * by congruence.
  split; try done; unfold reads_string, reads_uint, reads_vlan; rewrite ?Hat;
    try (eexists; split; [reflexivity|]; split; [apply isString_of_string | apply asString_of_string]).
  - intros k. rewrite Hmem, <- (config_members_names c). case_bool_decide; naive_solver.
  - eexists; split; [reflexivity|]. cbn. auto using isUInt_of_uint, asUInt_of_uint.
  - eexists; split; [reflexivity|]. cbn. auto using isUInt_of_uint, asUInt_of_uint.
  - eexists; split; [reflexivity|]. cbn. destruct (vlan_id c) as [n|].
    + specialize (Hvl n eq_refl). auto using isUInt_of_int, asUInt_of_int with lia.
    + apply bool_decide_eq_true, type_null.
Qed.

(** A value holds at most one configuration. *)
Lemma reads_config_fun v c c' : reads_config v c -> reads_config v c' -> c = c'.
Proof.
  assert (forall k x y, reads_string v k x -> reads_string v k y -> x = y) as Hs.
  { intros k x y (? & ? & _ & ?) (? & ? & _ & ?). congruence. }
  assert (forall k x y, reads_uint v k x -> reads_uint v k y -> x = y) as Hu.
  { intros k x y (? & ? & _ & ?) (? & ? & _ & ?). congruence. }
  assert (forall x y, reads_vlan v x -> reads_vlan v y -> x = y) as Hv.
  { intros x y (jx & Hx & Hvx) (jy & Hy & Hvy). replace jy with jx in * by congruence.
    destruct x, y; try done.
    - destruct Hvx as (_ & ? & _), Hvy as (_ & ? & _). congruence.
    - destruct Hvx as (Hn & _). apply isUInt_isNull in Hn. congruence.
    - destruct Hvy as (Hn & _). apply isUInt_isNull in Hn. congruence. }
  intros [] []. destruct c, c'; cbn in *. f_equal; eauto.
Qed.

Lemma reads_config_typed v c : reads_config v c -> config_typed c.
Proof.
  intros [_ _ _ _ _ _ _ _ _ (x & _ & Hx & Hxn) (y & _ & Hy & Hyn) (z & _ & Hz)].
  apply asUInt_isUInt in Hx as (n & Hn & ?), Hy as (m & Hm & ?).
  unfold config_typed. destruct (vlan_id c) as [w|].
  - destruct Hz as (Hu & Hw & ?). apply asUInt_isUInt in Hu as (k & Hk & ?).
    replace (inner_prefix c) with n by congruence. replace (outer_prefix c) with m by congruence.
    replace w with k in * by congruence. lia.
  - replace (inner_prefix c) with n by congruence. replace (outer_prefix c) with m by congruence.
    lia.
Qed.

(** When the written form of a configuration is accepted, it is the configuration itself. *)
Lemma config_json_accepted c v c' :
  config_typed c -> config_json c = Ok v -> config_from_json v = Ok c' -> c' = c.
Proof.
  intros Ht Hv (Hr & _)%config_from_json_iff. eapply reads_config_fun; [exact Hr|].
  apply config_json_reads; [done| |done]. intros n Hn.
  destruct Hr as [_ _ _ _ _ _ _ _ _ _ _ (x & Hx & Hvl)].
  destruct (config_json_spec c) as (v' & Hv' & _ & Hat & _).
  replace v' with v in Hat by congruence. rewrite Hat in Hx. cbn in Hx. rewrite Hn in Hx.
  injection Hx as <-. destruct Ht as (_ & _ & Ht). rewrite Hn in Ht.
  destruct (vlan_id c') as [m|].
  - destruct Hvl as (_ & Hm & ?). rewrite asUInt_of_int in Hm by lia. congruence.
  - type_simp. by rewrite type_of_int in Hvl.
Qed.

Lemma reads_string_equiv v w k s : json_equiv v w -> reads_string v k s -> reads_string w k s.
Proof.
  intros Hvw (x & Hx & Hs & Ha). destruct (equiv_at_key _ _ _ _ Hvw Hx) as (y & Hy & Hxy).
  exists y. by rewrite <- (equiv_string _ _ Hxy), <- (equiv_asString _ _ Hxy).
Qed.

Lemma reads_uint_equiv v w k n : json_equiv v w -> reads_uint v k n -> reads_uint w k n.
Proof.
  intros Hvw (x & Hx & Hs & Ha). destruct (equiv_at_key _ _ _ _ Hvw Hx) as (y & Hy & Hxy).
  exists y. by rewrite <- (equiv_isUInt _ _ Hxy), <- (equiv_asUInt _ _ Hxy).
Qed.

#[export] Instance reads_config_proper : Proper (json_equiv ==> eq ==> iff) reads_config.
Proof.
  assert (forall v w c, json_equiv v w -> reads_config v c -> reads_config w c) as Himp.
  { intros v w c Hvw [Ho Hm ? ? ? ? ? ? ? ? ? (x & Hx & Hvl)].
    split; eauto using reads_string_equiv, reads_uint_equiv.
    - by rewrite <- (equiv_object _ _ Hvw).
    - intros k. by rewrite <- (equiv_isMember _ _ k Hvw).
    - destruct (equiv_at_key _ _ _ _ Hvw Hx) as (y & Hy & Hxy). exists y. split; [done|].
      destruct (vlan_id c); by rewrite <- ?(equiv_isUInt _ _ Hxy), <- ?(equiv_asUInt _ _ Hxy),
        <- ?(equiv_null _ _ Hxy). }
  intros v w Hvw c _ <-. split; apply Himp; [done | by symmetry].
Qed.

Lemma parse_json_text v :
  faithful stack_levels v -> exists w, parse_json (json_text v) = Ok w /\ json_equiv v w.
Proof.
  intros Hv. unfold parse_json, json_text. destruct (parse_write v Hv) as (w & -> & Hw). eauto.
Qed.

(** The written form of a valid configuration reads back. *)
Lemma config_json_faithful c v :
  config_typed c -> valid_config c -> config_json c = Ok v -> faithful stack_levels v.
Proof.
  intros Ht Hc Hv. unfold stack_levels.
  eapply set_keys_faithful; [apply (faithful_null 999) | | exact Hv].
  pose proof (valid_config_plain _ Hc) as Hs. destruct Ht as (Hi & Ho & Hl).
  rewrite !Forall_cons in Hs. destruct Hs as (?&?&?&?&?&?&?&_). unfold config_members.
  repeat (apply Forall_cons; split); [..|by apply Forall_nil];
    (split; [done|]); cbn [snd]; auto using faithful_string, faithful_uint.
  destruct (vlan_id c); [apply faithful_int; lia | apply faithful_null].
Qed.

(** C24: a valid configuration written by [config_json] and [json_text], as into the journal,
    and read back by [parse_json] and [config_from_json], is the same configuration. *)
Theorem config_roundtrip c :
  config_typed c -> validate c = [] ->
  (let? v := config_json c in
   let? w := parse_json (json_text v) in
   config_from_json w) = Ok c.
Proof.
  intros Ht Hc. destruct (config_json_spec c) as (v & Hv & _). rewrite Hv. cbn [rbind].
  apply validate_iff in Hc.
  destruct (parse_json_text v) as (w & -> & Hw); [by eapply config_json_faithful|]. cbn [rbind].
  apply config_from_json_iff. split; [|done].
  rewrite <- Hw. apply config_json_reads; [done| |done].
  intros n Hn. by apply (vc_vlan _ Hc).
Qed.
End Format.

(** ** Witnesses, on the concrete JSON tree and dotted quads *)


Definition sample_json : @Value JsonTree :=
  match config_json sample_config with Ok v => v | Throw _ => JNull end.

(** The configuration of the unit tests is read. *)
Lemma config_from_json_correct_witness : reads_config sample_json sample_config.
Proof.
  apply (config_from_json_correct sample_json sample_config). vm_compute. reflexivity.
Defined.

(** An array is rejected with the documented exception. *)
Lemma config_from_json_rejects_witness :
  exists e, config_from_json (JArray [] : @Value JsonTree) = Throw e /\ exn_class e = invalid_argument.
Proof.
  eexists. split; [vm_compute; reflexivity|].
  apply (config_from_json_rejects (JArray [] : @Value JsonTree)). vm_compute. reflexivity.
Defined.

Lemma config_roundtrip_witness :
  (let? v := config_json sample_config in
   let? w := parse_json (json_text v) in
   config_from_json w) = Ok sample_config.
Proof.
  apply (config_roundtrip sample_config).
  - unfold config_typed, sample_config. cbn. lia.
  - vm_compute. reflexivity.
Defined.
