(* ===== verification/Capture.v ===== *)
(** * Packet dissection (src/capture.cpp, [dissect])

    A captured frame is the list of its bytes.  Every read [b[i]] of the code is the checked
    load [byte_at b i], and the [string_view] over the payload is the checked [view]: [None]
    stands for an access outside the span, which C++ leaves undefined.  The theorems show that
    [dissect] never yields [None], whatever the bytes. *)
From S2P Require Import Prelude CppStd Inet Packet.

(** ** Loads *)

Definition len (b : list Z) : Z := Z.of_nat (length b).

Definition byte_at (b : list Z) (i : Z) : option Z :=
  if i <? 0 then None else b !! Z.to_nat i.

(** The lambda [u16]: [static_cast<uint16_t>((b[i] << 8) | b[i + 1])]. *)
Definition u16_at (b : list Z) (i : Z) : option Z :=
  hi ← byte_at b i; lo ← byte_at b (i + 1); Some (u16 (Z.lor (Z.shiftl hi 8) lo)).

(** The four bytes [inet_ntop(AF_INET, ...)] reads. *)
Definition in_addr_at (b : list Z) (i : Z) : option in_addr :=
  a ← byte_at b i; c ← byte_at b (i + 1); d ← byte_at b (i + 2); e ← byte_at b (i + 3);
  Some (InAddr a c d e).

(** The sixteen bytes [inet_ntop(AF_INET6, ...)] reads. *)
Definition in6_addr_at (b : list Z) (i : Z) : option (list Z) :=
  mapM (fun k => byte_at b (i + Z.of_nat k)) (seq 0 16).

(** [std::string_view(b.data() + first, last - first)]. *)
Definition view (b : list Z) (first last : Z) : option (list Z) :=
  if (0 <=? first) && (first <=? last) && (last <=? len b)
  then Some (take (Z.to_nat (last - first)) (drop (Z.to_nat first) b))
  else None.

Definition starts_with (content : list Z) (prefix : string) : bool :=
  bool_decide (take (length (chars prefix)) content = map code (chars prefix)).

Definition http_prefixes : list string :=
  ["GET "; "POST "; "HEAD "; "PUT "; "DELETE "; "OPTIONS "; "HTTP/1."].

(** ** The layers of [dissect], in continuation style: the code's early [return p] are the
    branches that do not call the continuation *)

Section Dissect.
Context `{Inet}.

(** Lines 67-78: the application hint. *)
Definition application_layer (b : list Z) (p : PacketMetadata) (sport dport payload stop : Z)
  : option PacketMetadata :=
  content ← view b payload stop;
  if decide (protocol p = Protocol.tcp) then
    let p := fold_left (fun p prefix => if starts_with content prefix
                                        then with_application p Application.http else p)
               http_prefixes p in
    if len content <? 6 then Some p else
    b0 ← byte_at b payload; if negb (b0 =? 22) then Some p else
    b1 ← byte_at b (payload + 1); if negb (b1 =? 3) then Some p else
    b2 ← byte_at b (payload + 2); if negb (b2 <=? 4) then Some p else
    b5 ← byte_at b (payload + 5);
    if (b5 =? 1) || (b5 =? 2) then Some (with_application p Application.tls) else Some p
  else if ((sport =? 53) || (dport =? 53)) && (12 <=? len content) then
    flags ← byte_at b (payload + 2);
    if negb (Z.land flags 120 =? 0) then Some p else
    questions ← u16_at b (payload + 4);
    if 0 <? questions then Some (with_application p Application.dns) else Some p
  else Some p.

(** Lines 65-66: the ports, kept even when the datagram is truncated. *)
Definition ports (b : list Z) (p : PacketMetadata) (offset payload stop : Z) (complete : bool)
  : option PacketMetadata :=
  sport ← u16_at b offset; dport ← u16_at b (offset + 2);
  let p := with_ports p sport dport in
  if negb complete then Some p else application_layer b p sport dport payload stop.

(** Lines 49-64: TCP and UDP headers; ICMP and the rest carry no ports. *)
Definition transport_layer (b : list Z) (p : PacketMetadata) (proto offset stop : Z)
    (complete : bool) : option PacketMetadata :=
  if proto =? 6 then
    let p := with_protocol p Protocol.tcp in
    if stop <? offset + 20 then Some p else
    d ← byte_at b (offset + 12);
    let header := Z.shiftr d 4 * 4 in
    if (header <? 20) || (stop <? offset + header) then Some p else
    ports b p offset (offset + header) stop complete
  else if proto =? 17 then
    let p := with_protocol p Protocol.udp in
    if stop <? offset + 8 then Some p else
    length ← u16_at b (offset + 4);
    if length <? 8 then Some p else
    ports b p offset (offset + 8) (Z.min stop (offset + length))
      (complete && (offset + length <=? stop))
  else
    Some (if (proto =? 1) || (proto =? 58) then with_protocol p Protocol.icmp else p).

(** Lines 25-38. *)
Definition ipv4_layer (b : list Z) (p : PacketMetadata) (offset : Z) : option PacketMetadata :=
  if len b <? offset + 20 then Some p else
  v ← byte_at b offset;
  if negb (Z.shiftr v 4 =? 4) then Some p else
  let header := Z.land v 15 * 4 in
  total ← u16_at b (offset + 2);
  if (header <? 20) || (total <? header) || (len b <? offset + header) then Some p else
  let stop := Z.min (len b) (offset + total) in
  let complete := offset + total <=? len b in
  src ← in_addr_at b (offset + 12); dst ← in_addr_at b (offset + 16);
  let p := with_addresses p (inet_ntop4 src) (inet_ntop4 dst) in
  proto ← byte_at b (offset + 9);
  fragment ← u16_at b (offset + 6);
  if negb (Z.land fragment 16383 =? 0) then Some p else
  transport_layer b p proto (offset + header) stop complete.

(** Lines 39-47. *)
Definition ipv6_layer (b : list Z) (p : PacketMetadata) (offset : Z) : option PacketMetadata :=
  if len b <? offset + 40 then Some p else
  v ← byte_at b offset;
  if negb (Z.shiftr v 4 =? 6) then Some p else
  payload_length ← u16_at b (offset + 4);
  let stop := Z.min (len b) (offset + 40 + payload_length) in
  let complete := offset + 40 + payload_length <=? len b in
  src ← in6_addr_at b (offset + 8); dst ← in6_addr_at b (offset + 24);
  let p := with_addresses p (inet_ntop6 src) (inet_ntop6 dst) in
  proto ← byte_at b (offset + 6);
  transport_layer b p proto (offset + 40) stop complete.

Definition network_layer (b : list Z) (p : PacketMetadata) (type offset : Z)
  : option PacketMetadata :=
  if type =? 2048 then ipv4_layer b p offset
  else if type =? 34525 then ipv6_layer b p offset
  else Some p.

(** Lines 17-20: [for (depth = 0; vlan(type) && depth < 2; ++depth)]. *)
Fixpoint vlan_tags (n : nat) (b : list Z) (p : PacketMetadata) (type offset : Z)
  : option PacketMetadata :=
  match n with
  | O => network_layer b p type offset
  | S n' =>
      if (type =? 33024) || (type =? 34984) then
        if len b <? offset + 4 then Some p else
        type ← u16_at b (offset + 2); vlan_tags n' b p type (offset + 4)
      else network_layer b p type offset
  end.

Definition dissect (b : list Z) (size ts : Z) : option PacketMetadata :=
  let p := blank_packet ts size in
  if len b <? 14 then Some p else
  type ← u16_at b 12; vlan_tags 2 b p type 14.

(** ** The live source: [PcapSource] over libpcap, whose answers are arguments *)

(** What the calls of the constructor return; error texts come with the failures. *)
Record pcap_opening := {
  created : option string;        (** [pcap_create]: an error text, or a handle *)
  configured : list Z;            (** the four [pcap_set_*] *)
  activated : Z; activate_error : string;
  datalink : Z;
  nonblocking : Z; nonblock_error : string
}.

Record PcapSource := { dropped : option Z; last_stats : Z }.

Definition dlt_en10mb : Z := 1.

Definition open_source (o : pcap_opening) : result PcapSource :=
  match created o with
  | Some err => throw_runtime err
  | None =>
      if existsb (fun rc => negb (rc =? 0)) (configured o)
      then throw_runtime "Cannot configure capture"
      else if activated o <? 0 then throw_runtime (activate_error o)
      else if negb (datalink o =? dlt_en10mb)
      then throw_runtime "Capture requires an Ethernet interface"
      else if negb (nonblocking o =? 0) then throw_runtime (nonblock_error o)
      else Ok {| dropped := None; last_stats := 0 |}
  end.

(** One answer of [pcap_next_ex]: its result, and the packet when that is 1. *)
Record pcap_answer := {
  next_result : Z; tv_sec : Z; tv_usec : Z; wire_len : Z; captured : list Z; next_error : string
}.

(** The once-per-second refresh of the drop counter: [now] in nanoseconds, [stats] the
    [ps_drop] of a successful [pcap_stats]. *)
Definition refresh_drops (now : Z) (stats : option Z) (s : PcapSource) : PcapSource :=
  if 1000000000 <=? now - last_stats s
  then {| dropped := match stats with Some d => Some d | None => dropped s end;
          last_stats := now |}
  else s.

(** [next]: the outer option is an out-of-bounds read in [dissect]. *)
Definition source_next (stop : bool) (now : Z) (stats : option Z) (a : pcap_answer)
    (s : PcapSource) : option (result (option PacketMetadata)) * PcapSource :=
  if stop then (Some (Ok None), s)
  else
    let s := refresh_drops now stats s in
    if next_result a =? 1
    then (p ← dissect (captured a) (wire_len a) ((tv_sec a * 1000000 + tv_usec a) * 1000);
          Some (Ok (Some p)), s)
    else if next_result a <? 0 then (Some (throw_runtime (next_error a)), s)
    else (Some (Ok None), s).

Definition kernel_drops (s : PcapSource) : option Z := dropped s.
End Dissect.

(** ** What a dissected packet looks like *)

(** The hint a transport protocol allows. *)
Definition hint_allowed (pr : Protocol.t) (sport dport : Z) (a : Application.t) : Prop :=
  match a with
  | Application.unknown => pr = Protocol.tcp \/ pr = Protocol.udp
  | Application.http | Application.tls => pr = Protocol.tcp
  | Application.dns => pr = Protocol.udp /\ (sport = 53 \/ dport = 53)
  end.

(** Both ports or none; 16-bit ports, on TCP and UDP only; a hint only with the ports and on
    the protocol it belongs to. *)
Definition transport_consistent (q : PacketMetadata) : Prop :=
  (source_port q = None /\ destination_port q = None /\ application q = Application.unknown) \/
  (exists s d, source_port q = Some s /\ destination_port q = Some d /\ in_u16 s /\ in_u16 d /\
               hint_allowed (protocol q) s d (application q)).

(** The whole IP datagram was captured: at one of the three offsets where the network header
    can start stands an unfragmented IPv4 header, or an IPv6 header, whose length field
    ends inside the captured bytes. *)
Definition complete_datagram (b : list Z) : Prop :=
  exists offset, (offset = 14 \/ offset = 18 \/ offset = 22) /\
  ((exists v total fragment, byte_at b offset = Some v /\ Z.shiftr v 4 = 4 /\
      u16_at b (offset + 2) = Some total /\ offset + total <= len b /\
      u16_at b (offset + 6) = Some fragment /\ Z.land fragment 16383 = 0) \/
   (exists v payload_length, byte_at b offset = Some v /\ Z.shiftr v 4 = 6 /\
      u16_at b (offset + 4) = Some payload_length /\ offset + 40 + payload_length <= len b)).

(** A frame as pcap delivers it: a list of bytes. *)
Definition bytes (b : list Z) : Prop := Forall (fun x => in_u8 x) b.

(** [o] is defined and its packet satisfies [Q]. *)
Definition yields (Q : PacketMetadata -> Prop) (o : option PacketMetadata) : Prop :=
  match o with Some q => Q q | None => False end.

(** What every layer guarantees of its result [q], started from [p]. *)
Record extends (p : PacketMetadata) (complete : Prop) (q : PacketMetadata) : Prop := {
  ext_timestamp : timestamp q = timestamp p;
  ext_wire : wire_bytes q = wire_bytes p;
  ext_consistent : transport_consistent q;
  ext_complete : application q <> Application.unknown -> complete
}.

(** No ports and no hint yet. *)
Definition bare (p : PacketMetadata) : Prop :=
  source_port p = None /\ destination_port p = None /\ application p = Application.unknown.

(** ** Loads in range are defined *)

Lemma len_nonneg b : 0 <= len b.
Proof. unfold len. lia. Qed.
Lemma len_app a b : len (a ++ b) = len a + len b.
Proof. unfold len. rewrite length_app. lia. Qed.
Lemma len_cons x b : len (x :: b) = 1 + len b.
Proof. unfold len. cbn. lia. Qed.

Lemma byte_at_in_range b i :
  bytes b -> 0 <= i < len b -> exists x, byte_at b i = Some x /\ in_u8 x.
Proof.
  intros Hb Hi. unfold byte_at, len in *. rewrite (proj2 (Z.ltb_ge i 0)) by lia.
  destruct (lookup_lt_is_Some_2 b (Z.to_nat i)) as [x Hx]; [lia|].
  exists x. split; [done|]. exact (Forall_lookup_1 _ _ _ _ Hb Hx).
Qed.

Lemma u16_at_in_range b i :
  bytes b -> 0 <= i -> i + 1 < len b -> exists x, u16_at b i = Some x /\ in_u16 x.
Proof.
  intros Hb Hi Hl. unfold u16_at.
  destruct (byte_at_in_range b i) as (hi & -> & ?); [done|lia|].
  destruct (byte_at_in_range b (i + 1)) as (lo & -> & ?); [done|lia|]. cbn.
  eexists. split; [done|]. apply u16_range.
Qed.

Lemma in_addr_at_in_range b i :
  bytes b -> 0 <= i -> i + 3 < len b -> exists a, in_addr_at b i = Some a /\ in_addr_wf a.
Proof.
  intros Hb Hi Hl. unfold in_addr_at.
  destruct (byte_at_in_range b i) as (? & -> & ?); [done|lia|].
  destruct (byte_at_in_range b (i + 1)) as (? & -> & ?); [done|lia|].
  destruct (byte_at_in_range b (i + 2)) as (? & -> & ?); [done|lia|].
  destruct (byte_at_in_range b (i + 3)) as (? & -> & ?); [done|lia|]. cbn.
  eexists. split; [done|]. by unfold in_addr_wf.
Qed.

Lemma in6_addr_at_in_range b i :
  bytes b -> 0 <= i -> i + 15 < len b -> exists l, in6_addr_at b i = Some l.
Proof.
  intros Hb Hi Hl. unfold in6_addr_at.
  apply mapM_is_Some_2, Forall_forall. intros k Hk%elem_of_seq.
  destruct (byte_at_in_range b (i + Z.of_nat k)) as (x & Hx & _); [done|lia|]. by exists x.
Qed.

Lemma view_in_range b first last :
  0 <= first <= last -> last <= len b ->
  exists l, view b first last = Some l /\ len l = last - first.
Proof.
  intros Hf Hl. unfold view.
  rewrite (proj2 (Z.leb_le 0 first)), (proj2 (Z.leb_le first last)),
    (proj2 (Z.leb_le last (len b))) by lia. cbn.
  eexists. split; [done|]. unfold len in *. rewrite length_take, length_drop. lia.
Qed.

(** [b.size() < n] decides whether the next loads are in range; each load rule below leaves
    the range to [lia]. *)
Section Rules.
Context (b : list Z) (Hb : bytes b) (Q : PacketMetadata -> Prop).

Lemma yields_byte i k :
  0 <= i < len b -> (forall x, byte_at b i = Some x -> in_u8 x -> yields Q (k x)) ->
  yields Q (x ← byte_at b i; k x).
Proof. intros Hi Hk. destruct (byte_at_in_range b i) as (x & Hx & Hr); auto. rewrite Hx. by apply Hk. Qed.

Lemma yields_u16 i k :
  0 <= i -> i + 1 < len b ->
  (forall x, u16_at b i = Some x -> in_u16 x -> yields Q (k x)) ->
  yields Q (x ← u16_at b i; k x).
Proof. intros Hi Hl Hk. destruct (u16_at_in_range b i) as (x & Hx & Hr); auto. rewrite Hx. by apply Hk. Qed.

Lemma yields_in_addr i k :
  0 <= i -> i + 3 < len b ->
  (forall a, in_addr_at b i = Some a -> in_addr_wf a -> yields Q (k a)) ->
  yields Q (a ← in_addr_at b i; k a).
Proof. intros Hi Hl Hk. destruct (in_addr_at_in_range b i) as (x & Hx & Hr); auto. rewrite Hx. by apply Hk. Qed.

Lemma yields_in6_addr i k :
  0 <= i -> i + 15 < len b -> (forall l, in6_addr_at b i = Some l -> yields Q (k l)) ->
  yields Q (l ← in6_addr_at b i; k l).
Proof. intros Hi Hl Hk. destruct (in6_addr_at_in_range b i) as (x & Hx); auto. rewrite Hx. by apply Hk. Qed.

Lemma yields_view first last k :
  0 <= first <= last -> last <= len b ->
  (forall l, view b first last = Some l -> len l = last - first -> yields Q (k l)) ->
  yields Q (l ← view b first last; k l).
Proof. intros Hi Hl Hk. destruct (view_in_range b first last) as (x & Hx & Hr); auto. rewrite Hx. by apply Hk. Qed.
End Rules.

Lemma yields_mono (Q R : PacketMetadata -> Prop) o :
  yields Q o -> (forall q, Q q -> R q) -> yields R o.
Proof. destruct o; cbn; auto. Qed.

(** One step through a layer: take the next load in range, or split the next test. *)
Ltac load_step Hb :=
  first
  [ apply (yields_byte _ Hb); [lia|]; intros ? ? ?
  | apply (yields_u16 _ Hb); [lia|lia|]; intros ? ? ?
  | apply (yields_in_addr _ Hb); [lia|lia|]; intros ? ? ?
  | apply (yields_in6_addr _ Hb); [lia|lia|]; intros ? ?
  | apply yields_view; [lia|lia|]; intros ? ? ?
  | match goal with |- yields _ (if ?c then _ else _) => destruct c eqn:? end ].

(** ** Every layer, on every input *)

Section Layers.
Context `{Inet} (b : list Z) (Hb : bytes b).

(** A packet whose ports were just read. *)
Definition with_hint_pending (p : PacketMetadata) (s d : Z) : Prop :=
  source_port p = Some s /\ destination_port p = Some d /\ in_u16 s /\ in_u16 d /\
  (protocol p = Protocol.tcp \/ protocol p = Protocol.udp) /\
  application p = Application.unknown.

Lemma extends_hint p s d a (C : Prop) :
  with_hint_pending p s d -> hint_allowed (protocol p) s d a -> C ->
  extends p C (with_application p a).
Proof.
  intros (Hs & Hd & ? & ? & _) Ha HC. split; cbn; auto.
  right. exists s, d. cbn. auto 10.
Qed.

Lemma extends_no_hint p s d (C : Prop) :
  with_hint_pending p s d -> extends p C p.
Proof.
  intros (Hs & Hd & ? & ? & Hp & Ha). split; auto; [|by rewrite Ha].
  right. exists s, d. rewrite Ha. cbn. auto 10.
Qed.

Lemma extends_bare p (C : Prop) : bare p -> extends p C p.
Proof. intros (? & ? & Ha). split; auto; [by left | by rewrite Ha]. Qed.

Lemma extends_weaken p p' (C D : Prop) q :
  timestamp p = timestamp p' -> wire_bytes p = wire_bytes p' -> (C -> D) ->
  extends p C q -> extends p' D q.
Proof. intros ? ? HCD [? ? ? ?]. split; auto; congruence. Qed.

Lemma yields_bare p q (C : Prop) :
  bare q -> timestamp q = timestamp p -> wire_bytes q = wire_bytes p ->
  yields (extends p C) (Some q).
Proof.
  intros Hq Ht Hw. apply (extends_weaken q p C C); [done..|auto|]. by apply extends_bare.
Qed.

Lemma http_fold content p s d :
  with_hint_pending p s d -> protocol p = Protocol.tcp ->
  let q := fold_left (fun p prefix => if starts_with content prefix
                                      then with_application p Application.http else p)
             http_prefixes p in
  q = p \/ q = with_application p Application.http.
Proof.
  intros _ _. unfold http_prefixes. cbn [fold_left].
  repeat (destruct (starts_with content _); cbn); auto.
Qed.

Lemma application_layer_yields p s d payload stop :
  with_hint_pending p s d -> 0 <= payload <= stop -> stop <= len b ->
  yields (extends p True) (application_layer b p s d payload stop).
Proof.
  intros Hp Hpay Hstop. unfold application_layer.
  apply yields_view; [lia|lia|]; intros content Hcontent Hlen.
  destruct (decide _) as [Htcp|Htcp].
  - assert (forall a, hint_allowed Protocol.tcp s d a ->
      extends p True (with_application p a)) as Hok by (intros; eapply extends_hint; eauto; congruence).
    assert (yields (extends p True) (Some (fold_left (fun p prefix =>
      if starts_with content prefix then with_application p Application.http else p) http_prefixes p)))
      as Hq.
    { destruct (http_fold content p s d Hp Htcp) as [->| ->]; [by eapply extends_no_hint | by apply Hok]. }
    destruct (http_fold content p s d Hp Htcp) as [Hf|Hf]; rewrite Hf in Hq |- *; cbn zeta;
      repeat (load_step Hb || bool_simp); try exact Hq; by apply Hok.
  - assert (protocol p = Protocol.udp) as Hudp by (destruct Hp; naive_solver).
    repeat (load_step Hb || bool_simp); try (by eapply extends_no_hint).
    eapply extends_hint; eauto. cbn. split; [done|].
    match goal with E : _ || _ = true |- _ => apply orb_true_iff in E end. bool_simp.
    destruct_or?; bool_simp; auto.
Qed.

Lemma ports_yields p offset payload stop complete :
  bare p -> protocol p = Protocol.tcp \/ protocol p = Protocol.udp ->
  0 <= offset -> offset + 4 <= payload -> payload <= stop -> stop <= len b ->
  yields (extends p (complete = true)) (ports b p offset payload stop complete).
Proof.
  intros Hbare Hpr Ho Hpay Hs Hl. unfold ports.
  apply (yields_u16 _ Hb); [lia|lia|]; intros s Hs' Hsr.
  apply (yields_u16 _ Hb); [lia|lia|]; intros d Hd' Hdr.
  assert (with_hint_pending (with_ports p s d) s d) as Hp.
  { unfold with_hint_pending. cbn. destruct Hbare as (? & ? & ?). auto 10. }
  destruct complete; cbn [negb].
  - eapply yields_mono; [by apply application_layer_yields; eauto; lia|].
    intros q. by apply extends_weaken.
  - apply (extends_weaken (with_ports p s d) _ (false = true)); [done..|].
    by eapply extends_no_hint.
Qed.

Lemma transport_layer_yields p proto offset stop complete :
  bare p -> 0 <= offset -> stop <= len b ->
  yields (extends p (complete = true)) (transport_layer b p proto offset stop complete).
Proof.
  intros Hbare Ho Hs. unfold transport_layer.
  assert (forall pr, yields (extends p (complete = true)) (Some (with_protocol p pr))) as Hpr.
  { intros pr. by apply yields_bare. }
  destruct (proto =? 6).
  - load_step Hb; [apply Hpr|]. bool_simp. load_step Hb. load_step Hb; [apply Hpr|]. bool_simp.
    eapply yields_mono; [apply ports_yields; cbn; auto; lia|]. intros q. by apply extends_weaken.
  - destruct (proto =? 17).
    + load_step Hb; [apply Hpr|]. bool_simp. load_step Hb. load_step Hb; [apply Hpr|]. bool_simp.
      eapply yields_mono; [apply ports_yields; cbn; auto; lia|].
      intros q. apply extends_weaken; [done..|]. intros Hc. by bool_simp.
    + destruct (_ || _); [apply Hpr|]. by apply extends_bare.
Qed.

Lemma network_layer_yields p type offset :
  bare p -> offset = 14 \/ offset = 18 \/ offset = 22 ->
  yields (extends p (complete_datagram b)) (network_layer b p type offset).
Proof.
  intros Hp Ho. unfold network_layer.
  assert (yields (extends p (complete_datagram b)) (Some p)) as Hret by by apply extends_bare.
  destruct (type =? 2048); [|destruct (type =? 34525); [|done]].
  - unfold ipv4_layer. load_step Hb; [done|]. bool_simp. load_step Hb. load_step Hb; [done|].
    load_step Hb. load_step Hb; [done|]. bool_simp. do 4 load_step Hb.
    load_step Hb; [by apply yields_bare|].
    bool_simp.
    eapply yields_mono; [apply transport_layer_yields; [done|lia|lia]|].
    intros q. apply extends_weaken; [done..|]. intros Hc. bool_simp.
    exists offset. split; [done|]. left. do 3 eexists. split_and!; eassumption.
  - unfold ipv6_layer. load_step Hb; [done|]. bool_simp. load_step Hb. load_step Hb; [done|].
    load_step Hb. do 3 load_step Hb. bool_simp.
    eapply yields_mono; [apply transport_layer_yields; [done|lia|lia]|].
    intros q. apply extends_weaken; [done..|]. intros Hc. bool_simp.
    exists offset. split; [done|]. right. do 2 eexists. split_and!; eassumption.
Qed.

Lemma vlan_tags_yields n p type offset :
  bare p -> (n <= 2)%nat -> offset = 22 - 4 * Z.of_nat n -> offset <= len b ->
  yields (extends p (complete_datagram b)) (vlan_tags n b p type offset).
Proof.
  intros Hp. revert type offset. induction n as [|n IH]; intros type offset Hn Ho Hl; cbn [vlan_tags].
  - apply network_layer_yields; [done|lia].
  - destruct (_ || _); [|apply network_layer_yields; [done|lia]].
    load_step Hb; [by apply extends_bare|]. bool_simp. load_step Hb. apply IH; lia.
Qed.

Lemma dissect_yields size ts :
  yields (extends (blank_packet ts size) (complete_datagram b)) (dissect b size ts).
Proof.
  unfold dissect. load_step Hb; [by apply extends_bare|]. bool_simp. load_step Hb.
  apply vlan_tags_yields; done || lia.
Qed.

(** C11: memory safety. For every frame of bytes, [dissect] reads no byte outside the span and
    forms no [string_view] outside it, and so returns a packet. *)
Theorem dissect_safe size ts : exists p, dissect b size ts = Some p.
Proof. pose proof (dissect_yields size ts). destruct (dissect b size ts); [eauto|done]. Qed.

(** C29: the packet [dissect] returns keeps the timestamp and wire length it was given, carries
    both ports or none, 16-bit ports on TCP and UDP only, and an application hint only where
    the protocol and, for DNS, the ports allow it. *)
Theorem dissect_consistent size ts p :
  dissect b size ts = Some p ->
  timestamp p = ts /\ wire_bytes p = size /\ transport_consistent p.
Proof.
  intros Hp. pose proof (dissect_yields size ts) as Hy. rewrite Hp in Hy. by destruct Hy.
Qed.

(** No guessing. An application hint is only given when the frame holds the complete,
    unfragmented IP datagram; a truncated capture or a fragment never gets one. *)
Theorem dissect_hint_complete size ts p :
  dissect b size ts = Some p -> application p <> Application.unknown -> complete_datagram b.
Proof.
  intros Hp. pose proof (dissect_yields size ts) as Hy. rewrite Hp in Hy. by destruct Hy.
Qed.

(** Fragments. An IPv4 packet whose more-fragments flag or fragment offset is set, the
    first fragment included, is never dissected beyond its addresses: no protocol, no ports and
    no hint, whatever its payload looks like. *)
Theorem dissect_fragment fragment size ts :
  u16_at b 12 = Some 2048 -> u16_at b 20 = Some fragment -> Z.land fragment 16383 <> 0 ->
  exists p, dissect b size ts = Some p /\ protocol p = Protocol.other /\ bare p.
Proof.
  intros Ht Hf Hnz.
  assert (yields (fun p => protocol p = Protocol.other /\ bare p) (dissect b size ts)) as Hy.
  { unfold dissect. load_step Hb; [done|]. rewrite Ht. cbn -[u16_at byte_at].
    unfold network_layer, ipv4_layer. cbn -[u16_at byte_at].
    load_step Hb; [done|]. bool_simp. load_step Hb. load_step Hb; [done|].
    load_step Hb. load_step Hb; [done|]. bool_simp. do 3 load_step Hb.
    change (14 + 6) with 20. rewrite Hf. cbn -[Z.land]. by rewrite (proj2 (Z.eqb_neq _ _) Hnz). }
  destruct (dissect b size ts) as [p|]; [eauto|done].
Qed.

(** The live source. [next] never reads outside a captured frame; once a stop is requested
    it returns at once with no packet and no call to libpcap; it returns a packet just when
    libpcap delivered one, throws just when libpcap failed, and is idle otherwise. *)
Theorem source_next_spec stop now stats a s :
  captured a = b ->
  exists r s', source_next stop now stats a s = (Some r, s') /\
  (stop = true -> r = Ok None /\ s' = s) /\
  (stop = false ->
   ((exists p, r = Ok (Some p) /\ wire_bytes p = wire_len a) <-> next_result a = 1) /\
   ((exists e, r = Throw e) <-> next_result a < 0) /\
   (kernel_drops s' = kernel_drops s \/ kernel_drops s' = stats) /\
   (kernel_drops s' <> kernel_drops s -> last_stats s + 1000000000 <= now)).
Proof.
  intros Ha. unfold source_next. rewrite Ha.
  destruct stop; [do 2 eexists; split; [done|]; by split|].
  assert (forall s', s' = refresh_drops now stats s ->
    (kernel_drops s' = kernel_drops s \/ kernel_drops s' = stats) /\
    (kernel_drops s' <> kernel_drops s -> last_stats s + 1000000000 <= now)) as Hdrops.
  { intros s' ->. unfold refresh_drops, kernel_drops.
    destruct (Z.leb_spec 1000000000 (now - last_stats s)); [|split; [auto|intros Hn; by destruct Hn]].
    split; [destruct stats; auto|lia]. }
  destruct (Z.eqb_spec (next_result a) 1) as [H1|H1];
    [|destruct (Z.ltb_spec (next_result a) 0)].
  - pose proof (dissect_yields (wire_len a) ((tv_sec a * 1000000 + tv_usec a) * 1000)) as Hy.
    destruct (dissect b _ _) as [p|]; [|done]. destruct Hy as [_ Hw _ _].
    do 2 eexists. split; [done|]. split; [done|]. intros _. split_and!; try by apply Hdrops.
    + split; [done|]. intros _. eauto.
    + split; [by intros [? [=]]|lia].
  - do 2 eexists. split; [done|]. split; [done|]. intros _. split_and!; try by apply Hdrops.
    + split; [by intros (? & [=] & _)|lia].
    + split; [done|]. unfold throw_runtime. eauto.
  - do 2 eexists. split; [done|]. split; [done|]. intros _. split_and!; try by apply Hdrops.
    + split; [by intros (? & [=] & _)|lia].
    + split; [by intros [? [=]]|lia].
Qed.
End Layers.

(** ** Witnesses *)

(** A DNS query over UDP and IPv4, from 10.0.0.5 port 4660 to 10.0.0.9 port 53. *)
Definition sample_frame : list Z :=
  [2; 0; 0; 0; 0; 1; 2; 0; 0; 0; 0; 2; 8; 0] ++
  [69; 0; 0; 40; 0; 1; 64; 0; 64; 17; 0; 0; 10; 0; 0; 5; 10; 0; 0; 9] ++
  [18; 52; 0; 53; 0; 20; 0; 0] ++ [0; 7; 1; 0; 0; 1; 0; 0; 0; 0; 0; 0].

Lemma sample_frame_bytes : bytes sample_frame.
Proof. unfold bytes, sample_frame. cbn. repeat constructor; lia. Qed.

Definition sample_packet : PacketMetadata := {|
  timestamp := 5; wire_bytes := 54; source_ip := "10.0.0.5"; destination_ip := "10.0.0.9";
  source_port := Some 4660; destination_port := Some 53; protocol := Protocol.udp;
  application := Application.dns
|}.

Lemma dissect_safe_witness : exists p, dissect sample_frame 54 5 = Some p.
Proof. apply (dissect_safe sample_frame sample_frame_bytes 54 5). Defined.

Lemma dissect_consistent_witness :
  timestamp sample_packet = 5 /\ wire_bytes sample_packet = 54 /\
  transport_consistent sample_packet.
Proof.
  apply (dissect_consistent sample_frame sample_frame_bytes 54 5). vm_compute. reflexivity.
Defined.

Lemma dissect_hint_complete_witness : complete_datagram sample_frame.
Proof.
  apply (dissect_hint_complete sample_frame sample_frame_bytes 54 5 sample_packet).
  - vm_compute. reflexivity.
  - discriminate.
Defined.

(** The first fragment of a datagram that starts like the sample. *)
Definition sample_fragment : list Z :=
  [2; 0; 0; 0; 0; 1; 2; 0; 0; 0; 0; 2; 8; 0] ++
  [69; 0; 0; 40; 0; 1; 32; 0; 64; 17; 0; 0; 10; 0; 0; 5; 10; 0; 0; 9] ++
  [18; 52; 0; 53; 0; 20; 0; 0] ++ [0; 7; 1; 0; 0; 1; 0; 0; 0; 0; 0; 0].

Lemma sample_fragment_bytes : bytes sample_fragment.
Proof. unfold bytes, sample_fragment. cbn. repeat constructor; lia. Qed.

Lemma dissect_fragment_witness :
  exists p, dissect sample_fragment 54 5 = Some p /\ protocol p = Protocol.other /\ bare p.
Proof.
  apply (dissect_fragment sample_fragment sample_fragment_bytes 8192 54 5);
    [reflexivity | reflexivity | discriminate].
Defined.

Definition sample_answer : pcap_answer := {|
  next_result := 1; tv_sec := 7; tv_usec := 9; wire_len := 54; captured := sample_frame;
  next_error := ""
|}.

Lemma source_next_spec_witness :
  exists r s', source_next false 5000000000 (Some 2) sample_answer
                 {| dropped := None; last_stats := 0 |} = (Some r, s') /\
    exists p, r = Ok (Some p) /\ wire_bytes p = 54.
Proof.
  destruct (source_next_spec sample_frame sample_frame_bytes false 5000000000 (Some 2)
              sample_answer {| dropped := None; last_stats := 0 |} eq_refl) as (r & s' & Hr & _ & Hf).
  exists r, s'. split; [exact Hr|]. apply (proj2 (proj1 (Hf eq_refl))). reflexivity.
Defined.
