(* ===== verification/Frames.v ===== *)
(** * Well-formed frames, and what [dissect] makes of them

    An independent description of Ethernet II frames carrying UDP or TCP over IPv4 or IPv6
    (encoders from header fields to bytes), against which the dissector of Capture.v is
    shown to recover the fields; and the transparency of VLAN tags on arbitrary frames. *)
From S2P Require Import Prelude CppStd Inet Packet Capture.

(** ** Encoders *)

Definition be16 (n : Z) : list Z := [n / 256; n mod 256].

Definition addr_bytes (a : in_addr) : list Z := [octet1 a; octet2 a; octet3 a; octet4 a].

(** An 802.1Q or 802.1ad tag: the tag protocol identifier and the tag control information. *)
Record vlan_tag := { service_tag : bool; tci : Z }.
Definition tag_bytes (t : vlan_tag) : list Z :=
  (if service_tag t then [136; 168] else [129; 0]) ++ be16 (tci t).

Definition ethernet (macs : list Z) (tags : list vlan_tag) (ethertype : Z) (payload : list Z)
  : list Z := macs ++ concat (map tag_bytes tags) ++ be16 ethertype ++ payload.

(** The IP header fields the dissector does not look at come as bytes. *)
Record ipv4_header := {
  tos : Z; identification : list Z; dont_fragment : bool; ttl : Z; checksum4 : list Z;
  source4 : in_addr; destination4 : in_addr; options4 : list Z
}.
Record ipv6_header := {
  flow : list Z; hop_limit : Z; source6 : list Z; destination6 : list Z
}.
Inductive ip_header := IPv4 (h : ipv4_header) | IPv6 (h : ipv6_header).

Definition ipv4_bytes (h : ipv4_header) (proto : Z) (payload : list Z) : list Z :=
  [64 + (5 + len (options4 h) / 4); tos h] ++ be16 (20 + len (options4 h) + len payload) ++
  identification h ++ [if dont_fragment h then 64 else 0; 0] ++ [ttl h; proto] ++
  checksum4 h ++ addr_bytes (source4 h) ++ addr_bytes (destination4 h) ++ options4 h ++ payload.

Definition ipv6_bytes (h : ipv6_header) (proto : Z) (payload : list Z) : list Z :=
  [96] ++ flow h ++ be16 (len payload) ++ [proto; hop_limit h] ++ source6 h ++
  destination6 h ++ payload.

Definition ip_bytes (h : ip_header) (proto : Z) (payload : list Z) : list Z :=
  match h with IPv4 h => ipv4_bytes h proto payload | IPv6 h => ipv6_bytes h proto payload end.

Definition ethertype_of (h : ip_header) : Z :=
  match h with IPv4 _ => 2048 | IPv6 _ => 34525 end.

Definition udp_bytes (sport dport : Z) (checksum data : list Z) : list Z :=
  be16 sport ++ be16 dport ++ be16 (8 + len data) ++ checksum ++ data.

(** [seqack]: sequence and acknowledgement numbers; [rest]: flags to urgent pointer. *)
Definition tcp_bytes (sport dport : Z) (seqack rest options data : list Z) : list Z :=
  be16 sport ++ be16 dport ++ seqack ++ [16 * (5 + len options / 4)] ++ rest ++ options ++ data.

(** ** Field widths *)

Definition ip_wf (h : ip_header) (payload : list Z) : Prop :=
  match h with
  | IPv4 h =>
      length (identification h) = 2%nat /\ length (checksum4 h) = 2%nat /\
      (exists k, 0 <= k <= 10 /\ len (options4 h) = 4 * k) /\
      20 + len (options4 h) + len payload < 65536
  | IPv6 h =>
      length (flow h) = 3%nat /\ length (source6 h) = 16%nat /\
      length (destination6 h) = 16%nat /\ len payload < 65536
  end.

(** ** Expected results *)

Section Expected.
Context `{Inet}.

Definition ip_addresses (h : ip_header) (p : PacketMetadata) : PacketMetadata :=
  match h with
  | IPv4 h => with_addresses p (inet_ntop4 (source4 h)) (inet_ntop4 (destination4 h))
  | IPv6 h => with_addresses p (inet_ntop6 (source6 h)) (inet_ntop6 (destination6 h))
  end.

(** A DNS message header: opcode 0, and at least one question. *)
Definition dns_message (data : list Z) : bool :=
  match data with
  | _ :: _ :: flags :: _ :: q1 :: q2 :: _ :: _ :: _ :: _ :: _ :: _ :: _ =>
      (Z.land flags 120 =? 0) && (0 <? q1 * 256 + q2)
  | _ => false
  end.

(** A TLS record holding a client or server hello. *)
Definition tls_hello (data : list Z) : bool :=
  match data with
  | kind :: major :: minor :: _ :: _ :: handshake :: _ =>
      (kind =? 22) && (major =? 3) && (minor <=? 4) && ((handshake =? 1) || (handshake =? 2))
  | _ => false
  end.

Definition http_text (data : list Z) : bool :=
  existsb (starts_with data) http_prefixes.

Definition udp_hint (sport dport : Z) (data : list Z) : Application.t :=
  if ((sport =? 53) || (dport =? 53)) && dns_message data then Application.dns
  else Application.unknown.

Definition tcp_hint (data : list Z) : Application.t :=
  if tls_hello data then Application.tls
  else if http_text data then Application.http else Application.unknown.

Definition expected (h : ip_header) (ts size : Z) (pr : Protocol.t) (sport dport : Z)
    (a : Application.t) : PacketMetadata :=
  with_application (with_ports (with_protocol (ip_addresses h (blank_packet ts size)) pr)
    sport dport) a.
End Expected.

(** ** Relocation: a layer only depends on the bytes from its offset on *)

Lemma bind_ext {A B} (m : option A) (f g : A -> option B) :
  (forall x, m = Some x -> f x = g x) -> m ≫= f = m ≫= g.
Proof. destruct m; cbn; auto. Qed.

Section Relocate.
Context (h r : list Z).

Lemma byte_at_reloc i j : i = len h + j -> 0 <= j -> byte_at (h ++ r) i = byte_at r j.
Proof.
  intros -> Hj. unfold byte_at, len.
  rewrite (proj2 (Z.ltb_ge (Z.of_nat (length h) + j) 0)), (proj2 (Z.ltb_ge j 0)) by lia.
  rewrite lookup_app_r by lia. f_equal. lia.
Qed.

Lemma u16_at_reloc i j : i = len h + j -> 0 <= j -> u16_at (h ++ r) i = u16_at r j.
Proof.
  intros -> Hj. unfold u16_at. rewrite (byte_at_reloc (len h + j) j) by lia.
  by rewrite (byte_at_reloc (len h + j + 1) (j + 1)) by lia.
Qed.

Lemma in_addr_at_reloc i j :
  i = len h + j -> 0 <= j -> in_addr_at (h ++ r) i = in_addr_at r j.
Proof.
  intros -> Hj. unfold in_addr_at. rewrite (byte_at_reloc (len h + j) j) by lia.
  rewrite (byte_at_reloc (len h + j + 1) (j + 1)) by lia. rewrite (byte_at_reloc (len h + j + 2) (j + 2)) by lia.
  by rewrite (byte_at_reloc (len h + j + 3) (j + 3)) by lia.
Qed.

Lemma in6_addr_at_reloc i j :
  i = len h + j -> 0 <= j -> in6_addr_at (h ++ r) i = in6_addr_at r j.
Proof.
  intros -> Hj. unfold in6_addr_at. apply mapM_ext. intros k.
  apply byte_at_reloc; lia.
Qed.

Lemma view_reloc f l f' l' :
  f = len h + f' -> l = len h + l' -> 0 <= f' -> view (h ++ r) f l = view r f' l'.
Proof.
  intros -> -> Hf. unfold view. pose proof (len_nonneg h). rewrite len_app.
  rewrite (proj2 (Z.leb_le 0 (len h + f'))), (proj2 (Z.leb_le 0 f')) by lia.
  replace (len h + f' <=? len h + l') with (f' <=? l')
    by (destruct (Z.leb_spec f' l'), (Z.leb_spec (len h + f') (len h + l')); lia).
  replace (len h + l' <=? len h + len r) with (l' <=? len r)
    by (destruct (Z.leb_spec l' (len r)), (Z.leb_spec (len h + l') (len h + len r)); lia).
  destruct (_ && _); [|done].
  replace (Z.to_nat (len h + f')) with (length h + Z.to_nat f')%nat by (unfold len; lia).
  rewrite drop_app_add.
  by replace (len h + l' - (len h + f')) with (l' - f') by lia.
Qed.

Lemma len_h_r : len (h ++ r) = len h + len r.
Proof. apply len_app. Qed.
End Relocate.

(** Two comparisons that agree after shifting both sides. *)
Ltac same_test :=
  rewrite ?len_h_r; apply eq_bool_prop_intro; rewrite !Is_true_true;
  rewrite ?orb_true_iff, ?andb_true_iff, ?Z.ltb_lt, ?Z.leb_le; lia.

(** Advance both sides of an equation between a layer at [len h + o] and the layer at [o]. *)
Ltac reloc_step h r :=
  match goal with
  | |- (byte_at (h ++ r) ?i ≫= _) = (byte_at r ?j ≫= _) =>
      rewrite (byte_at_reloc h r i j) by lia; apply bind_ext; intros ? ?
  | |- (u16_at (h ++ r) ?i ≫= _) = (u16_at r ?j ≫= _) =>
      rewrite (u16_at_reloc h r i j) by lia; apply bind_ext; intros ? ?
  | |- (in_addr_at (h ++ r) ?i ≫= _) = (in_addr_at r ?j ≫= _) =>
      rewrite (in_addr_at_reloc h r i j) by lia; apply bind_ext; intros ? ?
  | |- (in6_addr_at (h ++ r) ?i ≫= _) = (in6_addr_at r ?j ≫= _) =>
      rewrite (in6_addr_at_reloc h r i j) by lia; apply bind_ext; intros ? ?
  | |- (view (h ++ r) ?i ?j ≫= _) = (view r ?f ?l ≫= _) =>
      rewrite (view_reloc h r i j f l) by lia; apply bind_ext; intros ? ?
  | |- (if ?c then _ else _) = (if ?d then _ else _) =>
      replace c with d by first [reflexivity | same_test];
      let E := fresh "E" in destruct d eqn:E; bool_simp
  | |- ?x = ?x => reflexivity
  end.

Section RelocateLayers.
Context `{Inet} (h r : list Z).

Lemma application_layer_reloc p s d pay pay' stop stop' :
  pay = len h + pay' -> stop = len h + stop' -> 0 <= pay' ->
  application_layer (h ++ r) p s d pay stop = application_layer r p s d pay' stop'.
Proof.
  intros -> -> Hp. unfold application_layer. reloc_step h r.
  destruct (decide _); repeat reloc_step h r.
Qed.

Lemma ports_reloc p o o' pay pay' stop stop' c :
  o = len h + o' -> pay = len h + pay' -> stop = len h + stop' -> 0 <= o' -> 0 <= pay' ->
  ports (h ++ r) p o pay stop c = ports r p o' pay' stop' c.
Proof.
  intros -> -> -> Ho Hp. unfold ports. repeat reloc_step h r.
  apply application_layer_reloc; lia.
Qed.

Lemma transport_layer_reloc p proto o o' stop stop' c :
  o = len h + o' -> stop = len h + stop' -> 0 <= o' ->
  transport_layer (h ++ r) p proto o stop c = transport_layer r p proto o' stop' c.
Proof.
  intros -> -> Ho. unfold transport_layer. repeat reloc_step h r.
  - apply ports_reloc; lia.
  - replace (len h + o' + x <=? len h + stop') with (o' + x <=? stop') by same_test.
    apply ports_reloc; lia.
Qed.

Lemma network_layer_reloc p type o o' :
  o = len h + o' -> 0 <= o' ->
  network_layer (h ++ r) p type o = network_layer r p type o'.
Proof.
  intros -> Ho. unfold network_layer, ipv4_layer, ipv6_layer.
  repeat reloc_step h r.
  - replace (len h + o' + x0 <=? len (h ++ r)) with (o' + x0 <=? len r) by same_test.
    apply transport_layer_reloc; rewrite ?len_h_r; lia.
  - replace (len h + o' + 40 + x0 <=? len (h ++ r)) with (o' + 40 + x0 <=? len r) by same_test.
    apply transport_layer_reloc; rewrite ?len_h_r; lia.
Qed.
End RelocateLayers.

(** ** Reading encoded fields *)

Definition tag_wf (t : vlan_tag) : Prop := in_u16 (tci t).

(** Neither tag protocol identifier of the loop. *)
Definition untagged (type : Z) : Prop := type <> 33024 /\ type <> 34984.

Lemma be16_value n : in_u16 n -> u16 (Z.lor (Z.shiftl (n / 256) 8) (n mod 256)) = n.
Proof. intros Hn. rewrite be16_bits, u16_id by dlia. dlia. Qed.

Lemma u16_at_be16 h n r : in_u16 n -> u16_at (h ++ be16 n ++ r) (len h) = Some n.
Proof.
  intros Hn. rewrite (u16_at_reloc _ _ _ 0) by lia. 
  change (Some (u16 (Z.lor (Z.shiftl (n / 256) 8) (n mod 256))) = Some n).
  by rewrite be16_value.
Qed.

Lemma u16_at_tag t r :
  u16_at (tag_bytes t ++ r) 0 = Some (if service_tag t then 34984 else 33024).
Proof. unfold tag_bytes. by destruct (service_tag t). Qed.

(** With or without tags, a type field follows the addresses. *)
Lemma first_type_defined tags rest type :
  u16_at rest 0 = Some type ->
  exists type0, u16_at (concat (map tag_bytes tags) ++ rest) 0 = Some type0.
Proof.
  intros Hr. destruct tags as [|t tags]; cbn [map concat app]; [eauto|].
  rewrite <- app_assoc, u16_at_tag. eauto.
Qed.

Lemma tag_bytes_length t : len (tag_bytes t) = 4.
Proof. unfold tag_bytes. by destruct (service_tag t). Qed.

Lemma u16_at_len b i x : u16_at b i = Some x -> 0 <= i -> i + 2 <= len b.
Proof.
  unfold u16_at, byte_at, len. intros E Hi.
  rewrite (proj2 (Z.ltb_ge (i + 1) 0)) in E by lia.
  apply bind_Some in E as (? & _ & E). apply bind_Some in E as (? & E & _).
  apply lookup_lt_Some in E. lia.
Qed.

Section Ethernet.
Context `{Inet}.

Lemma vlan_tags_untagged n b p type offset :
  untagged type -> vlan_tags n b p type offset = network_layer b p type offset.
Proof.
  intros [H1 H2]. destruct n; cbn [vlan_tags]; [done|].
  by rewrite (proj2 (Z.eqb_neq _ _) H1), (proj2 (Z.eqb_neq _ _) H2).
Qed.

Lemma vlan_tags_strip tags n h rest type0 type p :
  (length tags <= n)%nat -> u16_at rest 0 = Some type -> untagged type ->
  u16_at (concat (map tag_bytes tags) ++ rest) 0 = Some type0 ->
  vlan_tags n (h ++ concat (map tag_bytes tags) ++ rest) p type0 (len h + 2) =
  network_layer rest p type 2.
Proof.
  intros Hn Hrest Hun. pose proof (u16_at_len _ _ _ Hrest).
  revert n h type0 Hn. induction tags as [|t tags IH]; intros n h type0 Hn Htype;
    cbn [map concat app length] in *.
  - replace type0 with type by congruence. rewrite vlan_tags_untagged by done.
    apply network_layer_reloc; lia.
  - rewrite <- app_assoc in Htype |- *. rewrite u16_at_tag in Htype. injection Htype as <-.
    destruct n as [|n]; [lia|]. cbn [vlan_tags].
    replace ((_ =? 33024) || (_ =? 34984)) with true by by destruct (service_tag t).
    rewrite !len_app, tag_bytes_length.
    pose proof (len_nonneg (concat (map tag_bytes tags))).
    rewrite (proj2 (Z.ltb_ge _ (len h + 2 + 4))) by lia.
    destruct (first_type_defined tags rest type Hrest) as [type1 Ht1].
    rewrite app_assoc. rewrite (u16_at_reloc (h ++ tag_bytes t) _ _ 0)
      by (rewrite ?len_app, ?tag_bytes_length; lia).
    rewrite Ht1. cbn [mbind option_bind].
    replace (len h + 2 + 4) with (len (h ++ tag_bytes t) + 2)
      by (rewrite len_app, tag_bytes_length; lia).
    apply IH; [lia | done].
Qed.

Lemma dissect_strip macs tags rest type size ts :
  len macs = 12 -> (length tags <= 2)%nat -> u16_at rest 0 = Some type -> untagged type ->
  dissect (macs ++ concat (map tag_bytes tags) ++ rest) size ts =
  network_layer rest (blank_packet ts size) type 2.
Proof.
  intros Hm Ht Hrest Hun. pose proof (u16_at_len _ _ _ Hrest). unfold dissect.
  pose proof (len_nonneg (concat (map tag_bytes tags))).
  rewrite !len_app, (proj2 (Z.ltb_ge _ 14)) by lia.
  destruct (first_type_defined tags rest type Hrest) as [t0 Ht0].
  rewrite (u16_at_reloc macs _ 12 0), Ht0 by lia. cbn [mbind option_bind].
  replace 14 with (len macs + 2) by lia. by apply vlan_tags_strip.
Qed.

(** C30: VLAN transparency. On any frame whose own type is not a tag, inserting one or two
    well-formed 802.1Q / 802.1ad tags after the addresses does not change the result. *)
Theorem dissect_vlan_transparent macs tags rest type size ts :
  len macs = 12 -> (length tags <= 2)%nat -> u16_at rest 0 = Some type -> untagged type ->
  dissect (macs ++ concat (map tag_bytes tags) ++ rest) size ts = dissect (macs ++ rest) size ts.
Proof.
  intros Hm Ht Hrest Hun. rewrite (dissect_strip _ tags _ type) by done.
  symmetry. apply (dissect_strip macs [] rest type); cbn; done || lia.
Qed.

(** A frame with more than two tags is counted but never interpreted: whatever follows the
    tags, the result carries the timestamp and length only. *)
Theorem dissect_excess_tags macs t1 t2 t3 rest size ts :
  len macs = 12 ->
  dissect (macs ++ tag_bytes t1 ++ tag_bytes t2 ++ tag_bytes t3 ++ rest) size ts =
  Some (blank_packet ts size).
Proof.
  intros Hm. unfold dissect. pose proof (len_nonneg rest).
  rewrite !len_app, !tag_bytes_length, (proj2 (Z.ltb_ge _ 14)) by lia.
  rewrite (u16_at_reloc macs _ 12 0) by lia.
  rewrite u16_at_tag. cbn [mbind option_bind vlan_tags].
  replace ((_ =? 33024) || (_ =? 34984)) with true by by destruct (service_tag t1).
  rewrite !len_app, !tag_bytes_length, (proj2 (Z.ltb_ge _ (14 + 4))) by lia.
  rewrite !(app_assoc macs), (u16_at_reloc (macs ++ tag_bytes t1) _ (14 + 2) 0)
    by (rewrite ?len_app, ?tag_bytes_length; lia).
  rewrite u16_at_tag. cbn [mbind option_bind vlan_tags].
  replace ((_ =? 33024) || (_ =? 34984)) with true by by destruct (service_tag t2).
  rewrite (proj2 (Z.ltb_ge _ (14 + 4 + 4))) by lia.
  rewrite !(app_assoc (macs ++ tag_bytes t1)),
    (u16_at_reloc ((macs ++ tag_bytes t1) ++ tag_bytes t2) _ (14 + 4 + 2) 0)
    by (rewrite ?len_app, ?tag_bytes_length; lia).
  rewrite u16_at_tag. cbn [mbind option_bind].
  unfold network_layer. by destruct (service_tag t3).
Qed.
End Ethernet.

(** ** Transport segments *)

Section Segments.
Context `{Inet}.

Lemma with_application_same p :
  application p = Application.unknown -> with_application p Application.unknown = p.
Proof. destruct p; cbn. by intros ->. Qed.

Lemma view_data data t : view (data ++ t) 0 (len data) = Some data.
Proof.
  unfold view. pose proof (len_nonneg data). pose proof (len_nonneg t).
  rewrite len_app, !(proj2 (Z.leb_le _ _)) by lia. cbn [andb].
  rewrite Z.sub_0_r. unfold len. rewrite Nat2Z.id. change (Z.to_nat 0) with O.
  by rewrite drop_0, take_app_length.
Qed.

Lemma http_fold_hint data p :
  application p = Application.unknown ->
  fold_left (fun p prefix => if starts_with data prefix
                             then with_application p Application.http else p) http_prefixes p =
  with_application p (if http_text data then Application.http else Application.unknown).
Proof.
  intros Ha. unfold http_text, http_prefixes. cbn [fold_left existsb].
  repeat (destruct (starts_with data _); cbn [orb]); by rewrite ?with_application_same.
Qed.

Lemma application_tcp data t p s d :
  protocol p = Protocol.tcp -> application p = Application.unknown ->
  application_layer (data ++ t) p s d 0 (len data) = Some (with_application p (tcp_hint data)).
Proof.
  intros Hp Ha. unfold application_layer. rewrite view_data. cbn [mbind option_bind].
  rewrite decide_True, http_fold_hint by done. unfold tcp_hint.
  destruct data as [|b0 [|b1 [|b2 [|b3 [|b4 [|b5 data]]]]]]; try reflexivity.
  rewrite (proj2 (Z.ltb_ge (len (b0 :: b1 :: b2 :: b3 :: b4 :: b5 :: data)) 6))
    by (rewrite !len_cons; pose proof (len_nonneg data); lia).
  set (D := b0 :: b1 :: b2 :: b3 :: b4 :: b5 :: data).
  change (byte_at (D ++ t) 0) with (Some b0). change (byte_at (D ++ t) (0 + 1)) with (Some b1).
  change (byte_at (D ++ t) (0 + 2)) with (Some b2). change (byte_at (D ++ t) (0 + 5)) with (Some b5).
  cbn [mbind option_bind]. cbn [tls_hello D].
  destruct (b0 =? 22), (b1 =? 3), (b2 <=? 4), ((b5 =? 1) || (b5 =? 2)); done.
Qed.

Lemma application_udp data t p s d :
  bytes data -> protocol p = Protocol.udp -> application p = Application.unknown ->
  application_layer (data ++ t) p s d 0 (len data) = Some (with_application p (udp_hint s d data)).
Proof.
  intros Hb Hp Ha. unfold application_layer. rewrite view_data. cbn [mbind option_bind].
  rewrite decide_False by congruence. unfold udp_hint.
  destruct ((s =? 53) || (d =? 53)); cbn [andb]; [|by rewrite with_application_same].
  destruct data as [|b0 [|b1 [|b2 [|b3 [|b4 [|b5 [|b6 [|b7 [|b8 [|b9 [|b10 [|b11 data]]]]]]]]]]]];
    try (by rewrite with_application_same).
  set (D := b0 :: _). rewrite (proj2 (Z.leb_le 12 (len D)))
    by (subst D; rewrite !len_cons; pose proof (len_nonneg data); lia).
  change (byte_at (D ++ t) (0 + 2)) with (Some b2).
  change (u16_at (D ++ t) (0 + 4)) with (Some (u16 (Z.lor (Z.shiftl b4 8) b5))).
  unfold bytes in Hb.
  repeat match goal with H : Forall _ (_ :: _) |- _ => apply Forall_cons in H as [? H] end.
  rewrite be16_bits, u16_id by lia. cbn [mbind option_bind dns_message D].
  destruct (Z.land b2 120 =? 0); cbn [negb andb]; [|by rewrite with_application_same].
  by destruct (0 <? _); [|rewrite with_application_same].
Qed.

Lemma transport_udp p sport dport checksum data trailer :
  bare p -> in_u16 sport -> in_u16 dport -> length checksum = 2%nat -> bytes data ->
  8 + len data < 65536 ->
  transport_layer (udp_bytes sport dport checksum data ++ trailer) p 17 0 (8 + len data) true =
  Some (with_application (with_ports (with_protocol p Protocol.udp) sport dport)
          (udp_hint sport dport data)).
Proof.
  intros (Hs & Hd & Ha) Hsp Hdp Hc Hb Hl. pose proof (len_nonneg data).
  destruct checksum as [|c0 [|c1 [|]]]; try discriminate Hc.
  unfold udp_bytes, be16. cbn [app]. set (L := 8 + len data) in *.
  set (hdr := [sport / 256; sport mod 256; dport / 256; dport mod 256; L / 256; L mod 256; c0; c1]).
  change (_ :: _ :: _ :: _ :: _ :: _ :: _ :: _ :: data ++ trailer) with (hdr ++ data ++ trailer).
  unfold transport_layer. change (17 =? 6) with false. change (17 =? 17) with true.
  rewrite (proj2 (Z.ltb_ge L (0 + 8))) by lia.
  change (u16_at (hdr ++ data ++ trailer) (0 + 4))
    with (Some (u16 (Z.lor (Z.shiftl (L / 256) 8) (L mod 256)))).
  rewrite be16_value by lia. cbn [mbind option_bind].
  rewrite (proj2 (Z.ltb_ge L 8)), (proj2 (Z.leb_le (0 + L) L)) by lia.
  rewrite Z.min_l by lia. unfold ports.
  change (u16_at (hdr ++ data ++ trailer) 0)
    with (Some (u16 (Z.lor (Z.shiftl (sport / 256) 8) (sport mod 256)))).
  change (u16_at (hdr ++ data ++ trailer) (0 + 2))
    with (Some (u16 (Z.lor (Z.shiftl (dport / 256) 8) (dport mod 256)))).
  rewrite !be16_value by done. cbn [mbind option_bind andb negb].
  rewrite (application_layer_reloc hdr _ _ _ _ _ 0 _ (len data)) by (change (len hdr) with 8; lia).
  by apply application_udp.
Qed.

Lemma transport_tcp p sport dport seqack rest options data trailer k :
  bare p -> in_u16 sport -> in_u16 dport -> length seqack = 8%nat -> length rest = 7%nat ->
  0 <= k <= 10 -> len options = 4 * k ->
  let segment := tcp_bytes sport dport seqack rest options data in
  transport_layer (segment ++ trailer) p 6 0 (len segment) true =
  Some (with_application (with_ports (with_protocol p Protocol.tcp) sport dport)
          (tcp_hint data)).
Proof.
  intros (Hs & Hd & Ha) Hsp Hdp Hsa Hr Hk Ho. pose proof (len_nonneg data).
  destruct seqack as [|s0 [|s1 [|s2 [|s3 [|s4 [|s5 [|s6 [|s7 [|]]]]]]]]]; try discriminate Hsa.
  destruct rest as [|r0 [|r1 [|r2 [|r3 [|r4 [|r5 [|r6 [|]]]]]]]]; try discriminate Hr.
  set (doff := 16 * (5 + 4 * k / 4)).
  set (hdr := [sport / 256; sport mod 256; dport / 256; dport mod 256; s0; s1; s2; s3; s4; s5;
               s6; s7; doff; r0; r1; r2; r3; r4; r5; r6]).
  cbn zeta. assert (tcp_bytes sport dport [s0; s1; s2; s3; s4; s5; s6; s7]
    [r0; r1; r2; r3; r4; r5; r6] options data = hdr ++ options ++ data) as ->
    by (unfold tcp_bytes, be16; by rewrite Ho).
  rewrite !len_app, Ho, <- (app_assoc hdr), <- (app_assoc options). change (len hdr) with 20.
  unfold transport_layer. change (6 =? 6) with true.
  rewrite (proj2 (Z.ltb_ge _ (0 + 20))) by lia.
  change (byte_at (hdr ++ options ++ data ++ trailer) (0 + 12)) with (Some doff).
  cbn [mbind option_bind].
  assert (Z.shiftr doff 4 * 4 = 20 + 4 * k) as ->
    by (rewrite shiftr_8 by lia; change (2 ^ 4) with 16; subst doff; dlia).
  rewrite (proj2 (Z.ltb_ge (20 + 4 * k) 20)) by lia.
  rewrite (proj2 (Z.ltb_ge _ (0 + (20 + 4 * k)))) by lia. cbn [orb]. unfold ports.
  change (u16_at (hdr ++ options ++ data ++ trailer) 0)
    with (Some (u16 (Z.lor (Z.shiftl (sport / 256) 8) (sport mod 256)))).
  change (u16_at (hdr ++ options ++ data ++ trailer) (0 + 2))
    with (Some (u16 (Z.lor (Z.shiftl (dport / 256) 8) (dport mod 256)))).
  rewrite !be16_value by done. cbn [mbind option_bind negb].
  rewrite app_assoc, (application_layer_reloc (hdr ++ options) _ _ _ _ _ 0 _ (len data))
    by (rewrite ?len_app, ?Ho; change (len hdr) with 20; lia).
  by apply application_tcp.
Qed.
End Segments.

(** ** IP headers and whole frames *)

Lemma version_ihl n : 5 <= n <= 15 -> Z.shiftr (64 + n) 4 = 4 /\ Z.land (64 + n) 15 = n.
Proof.
  intros Hn. rewrite shiftr_8 by lia. change 15 with (2 ^ 4 - 1).
  rewrite land_low_bits by lia. change (2 ^ 4) with 16. dlia.
Qed.

Section Datagrams.
Context `{Inet}.

Lemma ipv4_layer_bytes h proto payload trailer p :
  ip_wf (IPv4 h) payload ->
  ipv4_layer (ipv4_bytes h proto payload ++ trailer) p 0 =
  transport_layer (payload ++ trailer) (ip_addresses (IPv4 h) p) proto 0 (len payload) true.
Proof.
  intros (Hid & Hck & (k & Hk & Ho) & Htot).
  pose proof (len_nonneg payload). pose proof (len_nonneg trailer).
  destruct h as [tos_ id df ttl_ ck src dst opts].
  cbn [identification checksum4 options4] in *.
  destruct id as [|i0 [|i1 [|]]]; try discriminate Hid.
  destruct ck as [|c0 [|c1 [|]]]; try discriminate Hck.
  destruct src as [s1 s2 s3 s4], dst as [d1 d2 d3 d4].
  set (T := 20 + len opts + len payload) in *. set (V := 64 + (5 + len opts / 4)).
  set (hdr := [V; tos_; T / 256; T mod 256; i0; i1; if df then 64 else 0; 0; ttl_; proto; c0; c1;
               s1; s2; s3; s4; d1; d2; d3; d4]).
  assert (ipv4_bytes {| tos := tos_; identification := [i0; i1]; dont_fragment := df; ttl := ttl_;
    checksum4 := [c0; c1]; source4 := InAddr s1 s2 s3 s4; destination4 := InAddr d1 d2 d3 d4;
    options4 := opts |} proto payload = hdr ++ opts ++ payload) as -> by done.
  rewrite <- (app_assoc hdr), <- (app_assoc opts).
  unfold ipv4_layer. rewrite !len_app. change (len hdr) with 20.
  rewrite (proj2 (Z.ltb_ge _ (0 + 20))) by lia.
  change (byte_at (hdr ++ opts ++ payload ++ trailer) 0) with (Some V).
  destruct (version_ihl (5 + len opts / 4)) as [Hv Hi]; [dlia|]. fold V in Hv, Hi.
  cbn [mbind option_bind]. rewrite Hv, Hi. cbn [Z.eqb Pos.eqb negb].
  change (u16_at (hdr ++ opts ++ payload ++ trailer) (0 + 2))
    with (Some (u16 (Z.lor (Z.shiftl (T / 256) 8) (T mod 256)))).
  rewrite be16_value by lia. cbn [mbind option_bind].
  replace ((5 + len opts / 4) * 4) with (20 + len opts) by dlia.
  rewrite (proj2 (Z.ltb_ge (20 + len opts) 20)), (proj2 (Z.ltb_ge T (20 + len opts))),
    (proj2 (Z.ltb_ge _ (0 + (20 + len opts)))), (proj2 (Z.leb_le (0 + T) _)), (Z.min_r _ (0 + T))
    by lia. cbn [orb].
  change (in_addr_at (hdr ++ opts ++ payload ++ trailer) (0 + 12)) with (Some (InAddr s1 s2 s3 s4)).
  change (in_addr_at (hdr ++ opts ++ payload ++ trailer) (0 + 16)) with (Some (InAddr d1 d2 d3 d4)).
  change (byte_at (hdr ++ opts ++ payload ++ trailer) (0 + 9)) with (Some proto).
  change (u16_at (hdr ++ opts ++ payload ++ trailer) (0 + 6))
    with (Some (u16 (Z.lor (Z.shiftl (if df then 64 else 0) 8) 0))).
  cbn [mbind option_bind].
  replace (Z.land (u16 (Z.lor (Z.shiftl (if df then 64 else 0) 8) 0)) 16383) with 0
    by by destruct df.
  cbn [Z.eqb negb]. rewrite app_assoc.
  apply (transport_layer_reloc (hdr ++ opts)); rewrite ?len_app; change (len hdr) with 20; lia.
Qed.

Lemma ipv6_layer_bytes h proto payload trailer p :
  ip_wf (IPv6 h) payload ->
  ipv6_layer (ipv6_bytes h proto payload ++ trailer) p 0 =
  transport_layer (payload ++ trailer) (ip_addresses (IPv6 h) p) proto 0 (len payload) true.
Proof.
  intros (Hf & Hs & Hd & Hlen).
  pose proof (len_nonneg payload). pose proof (len_nonneg trailer).
  destruct h as [fl hop src dst]. cbn [flow source6 destination6] in *.
  destruct fl as [|f0 [|f1 [|f2 [|]]]]; try discriminate Hf.
  destruct src as [|s0 [|s1 [|s2 [|s3 [|s4 [|s5 [|s6 [|s7 [|s8 [|s9 [|s10 [|s11 [|s12 [|s13 [|s14
    [|s15 [|]]]]]]]]]]]]]]]]]; try discriminate Hs.
  destruct dst as [|d0 [|d1 [|d2 [|d3 [|d4 [|d5 [|d6 [|d7 [|d8 [|d9 [|d10 [|d11 [|d12 [|d13 [|d14
    [|d15 [|]]]]]]]]]]]]]]]]]; try discriminate Hd.
  set (L := len payload) in *.
  set (hdr := [96; f0; f1; f2; L / 256; L mod 256; proto; hop;
    s0; s1; s2; s3; s4; s5; s6; s7; s8; s9; s10; s11; s12; s13; s14; s15;
    d0; d1; d2; d3; d4; d5; d6; d7; d8; d9; d10; d11; d12; d13; d14; d15]).
  match goal with |- ipv6_layer (?f ++ _) _ _ = _ => change f with (hdr ++ payload) end.
  rewrite <- app_assoc. unfold ipv6_layer. rewrite !len_app. change (len hdr) with 40. fold L.
  rewrite (proj2 (Z.ltb_ge _ (0 + 40))) by lia.
  change (byte_at (hdr ++ payload ++ trailer) 0) with (Some 96). cbn [mbind option_bind].
  change (negb (Z.shiftr 96 4 =? 6)) with false. cbn iota.
  change (u16_at (hdr ++ payload ++ trailer) (0 + 4))
    with (Some (u16 (Z.lor (Z.shiftl (L / 256) 8) (L mod 256)))).
  rewrite be16_value by lia. cbn [mbind option_bind].
  rewrite (proj2 (Z.leb_le (0 + 40 + L) _)), (Z.min_r _ (0 + 40 + L)) by lia.
  change (in6_addr_at (hdr ++ payload ++ trailer) (0 + 8)) with
    (Some [s0; s1; s2; s3; s4; s5; s6; s7; s8; s9; s10; s11; s12; s13; s14; s15]).
  change (in6_addr_at (hdr ++ payload ++ trailer) (0 + 24)) with
    (Some [d0; d1; d2; d3; d4; d5; d6; d7; d8; d9; d10; d11; d12; d13; d14; d15]).
  change (byte_at (hdr ++ payload ++ trailer) (0 + 6)) with (Some proto).
  cbn [mbind option_bind].
  apply (transport_layer_reloc hdr); change (len hdr) with 40; lia.
Qed.

(** A whole frame is its datagram's transport segment, with the addresses filled in. *)
Lemma dissect_ip macs tags h proto payload trailer size ts :
  len macs = 12 -> (length tags <= 2)%nat -> ip_wf h payload ->
  dissect (ethernet macs tags (ethertype_of h) (ip_bytes h proto payload ++ trailer)) size ts =
  transport_layer (payload ++ trailer) (ip_addresses h (blank_packet ts size)) proto 0
    (len payload) true.
Proof.
  intros Hm Ht Hh. unfold ethernet.
  assert (in_u16 (ethertype_of h)) by (destruct h; cbn; lia).
  rewrite (dissect_strip _ _ _ (ethertype_of h)); [|done|done| |by destruct h].
  2: { change 0 with (len []). by apply (u16_at_be16 []). }
  rewrite (network_layer_reloc (be16 (ethertype_of h)) _ _ _ 2 0) by done.
  unfold network_layer. destruct h as [h|h]; cbn [ethertype_of ip_bytes Z.eqb Pos.eqb].
  - by apply ipv4_layer_bytes.
  - by apply ipv6_layer_bytes.
Qed.

Lemma ip_addresses_bare h p : bare p -> bare (ip_addresses h p).
Proof. by destruct h. Qed.

(** C32: a well-formed UDP datagram over IPv4 (with options) or IPv6, behind up to two VLAN
    tags and followed by any padding, is recovered exactly: addresses, ports, protocol, and the
    DNS hint just when a port is 53 and the payload starts with a standard query header. *)
Theorem dissect_udp macs tags h sport dport checksum data trailer size ts :
  len macs = 12 -> (length tags <= 2)%nat ->
  in_u16 sport -> in_u16 dport -> length checksum = 2%nat -> bytes data ->
  8 + len data < 65536 -> ip_wf h (udp_bytes sport dport checksum data) ->
  dissect (ethernet macs tags (ethertype_of h)
             (ip_bytes h 17 (udp_bytes sport dport checksum data) ++ trailer)) size ts =
  Some (expected h ts size Protocol.udp sport dport (udp_hint sport dport data)).
Proof.
  intros Hm Ht Hs Hd Hc Hb Hl Hh. rewrite dissect_ip by done.
  replace (len (udp_bytes sport dport checksum data)) with (8 + len data).
  - apply transport_udp; auto. by apply ip_addresses_bare.
  - unfold udp_bytes. rewrite !len_app. unfold be16, len. cbn [length]. lia.
Qed.

(** C31: a well-formed TCP segment (with options) over IPv4 or IPv6, behind up to two VLAN tags
    and followed by any padding, is recovered exactly, with the TLS hint for a hello record
    and the HTTP hint for text that starts with one of the seven prefixes. *)
Theorem dissect_tcp macs tags h sport dport seqack rest options data k trailer size ts :
  len macs = 12 -> (length tags <= 2)%nat ->
  in_u16 sport -> in_u16 dport -> length seqack = 8%nat -> length rest = 7%nat ->
  0 <= k <= 10 -> len options = 4 * k ->
  ip_wf h (tcp_bytes sport dport seqack rest options data) ->
  dissect (ethernet macs tags (ethertype_of h)
             (ip_bytes h 6 (tcp_bytes sport dport seqack rest options data) ++ trailer)) size ts =
  Some (expected h ts size Protocol.tcp sport dport (tcp_hint data)).
Proof.
  intros. rewrite dissect_ip by done.
  eapply transport_tcp; eauto. by apply ip_addresses_bare.
Qed.
End Datagrams.

(** ** Witnesses *)

Definition sample_macs : list Z := [2; 0; 0; 0; 0; 1; 2; 0; 0; 0; 0; 2].
Definition sample_tag : vlan_tag := {| service_tag := false; tci := 100 |}.
Definition sample_ipv4 : ip_header := IPv4 {|
  tos := 0; identification := [0; 1]; dont_fragment := true; ttl := 64; checksum4 := [0; 0];
  source4 := InAddr 10 0 0 5; destination4 := InAddr 10 0 0 9; options4 := [1; 1; 1; 1] |}.
Definition sample_ipv6 : ip_header := IPv6 {|
  flow := [0; 0; 0]; hop_limit := 64; source6 := replicate 16 1; destination6 := replicate 16 2 |}.
Definition sample_query : list Z := [0; 7; 1; 0; 0; 1; 0; 0; 0; 0; 0; 0].
Definition sample_hello : list Z := [22; 3; 1; 0; 2; 1; 0].

Lemma dissect_vlan_transparent_witness :
  dissect (sample_macs ++ concat (map tag_bytes [sample_tag]) ++ [8; 6; 0; 1]) 20 5 =
  dissect (sample_macs ++ [8; 6; 0; 1]) 20 5.
Proof.
  apply (dissect_vlan_transparent sample_macs [sample_tag] [8; 6; 0; 1] 2054 20 5);
    [reflexivity | cbn; lia | reflexivity | split; discriminate].
Defined.

Lemma dissect_excess_tags_witness :
  dissect (sample_macs ++ tag_bytes sample_tag ++ tag_bytes sample_tag ++ tag_bytes sample_tag ++
           [8; 0; 69]) 64 5 = Some (blank_packet 5 64).
Proof.
  apply (dissect_excess_tags sample_macs sample_tag sample_tag sample_tag [8; 0; 69]).
  reflexivity.
Defined.

(** A DNS query in a tagged frame with IPv4 options and padding. *)
Lemma dissect_udp_witness :
  dissect (ethernet sample_macs [sample_tag] 2048
             (ip_bytes sample_ipv4 17 (udp_bytes 4660 53 [0; 0] sample_query) ++ [0; 0])) 64 5 =
  Some (expected sample_ipv4 5 64 Protocol.udp 4660 53 Application.dns).
Proof.
  apply (dissect_udp sample_macs [sample_tag] sample_ipv4 4660 53 [0; 0] sample_query [0; 0] 64 5);
    try (cbn; lia); try reflexivity.
  - unfold bytes, sample_query. repeat constructor; lia.
  - cbn. split_and!; try done. exists 1. split; [lia|done].
Defined.

(** A TLS hello over IPv6. *)
Lemma dissect_tcp_witness :
  dissect (ethernet sample_macs [] 34525
             (ip_bytes sample_ipv6 6
                (tcp_bytes 40000 443 (replicate 8 0) (replicate 7 0) [] sample_hello) ++ [])) 81 5 =
  Some (expected sample_ipv6 5 81 Protocol.tcp 40000 443 Application.tls).
Proof.
  apply (dissect_tcp sample_macs [] sample_ipv6 40000 443 (replicate 8 0) (replicate 7 0) []
           sample_hello 0 [] 81 5); try (cbn; lia); try reflexivity.
  cbn. split_and!; try done.
Defined.
