(* ===== verification/Engine.v ===== *)
(** * The capture engine (include/magicbox/engine.hpp, src/engine.cpp)

    [CaptureEngine] is the state the mutex protects, with the program counter of the worker
    thread.  Each critical section of the code is one atomic function; [step] interleaves the
    worker's sections with the calls of the control thread.  The ghost fields of [world] record
    what the source delivered and what was drained, so that the counters and the queue can be
    compared with the history. *)
From stdpp Require Import relations.
From S2P Require Import Prelude CppStd Packet.

(** ** Data *)

Record CaptureSnapshot := {
  packets : Z;
  snap_wire_bytes : Z;
  metadata_dropped : Z;
  kernel_dropped : option Z;
  queued : Z;
  running : bool;
  error : string
}.

Definition zero_snapshot : CaptureSnapshot := {|
  packets := 0; snap_wire_bytes := 0; metadata_dropped := 0; kernel_dropped := None; queued := 0;
  running := false; error := ""
|}.

(** Where the worker thread is in [run]: [Loop] before the stop test, [Next] in
    [source_->next], [Commit] between the return of [next] and the lock, [Failing] in a catch
    clause, [Finishing] before the last lock, [Exited] after it. *)
Inductive worker_pc :=
| NoThread
| Loop
| Next
| Commit (packet : option PacketMetadata)
| Failing (message : string)
| Finishing
| Exited.

#[export] Instance worker_pc_eq_dec : EqDecision worker_pc.
Proof. solve_decision. Defined.

Record CaptureEngine := {
  capacity : Z;
  queue : list PacketMetadata;
  counters : CaptureSnapshot;
  started : bool;
  stop_requested : bool;
  pc : worker_pc;
  joined : bool
}.

(** ** Field updates *)

Definition set_running (c : CaptureSnapshot) (b : bool) : CaptureSnapshot := {|
  packets := packets c; snap_wire_bytes := snap_wire_bytes c;
  metadata_dropped := metadata_dropped c; kernel_dropped := kernel_dropped c;
  queued := queued c; running := b; error := error c |}.

Definition set_error (c : CaptureSnapshot) (message : string) : CaptureSnapshot := {|
  packets := packets c; snap_wire_bytes := snap_wire_bytes c;
  metadata_dropped := metadata_dropped c; kernel_dropped := kernel_dropped c;
  queued := queued c; running := running c; error := message |}.

Definition set_kernel_dropped (c : CaptureSnapshot) (d : option Z) : CaptureSnapshot := {|
  packets := packets c; snap_wire_bytes := snap_wire_bytes c;
  metadata_dropped := metadata_dropped c; kernel_dropped := d;
  queued := queued c; running := running c; error := error c |}.

(** [++counters_.packets; counters_.wire_bytes += packet->wire_bytes;] on [uint64_t]. *)
Definition count_packet (c : CaptureSnapshot) (p : PacketMetadata) : CaptureSnapshot := {|
  packets := u64 (packets c + 1); snap_wire_bytes := u64 (snap_wire_bytes c + wire_bytes p);
  metadata_dropped := metadata_dropped c; kernel_dropped := kernel_dropped c;
  queued := queued c; running := running c; error := error c |}.

Definition count_dropped (c : CaptureSnapshot) : CaptureSnapshot := {|
  packets := packets c; snap_wire_bytes := snap_wire_bytes c;
  metadata_dropped := u64 (metadata_dropped c + 1); kernel_dropped := kernel_dropped c;
  queued := queued c; running := running c; error := error c |}.

Definition with_counters (e : CaptureEngine) (c : CaptureSnapshot) (l : worker_pc)
  : CaptureEngine := {|
  capacity := capacity e; queue := queue e; counters := c; started := started e;
  stop_requested := stop_requested e; pc := l; joined := joined e |}.

Definition with_queue (e : CaptureEngine) (q : list PacketMetadata) : CaptureEngine := {|
  capacity := capacity e; queue := q; counters := counters e; started := started e;
  stop_requested := stop_requested e; pc := pc e; joined := joined e |}.

Definition at_pc (e : CaptureEngine) (l : worker_pc) : CaptureEngine :=
  with_counters e (counters e) l.

(** ** The control thread's operations *)

Definition construct (has_source : bool) (cap : Z) : result CaptureEngine :=
  if negb has_source || (cap =? 0)
  then throw_invalid "Capture requires a source and positive queue capacity"
  else Ok {| capacity := cap; queue := []; counters := zero_snapshot; started := false;
             stop_requested := false; pc := NoThread; joined := false |}.

(** [spawn] is the outcome of creating the [std::jthread]. *)
Definition start (spawn : result unit) (e : CaptureEngine) : result unit * CaptureEngine :=
  if started e then (Throw (Exn logic_error "Capture engine can only be started once"), e)
  else
    let running_counters := set_running (counters e) true in
    match spawn with
    | Ok _ => (Ok tt, {| capacity := capacity e; queue := queue e; counters := running_counters;
                         started := true; stop_requested := false; pc := Loop; joined := false |})
    | Throw exn => (Throw exn, with_counters e (set_running running_counters false) (pc e))
    end.

(** [worker_.joinable()]: a thread was created and not joined yet. *)
Definition joinable (e : CaptureEngine) : bool := started e && negb (joined e).

Definition request_stop (e : CaptureEngine) : CaptureEngine :=
  if joinable e then
    {| capacity := capacity e; queue := queue e; counters := counters e; started := started e;
       stop_requested := true; pc := pc e; joined := joined e |}
  else e.

(** [worker_.join()] returns once the worker has exited; [None]: it blocks. *)
Definition join (e : CaptureEngine) : option CaptureEngine :=
  if joinable e then
    match pc e with
    | Exited => Some {| capacity := capacity e; queue := queue e; counters := counters e;
                        started := started e; stop_requested := stop_requested e; pc := pc e;
                        joined := true |}
    | _ => None
    end
  else Some e.

Definition snapshot (e : CaptureEngine) : CaptureSnapshot :=
  let c := counters e in {|
  packets := packets c; snap_wire_bytes := snap_wire_bytes c;
  metadata_dropped := metadata_dropped c; kernel_dropped := kernel_dropped c;
  queued := Z.of_nat (length (queue e)); running := running c; error := error c |}.

(** The loop of [drain]: [count] times, move the front of the queue to the result. *)
Fixpoint drain_loop (count : nat) (q acc : list PacketMetadata)
  : list PacketMetadata * list PacketMetadata :=
  match count, q with
  | S n, p :: q' => drain_loop n q' (acc ++ [p])
  | _, _ => (acc, q)
  end.

Definition drain (limit : Z) (e : CaptureEngine) : list PacketMetadata * CaptureEngine :=
  let count := Z.min limit (Z.of_nat (length (queue e))) in
  let '(result, q) := drain_loop (Z.to_nat count) (queue e) [] in
  (result, with_queue e q).

(** ** The worker's sections *)

(** The [while] test. *)
Definition worker_test (e : CaptureEngine) : CaptureEngine :=
  at_pc e (if stop_requested e then Finishing else Next).

(** [source_->next(stop)] returns, or throws: [None] is an exception that is not a
    [std::exception]. *)
Definition exception_text (what : option string) : string :=
  match what with Some message => message | None => "Unknown capture failure" end.

Definition worker_next (outcome : option PacketMetadata + option string) (e : CaptureEngine)
  : CaptureEngine :=
  match outcome with
  | inl packet => at_pc e (Commit packet)
  | inr what => at_pc e (Failing (exception_text what))
  end.

(** The locked body of the loop. [drops] is the outcome of [kernel_drops]; [push] that of
    [push_back], which may fail to allocate. *)
Definition worker_commit (drops : option Z + option string) (push : option (option string))
    (packet : option PacketMetadata) (e : CaptureEngine) : CaptureEngine :=
  match drops with
  | inr what => at_pc e (Failing (exception_text what))
  | inl d =>
      let c := set_kernel_dropped (counters e) d in
      match packet with
      | None => with_counters e c Loop
      | Some p =>
          let c := count_packet c p in
          if Z.of_nat (length (queue e)) =? capacity e
          then with_counters e (count_dropped c) Loop
          else match push with
               | Some what => with_counters e c (Failing (exception_text what))
               | None => with_counters (with_queue e (queue e ++ [p])) c Loop
               end
      end
  end.

(** The catch clauses, then the last section. *)
Definition worker_fail (message : string) (e : CaptureEngine) : CaptureEngine :=
  with_counters e (set_error (counters e) message) Finishing.

Definition worker_finish (e : CaptureEngine) : CaptureEngine :=
  with_counters e (set_running (counters e) false) Exited.

(** ** Executions *)

(** Ghost history: the packets counted, those queued, those whose [push_back] failed, and those
    drained. *)
Record world := { eng : CaptureEngine; seen : list PacketMetadata; accepted : list PacketMetadata;
                  abandoned : list PacketMetadata; drained : list PacketMetadata }.

Definition init_world (e : CaptureEngine) : world :=
  {| eng := e; seen := []; accepted := []; abandoned := []; drained := [] |}.

(** The part of [world] only the worker extends. *)
Definition commit_world (drops : option Z + option string) (push : option (option string))
    (packet : option PacketMetadata) (w : world) : world :=
  let e' := worker_commit drops push packet (eng w) in
  match drops, packet with
  | inl _, Some p => {|
      eng := e'; seen := seen w ++ [p];
      accepted := if decide (length (queue e') = length (queue (eng w))) then accepted w
                  else accepted w ++ [p];
      abandoned := match pc e' with Failing _ => abandoned w ++ [p] | _ => abandoned w end;
      drained := drained w |}
  | _, _ => {| eng := e'; seen := seen w; accepted := accepted w; abandoned := abandoned w;
               drained := drained w |}
  end.

Definition on_engine (f : CaptureEngine -> CaptureEngine) (w : world) : world :=
  {| eng := f (eng w); seen := seen w; accepted := accepted w; abandoned := abandoned w;
     drained := drained w |}.

Inductive worker_step : world -> world -> Prop :=
| ws_test w : pc (eng w) = Loop -> worker_step w (on_engine worker_test w)
| ws_next w outcome :
    pc (eng w) = Next -> worker_step w (on_engine (worker_next outcome) w)
| ws_commit w drops push packet :
    pc (eng w) = Commit packet -> worker_step w (commit_world drops push packet w)
| ws_fail w message :
    pc (eng w) = Failing message -> worker_step w (on_engine (worker_fail message) w)
| ws_finish w : pc (eng w) = Finishing -> worker_step w (on_engine worker_finish w).

Inductive control_step : world -> world -> Prop :=
| cs_start w spawn : control_step w (on_engine (fun e => (start spawn e).2) w)
| cs_request_stop w : control_step w (on_engine request_stop w)
| cs_join w e' : join (eng w) = Some e' -> control_step w (on_engine (fun _ => e') w)
| cs_drain w limit : 0 <= limit ->
    control_step w {| eng := (drain limit (eng w)).2; seen := seen w; accepted := accepted w;
                      abandoned := abandoned w; drained := drained w ++ (drain limit (eng w)).1 |}.

Definition step (w w' : world) : Prop := worker_step w w' \/ control_step w w'.

Definition reachable (w : world) : Prop :=
  exists cap e, 0 <= cap /\ construct true cap = Ok e /\ rtc step (init_world e) w.

(** ** The invariant *)

Definition total_bytes (l : list PacketMetadata) : Z := foldr (fun p n => wire_bytes p + n) 0 l.

(** The worker left its loop by an exception. *)
Definition failed_pc (l : worker_pc) : Prop :=
  match l with Failing _ | Finishing | Exited => True | _ => False end.

Definition active_pc (l : worker_pc) : bool :=
  match l with NoThread | Exited => false | _ => true end.

Record engine_inv (w : world) : Prop := {
  inv_fifo : accepted w = drained w ++ queue (eng w);
  inv_capacity : 0 < capacity (eng w) /\ Z.of_nat (length (queue (eng w))) <= capacity (eng w);
  inv_packets : packets (counters (eng w)) = u64 (Z.of_nat (length (seen w)));
  inv_bytes : snap_wire_bytes (counters (eng w)) = u64 (total_bytes (seen w));
  inv_sublist : accepted w `sublist_of` seen w;
  (** after a [push_back] that fails the worker ends *)
  inv_abandoned : abandoned w = [] \/ length (abandoned w) = 1%nat /\ failed_pc (pc (eng w));
  inv_dropped : exists dropped, metadata_dropped (counters (eng w)) = u64 (Z.of_nat dropped) /\
    (length (seen w) = length (accepted w) + length (abandoned w) + dropped)%nat;
  inv_running : running (counters (eng w)) = active_pc (pc (eng w));
  inv_started : started (eng w) = true <-> pc (eng w) <> NoThread;
  inv_joined : joined (eng w) = true -> pc (eng w) = Exited
}.

(** ** Lemmas *)

Lemma drain_loop_spec count q acc :
  drain_loop count q acc = (acc ++ take count q, drop count q).
Proof.
  revert q acc. induction count as [|n IH]; intros [|p q] acc; cbn; rewrite ?app_nil_r; try done.
  rewrite IH, <- app_assoc. done.
Qed.

Lemma drain_eq limit e :
  0 <= limit ->
  drain limit e = (take (Z.to_nat limit) (queue e), with_queue e (drop (Z.to_nat limit) (queue e))).
Proof.
  intros Hl. unfold drain. rewrite drain_loop_spec. cbn [app].
  destruct (Z.le_gt_cases limit (Z.of_nat (length (queue e)))).
  - by rewrite Z.min_l.
  - rewrite Z.min_r, Nat2Z.id by lia.
    rewrite !take_ge, !drop_ge by lia. done.
Qed.

(** [drain(limit)] returns the oldest [min(limit, size)] packets in order and leaves the
    rest queued, in order. *)
Theorem drain_spec limit e :
  0 <= limit ->
  drain limit e = (take (Z.to_nat limit) (queue e), with_queue e (drop (Z.to_nat limit) (queue e))).
Proof. apply drain_eq. Qed.

Lemma total_bytes_snoc l p : total_bytes (l ++ [p]) = total_bytes l + wire_bytes p.
Proof. unfold total_bytes. induction l as [|q l IH]; cbn; lia. Qed.

(** What one locked section of the loop does, by cases. *)
Lemma worker_commit_cases drops push packet e :
  let e' := worker_commit drops push packet e in
  match drops, packet with
  | inr what, _ => e' = at_pc e (Failing (exception_text what))
  | inl d, None => e' = with_counters e (set_kernel_dropped (counters e) d) Loop
  | inl d, Some p =>
      let c := count_packet (set_kernel_dropped (counters e) d) p in
      (Z.of_nat (length (queue e)) = capacity e /\ e' = with_counters e (count_dropped c) Loop) \/
      (Z.of_nat (length (queue e)) <> capacity e /\
       ((exists message, e' = with_counters e c (Failing message)) \/
        e' = with_counters (with_queue e (queue e ++ [p])) c Loop))
  end.
Proof.
  unfold worker_commit. destruct drops as [d|what], packet as [p|]; try done.
  cbn zeta. destruct (Z.eqb_spec (Z.of_nat (length (queue e))) (capacity e)); [by left|].
  right. split; [done|]. destruct push; eauto.
Qed.

Lemma u64_succ_neq n : u64 (u64 n + 1) <> u64 n.
Proof.
  unfold u64. pose proof (Z.mod_pos_bound n (2 ^ 64) ltac:(lia)).
  destruct (Z.eq_dec (n mod 2 ^ 64 + 1) (2 ^ 64)) as [Heq|].
  - rewrite Heq, Z_mod_same_full. lia.
  - rewrite Z.mod_small; lia.
Qed.

Lemma engine_inv_init cap e :
  0 <= cap -> construct true cap = Ok e -> engine_inv (init_world e).
Proof.
  unfold construct. destruct (Z.eqb_spec cap 0); [done|]. intros Hcap [= <-].
  split; cbn; try done; try lia; [by left | by exists 0%nat].
Qed.

(** Split the invariant of a state; the parts that a section leaves as they were, and the ones
    about the program counter alone, are immediate. *)
Ltac inv_split :=
  split; cbn; try done; try (split; done); try (intros ?; exfalso; intuition discriminate);
  rewrite ?length_app, ?total_bytes_snoc.

Lemma engine_inv_commit w drops push packet :
  pc (eng w) = Commit packet -> engine_inv w -> engine_inv (commit_world drops push packet w).
Proof.
  intros Hpc [Hf Hc Hp Hb Hsub Hlost (dropped & Hd & Hn) Hr Hs Hj].
  assert (abandoned w = []) as Hab by (rewrite Hpc in Hlost; cbn in Hlost; tauto).
  rewrite Hpc, Hab in *. cbn [length] in Hn. assert (started (eng w) = true) as Hst by by apply Hs.
  pose proof (worker_commit_cases drops push packet (eng w)) as Hcases. cbn zeta in Hcases.
  unfold commit_world. destruct drops as [d|what]; [destruct packet as [p|]|].
  - destruct Hcases as [[Hfull ->]|[Hroom [[m ->]| ->]]]; cbn in *.
    + rewrite decide_True by done. inv_split.
      * rewrite Hp, u64_succ. f_equal. cbn. lia.
      * by rewrite Hb, u64_add.
      * by apply sublist_inserts_r.
      * by left.
      * exists (S dropped). rewrite Hd, u64_succ. split; [f_equal; lia|].
        rewrite ?length_app, Hab. cbn. lia.
    + rewrite decide_True by done. inv_split.
      * rewrite Hp, u64_succ. f_equal. cbn. lia.
      * by rewrite Hb, u64_add.
      * by apply sublist_inserts_r.
      * right. by rewrite Hab.
      * exists dropped. split; [done|]. rewrite ?length_app, Hab. cbn. lia.
    + rewrite decide_False by (rewrite length_app; cbn; lia).
      inv_split; cbn.
      * by rewrite Hf, app_assoc.
      * lia.
      * rewrite Hp, u64_succ. f_equal. lia.
      * by rewrite Hb, u64_add.
      * by apply sublist_app.
      * by left.
      * exists dropped. split; [done|]. rewrite ?length_app, Hab. cbn. lia.
  - rewrite Hcases. inv_split; rewrite Hab; [by left | by exists dropped].
  - rewrite Hcases. inv_split; rewrite Hab; [by left | by exists dropped].
Qed.

Lemma engine_inv_worker w w' : worker_step w w' -> engine_inv w -> engine_inv w'.
Proof.
  destruct 1 as [w Hpc|w outcome Hpc|w drops push packet Hpc|w message Hpc|w Hpc]; intros Hinv;
    [| |by apply engine_inv_commit| |];
    destruct Hinv as [Hf Hc Hp Hb Hsub Hlost Hd Hr Hs Hj]; rewrite Hpc in *;
    assert (started (eng w) = true) as Hst by (by apply Hs).
  - unfold on_engine, worker_test. destruct (stop_requested (eng w)); inv_split.
    all: cbn in *; tauto.
  - destruct outcome as [packet|what]; inv_split.
    all: cbn in *; tauto.
  - inv_split; cbn in *; tauto.
  - inv_split; cbn in *; tauto.
Qed.

Lemma engine_inv_control w w' : control_step w w' -> engine_inv w -> engine_inv w'.
Proof.
  destruct 1 as [w spawn|w|w e' Hjoin|w limit Hlimit];
    intros [Hf Hc Hp Hb Hsub Hlost Hd Hr Hs Hj].
  - unfold on_engine, start. destruct (started (eng w)) eqn:Hst; [split; cbn; eauto; by rewrite Hst|].
    assert (pc (eng w) = NoThread) as Hpc.
    { destruct (decide (pc (eng w) = NoThread)) as [|Hn]; [done|]. by apply Hs in Hn. }
    rewrite Hpc in *. assert (abandoned w = []) as Hab by (cbn in Hlost; tauto).
    destruct spawn as [[]|exn]; split; cbn; try done; try (by left).
    all: rewrite ?Hpc, ?Hst; try done.
  - unfold on_engine, request_stop. destruct (joinable (eng w)); split; cbn; eauto.
  - unfold join in Hjoin. destruct (joinable (eng w)); [|injection Hjoin as <-; split; cbn; eauto].
    destruct (pc (eng w)) eqn:Hpc; try done. injection Hjoin as <-.
    split; cbn; rewrite ?Hpc in *; eauto.
  - rewrite drain_eq by done. split; cbn; eauto.
    + by rewrite <- app_assoc, take_drop.
    + rewrite length_drop. lia.
Qed.

Lemma reachable_inv w : reachable w -> engine_inv w.
Proof.
  intros (cap & e & Hcap & He & Hrtc).
  revert w Hrtc. apply rtc_ind_r; [by eapply engine_inv_init|].
  intros w w' _ [Hw|Hc] IH; [by eapply engine_inv_worker | by eapply engine_inv_control].
Qed.

(** C27: the engine's invariant, in every reachable state and for every interleaving of the
    worker with start, stop, drain: the packets queued so far are exactly the packets drained
    followed by the queue, in arrival order; the queue never exceeds its capacity; the packet
    and byte counters count everything the source delivered (modulo 2^64), dropped or not. *)
Theorem engine_history w :
  reachable w ->
  accepted w = drained w ++ queue (eng w) /\ accepted w `sublist_of` seen w /\
  Z.of_nat (length (queue (eng w))) <= capacity (eng w) /\
  packets (counters (eng w)) = u64 (Z.of_nat (length (seen w))) /\
  snap_wire_bytes (counters (eng w)) = u64 (total_bytes (seen w)).
Proof. intros Hw. destruct (reachable_inv w Hw) as [? [? ?] ? ? ? _ _ _ _ _]. auto 10. Qed.

(** C12: conservation, in every reachable state, whatever the worker is doing or has ended with:
    every packet the source delivered was drained, is queued, is counted as dropped, or is the
    one packet whose [push_back] failed, after which the worker ends. The queue is bounded by its
    capacity; a packet is dropped exactly when it arrives to a full queue, and lost exactly when
    the queue has room and cannot be extended. *)
Theorem engine_conservation w :
  reachable w -> Z.of_nat (length (seen w)) < 2 ^ 64 ->
  packets (counters (eng w)) =
    Z.of_nat (length (drained w)) + queued (snapshot (eng w)) + metadata_dropped (counters (eng w)) +
    Z.of_nat (length (abandoned w)) /\
  (abandoned w = [] \/ length (abandoned w) = 1%nat /\ failed_pc (pc (eng w))) /\
  0 < capacity (eng w) /\ queued (snapshot (eng w)) <= capacity (eng w) /\
  forall d push p, pc (eng w) = Commit (Some p) ->
    let w' := commit_world (inl d) push (Some p) w in
    let full := queued (snapshot (eng w)) = capacity (eng w) in
    (metadata_dropped (counters (eng w')) <> metadata_dropped (counters (eng w)) <-> full) /\
    (abandoned w' <> abandoned w <-> ~ full /\ push <> None).
Proof.
  intros Hw Hlt.
  destruct (reachable_inv w Hw) as [Hf [Hc1 Hc2] Hp _ Hsub Hlost (dropped & Hd & Hn) _ _ _].
  split; [|split; [exact Hlost|split; [done|split; [exact Hc2|]]]].
  { rewrite Hf, length_app in Hn. cbn. change (2 ^ 64) with 18446744073709551616 in Hlt.
    rewrite Hp, Hd, !u64_id by lia. lia. }
  intros d push p Hpc. cbn [snapshot queued commit_world worker_commit eng abandoned].
  assert (u64 (metadata_dropped (counters (eng w)) + 1) <> metadata_dropped (counters (eng w))) as Hne.
  { rewrite Hd. apply u64_succ_neq. }
  assert (abandoned w ++ [p] <> abandoned w) as Hna
    by (intros Heq; apply (f_equal length) in Heq; rewrite length_app in Heq; cbn [length] in Heq; lia).
  destruct (Z.eqb_spec (Z.of_nat (length (queue (eng w)))) (capacity (eng w))) as [Hfull|Hroom]; cbn.
  - split; [by split|]. split; [done | by intros [? _]].
  - destruct push as [what|]; cbn; (split; [by split|]); split; try done. by intros [_ ?].
Qed.

(** ** Stopping *)

(** Steps left to the worker once a stop is requested. *)
Definition rank (l : worker_pc) : nat :=
  match l with
  | Next => 4 | Commit _ => 3 | Loop => 2 | Failing _ => 2 | Finishing => 1
  | NoThread | Exited => 0
  end.

Lemma worker_step_rank w w' :
  worker_step w w' -> stop_requested (eng w) = true ->
  stop_requested (eng w') = true /\ (rank (pc (eng w')) < rank (pc (eng w)))%nat.
Proof.
  destruct 1 as [w Hpc|w outcome Hpc|w drops push packet Hpc|w message Hpc|w Hpc]; intros Hs;
    rewrite Hpc; cbn.
  - unfold worker_test. rewrite Hs. cbn. auto with lia.
  - destruct outcome; cbn; auto with lia.
  - unfold commit_world. pose proof (worker_commit_cases drops push packet (eng w)) as Hc.
    cbn zeta in Hc. destruct drops; [destruct packet|].
    + destruct Hc as [[_ ->]|[_ [[m ->]| ->]]]; cbn; auto with lia.
    + rewrite Hc; cbn; auto with lia.
    + rewrite Hc; cbn; auto with lia.
  - auto with lia.
  - auto with lia.
Qed.

Lemma worker_progress w :
  active_pc (pc (eng w)) = true -> exists w', worker_step w w'.
Proof.
  intros Ha. destruct (pc (eng w)) eqn:Hpc; try done; eexists.
  - by apply ws_test.
  - by apply (ws_next w (inl None)).
  - by apply (ws_commit w (inl None) None).
  - by eapply ws_fail.
  - by apply ws_finish.
Qed.

Lemma worker_run_bound n w w' :
  nsteps worker_step n w w' -> stop_requested (eng w) = true ->
  stop_requested (eng w') = true /\ (rank (pc (eng w')) + n <= rank (pc (eng w)))%nat.
Proof.
  induction 1 as [w|n w1 w2 w3 Hstep _ IH]; intros Hs; [auto with lia|].
  apply worker_step_rank in Hstep as [Hs2 Hr]; [|done]. destruct (IH Hs2). split; [done|lia].
Qed.

Lemma worker_steps_reachable n w w' : nsteps worker_step n w w' -> reachable w -> reachable w'.
Proof.
  intros Hn (cap & e & Hcap & He & Hr). exists cap, e. split_and!; [done..|].
  etrans; [done|]. apply (rtc_subrel worker_step); [by left|]. by apply rtc_nsteps_2 with n.
Qed.

(** C28: [stop()] terminates: once a stop is requested the worker takes at most four more
    sections, whatever the source does; when it cannot take another one it has exited,
    [join] returns, and the snapshot says the capture is not running. *)
Theorem stop_terminates w n w' :
  reachable w -> stop_requested (eng w) = true -> nsteps worker_step n w w' ->
  (n <= 4)%nat /\
  ((forall w'', ~ worker_step w' w'') -> started (eng w') = true ->
   pc (eng w') = Exited /\ is_Some (join (eng w')) /\ running (snapshot (eng w')) = false).
Proof.
  intros Hw Hs Hn. pose proof (worker_run_bound _ _ _ Hn Hs) as [_ Hb].
  split; [destruct (pc (eng w)); cbn in Hb; lia|]. intros Hend Hst.
  destruct (reachable_inv _ (worker_steps_reachable _ _ _ Hn Hw)) as [_ _ _ _ _ _ _ Hr Hsn _].
  assert (active_pc (pc (eng w')) = false) as Hact.
  { apply not_true_iff_false. intros Ha. destruct (worker_progress _ Ha) as [w'' Hw'']. by eapply Hend. }
  assert (pc (eng w') = Exited) as Hpc
    by (destruct (pc (eng w')); try done; by apply Hsn in Hst).
  split; [done|]. split; [|cbn; by rewrite Hr, Hpc].
  unfold join. rewrite Hpc. destruct (joinable _); eauto.
Qed.

(** ** Starting *)

Lemma step_started w w' : step w w' -> started (eng w) = true -> started (eng w') = true.
Proof.
  intros [Hw|Hc] Hs.
  - destruct Hw; cbn in *; try done.
    + by destruct outcome.
    + unfold commit_world. assert (forall e, started e = true ->
        started (worker_commit drops push packet e) = true) as He.
      { intros e. unfold worker_commit. by repeat case_match. }
      destruct drops, packet; cbn; by apply He.
  - destruct Hc as [w spawn|w|w e' Hjoin|w limit Hl]; cbn; try done.
    + unfold start. by rewrite Hs.
    + unfold request_stop. by destruct (joinable (eng w)).
    + unfold join in Hjoin. destruct (joinable (eng w)); [destruct (pc (eng w))|];
        try done; by injection Hjoin as <-.
    + by rewrite drain_eq.
Qed.

(** One start only: the outcome of the first [start()] is that of the thread's creation,
    and the engine is running and started exactly when it succeeded; after a successful one, in
    every later state, stopped or not, [start()] throws [std::logic_error] and changes nothing. *)
Theorem start_once w w' spawn spawn' :
  started (eng w) = false ->
  (start spawn (eng w)).1 = spawn /\
  running (counters (start spawn (eng w)).2) = is_ok spawn /\
  started (start spawn (eng w)).2 = is_ok spawn /\
  (is_ok spawn = true -> rtc step (on_engine (fun e => (start spawn e).2) w) w' ->
   start spawn' (eng w') =
     (Throw (Exn logic_error "Capture engine can only be started once"), eng w')).
Proof.
  intros Hst. assert (started (start spawn (eng w)).2 = is_ok spawn) as Hsp.
  { unfold start. rewrite Hst. by destruct spawn. }
  split_and!; [unfold start; rewrite Hst; by destruct spawn as [[]|]..|done|].
  intros Hok Hr. assert (started (eng w') = true) as Hs'.
  { remember (on_engine (fun e => (start spawn e).2) w) as w1 eqn:Hw1.
    assert (started (eng w1) = true) as H1 by (subst w1; cbn; congruence). clear Hw1.
    induction Hr as [|x y z Hxy _ IH]; [done|]. apply IH. by eapply step_started. }
  unfold start. by rewrite Hs'.
Qed.

(** ** Witnesses: a capture of two packets into a queue of one *)

Definition sample_engine : CaptureEngine :=
  match construct true 1 with Ok e => e | Throw _ => with_counters {|
    capacity := 1; queue := []; counters := zero_snapshot; started := false;
    stop_requested := false; pc := NoThread; joined := false |} zero_snapshot NoThread end.

Definition started_world : world :=
  on_engine (fun e => (start (Ok tt) e).2) (init_world sample_engine).

(** One round of the worker's loop that delivers [p]. *)
Definition sample_round (p : PacketMetadata) (w : world) : world :=
  commit_world (inl (Some 3)) None (Some p)
    (on_engine (worker_next (inl (Some p))) (on_engine worker_test w)).

Definition two_packets : world :=
  sample_round (blank_packet 2 80) (sample_round (blank_packet 1 60) started_world).
Definition stopping_world : world := on_engine request_stop two_packets.
Definition stopped_world : world := on_engine worker_finish (on_engine worker_test stopping_world).

Lemma sample_round_steps p w :
  pc (eng w) = Loop -> stop_requested (eng w) = false -> rtc step w (sample_round p w).
Proof.
  intros Hpc Hs. unfold sample_round.
  eapply rtc_l; [left; by apply ws_test|].
  eapply rtc_l; [left; apply (ws_next _ (inl (Some p))); cbn; unfold worker_test; by rewrite Hs|].
  apply rtc_once. left. apply ws_commit. reflexivity.
Qed.

Lemma two_packets_reachable : reachable two_packets.
Proof.
  exists 1, sample_engine. split_and!; [done|reflexivity|].
  eapply rtc_l; [right; apply (cs_start _ (Ok tt))|].
  etrans; apply sample_round_steps; reflexivity.
Qed.

Lemma stopping_reachable : reachable stopping_world.
Proof.
  destruct two_packets_reachable as (cap & e & ? & ? & Hr). exists cap, e. split_and!; [done..|].
  eapply rtc_r; [exact Hr|]. right. apply cs_request_stop.
Qed.

Lemma drain_spec_witness :
  drain 5 (eng two_packets) = ([blank_packet 1 60], with_queue (eng two_packets) []).
Proof. apply (drain_spec 5 (eng two_packets)). lia. Defined.

Lemma engine_history_witness :
  accepted two_packets = [blank_packet 1 60] /\
  packets (counters (eng two_packets)) = 2 /\ snap_wire_bytes (counters (eng two_packets)) = 140.
Proof.
  destruct (engine_history two_packets two_packets_reachable) as (H1 & _ & _ & H4 & H5).
  split_and!; [exact H1 | exact H4 | exact H5].
Defined.

Lemma engine_conservation_witness :
  packets (counters (eng two_packets)) = 0 + 1 + metadata_dropped (counters (eng two_packets)) + 0.
Proof. apply (engine_conservation two_packets two_packets_reachable). reflexivity. Defined.

Lemma stop_terminates_witness :
  pc (eng stopped_world) = Exited /\ is_Some (join (eng stopped_world)) /\
  running (snapshot (eng stopped_world)) = false.
Proof.
  apply (stop_terminates stopping_world 2 stopped_world stopping_reachable).
  - reflexivity.
  - eapply nsteps_l; [by apply ws_test|]. eapply nsteps_l; [by apply ws_finish|]. constructor.
  - intros w Hw. inversion Hw; discriminate.
  - reflexivity.
Defined.

Lemma start_once_witness :
  start (Ok tt) (eng started_world) =
    (Throw (Exn logic_error "Capture engine can only be started once"), eng started_world).
Proof.
  apply (start_once (init_world sample_engine) started_world (Ok tt) (Ok tt)); reflexivity.
Defined.
