(* ===== verification/Effects.v ===== *)
(** * System calls of the network controller, and the monad it runs in

    network.cpp reaches the machine through files under /proc, rtnetlink, subprocesses, the
    steady clock and the store.  Each of these is a [request]; what the machine answers is a
    parameter ([Platform]), arbitrary in every theorem.  A computation of the controller is a
    state-and-exception monad over the machine, the controller's members and the log of the
    requests made so far, with their answers. *)
From S2P Require Import Prelude CppStd Inet Json.

(** ** Netlink messages *)

Inductive nl_type :=
| RTM_NEWLINK | RTM_DELLINK
| RTM_NEWADDR | RTM_DELADDR
| RTM_NEWROUTE | RTM_DELROUTE
| RTM_NEWRULE | RTM_DELRULE
| IPCTNL_MSG_CT_DELETE.

Inductive nl_scope := RT_SCOPE_UNIVERSE | RT_SCOPE_LINK.

(** The fixed headers; members the code leaves at zero are left out. *)
Inductive nl_header :=
| Ifinfomsg (index : Z) (change_up flag_up : bool)
| Ifaddrmsg (prefixlen index : Z)
| Rtmsg (dst_len : Z) (scope : nl_scope)
| FibRuleHdr (src_len : Z)
| Nfgenmsg.

Inductive nl_attr :=
| IFLA_ADDRESS (bytes : list Z)
| IFLA_LINK (index : Z)
| IFLA_IFNAME (name : string)
| IFLA_LINKINFO_vlan (vlan_id : Z)
| IFA_LOCAL (address : in_addr)
| IFA_ADDRESS (address : in_addr)
| RTA_TABLE (table : Z)
| RTA_OIF (index : Z)
| RTA_GATEWAY (address : in_addr)
| RTA_DST (address : in_addr)
| FRA_TABLE (table : Z)
| FRA_PRIORITY (priority : Z)
| FRA_SRC (address : in_addr)
| FRA_IIFNAME (name : string)
| CTA_MARK (mark : in_addr)
| CTA_MARK_MASK (mask : in_addr).

Inductive nl_protocol := NETLINK_ROUTE | NETLINK_NETFILTER.

(** [create]: NLM_F_CREATE | NLM_F_EXCL, on top of NLM_F_REQUEST | NLM_F_ACK. *)
Record nl_message := {
  nl_kind : nl_type; nl_create : bool; nl_head : nl_header; nl_attrs : list nl_attr;
  nl_proto : nl_protocol
}.

Inductive errno := ENOENT | ESRCH | ENODEV | EADDRNOTAVAIL | OtherErrno (n : Z).

Inductive nl_reply :=
| SendFailed
| RecvFailed
| Acked
| Refused (error : errno) (strerror : string).

(** ** Requests *)

Section Requests.
Context `{JsonCpp}.

Inductive request : Type -> Type :=
| ReadWord (path : string) : request (option string)
    (** the first word of the file *)
| WriteFile (path value : string) : request bool
| IfNameToIndex (name : string) : request Z
    (** zero: no such interface *)
| NlOpen (protocol : nl_protocol) : request bool
| NlExchange (message : nl_message) : request nl_reply
| Command (argv : list string) (input : string) : request (result string)
    (** [command] of process.cpp *)
| SteadyNow : request Z
    (** nanoseconds *)
| StoreGet : request (result Value)
| StorePut (value : Value) : request (result unit)
    (** [store_.get("network")] and [store_.put("network", value)] *)
| CreateDirectories : request (result unit)
    (** /run/magicbox *)
| StatNamespace : request (option Z)
    (** the inode of /proc/self/ns/net *)
| LockFile (path : string) : request bool.
    (** [open] and [flock] *)

Inductive event := | Did (A : Type) (r : request A) (answer : A).
#[global] Arguments Did {A} r answer.

(** The machine: its state, and what it answers. *)
Class Platform := {
  Machine : Type;
  answer : forall {A}, request A -> Machine -> A * Machine;
}.

(** ** The monad *)

Context `{Platform}.

(** [machine] and [log] belong to the model; [state_] and [deadline_] are the members. *)
Record net := { machine : Machine; state_ : Value; deadline_ : Z; log : list event }.

Definition with_state (s : net) (v : Value) : net :=
  {| machine := machine s; state_ := v; deadline_ := deadline_ s; log := log s |}.
Definition with_deadline (s : net) (d : Z) : net :=
  {| machine := machine s; state_ := state_ s; deadline_ := d; log := log s |}.

Definition M (A : Type) : Type := net -> result A * net.

Definition ret {A} (a : A) : M A := fun s => (Ok a, s).
Definition throw {A} (msg : string) : M A := fun s => (throw_runtime msg, s).
Definition lift {A} (r : result A) : M A := fun s => (r, s).
Definition bind {A B} (m : M A) (k : A -> M B) : M B := fun s =>
  match m s with
  | (Ok a, s') => k a s'
  | (Throw e, s') => (Throw e, s')
  end.
Definition call {A} (r : request A) : M A := fun s =>
  let '(a, machine') := answer r (machine s) in
  (Ok a, {| machine := machine'; state_ := state_ s; deadline_ := deadline_ s;
            log := log s ++ [Did r a] |}).
(** A call whose answer may be an exception. *)
Definition call_throw {A} (r : request (result A)) : M A := bind (call r) lift.

(** [try { m } catch (const std::exception& e) { handler(e) }]. *)
Definition try_catch {A} (m : M A) (handler : exn -> M A) : M A := fun s =>
  match m s with
  | (Ok a, s') => (Ok a, s')
  | (Throw e, s') => handler e s'
  end.

Definition get_state : M Value := fun s => (Ok (state_ s), s).
Definition put_state (v : Value) : M unit := fun s => (Ok tt, with_state s v).
Definition get_deadline : M Z := fun s => (Ok (deadline_ s), s).
Definition set_deadline (d : Z) : M unit := fun s => (Ok tt, with_deadline s d).
Definition when (b : bool) (m : M unit) : M unit := if b then m else ret tt.
End Requests.

Notation "'let!' x ':=' m 'in' k" := (bind m (fun x => k))
  (at level 10, x pattern, m at level 100, k at level 200) : mbx_scope.
Notation "'do!' m ; k" := (bind m (fun _ => k))
  (at level 10, m at level 100, k at level 200) : mbx_scope.

Section Loops.
Context `{Platform}.

(** [for (x : l) f(x)]. *)
Fixpoint m_iter {A} (f : A -> M unit) (l : list A) : M unit :=
  match l with
  | [] => ret tt
  | x :: l' => do! f x; m_iter f l'
  end.

(** [for (x : l) acc = f(acc, x)]. *)
Fixpoint m_fold {A B} (f : B -> A -> M B) (acc : B) (l : list A) : M B :=
  match l with
  | [] => ret acc
  | x :: l' => let! acc' := f acc x in m_fold f acc' l'
  end.
End Loops.

(** ** Rules *)

Section Rules.
Context `{Platform}.

(** [keeps I m]: [m] leaves the assertion [I] true, whatever the outcome. *)
Definition keeps {A} (I : net -> Prop) (m : M A) : Prop := forall s, I s -> I (m s).2.

Lemma keeps_ret {A} I (a : A) : keeps I (ret a).
Proof. by intros s. Qed.
Lemma keeps_throw {A} I msg : keeps I (throw (A := A) msg).
Proof. by intros s. Qed.
Lemma keeps_lift {A} I (r : result A) : keeps I (lift r).
Proof. by intros s. Qed.
Lemma keeps_get_state I : keeps I get_state.
Proof. by intros s. Qed.

Lemma keeps_get_deadline I : keeps I get_deadline.
Proof. by intros s. Qed.

Lemma keeps_bind {A B} I (m : M A) (k : A -> M B) :
  keeps I m -> (forall a, keeps I (k a)) -> keeps I (bind m k).
Proof.
  intros Hm Hk s Hs. unfold bind. specialize (Hm s Hs).
  destruct (m s) as [[a|e] s']; [by apply Hk | done].
Qed.

Lemma keeps_try {A} I (m : M A) handler :
  keeps I m -> (forall e, keeps I (handler e)) -> keeps I (try_catch m handler).
Proof.
  intros Hm Hk s Hs. unfold try_catch. specialize (Hm s Hs).
  destruct (m s) as [[a|e] s']; [done | by apply Hk].
Qed.

Lemma keeps_when I b m : keeps I m -> keeps I (when b m).
Proof. destruct b; [done | intros _; apply keeps_ret]. Qed.

Lemma keeps_iter {A} I (f : A -> M unit) l : (forall x, keeps I (f x)) -> keeps I (m_iter f l).
Proof.
  intros Hf. induction l as [|x l IH]; [apply keeps_ret | by apply keeps_bind].
Qed.

Lemma keeps_fold {A B} I (f : B -> A -> M B) acc l :
  (forall b x, keeps I (f b x)) -> keeps I (m_fold f acc l).
Proof.
  intros Hf. revert acc. induction l as [|x l IH]; intros acc; [apply keeps_ret|].
  by apply keeps_bind.
Qed.

Lemma keeps_call_throw {A} I (r : request (result A)) : keeps I (call r) -> keeps I (call_throw r).
Proof. intros Hr. apply keeps_bind; [done|]. intros a. apply keeps_lift. Qed.

(** [spec P m Q E]: from a state in [P], [m] returns a value in [Q] or throws in [E]. *)
Definition spec {A} (P : net -> Prop) (m : M A) (Q : A -> net -> Prop) (E : exn -> net -> Prop)
  : Prop :=
  forall s, P s -> match m s with (Ok a, s') => Q a s' | (Throw e, s') => E e s' end.

Lemma spec_ret {A} (a : A) (Q : A -> net -> Prop) E : spec (Q a) (ret a) Q E.
Proof. by intros s. Qed.

Lemma spec_throw {A} msg (Q : A -> net -> Prop) E :
  spec (E (Exn runtime_error msg)) (throw msg) Q E.
Proof. by intros s. Qed.

Lemma spec_lift {A} (r : result A) (P : net -> Prop) (Q : A -> net -> Prop) E :
  (forall s, P s -> match r with Ok a => Q a s | Throw e => E e s end) -> spec P (lift r) Q E.
Proof. intros Hr s Hs. specialize (Hr s Hs). cbn. by destruct r. Qed.

Lemma spec_bind {A B} (m : M A) (k : A -> M B) P R Q E :
  spec P m R E -> (forall a, spec (R a) (k a) Q E) -> spec P (bind m k) Q E.
Proof.
  intros Hm Hk s Hs. unfold bind. specialize (Hm s Hs).
  destruct (m s) as [[a|e] s']; [by apply Hk | done].
Qed.

Lemma spec_try {A} (m : M A) handler P Q E' E :
  spec P m Q E' -> (forall e, spec (E' e) (handler e) Q E) -> spec P (try_catch m handler) Q E.
Proof.
  intros Hm Hk s Hs. unfold try_catch. specialize (Hm s Hs).
  destruct (m s) as [[a|e] s']; [done | by apply Hk].
Qed.

Lemma spec_conseq {A} (m : M A) P P' (Q Q' : A -> net -> Prop) (E E' : exn -> net -> Prop) :
  spec P m Q E -> (forall s, P' s -> P s) -> (forall a s, Q a s -> Q' a s) ->
  (forall e s, E e s -> E' e s) -> spec P' m Q' E'.
Proof.
  intros Hm HP HQ HE s Hs. specialize (Hm s (HP s Hs)). destruct (m s) as [[a|e] s']; auto.
Qed.

Lemma spec_and {A} (m : M A) P Q Q' (E E' : exn -> net -> Prop) :
  spec P m Q E -> spec P m Q' E' ->
  spec P m (fun a s => Q a s /\ Q' a s) (fun e s => E e s /\ E' e s).
Proof.
  intros H1 H2 s Hs. specialize (H1 s Hs). specialize (H2 s Hs). destruct (m s) as [[a|e] s']; auto.
Qed.

Lemma spec_pre {A} (m : M A) (P P' : net -> Prop) Q E :
  spec P m Q E -> (forall s, P' s -> P s) -> spec P' m Q E.
Proof. intros Hm HP s Hs. by apply Hm, HP. Qed.

Lemma keeps_spec {A} I (m : M A) : keeps I m -> spec I m (fun _ => I) (fun _ => I).
Proof. intros Hm s Hs. specialize (Hm s Hs). by destruct (m s) as [[a|e] s']. Qed.

Lemma spec_keeps {A} I (m : M A) : spec I m (fun _ => I) (fun _ => I) -> keeps I m.
Proof. intros Hm s Hs. specialize (Hm s Hs). by destruct (m s) as [[a|e] s']. Qed.

(** A [keeps] step in front of a [spec]. *)
Lemma spec_bind_keeps {A B} I (m : M A) (k : A -> M B) Q E :
  keeps I m -> (forall e s, I s -> E e s) -> (forall a, spec I (k a) Q E) ->
  spec I (bind m k) Q E.
Proof.
  intros Hm HE Hk. eapply spec_bind; [|exact Hk].
  eapply spec_conseq; [by apply keeps_spec | done | done | done].
Qed.

Lemma bind_ok {A B} (m : M A) (k : A -> M B) s a s1 : m s = (Ok a, s1) -> bind m k s = k a s1.
Proof. unfold bind. by intros ->. Qed.

Lemma bind_ok_inv {A B} (m : M A) (k : A -> M B) s b s' :
  bind m k s = (Ok b, s') -> exists a s1, m s = (Ok a, s1) /\ k a s1 = (Ok b, s').
Proof. unfold bind. destruct (m s) as [[a|e] s1]; [eauto|done]. Qed.

Lemma m_bind_ext {A B} (m : M A) (k k' : A -> M B) s :
  (forall a s', k a s' = k' a s') -> bind m k s = bind m k' s.
Proof. intros Hk. unfold bind. destruct (m s) as [[a|e] s']; auto. Qed.

Lemma bind_throw {A B} (m : M A) (k : A -> M B) s e s1 :
  m s = (Throw e, s1) -> bind m k s = (Throw e, s1).
Proof. unfold bind. by intros ->. Qed.
End Rules.

#[export] Hint Resolve keeps_ret keeps_throw keeps_lift keeps_get_state keeps_get_deadline : keeps.

(** Decompose a computation into its calls; the remaining goals are about single requests,
    state updates, and the named parts the hint database knows. *)
Ltac keeps_step :=
  match goal with
  | |- keeps _ (bind _ _) => apply keeps_bind; [|intros]
  | |- keeps _ (try_catch _ _) => apply keeps_try; [|intros]
  | |- keeps _ (when _ _) => apply keeps_when
  | |- keeps _ (m_iter _ _) => apply keeps_iter; intros
  | |- keeps _ (m_fold _ _ _) => apply keeps_fold; intros
  | |- keeps _ (call_throw _) => apply keeps_call_throw
  | |- keeps _ (match ?x with _ => _ end) => destruct x
  | |- keeps _ _ => solve [eauto with keeps]
  end.
Ltac keeps_auto := repeat (keeps_step; cbv zeta).
