(* ===== verification/Network.v ===== *)
(** * The network controller (src/network.cpp)

    The translation of network.cpp: the helpers that issue one system call or one Netlink
    message, the two nftables texts, and the operations of [NetworkController] on its journaled
    state.  The theorems about it are in NetworkText.v, NetworkSafety.v, NetworkControl.v,
    NetworkSound.v and Lifecycle.v. *)
From S2P Require Import Prelude CppStd Inet Config Json Serialize Effects.

Definition table_id : Z := 4242.
Definition rule_priority : Z := 10424.
Definition connection_mark : Z := 1296193536. (* 0x4d425800 *)

Section Network.
Context `{Inet} `{JsonCpp} `{@Platform H0}.

(** ** Files, interfaces, addresses *)

Definition read_file (path : string) : M string :=
  let! word := call (ReadWord path) in
  match word with
  | Some value => ret value
  | None => throw ("Cannot read " +:+ path)
  end.

Definition write_file (path value : string) : M unit :=
  let! ok := call (WriteFile path value) in
  if ok then ret tt else throw ("Cannot write " +:+ path).

Definition index_of (name : string) : M Z :=
  let! index := call (IfNameToIndex (c_str name)) in
  if index =? 0 then throw ("Missing interface " +:+ name) else ret index.

Definition ipv4 (value : string) : M in_addr :=
  match inet_pton (c_str value) with
  | Some address => ret address
  | None => lift (throw_invalid "Invalid IPv4")
  end.

(** ** Netlink *)

Definition missing (e : errno) : bool :=
  match e with ENOENT | ESRCH | ENODEV | EADDRNOTAVAIL => true | OtherErrno _ => false end.

Definition netlink (type : nl_type) (create : bool) (fill : M (nl_header * list nl_attr))
    (missing_ok : bool) (protocol : nl_protocol) : M unit :=
  let! opened := call (NlOpen protocol) in
  if negb opened then throw "Cannot open Netlink socket" else
  let! (header, attrs) := fill in
  let! reply := call (NlExchange {| nl_kind := type; nl_create := create; nl_head := header;
                                    nl_attrs := attrs; nl_proto := protocol |}) in
  match reply with
  | SendFailed => throw "Netlink send failed"
  | RecvFailed => throw "Netlink acknowledgement timed out"
  | Acked => ret tt
  | Refused error strerror =>
      if missing_ok && missing error then ret tt else throw ("Netlink: " +:+ strerror)
  end.

(** The loop over [i] of [link_state], from [i] for [n] rounds. *)
Fixpoint mac_octets (mac : string) (i n : nat) : result (list Z) :=
  match n with
  | O => Ok []
  | S n' =>
      let? group := substr mac (i * 3) 2 in
      let? value := stoul_hex group in
      let? rest := mac_octets mac (S i) n' in
      Ok (u8 value :: rest)
  end.

(** An empty [mac] is the default argument. *)
Definition link_state (name : string) (up : bool) (mac : string) : M unit :=
  netlink RTM_NEWLINK false (
    let! index := index_of name in
    let header := Ifinfomsg index true up in
    if String.eqb mac "" then ret (header, [])
    else let! bytes := lift (mac_octets mac 0 6) in ret (header, [IFLA_ADDRESS bytes]))
  false NETLINK_ROUTE.

(** Only called with a VLAN configured; [*c.vlan_id] reads it. *)
Definition vlan (c : NetworkConfig) (add : bool) : M unit :=
  let name := "mbx-outer" in
  let! index := if add then ret 1 else call (IfNameToIndex name) in
  if negb add && (index =? 0) then ret tt else
  netlink (if add then RTM_NEWLINK else RTM_DELLINK) add (
    if negb add then let! index := index_of name in ret (Ifinfomsg index false false, [])
    else
      let! index := index_of (outer_interface c) in
      ret (Ifinfomsg 0 false false,
           [IFLA_LINK index; IFLA_IFNAME name; IFLA_LINKINFO_vlan (default 0 (vlan_id c))]))
  (negb add) NETLINK_ROUTE.

Definition address (iface ip : string) (prefix : Z) (add : bool) : M unit :=
  netlink (if add then RTM_NEWADDR else RTM_DELADDR) add (
    let! index := index_of iface in
    let! local := ipv4 ip in
    let! peer := ipv4 ip in
    ret (Ifaddrmsg (u8 prefix) index, [IFA_LOCAL local; IFA_ADDRESS peer]))
  (negb add) NETLINK_ROUTE.

(** [c.vlan_id ? "mbx-outer" : c.outer_interface]. *)
Definition outer_name (c : NetworkConfig) : string :=
  match vlan_id c with Some _ => "mbx-outer" | None => outer_interface c end.

Definition has_vlan (c : NetworkConfig) : bool := bool_decide (is_Some (vlan_id c)).

Definition route (c : NetworkConfig) (gateway add : bool) : M unit :=
  netlink (if add then RTM_NEWROUTE else RTM_DELROUTE) add (
    let scope := if gateway then RT_SCOPE_UNIVERSE else RT_SCOPE_LINK in
    let! index := index_of (outer_name c) in
    if gateway then
      let! via := ipv4 (outer_gateway_ipv4 c) in
      ret (Rtmsg 0 scope, [RTA_TABLE table_id; RTA_OIF index; RTA_GATEWAY via])
    else
      let mask := prefix_mask (outer_prefix c) in
      let! own := ipv4 (outer_ipv4 c) in
      ret (Rtmsg (u8 (outer_prefix c)) scope,
           [RTA_TABLE table_id; RTA_OIF index; RTA_DST (htonl (Z.land (ntohl own) mask))]))
  (negb add) NETLINK_ROUTE.

Definition rule (c : NetworkConfig) (add : bool) : M unit :=
  netlink (if add then RTM_NEWRULE else RTM_DELRULE) add (
    let! device := ipv4 (device_ipv4 c) in
    ret (FibRuleHdr 32, [FRA_TABLE table_id; FRA_PRIORITY rule_priority; FRA_SRC device;
                         FRA_IIFNAME (c_str (inner_interface c))]))
  (negb add) NETLINK_ROUTE.

Definition clear_connections : M unit :=
  netlink IPCTNL_MSG_CT_DELETE false
    (ret (Nfgenmsg, [CTA_MARK (htonl connection_mark); CTA_MARK_MASK (htonl 4294967295)])) false
    NETLINK_NETFILTER.

(** ** The nftables texts *)

Definition quoted (s : string) : string := quote +:+ s +:+ quote.

Definition guard (c : NetworkConfig) : string :=
  let outer := outer_name c in
  "table inet magicbox { chain forward { type filter hook forward priority -10; policy accept; iifname { " +:+
  quote +:+ inner_interface c +:+ quote +:+ ", " +:+ quote +:+ outer +:+ quote +:+
  " } drop; oifname { " +:+ quote +:+ inner_interface c +:+ quote +:+ ", " +:+ quote +:+ outer +:+
  quote +:+ " } drop; }" +:+ newline +:+ "}" +:+ newline.

Definition ruleset (c : NetworkConfig) : string :=
  let outer := outer_name c in
  let i := quoted (inner_interface c) in
  let o := quoted outer in
  "table ip magicbox {" +:+ newline +:+
  "chain prerouting { type nat hook prerouting priority dstnat; policy accept; iifname " +:+ o +:+
    " ip daddr " +:+ outer_ipv4 c +:+ " dnat to " +:+ device_ipv4 c +:+ "; }" +:+ newline +:+
  "chain postrouting { type nat hook postrouting priority srcnat; policy accept; oifname " +:+ o +:+
    " ip saddr " +:+ device_ipv4 c +:+ " snat to " +:+ outer_ipv4 c +:+ "; }" +:+ newline +:+
  "}" +:+ newline +:+
  "table inet magicbox { chain forward { type filter hook forward priority -10; policy accept;"
    +:+ newline +:+
  "iifname " +:+ i +:+ " oifname " +:+ o +:+ " ip saddr " +:+ device_ipv4 c +:+
    " ct mark set 0x4d425800 accept" +:+ newline +:+
  "iifname " +:+ o +:+ " oifname " +:+ i +:+ " ip daddr " +:+ device_ipv4 c +:+
    " ct mark set 0x4d425800 accept" +:+ newline +:+
  "iifname { " +:+ i +:+ ", " +:+ o +:+ " } drop" +:+ newline +:+
  "oifname { " +:+ i +:+ ", " +:+ o +:+ " } drop" +:+ newline +:+
  "}" +:+ newline +:+ "}" +:+ newline.

(** ** Subprocesses that answer in JSON *)

Definition run (argv : list string) (input : string) : M string :=
  call_throw (Command argv input).

Definition query (argv : list string) : M Value :=
  let! output := run argv "" in lift (parse_json output).

(** The loop of [table_exists]. *)
Fixpoint find_table (items : list Value) (family : string) : result bool :=
  match items with
  | [] => Ok false
  | item :: items' =>
      let? table := at_key item "table" in
      let? name := at_key table "name" in
      if equals name (of_string "magicbox") then
        let? table := at_key item "table" in
        let? f := at_key table "family" in
        if equals f (of_string family) then Ok true else find_table items' family
      else find_table items' family
  end.

Definition table_exists (family : string) : M bool :=
  let! tables := query ["nft"; "-j"; "list"; "tables"] in
  let! items := lift (at_key tables "nftables") in
  lift (find_table (elements items) family).

(** ** The journaled state *)

(** [state_[key]], read. *)
Definition state_at (key : string) : M Value :=
  let! v := get_state in
  let! v' := lift (touch v key) in
  do! put_state v'; lift (at_key v' key).

(** [state_[key] = x]. *)
Definition state_set (key : string) (x : Value) : M unit :=
  let! v := get_state in
  let! v' := lift (set_key v key x) in
  put_state v'.

(** [state_["status"] == name]. *)
Definition status_is (name : string) : M bool :=
  let! status := state_at "status" in ret (equals status (of_string name)).

Definition set_status (name : string) : M unit := state_set "status" (of_string name).

(** [store_.put("network", state_)]. *)
Definition journal : M unit := let! v := get_state in call_throw (StorePut v).

(** [deadline_] and the clock count nanoseconds. *)
Definition seconds (n : Z) : Z := n * 1000000000.

(** ** NetworkController *)

Section Controller.
Context (enabled_ : bool).

Definition interfaces : M Value := query ["ip"; "-j"; "address"; "show"].

Definition state : M Value :=
  let! v := get_state in
  let! v := lift (set_key v "enabled" (of_bool enabled_)) in
  let! v := lift (touch v "status") in
  let! status := lift (at_key v "status") in
  if equals status (of_string "awaiting_confirmation") then
    let! deadline := get_deadline in
    let! now := call SteadyNow in
    lift (set_key v "remaining_seconds" (of_int (Z.max 0 (Z.quot (deadline - now) (seconds 1)))))
  else ret v.

Definition ipv6_sysctl (name : string) : string :=
  "/proc/sys/net/ipv6/conf/" +:+ name +:+ "/disable_ipv6".
Definition rp_filter_sysctl (name : string) : string :=
  "/proc/sys/net/ipv4/conf/" +:+ name +:+ "/rp_filter".
Definition forward_sysctl : string := "/proc/sys/net/ipv4/ip_forward".

(** Lines 236-239, one interface. *)
Definition quiet_link (name : string) : M unit :=
  do! write_file (ipv6_sysctl name) "1"; write_file (rp_filter_sysctl name) "0".

Definition install (c : NetworkConfig) : M unit :=
  do! m_iter quiet_link [outer_interface c; inner_interface c];
  do! link_state (outer_interface c) false "";
  do! link_state (outer_interface c) false (outer_mac c);
  do! link_state (outer_interface c) true "";
  let outer := outer_name c in
  do! when (has_vlan c) (
    do! vlan c true;
    do! quiet_link "mbx-outer";
    link_state outer true "");
  do! run ["nft"; "-f"; "-"] (guard c);
  do! link_state (inner_interface c) true "";
  do! address (inner_interface c) (inner_gateway_ipv4 c) (inner_prefix c) true;
  do! address outer (outer_ipv4 c) (outer_prefix c) true;
  do! route c false true;
  do! route c true true;
  do! rule c true;
  do! write_file forward_sysctl "1";
  do! write_file (rp_filter_sysctl "all") "0";
  do! run ["nft"; "-f"; "-"] ("delete table inet magicbox" +:+ newline +:+ ruleset c);
  ret tt.

(** The lambda [attempt]: [errors] collects the messages of the actions that throw. *)
Definition attempt (errors : string) (action : M unit) : M string :=
  try_catch (do! action; ret errors) (fun e => ret (errors +:+ what e +:+ "; ")).

(** Lines 281-286: one interface of the baseline. *)
Definition flag_up (flags : list Value) : bool :=
  existsb (fun flag => equals flag (of_string "UP")) flags.

Definition string_at (v : Value) (key : string) : M string :=
  lift (let? x := at_key v key in asString x).

Definition restore_link (info : Value) : M unit :=
  let! name := string_at info "ifname" in
  let! flags := lift (at_key info "flags") in
  let up := flag_up (elements flags) in
  do! link_state name false "";
  let! mac := string_at info "address" in
  do! link_state name false mac;
  let! disable_ipv6 := string_at info "disable_ipv6" in
  do! write_file (ipv6_sysctl name) disable_ipv6;
  let! rp_filter := string_at info "rp_filter" in
  do! write_file (rp_filter_sysctl name) rp_filter;
  link_state name up "".

(** The actions of the attempts before the last, in order; those about routes only if the
    outer interface exists. *)
Definition guard_action (c : NetworkConfig) : M unit :=
  let! present := table_exists "inet" in
  let delete := if present then "delete table inet magicbox" +:+ newline else "" in
  do! run ["nft"; "-f"; "-"] (delete +:+ guard c);
  clear_connections.

Definition outer_actions (c : NetworkConfig) : list (M unit) := [
  route c true false;
  route c false false;
  address (outer_name c) (outer_ipv4 c) (outer_prefix c) false
].

Definition nat_action : M unit :=
  let! present := table_exists "ip" in
  when present (do! run ["nft"; "delete"; "table"; "ip"; "magicbox"] ""; ret tt).

Definition write_saved (path key : string) : M unit :=
  let! saved := state_at key in
  let! value := lift (asString saved) in
  write_file path value.

Definition release_action : M unit :=
  let! present := table_exists "inet" in
  when present (do! run ["nft"; "delete"; "table"; "inet"; "magicbox"] ""; ret tt).

Definition restore_steps (c : NetworkConfig) : M string :=
  let! errors := attempt "" (guard_action c) in
  let! errors := attempt errors (rule c false) in
  let! outer_index := call (IfNameToIndex (c_str (outer_name c))) in
  let! errors := if outer_index =? 0 then ret errors
                 else m_fold attempt errors (outer_actions c) in
  let! errors := attempt errors
    (address (inner_interface c) (inner_gateway_ipv4 c) (inner_prefix c) false) in
  let! errors := if has_vlan c then attempt errors (vlan c false) else ret errors in
  let! errors := attempt errors nat_action in
  let! errors := attempt errors (write_saved forward_sysctl "ip_forward") in
  let! errors := attempt errors (write_saved (rp_filter_sysctl "all") "rp_filter_all") in
  let! baseline := state_at "baseline" in
  let! errors := m_fold (fun errors info => attempt errors (restore_link info))
                   errors (elements baseline) in
  if String.eqb errors "" then attempt errors release_action else ret errors.

Definition restore : M unit :=
  let! config := state_at "config" in
  let! c := lift (config_from_json config) in
  do! set_status "rolling_back";
  do! journal;
  let! errors := restore_steps c in
  do! set_status (if String.eqb errors "" then "inactive" else "rollback_failed");
  do! state_set "error" (of_string errors);
  do! journal;
  if String.eqb errors "" then ret tt else throw errors.

(** Lines 200-204: the routing table and the rule priority are free. *)
Fixpoint check_routes (routes : list Value) : result unit :=
  match routes with
  | [] => Ok tt
  | r :: routes' =>
      let? table := at_key r "table" in
      let? taken := if isUInt table then let? n := asUInt table in Ok (n =? table_id)
                    else Ok false in
      if taken then throw_runtime "Routing table 4242 is occupied" else check_routes routes'
  end.

Fixpoint check_rules (rules : list Value) : result unit :=
  match rules with
  | [] => Ok tt
  | r :: rules' =>
      let? priority := at_key r "priority" in
      let? n := asUInt priority in
      if n =? rule_priority then throw_runtime "Rule priority 10424 is occupied"
      else check_rules rules'
  end.

(** Lines 207-213: one interface, its baseline appended. *)
Definition inspect_link (baseline : Value) (name : string) : M Value :=
  do! index_of name;
  let! listing := query ["ip"; "-j"; "address"; "show"; "dev"; name] in
  let! info := lift (at_index listing 0) in
  let busy := throw (name +:+
    " has addresses or is a bridge/bond member; dedicate unused unmanaged ports first") in
  if String.eqb name "lo" then busy else
  let! enslaved := lift (isMember info "master") in
  if enslaved then busy else
  let! info := lift (touch info "addr_info") in
  let! addresses := lift (at_key info "addr_info") in
  if negb (json_empty addresses) then busy else
  let! disable_ipv6 := read_file (ipv6_sysctl name) in
  let! info := lift (set_key info "disable_ipv6" (of_string disable_ipv6)) in
  let! rp_filter := read_file (rp_filter_sysctl name) in
  let! info := lift (set_key info "rp_filter" (of_string rp_filter)) in
  lift (append baseline info).

(** [table_exists("ip") || table_exists("inet") || if_nametoindex("mbx-outer")]. *)
Definition resources_exist : M bool :=
  let! ip := table_exists "ip" in
  if ip then ret true else
  let! inet := table_exists "inet" in
  if inet then ret true else
  let! index := call (IfNameToIndex "mbx-outer") in ret (negb (index =? 0)).

(** Lines 196-216: the checks made before the state changes; the value is the baseline. *)
Definition preflight (c : NetworkConfig) : M Value :=
  do! lift (let? v := config_json c in config_from_json v);
  let! reserved := resources_exist in
  if reserved then throw "Reserved WireLab Experiments network resources already exist" else
  let! routes := query ["ip"; "-j"; "route"; "show"; "table"; "all"] in
  do! lift (check_routes (elements routes));
  let! rules := query ["ip"; "-j"; "rule"; "show"] in
  do! lift (check_rules (elements rules));
  let! baseline := m_fold inspect_link empty_array [outer_interface c; inner_interface c] in
  do! run ["nft"; "-c"; "-f"; "-"] (ruleset c);
  ret baseline.

(** Lines 217-221: the write-ahead record. *)
Definition write_ahead (c : NetworkConfig) (baseline : Value) : M unit :=
  let! config := lift (config_json c) in
  do! state_set "config" config;
  do! state_set "baseline" baseline;
  let! ip_forward := read_file forward_sysctl in
  do! state_set "ip_forward" (of_string ip_forward);
  let! rp_filter := read_file (rp_filter_sysctl "all") in
  do! state_set "rp_filter_all" (of_string rp_filter);
  do! set_status "applying";
  journal.

(** Lines 223-226. *)
Definition commit (c : NetworkConfig) : M unit :=
  do! install c;
  do! set_status "awaiting_confirmation";
  let! now := call SteadyNow in
  do! set_deadline (now + seconds 60);
  journal.

(** The handler of lines 227-233. *)
Definition recover (error : exn) : M unit :=
  do! try_catch restore (fun rollback_error =>
        throw (what error +:+ "; rollback failed: " +:+ what rollback_error));
  throw (what error).

Definition apply (c : NetworkConfig) : M unit :=
  if negb enabled_ then
    throw "Network changes disabled; restart with --allow-network after assigning dedicated unmanaged ports"
  else
  let! inactive := status_is "inactive" in
  if negb inactive then throw "Rollback the current network configuration before applying another"
  else
  let! baseline := preflight c in
  do! write_ahead c baseline;
  try_catch (commit c) recover.

Definition tick : M unit :=
  if negb enabled_ then ret tt else
  let! pending := status_is "awaiting_confirmation" in
  if negb pending then ret tt else
  let! now := call SteadyNow in
  let! deadline := get_deadline in
  when (deadline <=? now) restore.

Definition confirm : M unit :=
  if negb enabled_ then throw "Network changes disabled" else
  do! tick;
  let! pending := status_is "awaiting_confirmation" in
  if negb pending then throw "No pending configuration" else
  do! set_status "confirmed"; journal.

Definition rollback : M unit :=
  if negb enabled_ then throw "Network changes disabled" else
  let! inactive := status_is "inactive" in
  when (negb inactive) restore.

(** The constructor; [state_] starts as what the store holds. *)
Definition take_lock : M unit :=
  do! call_throw CreateDirectories;
  let! ns := call StatNamespace in
  match ns with
  | None => throw "Cannot identify network namespace"
  | Some ino =>
      let! locked := call (LockFile ("/run/magicbox/network-" +:+ to_string ino +:+ ".lock")) in
      if locked then ret tt else throw "Another controller owns this network namespace"
  end.

Definition construct_controller : M unit :=
  let! stored := call_throw StoreGet in
  do! put_state stored;
  do! when enabled_ take_lock;
  let! v := get_state in
  do! when (isNull v) (set_status "inactive");
  let! inactive := status_is "inactive" in
  if negb inactive && enabled_ then
    let! confirmed := status_is "confirmed" in
    let! desired := state_at "config" in
    do! restore;
    when confirmed (let! c := lift (config_from_json desired) in do! apply c; confirm)
  else ret tt.
End Controller.
End Network.
