(* ===== verification/NetworkText.v ===== *)
(** * What the controller hands to nft and to the kernel

    The texts and bytes computed from a validated configuration: the two nftables programs
    keep their structure whatever the names and addresses, and the hardware address written to
    the interface is the one that was validated. *)
From S2P Require Import Prelude CppStd Inet Config Json Serialize Effects Network.

(** ** Specification *)

(** The characters that separate the words of an nftables program: quotes, braces,
    semicolons, white space, and everything else outside names and numbers. *)
Definition structural (c : ascii) : bool := negb (interface_char c).

(** The program with its words left out. *)
Definition skeleton (s : string) : list ascii := base.filter (fun c => structural c = true) (chars s).

(** A word that cannot end early: word characters only. *)
Definition plain_word (s : string) : Prop := Forall (fun c => interface_char c = true) (chars s).

(** ** Words *)

Lemma skeleton_app s t : skeleton (s +:+ t) = skeleton s ++ skeleton t.
Proof. unfold skeleton. by rewrite chars_app, filter_app. Qed.

Lemma skeleton_word s : plain_word s -> skeleton s = [].
Proof.
  unfold plain_word, skeleton. induction 1 as [|c cs Hc _ IH]; [done|].
  rewrite filter_cons_False; [done|]. unfold structural. by rewrite Hc.
Qed.

Lemma interface_name_word s : interface_name s -> plain_word s.
Proof.
  intros (_ & _ & _ & Hall). apply Forall_forall. intros c Hc.
  rewrite interface_char_spec. by apply bool_decide_eq_true, Hall.
Qed.

Lemma dotted_char_word c : dotted_char c = true -> interface_char c = true.
Proof. destruct c as [[] [] [] [] [] [] [] []]; vm_compute; auto. Qed.

Lemma reads_unicast_word `{InetLaws} s a : reads_unicast s a -> plain_word s.
Proof.
  intros (_ & (w & Hw & _) & _). apply inet_pton_dotted in Hw.
  eapply Forall_impl; [exact Hw|]. apply dotted_char_word.
Qed.

Lemma outer_name_word `{Inet} c : valid_config c -> plain_word (outer_name c).
Proof.
  intros [Ho _ _ _ _ _ _ _ _]. unfold outer_name. destruct (vlan_id c).
  - apply (bool_decide_unpack _). vm_compute. exact I.
  - by apply interface_name_word.
Qed.

Section Texts.
Context `{IL : InetLaws}.

(** The words of the two texts. *)
Record words (c : NetworkConfig) : Prop := {
  w_inner : skeleton (inner_interface c) = [];
  w_outer : skeleton (outer_name c) = [];
  w_outer_ip : skeleton (outer_ipv4 c) = [];
  w_device : skeleton (device_ipv4 c) = []
}.

Lemma valid_words c : valid_config c -> words c.
Proof.
  intros Hv. pose proof (outer_name_word c Hv) as Hw.
  destruct Hv as [_ Hi _ _ _ _ _ _ (d & i & o & g & Hd & _ & Ho & _)].
  split; apply skeleton_word; eauto using interface_name_word, reads_unicast_word.
Qed.

(** C26: no injection. For any two valid configurations the nftables programs have the same
    structural characters in the same order: no interface name or address adds, removes or
    moves a quote, brace, semicolon, separator or line break of the guard or the ruleset. *)
Theorem nft_no_injection c c' :
  valid_config c -> valid_config c' ->
  skeleton (guard c) = skeleton (guard c') /\ skeleton (ruleset c) = skeleton (ruleset c').
Proof.
  intros [Hi Ho Hu Hd]%valid_words [Hi' Ho' Hu' Hd']%valid_words.
  unfold guard, ruleset, quoted.
  rewrite !skeleton_app, Hi, Ho, Hu, Hd, Hi', Ho', Hu', Hd'. done.
Qed.

(** The hardware address. For a valid configuration the loop of [link_state] reads the
    MAC without an exception, and the six bytes put into the message are the bytes the text
    denotes, a unicast address. *)
Theorem mac_octets_valid c :
  valid_config c ->
  exists bs, mac_octets (outer_mac c) 0 6 = Ok bs /\ mac_bytes (outer_mac c) bs /\
             Forall (fun b => in_u8 b) bs /\ Z.even (hd 0 bs) = true.
Proof.
  intros Hv. destruct (vc_mac c Hv) as (bs & (Hlen & ps & Hps & Hchars) & _ & Heven).
  exists bs. split_and!; [|by repeat (split; eauto)| |done].
  - do 6 (destruct bs as [|? bs]; [discriminate Hlen|]). destruct bs; [|discriminate Hlen].
    repeat match goal with
    | Hf : Forall2 mac_pair _ (_ :: _) |- _ =>
        apply Forall2_cons_inv_r in Hf as ([? ?] & ? & (? & ? & ? & ? & ->) & Hf & ->)
    | Hf : Forall2 mac_pair _ [] |- _ => apply Forall2_nil_inv_r in Hf as ->
    end.
    cbn in Hchars. cbn [mac_octets]. unfold substr. rewrite Hchars. cbn [length Nat.mul Nat.add Nat.ltb Nat.leb drop take].
    cbn [fst snd] in *. cbn [rbind].
    repeat (erewrite stoul_hex_pair by eassumption; cbn [rbind]).
    repeat match goal with Hx : digit_in 16 _ = Some _ |- _ => apply digit_in_range in Hx; [|lia] end.
    unfold u8. change (2 ^ 8) with 256. rewrite !Z.mod_small by lia. by rewrite !(Z.mul_comm _ 16).
  - clear -Hps. induction Hps; constructor; [by eapply mac_pair_range | done].
Qed.
End Texts.

(** ** Witnesses *)

Definition untagged_config : NetworkConfig := {|
  outer_interface := "eth0"; inner_interface := "usb-lan_1.5"; device_ipv4 := "10.1.2.3";
  inner_gateway_ipv4 := "10.1.2.1"; inner_prefix := 28; outer_ipv4 := "172.16.4.9";
  outer_prefix := 16; outer_gateway_ipv4 := "172.16.0.1"; outer_mac := "0a:BB:cc:dd:EE:0f";
  vlan_id := None
|}.

Lemma nft_no_injection_witness :
  skeleton (ruleset sample_config) = skeleton (ruleset untagged_config).
Proof.
  apply (nft_no_injection sample_config untagged_config);
    apply validate_iff; vm_compute; reflexivity.
Defined.

Lemma mac_octets_valid_witness :
  exists bs, mac_octets (outer_mac sample_config) 0 6 = Ok bs /\ mac_bytes (outer_mac sample_config) bs.
Proof.
  destruct (mac_octets_valid sample_config) as (bs & ? & ? & _); [|eauto].
  apply validate_iff. vm_compute. reflexivity.
Defined.
