(* ===== verification/NetworkBench.v ===== *)
(** * A concrete machine for the network controller

    A small simulated host implementing [Platform]: it tracks the VLAN device, the two nftables
    tables, the clock and the stored record, and can be told which files fail to be written.
    The witnesses of the controller's theorems run on it. *)
From S2P Require Import Prelude CppStd Inet Config Json JsonTree Serialize Effects Network.

(** [table_ip], [table_inet]: the nftables tables named magicbox. *)
Record bench := {
  now : Z; vlan_device : bool; table_ip : bool; table_inet : bool; record : tree;
  broken : list string
}.

Definition set_vlan (b : bench) (v : bool) : bench :=
  {| now := now b; vlan_device := v; table_ip := table_ip b; table_inet := table_inet b;
     record := record b; broken := broken b |}.
Definition set_tables (b : bench) (ip inet : bool) : bench :=
  {| now := now b; vlan_device := vlan_device b; table_ip := ip; table_inet := inet;
     record := record b; broken := broken b |}.
Definition set_record (b : bench) (v : tree) : bench :=
  {| now := now b; vlan_device := vlan_device b; table_ip := table_ip b;
     table_inet := table_inet b; record := v; broken := broken b |}.
Definition set_now (b : bench) (t : Z) : bench :=
  {| now := t; vlan_device := vlan_device b; table_ip := table_ip b; table_inet := table_inet b;
     record := record b; broken := broken b |}.

Definition table_entry (family : string) : tree :=
  JObject [("table", JObject [("family", JString family); ("name", JString "magicbox")])].

Definition link_listing (name : string) : tree :=
  JArray [JObject [("ifname", JString name); ("address", JString "02:00:00:00:00:07");
                   ("flags", JArray [JString "BROADCAST"; JString "UP"]);
                   ("addr_info", JArray [])]].

Definition run_bench (argv : list string) (input : string) (b : bench) : result string * bench :=
  if bool_decide (argv = ["nft"; "-j"; "list"; "tables"]) then
    (Ok (tree_write (JObject [("nftables", JArray (
       (if table_ip b then [table_entry "ip"] else []) ++
       (if table_inet b then [table_entry "inet"] else [])))])), b)
  else if bool_decide (take 2 argv = ["ip"; "-j"]) then
    (Ok (tree_write (match drop 2 argv with
                     | ["address"; "show"; "dev"; name] => link_listing name
                     | _ => JArray []
                     end)), b)
  else if bool_decide (argv = ["nft"; "-f"; "-"]) then
    (Ok "", set_tables b (table_ip b || bool_decide (input = "delete table inet magicbox" +:+ newline +:+
                                                            ruleset sample_config)) true)
  else if bool_decide (argv = ["nft"; "delete"; "table"; "ip"; "magicbox"]) then
    (Ok "", set_tables b false (table_inet b))
  else if bool_decide (argv = ["nft"; "delete"; "table"; "inet"; "magicbox"]) then
    (Ok "", set_tables b (table_ip b) false)
  else (Ok "", b).

Definition bench_answer {A} (r : @request JsonTree A) : bench -> A * bench :=
  match r in @request _ A return bench -> A * bench with
  | ReadWord _ => fun b => (Some "1", b)
  | WriteFile path _ => fun b => (negb (bool_decide (path ∈ broken b)), b)
  | IfNameToIndex name => fun b =>
      (if String.eqb name "mbx-outer" then if vlan_device b then 9 else 0
       else if String.eqb name "outer0" then 2 else 3, b)
  | NlOpen _ => fun b => (true, b)
  | NlExchange m => fun b =>
      (Acked, match nl_kind m with
              | RTM_DELLINK => set_vlan b false
              | RTM_NEWLINK => if nl_create m then set_vlan b true else b
              | _ => b
              end)
  | Command argv input => run_bench argv input
  | SteadyNow => fun b => (now b, set_now b (now b + seconds 1))
  | StoreGet => fun b => (Ok (record b), b)
  | StorePut v => fun b => (Ok tt, set_record b v)
  | CreateDirectories => fun b => (Ok tt, b)
  | StatNamespace => fun b => (Some 4026531992, b)
  | LockFile _ => fun b => (true, b)
  end.

#[export] Instance Bench : @Platform JsonTree :=
  {| Machine := bench; answer := fun A r b => bench_answer r b |}.

(** A controller at rest, with nothing applied; [faults] fail to be written. *)
Definition resting (faults : list string) : net :=
  {| machine := {| now := seconds 100; vlan_device := false; table_ip := false;
                   table_inet := false; record := JNull; broken := faults |};
     state_ := JObject [("status", JString "inactive")]; deadline_ := 0; log := [] |}.

(** The same controller after [m], with a fresh log. *)
Definition after {A} (m : M A) (s : net) : net :=
  {| machine := machine (m s).2; state_ := state_ (m s).2; deadline_ := deadline_ (m s).2;
     log := [] |}.

Definition applied : net := after (apply true sample_config) (resting []).
