(* ===== verification/NetworkSafety.v ===== *)
(** * Safety of the network controller: the log of requests, and the forwarding guard

    What the log of an operation says of the network and of the store, the members of the state,
    and the properties of the guard.  They hold for every machine: whatever files, Netlink, nft,
    ip, the clock and the store answer, and wherever an exception is thrown. *)
From S2P Require Import Prelude CppStd Inet Config Json Serialize Effects Network.

(** ** Attempts *)

Section Attempts.
Context `{Inet} `{JsonCpp} `{@Platform H0}.

Lemma keeps_attempt I errors m : keeps I m -> keeps I (attempt errors m).
Proof. intros Hm. unfold attempt. keeps_auto. Qed.

Lemma keeps_attempts I errors l : Forall (keeps I) l -> keeps I (m_fold attempt errors l).
Proof.
  intros Hl. revert errors. induction Hl as [|m l Hm _ IH]; intros errors; cbn.
  - apply keeps_ret.
  - apply keeps_bind; [by apply keeps_attempt | done].
Qed.

(** [runs I m]: from [I], [m] always returns, and in [I]. *)
Definition runs {A} (I : net -> Prop) (m : M A) : Prop := spec I m (fun _ => I) (fun _ _ => False).

Lemma runs_ret {A} I (a : A) : runs I (ret a).
Proof. by intros s. Qed.

Lemma runs_bind {A B} I (m : M A) (k : A -> M B) :
  runs I m -> (forall a, runs I (k a)) -> runs I (bind m k).
Proof. intros Hm Hk. by eapply spec_bind. Qed.

Lemma runs_call {A} I (r : request A) : keeps I (call r) -> runs I (call r).
Proof.
  intros Hr s Hs. specialize (Hr s Hs). unfold call in *. by destruct (answer r (machine s)).
Qed.

Lemma runs_attempt I errors m : keeps I m -> runs I (attempt errors m).
Proof.
  intros Hm. unfold attempt. eapply spec_try with (E' := fun _ => I).
  - eapply spec_bind; [by apply keeps_spec|]. by intros ? s.
  - by intros e s.
Qed.

Lemma runs_attempts I errors l : Forall (keeps I) l -> runs I (m_fold attempt errors l).
Proof.
  intros Hl. revert errors. induction Hl as [|m l Hm _ IH]; intros errors; cbn.
  - apply runs_ret.
  - apply runs_bind; [by apply runs_attempt | done].
Qed.

Lemma runs_attempt_each {A} I errors (f : A -> M unit) l :
  (forall x, keeps I (f x)) -> runs I (m_fold (fun errors x => attempt errors (f x)) errors l).
Proof.
  intros Hf. revert errors. induction l as [|x l IH]; intros errors; cbn.
  - apply runs_ret.
  - apply runs_bind; [by apply runs_attempt | done].
Qed.
End Attempts.

(** Take an operation of the controller apart into its requests. *)
Ltac net_unfold :=
  unfold install, quiet_link, restore_steps, guard_action, outer_actions, nat_action,
    release_action, write_saved, restore_link, string_at, preflight, resources_exist,
    inspect_link, table_exists, query, run, link_state, vlan, address, route, rule,
    clear_connections, netlink, read_file, write_file, index_of, ipv4, status_is, set_status.
Ltac net_step :=
  match goal with
  | |- keeps _ (m_fold attempt _ _) => apply keeps_attempts; repeat (apply Forall_cons_2 || apply Forall_nil_2)
  | |- keeps _ (attempt _ _) => apply keeps_attempt
  | _ => keeps_step
  end.
Ltac net_auto := net_unfold; cbv zeta; repeat (net_step; cbv zeta).

Section Safety.
Context `{IL : InetLaws} `{JL : JsonCppLaws} `{PF : @Platform H0}.

(** ** Requests that change the network *)

(** Subprocesses that only read: [nft -j], [nft -c] (check), [ip -j]. *)
Definition reads_only (argv : list string) : bool :=
  bool_decide (take 2 argv ∈ [["nft"; "-j"]; ["nft"; "-c"]; ["ip"; "-j"]]).

Definition mutation (e : event) : bool :=
  match e with
  | Did r _ =>
      match r with
      | WriteFile _ _ | NlExchange _ => true
      | Command argv _ => negb (reads_only argv)
      | _ => false
      end
  end.

(** The record the store holds after an event: the last one put successfully. *)
Definition durable_step (d : option Value) (e : event) : option Value :=
  match e with
  | Did r a =>
      match r in request A return A -> option Value with
      | StorePut v => fun a => if is_ok a then Some v else d
      | _ => fun _ => d
      end a
  end.

Definition durable (l : list event) : option Value := fold_left durable_step l None.

(** The configuration in the record parses, as [c]. *)
Definition holds_config (c : NetworkConfig) (v : Value) : Prop :=
  keyed v /\ exists config, at_key v "config" = Ok config /\ config_from_json config = Ok c.

(** ** The operations of the controller *)

Inductive operation :=
| Construct
| Apply (c : NetworkConfig)
| Confirm
| Rollback
| Tick.

Definition perform (enabled_ : bool) (op : operation) : M unit :=
  match op with
  | Construct => construct_controller enabled_
  | Apply c => apply enabled_ c
  | Confirm => confirm enabled_
  | Rollback => rollback enabled_
  | Tick => tick enabled_
  end.

(** The member types of the argument. *)
Definition op_typed (op : operation) : Prop :=
  match op with Apply c => config_typed c | _ => True end.

(** ** The forwarding guard *)

(** Requests that let traffic of the device through: addresses, routes, the rule, and
    forwarding switched on. *)
Definition exposes (e : event) : bool :=
  match e with
  | Did r _ =>
      match r with
      | NlExchange m =>
          match nl_kind m with RTM_NEWADDR | RTM_NEWROUTE | RTM_NEWRULE => true | _ => false end
      | WriteFile path value => bool_decide (path = forward_sysctl) && bool_decide (value = "1")
      | _ => false
      end
  end.

(** The subprocess [argv] with this input succeeded. *)
Definition succeeded (argv : list string) (input : string) (e : event) : bool :=
  match e with
  | Did r a =>
      match r in request A return A -> bool with
      | Command argv' input' => fun a =>
          bool_decide (argv' = argv) && bool_decide (input' = input) && is_ok a
      | _ => fun _ => false
      end a
  end.

Definition guard_installed (c : NetworkConfig) : event -> bool :=
  succeeded ["nft"; "-f"; "-"] (guard c).

Definition guard_removed : event -> bool :=
  succeeded ["nft"; "delete"; "table"; "inet"; "magicbox"] "".

Fixpoint guarded (c : NetworkConfig) (up : bool) (l : list event) : Prop :=
  match l with
  | [] => True
  | e :: l' => (exposes e = true -> up = true) /\ guarded c (up || guard_installed c e) l'
  end.

(** ** The state's members *)

Lemma touch_keyed v k :
  keyed v -> exists v', touch v k = Ok v' /\ keyed v' /\ forall k', at_key v' k' = at_key v k'.
Proof.
  intros Hv. unfold touch. destruct (isMember_keyed v k Hv) as [b Hb]. rewrite Hb. cbn.
  destruct b; [by exists v|].
  destruct (set_key_keyed v k null Hv) as (v' & -> & Ht & Hat & _).
  exists v'. split; [done|]. split; [by right|]. intros k'. rewrite Hat.
  destruct (String.eqb_spec k' k) as [->|]; [|done]. by rewrite (at_key_missing v k Hb).
Qed.

Lemma keyed_dec v : keyed v \/ ~ keyed v.
Proof.
  unfold keyed. destruct (decide (type v = nullValue)), (decide (type v = objectValue)); tauto.
Qed.

Lemma touch_ok_keyed v k v' : touch v k = Ok v' -> keyed v.
Proof.
  intros Ht. destruct (keyed_dec v) as [|Hv]; [done|].
  destruct (isMember_unkeyed v k Hv) as [m Hm]. unfold touch in Ht. by rewrite Hm in Ht.
Qed.

(** Reading a member of an object or null: the state keeps its members. *)
Lemma state_at_keyed k s :
  keyed (state_ s) -> exists x v', state_at k s = (Ok x, with_state s v') /\
    at_key (state_ s) k = Ok x /\ keyed v' /\ forall k', at_key v' k' = at_key (state_ s) k'.
Proof.
  intros Hv. destruct (touch_keyed _ k Hv) as (v' & Ht & Hk & Hat).
  destruct (at_key_keyed v' k Hk) as [x Hx]. exists x, v'.
  unfold state_at, bind, get_state, lift, put_state. rewrite Ht. cbn. rewrite Hx.
  by rewrite <- Hat.
Qed.

Lemma state_at_unkeyed k s : ~ keyed (state_ s) -> exists m, state_at k s = (Throw (Exn json_logic_error m), s).
Proof.
  intros Hk. destruct (isMember_unkeyed _ k Hk) as [m Hm]. exists m.
  unfold state_at, bind, get_state, lift, touch. by rewrite Hm.
Qed.

Lemma state_at_ok k s x s' :
  state_at k s = (Ok x, s') ->
  keyed (state_ s) /\ at_key (state_ s) k = Ok x /\ exists v', s' = with_state s v' /\
    keyed v' /\ forall k', at_key v' k' = at_key (state_ s) k'.
Proof.
  intros Hs. assert (keyed (state_ s)) as Hk.
  { unfold state_at, bind, get_state, lift, put_state in Hs.
    destruct (touch (state_ s) k) eqn:Ht; [by eapply touch_ok_keyed | discriminate]. }
  destruct (state_at_keyed k s Hk) as (y & v' & Hy & Hat & ? & ?).
  rewrite Hy in Hs. injection Hs as -> <-. eauto 10.
Qed.

Lemma state_set_keyed k x s :
  keyed (state_ s) -> exists v', state_set k x s = (Ok tt, with_state s v') /\ keyed v' /\
    at_key v' k = Ok x /\ forall k', k' <> k -> at_key v' k' = at_key (state_ s) k'.
Proof.
  intros Hv. destruct (set_key_keyed _ k x Hv) as (v' & Hset & Ht & Hat & _). exists v'.
  unfold state_set, bind, get_state, lift, put_state. rewrite Hset.
  split; [done|]. split; [by right|]. split; [by rewrite Hat, String.eqb_refl|].
  intros k' Hk. rewrite Hat. by rewrite (proj2 (String.eqb_neq k' k) Hk).
Qed.

(** An exception of [state_at] leaves the log alone. *)
Lemma state_at_log k s : log (state_at k s).2 = log s.
Proof.
  unfold state_at, bind, get_state, lift, put_state. by destruct (touch (state_ s) k).
Qed.

Lemma state_set_log k x s : log (state_set k x s).2 = log s.
Proof.
  unfold state_set, bind, get_state, lift, put_state. by destruct (set_key (state_ s) k x).
Qed.

Lemma durable_snoc l e : durable (l ++ [e]) = durable_step (durable l) e.
Proof. unfold durable. by rewrite fold_left_app. Qed.

(** A put of the state. *)
Definition puts {A} (r : request A) : bool :=
  match r with StorePut _ => true | _ => false end.

(** [apply] goes past its first check. *)
Definition accepted (c : NetworkConfig) : Prop :=
  exists cfg, config_json c = Ok cfg /\ config_from_json cfg = Ok c.

Lemma preflight_accepted c s b s' :
  config_typed c -> preflight c s = (Ok b, s') -> accepted c.
Proof.
  intros Ht Hp. unfold preflight in Hp. apply bind_ok_inv in Hp as (c' & s1 & Hv & _).
  unfold lift in Hv. injection Hv as Hv _. apply rbind_ok_inv in Hv as (cfg & Hj & Hr).
  exists cfg. pose proof (config_json_accepted c cfg c' Ht Hj Hr) as ->. by split.
Qed.

(** A request, once made, stays in the log; [n] requests had been made before. *)
Definition logged (n : nat) (e : event) (s : net) : Prop := e ∈ drop n (log s).

Lemma logged_call {A} n e (r : request A) : keeps (logged n e) (call r).
Proof.
  intros s Hs. unfold call, logged in *. destruct (answer r (machine s)). cbn [log snd].
  rewrite drop_app. apply elem_of_app. by left.
Qed.

Lemma logged_state_at n e k : keeps (logged n e) (state_at k).
Proof. intros s. unfold logged. by rewrite state_at_log. Qed.

Lemma logged_state_set n e k x : keeps (logged n e) (state_set k x).
Proof. intros s. unfold logged. by rewrite state_set_log. Qed.

(** ** The guard goes up first *)

Definition safe (c : NetworkConfig) (s : net) : Prop := guarded c false (log s).
Definition shielded (c : NetworkConfig) (s : net) : Prop :=
  safe c s /\ existsb (guard_installed c) (log s) = true.

Lemma guarded_snoc c up l e :
  guarded c up (l ++ [e]) <->
  guarded c up l /\ (exposes e = true -> up || existsb (guard_installed c) l = true).
Proof.
  revert up. induction l as [|e' l IH]; intros up; cbn; [rewrite orb_false_r; tauto|].
  rewrite IH, orb_assoc. tauto.
Qed.

Lemma safe_call {A} c (r : request A) :
  (forall a, exposes (Did r a) = false) -> keeps (safe c) (call r).
Proof.
  intros Hr s Hs. unfold call. destruct (answer r (machine s)) as [a m]. cbn.
  unfold safe in *. cbn. apply guarded_snoc. split; [done|]. by rewrite Hr.
Qed.

Lemma shielded_call {A} c (r : request A) : keeps (shielded c) (call r).
Proof.
  intros s [Hs Hg]. unfold call. destruct (answer r (machine s)) as [a m]. cbn.
  unfold shielded, safe in *. cbn. rewrite existsb_app, Hg. split; [|done].
  apply guarded_snoc. by rewrite Hg, orb_true_r.
Qed.

Lemma guard_spec c :
  spec (safe c) (run ["nft"; "-f"; "-"] (guard c)) (fun _ => shielded c) (fun _ => safe c).
Proof.
  intros s Hs. pose proof (safe_call c (Command ["nft"; "-f"; "-"] (guard c)) ltac:(done) s Hs)
    as Hs'.
  unfold run, call_throw, bind, call, lift in *.
  destruct (answer _ (machine s)) as [[o|e] m]; [|exact Hs'].
  split; [exact Hs'|]. cbn [log]. rewrite existsb_app. apply orb_true_iff. right.
  cbn. by rewrite !bool_decide_true.
Qed.

#[local] Hint Extern 1 (keeps (safe _) (call _)) => apply safe_call; intros; reflexivity : keeps.
#[local] Hint Resolve shielded_call : keeps.

Lemma install_safe c : spec (safe c) (install c) (fun _ => safe c) (fun _ => safe c).
Proof.
  unfold install. cbv zeta.
  do 5 (apply spec_bind_keeps; [net_auto | done | intros ?]).
  eapply spec_bind; [apply guard_spec|]. intros ?. cbv beta.
  eapply spec_conseq; [apply (keeps_spec (shielded c)); net_auto | done | |]; by intros ? ? [].
Qed.

(** The last request of a successful installation. *)
Definition ruleset_loaded (c : NetworkConfig) (s : net) : Prop :=
  exists l o, log s = l ++ [Did (Command ["nft"; "-f"; "-"]
    ("delete table inet magicbox" +:+ newline +:+ ruleset c)) (Ok o)].

Lemma install_last c : spec (fun _ => True) (install c) (fun _ => ruleset_loaded c) (fun _ _ => True).
Proof.
  unfold install. cbv zeta.
  do 14 (apply (spec_bind _ _ _ (fun _ _ => True));
         [apply (keeps_spec (fun _ => True)); by intros ? | intros ?]).
  intros s _. unfold run, call_throw, bind, call, lift, ret.
  destruct (answer _ (machine s)) as [[o|e] m]; [|done]. by exists (log s), o.
Qed.

(** C8: the guard comes first. In every run of [install] no address, route, rule or
    forwarding is added before the forwarding guard of the same configuration has been
    installed successfully; and when [install] returns, its last request replaced the guard
    by the complete ruleset, in one nft transaction. *)
Theorem install_guarded c s :
  log s = [] ->
  guarded c false (log (install c s).2) /\
  ((install c s).1 = Ok tt -> ruleset_loaded c (install c s).2).
Proof.
  intros Hs. assert (safe c s) as Hsafe by (unfold safe; by rewrite Hs).
  pose proof (install_safe c s Hsafe) as H1. pose proof (install_last c s I) as H2.
  by destruct (install c s) as [[[]|e] s'].
Qed.

(** ** The guard stays up after a partial rollback *)

(** The guard table is only gone in the status [inactive]. *)
Definition retained (s : net) : Prop :=
  existsb guard_removed (log s) = true -> at_key (state_ s) "status" = Ok (of_string "inactive").

Definition kept (s : net) : Prop := existsb guard_removed (log s) = false /\ keyed (state_ s).

Lemma kept_call {A} (r : request A) :
  (forall a, guard_removed (Did r a) = false) -> keeps kept (call r).
Proof.
  intros Hr s [Hs Hk]. unfold call. destruct (answer r (machine s)) as [a m]. split; [|done].
  cbn [log snd]. rewrite existsb_app, Hs. cbn [existsb]. by rewrite Hr.
Qed.

Lemma kept_state_at k : keeps kept (state_at k).
Proof.
  intros s [Hs Hk]. destruct (state_at_keyed k s Hk) as (x & v' & -> & _ & Hk' & _). by split.
Qed.

Lemma kept_state_set k x : keeps kept (state_set k x).
Proof.
  intros s [Hs Hk]. destruct (state_set_keyed k x s Hk) as (v' & -> & Hk' & _). by split.
Qed.

#[local] Hint Extern 1 (keeps kept (call _)) => apply kept_call; intros; reflexivity : keeps.
#[local] Hint Resolve kept_state_at kept_state_set : keeps.

Lemma kept_retained s : kept s -> retained s.
Proof. intros [Hs _] Hr. congruence. Qed.

Definition keyed_state (s : net) : Prop := keyed (state_ s).

Lemma release_spec :
  spec kept release_action (fun _ => keyed_state) (fun _ => kept).
Proof.
  unfold release_action. eapply spec_bind; [apply (keeps_spec kept); net_auto|].
  intros present. cbv beta. destruct present; cbn [when]; [|by intros s []].
  apply (spec_bind _ _ _ (fun _ => keyed_state)); [|by intros ? s].
  intros s [Hs Hk]. unfold run, call_throw, bind, call, lift.
  destruct (answer _ (machine s)) as [[o|e] m]; [done|]. split; [|done].
  cbn [log]. by rewrite existsb_app, Hs.
Qed.

Lemma app_semicolon w t : w +:+ "; " +:+ t <> "".
Proof. destruct w; discriminate. Qed.

(** The guard is released only when no attempt failed. *)
Definition after_steps (errors : string) (s : net) : Prop :=
  keyed_state s /\ (errors <> "" -> kept s).

Lemma restore_steps_kept c : spec kept (restore_steps c) after_steps (fun _ => kept).
Proof.
  unfold restore_steps.
  do 11 (apply spec_bind_keeps; [net_auto | done | intros ?]).
  match goal with |- context [String.eqb ?e ""] => destruct (String.eqb_spec e "") as [->|] end;
    [|intros s Hs; by split; [apply Hs|]].
  unfold attempt. eapply spec_try with (E' := fun _ => kept).
  - eapply spec_bind; [apply release_spec|]. intros _ s Hs. by split.
  - intros e s Hs. split; [apply Hs|done].
Qed.
(** The state just before the last record is put. *)
Definition settled (errors : string) (s : net) : Prop :=
  keyed_state s /\ (errors <> "" -> kept s) /\
  at_key (state_ s) "status" =
    Ok (of_string (if String.eqb errors "" then "inactive" else "rollback_failed")).

Lemma settled_retained errors s : settled errors s -> retained s.
Proof.
  intros (_ & Hk & Hst) Hr. destruct (String.eqb_spec errors "") as [->|Hne]; [done|].
  destruct (Hk Hne). congruence.
Qed.

Lemma settle_spec errors :
  spec (after_steps errors)
    (set_status (if String.eqb errors "" then "inactive" else "rollback_failed"))
    (fun _ => settled errors) (fun _ _ => False).
Proof.
  intros s [Hk Hkept]. unfold set_status.
  destruct (state_set_keyed "status" (of_string (if String.eqb errors "" then "inactive"
    else "rollback_failed")) s Hk) as (v' & -> & Hk' & Hst & _).
  split; [done|]. split; [|done]. intros Hne. by destruct (Hkept Hne).
Qed.

Lemma settled_error errors x : keeps (settled errors) (state_set "error" x).
Proof.
  intros s (Hk & Hkept & Hst). destruct (state_set_keyed "error" x s Hk) as (v' & -> & Hk' & _ & Hat).
  split; [done|]. split; [intros Hne; by destruct (Hkept Hne)|]. cbn. by rewrite Hat.
Qed.

Lemma settled_journal errors : keeps (settled errors) journal.
Proof.
  unfold journal. apply keeps_bind; [by intros s|]. intros v. apply keeps_call_throw.
  intros s (Hk & Hkept & Hst). pose proof (kept_call (StorePut v) ltac:(done) s) as Hc.
  unfold call in *. destruct (answer _ (machine s)). split; [done|]. split; [|done]. auto.
Qed.

(** C7: a partial rollback keeps the guard. In every run of [restore] the table that blocks
    forwarding is removed only if the rollback then records the status [inactive], that is
    when every restoring step succeeded; after a failed step the device stays blocked. *)
Theorem restore_retains_guard s :
  log s = [] -> existsb guard_removed (log (restore s).2) = true ->
  at_key (state_ (restore s).2) "status" = Ok (of_string "inactive").
Proof.
  intros Hlog. change (retained (restore s).2).
  assert (spec (fun s => log s = []) restore (fun _ => retained) (fun _ => retained)) as Hspec.
  { unfold restore. clear s Hlog.
    apply (spec_bind _ _ _ (fun _ => kept)).
    { intros s Hs. pose proof (state_at_log "config" s) as Hl.
      destruct (state_at "config" s) as [[x|e] s'] eqn:Hat; cbn in Hl.
      - apply state_at_ok in Hat as (_ & _ & v' & -> & Hk & _). split; [|done]. cbn. by rewrite Hs.
      - intros Hr. by rewrite Hl, Hs in Hr. }
    intros config. do 3 (apply spec_bind_keeps; [unfold set_status, journal; keeps_auto |
      by intros ? ?; apply kept_retained | intros ?]).
    eapply spec_bind.
    { eapply spec_conseq; [apply restore_steps_kept | done | done |].
      intros ? s. apply kept_retained. }
    intros errors. eapply spec_bind.
    { eapply spec_conseq; [apply settle_spec | done | done | done]. }
    intros ?. cbv beta. eapply spec_conseq;
      [apply (keeps_spec (settled errors)) | done | | ]; [|by intros ? ?; apply settled_retained..].
    apply keeps_bind; [apply settled_error|]. intros ?.
    apply keeps_bind; [apply settled_journal|]. intros ?. keeps_auto. }
  specialize (Hspec s Hlog). by destruct (restore s) as [[[]|e] s'].
Qed.

(** ** Without [--allow-network] *)

(** C22: a controller that is not enabled never touches the machine: the constructor only reads
    the store, the other operations make no request at all and leave the state alone. *)
Theorem disabled_is_inert op s :
  match op with
  | Construct => log (perform false op s).2 = log s ++ [Did StoreGet (answer StoreGet (machine s)).1]
  | Tick => perform false op s = (Ok tt, s)
  | _ => exists e, perform false op s = (Throw e, s) /\ exn_class e = runtime_error
  end.
Proof.
  destruct op; cbn; try (eexists; split; reflexivity).
  unfold construct_controller, call_throw.
  set (l := log s ++ [Did StoreGet (answer StoreGet (machine s)).1]).
  match goal with |- log (bind (bind (call StoreGet) lift) ?k s).2 = _ =>
    assert (forall v, keeps (fun s => log s = l) (k v)) as Hk end.
  { intros v. apply keeps_bind; [by intros s1|]. intros ?. apply keeps_bind; [apply keeps_ret|].
    intros ?. apply keeps_bind; [apply keeps_get_state|]. intros w.
    apply keeps_bind; [apply keeps_when; intros s1 Hs1; unfold set_status; by rewrite state_set_log|].
    intros ?. apply keeps_bind.
    - apply keeps_bind; [intros s1 Hs1; by rewrite state_at_log | intros ?; apply keeps_ret].
    - intros b. rewrite andb_false_r. apply keeps_ret. }
  unfold bind at 1 2, call, lift at 1. subst l.
  destruct (answer StoreGet (machine s)) as [[v|e] m]; [|done]. by apply Hk.
Qed.
End Safety.

(** ** Witnesses, on the simulated host *)

From S2P Require Import JsonTree NetworkBench.

Lemma sample_typed : config_typed sample_config.
Proof. unfold config_typed, sample_config. cbn. lia. Qed.

Lemma install_guarded_witness :
  ruleset_loaded sample_config (install sample_config (resting [])).2.
Proof.
  destruct (install_guarded sample_config (resting []) eq_refl) as [_ Hlast].
  apply Hlast. vm_compute. reflexivity.
Defined.

Lemma restore_retains_guard_witness :
  at_key (state_ (restore applied).2) "status" = Ok (of_string "inactive").
Proof.
  apply (restore_retains_guard applied); [reflexivity | vm_compute; reflexivity].
Defined.
