(* ===== verification/NetworkJournal.v ===== *)
(** * The write-ahead journal of the network controller

    Whatever the machine answers and wherever an operation stops, each of its changes of the
    network is made while the store durably holds a record from which the next constructor can
    undo it: a status other than [inactive], a configuration that parses, and what the
    interfaces and the switches were before the first change. *)
From S2P Require Import Prelude CppStd Inet Config Json Serialize Effects Network NetworkSafety.

Section Journal.
Context `{IL : InetLaws} `{JL : JsonCppLaws} `{PF : @Platform H0}.

(** ** What a record must hold *)

(** The members of the state a rollback reads, apart from the status. *)
Definition saved_members : list string := ["config"; "baseline"; "ip_forward"; "rp_filter_all"].

Definition same_saved (v w : Value) : Prop :=
  forall k, k ∈ saved_members -> at_key w k = at_key v k.

(** A record of [c] the constructor restores. *)
Definition recoverable (c : NetworkConfig) (v : Value) : Prop :=
  holds_config c v /\
  exists name, at_key v "status" = Ok (of_string name) /\ name <> "inactive".

(** The member [key] is the word read from [path] in [l]. *)
Definition word_read (path key : string) (l : list event) (v : Value) : Prop :=
  exists w, Did (ReadWord path) (Some w) ∈ l /\ at_key v key = Ok (of_string w).

(** [info] is what [ip] said of the interface in [l], with the two switches read in [l]. *)
Definition inspected (name : string) (l : list event) (info : Value) : Prop :=
  exists text listing first,
    Did (Command ["ip"; "-j"; "address"; "show"; "dev"; name] "") (Ok text) ∈ l /\
    parse_json text = Ok listing /\ at_index listing 0 = Ok first /\
    word_read (ipv6_sysctl name) "disable_ipv6" l info /\
    word_read (rp_filter_sysctl name) "rp_filter" l info /\
    forall k, k <> "disable_ipv6" -> k <> "rp_filter" -> at_key info k = at_key first k.

Definition seen_links (c : NetworkConfig) (baseline : Value) (l : list event) : Prop :=
  exists outer inner, elements baseline = [outer; inner] /\
    inspected (outer_interface c) l outer /\ inspected (inner_interface c) l inner.

(** The record describes the interfaces of [c] and the global switches as seen in [l]. *)
Definition observed (c : NetworkConfig) (l : list event) (v : Value) : Prop :=
  (exists baseline, at_key v "baseline" = Ok baseline /\ seen_links c baseline l) /\
  word_read forward_sysctl "ip_forward" l v /\
  word_read (rp_filter_sysctl "all") "rp_filter_all" l v.

Definition no_change (l : list event) : Prop := existsb mutation l = false.

(** What the record allows to undo, by operation: [l] is the log before the change. [apply]
    observed the network in this run, before its first change; the constructor goes by the
    record it found in the store, or applies again the configuration found there; the others go
    by the state the controller was in. *)
Definition undoes (op : operation) (before : Value) (l : list event) (v : Value) : Prop :=
  match op with
  | Apply c => holds_config c v /\
      exists l1 l2, l = l1 ++ l2 /\ no_change l1 /\ observed c l1 v
  | Construct => exists w, Did StoreGet (Ok w) ∈ l /\
      (same_saved w v \/
       exists c, holds_config c w /\ holds_config c v /\
         exists l0 l1 l2, l = l0 ++ l1 ++ l2 /\ no_change l1 /\ observed c l1 v)
  | Confirm | Rollback | Tick => same_saved before v
  end.

(** ** Evidence that grows with the log *)

Definition growing (R : list event -> Prop) : Prop := forall l e, R l -> R (l ++ [e]).

Lemma growing_did (e : event) : growing (fun l => e ∈ l).
Proof. intros l e' He. apply elem_of_app. by left. Qed.

Lemma growing_and R R' : growing R -> growing R' -> growing (fun l => R l /\ R' l).
Proof. intros H1 H2 l e [? ?]. split; auto. Qed.

Lemma growing_word path key v : growing (fun l => word_read path key l v).
Proof. intros l e (w & Hw & Hv). exists w. split; [by apply growing_did|done]. Qed.

Lemma growing_inspected name info : growing (fun l => inspected name l info).
Proof.
  intros l e (t & li & f & Ht & ? & ? & ? & ? & ?). exists t, li, f.
  split_and!; try done; [by apply growing_did | by apply growing_word..].
Qed.

Lemma growing_seen c b : growing (seen_links c b).
Proof. intros l e (o & i & He & ? & ?). exists o, i. split_and!; [done | by apply growing_inspected..]. Qed.

#[local] Hint Resolve growing_did growing_and growing_word growing_inspected growing_seen : keeps.
#[local] Hint Extern 1 (growing _) => (by intros ? ? ?) : keeps.

(** ** The assertions *)

Section Evidence.
(** [E l v]: the record [v] undoes the changes made after [l]. *)
Context (E : list event -> Value -> Prop).
Context (E_grows : forall v, growing (fun l => E l v)).
Context (E_saved : forall l v w, E l v -> same_saved v w -> keyed w -> E l w).

(** Every change in [l] was made while the store held such a record. *)
Definition recorded_first (l : list event) : Prop :=
  forall l1 e l2, l = l1 ++ e :: l2 -> mutation e = true ->
  exists v, durable l1 = Some v /\ (exists c, recoverable c v) /\ E l1 v.

Lemma recorded_first_snoc l e :
  recorded_first l ->
  (mutation e = true -> exists v, durable l = Some v /\ (exists c, recoverable c v) /\ E l v) ->
  recorded_first (l ++ [e]).
Proof.
  intros Hl He l1 e' l2 Heq Hm. destruct l2 as [|e2 l2 _] using rev_ind.
  - apply app_inj_tail in Heq as [-> ->]. by apply He.
  - rewrite app_comm_cons, app_assoc in Heq. apply app_inj_tail in Heq as [-> _].
    by eapply Hl.
Qed.

(** [covered]: so far every change was recorded first.  [tracked]: and a put of the state would
    record the next one.  [armed]: it is put. *)
Definition covered (s : net) : Prop := recorded_first (log s).
Definition tracked (s : net) : Prop := covered s /\ keyed (state_ s) /\ E (log s) (state_ s).
Definition ready (c : NetworkConfig) (s : net) : Prop := tracked s /\ holds_config c (state_ s).
Definition recorded (c : NetworkConfig) (name : string) (s : net) : Prop :=
  ready c s /\ at_key (state_ s) "status" = Ok (of_string name).
Definition armed (c : NetworkConfig) (s : net) : Prop :=
  ready c s /\ exists v, durable (log s) = Some v /\ recoverable c v /\ E (log s) v.

Lemma armed_tracked c s : armed c s -> tracked s.
Proof. by intros [[? _] _]. Qed.

Lemma covered_call {A} (r : request A) :
  (forall a, mutation (Did r a) = false) -> keeps covered (call r).
Proof.
  intros Hr s Hs. unfold call. destruct (answer r (machine s)) as [a m].
  apply recorded_first_snoc; [exact Hs|]. by rewrite Hr.
Qed.

Lemma covered_state {A} (m : M A) : (forall s, log (m s).2 = log s) -> keeps covered m.
Proof. intros Hm s. unfold covered. by rewrite Hm. Qed.

Lemma tracked_call {A} (r : request A) :
  (forall a, mutation (Did r a) = false) -> keeps tracked (call r).
Proof.
  intros Hr s (Hc & Hk & He). pose proof (covered_call r Hr s Hc) as Hc'. unfold call in *.
  destruct (answer r (machine s)) as [a m]. split; [done|]. split; [done|]. by apply E_grows.
Qed.

(** Another state with the same saved members. *)
Lemma tracked_with_state s v :
  tracked s -> keyed v -> same_saved (state_ s) v -> tracked (with_state s v).
Proof. intros (Hc & Hk & He) Hv Hs. split; [done|]. split; [done|]. by apply (E_saved _ (state_ s)). Qed.

Lemma saved_all v w : (forall k, at_key w k = at_key v k) -> same_saved v w.
Proof. by intros Hw k _. Qed.

Lemma saved_others v w k :
  k ∉ saved_members -> (forall k', k' <> k -> at_key w k' = at_key v k') -> same_saved v w.
Proof. intros Hk Hw k' Hk'. apply Hw. by intros ->. Qed.

Lemma holds_others c v w k :
  k ∉ saved_members -> keyed w -> (forall k', k' <> k -> at_key w k' = at_key v k') ->
  holds_config c v -> holds_config c w.
Proof.
  intros Hk Hw Hat (_ & cfg & Hc & Hp). split; [done|]. exists cfg. rewrite Hat; [done|].
  intros <-. apply Hk. by left.
Qed.

Lemma tracked_state_at k : keeps tracked (state_at k).
Proof.
  intros s Hs. destruct (state_at_keyed k s (proj1 (proj2 Hs))) as (x & v' & -> & _ & Hk & Hat).
  apply tracked_with_state; [done|done|by apply saved_all].
Qed.

Lemma ready_state_at c k : keeps (ready c) (state_at k).
Proof.
  intros s [Hs (Hk & cfg & Hc & Hp)].
  destruct (state_at_keyed k s Hk) as (x & v' & -> & _ & Hk' & Hat). cbn.
  split; [apply tracked_with_state; [done|done|by apply saved_all]|].
  split; [done|]. exists cfg. cbn. by rewrite Hat.
Qed.

Lemma tracked_state_set k x : k ∉ saved_members -> keeps tracked (state_set k x).
Proof.
  intros Hne s Hs. destruct (state_set_keyed k x s (proj1 (proj2 Hs))) as (v' & -> & Hk & _ & Hat).
  apply tracked_with_state; [done|done|]. by eapply saved_others.
Qed.

Lemma ready_state_set c k x : k ∉ saved_members -> keeps (ready c) (state_set k x).
Proof.
  intros Hne s [Hs Hc]. destruct (state_set_keyed k x s (proj1 (proj2 Hs))) as (v' & Heq & Hk & _ & Hat).
  pose proof (tracked_state_set k x Hne s Hs) as Ht. rewrite Heq in *. split; [done|].
  by eapply holds_others.
Qed.

(** With the record put, any change is covered. *)
Lemma armed_call {A} c (r : request A) : puts r = false -> keeps (armed c) (call r).
Proof.
  intros Hr s (((Hc & Hk & He) & Hh) & v & Hd & Hv & Hev). unfold call.
  destruct (answer r (machine s)) as [a m].
  assert (durable (log s ++ [Did r a]) = Some v) as Hd' by (rewrite durable_snoc; by destruct r).
  split; [|exists v; split_and!; [done..|by apply E_grows]].
  split; [|done]. split; [|split; [done|by apply E_grows]].
  apply recorded_first_snoc; [done|]. intros _. exists v. by split_and!; [|exists c|].
Qed.

Lemma armed_state_at c k : keeps (armed c) (state_at k).
Proof. intros s [Hs Hd]. split; [by apply ready_state_at|]. by rewrite state_at_log. Qed.

Lemma armed_state_set c k x : k ∉ saved_members -> keeps (armed c) (state_set k x).
Proof. intros Hk s [Hs Hd]. split; [by apply ready_state_set|]. by rewrite state_set_log. Qed.

#[local] Hint Extern 1 (keeps (armed _) (call _)) => apply armed_call; reflexivity : keeps.
#[local] Hint Extern 1 (keeps covered (call _)) => apply covered_call; intros; reflexivity : keeps.
#[local] Hint Extern 1 (keeps tracked (call _)) => apply tracked_call; intros; reflexivity : keeps.
#[local] Hint Resolve armed_state_at tracked_state_at : keeps.
#[local] Hint Extern 1 (keeps (armed _) (state_set _ _)) =>
  apply armed_state_set; (by apply (bool_decide_unpack _)) : keeps.
#[local] Hint Extern 1 (keeps tracked (state_set _ _)) =>
  apply tracked_state_set; (by apply (bool_decide_unpack _)) : keeps.
#[local] Hint Extern 1 (keeps covered (state_at _)) => apply covered_state, state_at_log : keeps.
#[local] Hint Extern 1 (keeps covered (state_set _ _)) => apply covered_state, state_set_log : keeps.

Lemma armed_install c c' : keeps (armed c) (install c').
Proof. net_auto. Qed.

Lemma armed_restore_steps c c' : keeps (armed c) (restore_steps c').
Proof. net_auto. Qed.

(** ** Recording, and the rollback *)

Lemma set_status_spec c name :
  spec (ready c) (set_status name) (fun _ => recorded c name) (fun _ _ => False).
Proof.
  intros s Hs. pose proof (ready_state_set c "status" (of_string name)
    ltac:(by apply (bool_decide_unpack _)) s Hs) as Hr.
  unfold set_status. destruct Hs as [(_ & Hk & _) _].
  destruct (state_set_keyed "status" (of_string name) s Hk) as (v' & Heq & Hk' & Hst & _).
  rewrite Heq in *. by split.
Qed.

Lemma journal_spec c name :
  name <> "inactive" ->
  spec (recorded c name) journal (fun _ => armed c) (fun _ => covered).
Proof.
  intros Hname s [[(Hc & Hk & He) Hcfg] Hst].
  unfold journal, call_throw, bind, get_state, call, lift.
  destruct (answer (StorePut (state_ s)) (machine s)) as [a m].
  assert (recorded_first (log s ++ [Did (StorePut (state_ s)) a])) as Hc'
    by (by apply recorded_first_snoc).
  destruct a as [u|e]; [|done].
  assert (E (log s ++ [Did (StorePut (state_ s)) (Ok u)]) (state_ s)) as He' by (by apply E_grows).
  split; [split; [by split_and!|exact Hcfg]|]. exists (state_ s). cbn [log]. rewrite durable_snoc.
  split; [done|]. split; [|done]. split; [done|]. by exists name.
Qed.

Lemma covered_journal : keeps covered journal.
Proof. unfold journal. keeps_auto. Qed.
Lemma tracked_journal : keeps tracked journal.
Proof. unfold journal. keeps_auto. Qed.
#[local] Hint Resolve covered_journal tracked_journal : keeps.

Lemma restore_spec : spec tracked restore (fun _ => covered) (fun _ => covered).
Proof.
  unfold restore. assert (forall (e : exn) s, tracked s -> covered s) as Hout by by intros e s [].
  eapply spec_bind with (R := fun config s => tracked s /\ at_key (state_ s) "config" = Ok config).
  { intros s Hs. destruct (state_at_keyed "config" s (proj1 (proj2 Hs))) as (x & v' & -> & Hx & Hk & Hat).
    split; [apply tracked_with_state; [done|done|by apply saved_all]|]. cbn. by rewrite Hat. }
  intros config. eapply spec_bind with (R := ready).
  { apply spec_lift. intros s [Hs Hat]. destruct (config_from_json config) as [c|] eqn:Hp; [|apply Hs].
    split; [done|]. split; [apply Hs|]. by exists config. }
  intros c. apply (spec_bind _ _ _ (fun _ => recorded c "rolling_back")).
  { eapply spec_conseq; [apply (set_status_spec c "rolling_back") | done..]. }
  intros _. apply (spec_bind _ _ _ (fun _ => armed c)); [by apply journal_spec|].
  intros _. apply (spec_bind _ _ _ (fun _ => tracked)).
  { eapply spec_conseq; [apply keeps_spec, (armed_restore_steps c c) | done | |].
    - intros errors s. apply armed_tracked.
    - intros e s Hs%armed_tracked. by apply Hout. }
  intros errors. eapply spec_conseq; [apply (keeps_spec covered) | by intros s [] | done | done].
  unfold set_status. keeps_auto.
Qed.

Lemma tick_spec enabled : spec tracked (tick enabled) (fun _ => covered) (fun _ => covered).
Proof.
  assert (forall (e : exn) s, tracked s -> covered s) as Hout by by intros e s [].
  unfold tick. destruct enabled; cbn [negb]; [|by intros s []].
  apply spec_bind_keeps; [unfold status_is; keeps_auto | done | intros pending].
  destruct pending; cbn [negb]; [|by intros s []].
  do 2 (apply spec_bind_keeps; [keeps_auto | done | intros ?]).
  destruct (_ <=? _); cbn [when]; [apply restore_spec | by intros s []].
Qed.

Lemma confirm_spec enabled : spec tracked (confirm enabled) (fun _ => covered) (fun _ => covered).
Proof.
  unfold confirm. destruct enabled; cbn [negb]; [|by intros s []].
  eapply spec_bind; [apply tick_spec|]. intros ?. apply keeps_spec.
  unfold status_is, set_status. keeps_auto.
Qed.

Lemma rollback_spec enabled : spec tracked (rollback enabled) (fun _ => covered) (fun _ => covered).
Proof.
  assert (forall (e : exn) s, tracked s -> covered s) as Hout by by intros e s [].
  unfold rollback. destruct enabled; cbn [negb]; [|by intros s []].
  apply spec_bind_keeps; [unfold status_is; keeps_auto | done | intros inactive].
  destruct inactive; cbn [negb when]; [by intros s [] | apply restore_spec].
Qed.

(** ** Observing the network, before the first change *)

(** Since the log was [l0] nothing was changed, and [R] holds of the requests made. *)
Definition noted (l0 : list event) (R : list event -> Prop) (s : net) : Prop :=
  covered s /\ keyed (state_ s) /\
  exists l, log s = l0 ++ l /\ no_change l /\ R l.

Lemma noted_covered l0 R s : noted l0 R s -> covered s.
Proof. by intros [? _]. Qed.

Lemma noted_weaken l0 (R R' : list event -> Prop) s :
  (forall l, R l -> R' l) -> noted l0 R s -> noted l0 R' s.
Proof. intros HR (Hc & Hk & l & Hl & Hn & Hr). split; [done|]. split; [done|]. exists l. auto. Qed.

Lemma noted_call {A} l0 R (r : request A) :
  growing R -> (forall a, mutation (Did r a) = false) ->
  spec (noted l0 R) (call r) (fun a => noted l0 (fun l => R l /\ Did r a ∈ l)) (fun _ _ => False).
Proof.
  intros HR Hr s (Hc & Hk & l & Hl & Hn & HRl). pose proof (covered_call r Hr s Hc) as Hc'.
  unfold call in *. destruct (answer r (machine s)) as [a m]. split; [done|]. split; [done|].
  exists (l ++ [Did r a]). cbn [log]. rewrite Hl, <- app_assoc. split; [done|]. split.
  - unfold no_change in *. rewrite existsb_app, Hn. cbn [existsb]. by rewrite Hr.
  - split; [by apply HR|]. apply elem_of_app. right. by left.
Qed.

Lemma noted_call_keeps {A} l0 R (r : request A) :
  growing R -> (forall a, mutation (Did r a) = false) -> keeps (noted l0 R) (call r).
Proof.
  intros HR Hr s Hs. pose proof (noted_call l0 R r HR Hr s Hs) as Hc. unfold call in *.
  destruct (answer r (machine s)). eapply noted_weaken; [|exact Hc]. by intros l [? _].
Qed.
#[local] Hint Extern 1 (keeps (noted _ _) (call _)) =>
  apply noted_call_keeps; [solve [eauto with keeps] | intros; reflexivity] : keeps.

(** A call, and a word read, noted for what follows. *)
Lemma spec_call_noted {A B} l0 R (r : request A) (k : A -> M B) Q (X : exn -> net -> Prop) :
  growing R -> (forall a, mutation (Did r a) = false) ->
  (forall a, spec (noted l0 (fun l => R l /\ Did r a ∈ l)) (k a) Q X) ->
  spec (noted l0 R) (bind (call r) k) Q X.
Proof.
  intros HR Hr Hk. eapply spec_bind; [|exact Hk].
  eapply spec_conseq; [by apply noted_call | done..].
Qed.

Lemma spec_bind_assoc {A B C} (m : M A) (f : A -> M B) (k : B -> M C) P Q X :
  spec P (bind m (fun a => bind (f a) k)) Q X -> spec P (bind (bind m f) k) Q X.
Proof. intros Hs s HP. specialize (Hs s HP). unfold bind in *. by destruct (m s) as [[a|e] s']. Qed.

Lemma spec_lift_bind {A B} (r : result A) (k : A -> M B) P Q (X : exn -> net -> Prop) :
  (forall a, r = Ok a -> spec P (k a) Q X) -> (forall e s, P s -> X e s) ->
  spec P (bind (lift r) k) Q X.
Proof. intros Hk HX s HP. unfold bind, lift. destruct r as [a|e]; [by apply Hk | by apply HX]. Qed.

Lemma spec_read_noted {B} l0 R path (k : string -> M B) Q :
  growing R ->
  (forall w, spec (noted l0 (fun l => R l /\ Did (ReadWord path) (Some w) ∈ l)) (k w) Q (fun _ => covered)) ->
  spec (noted l0 R) (bind (read_file path) k) Q (fun _ => covered).
Proof.
  intros HR Hk. unfold read_file. apply spec_bind_assoc, spec_call_noted; [done|done|].
  intros [w|]; [exact (Hk w)|]. intros s Hs. by eapply noted_covered.
Qed.

Lemma inspect_link_spec l0 R baseline name :
  growing R ->
  spec (noted l0 R) (inspect_link baseline name)
    (fun b s => exists info, append baseline info = Ok b /\
       noted l0 (fun l => R l /\ inspected name l info) s)
    (fun _ => covered).
Proof.
  intros HR. unfold inspect_link, query, run, call_throw.
  apply spec_bind_keeps; [net_auto | by intros ? ? ?%noted_covered | intros ?].
  do 2 apply spec_bind_assoc. apply spec_call_noted; [done|done|intros text].
  set (R1 l := R l /\ Did (Command ["ip"; "-j"; "address"; "show"; "dev"; name] "") text ∈ l).
  assert (growing R1) as HR1 by (subst R1; eauto with keeps).
  assert (forall (e : exn) s, noted l0 R1 s -> covered s) as Hout by (intros e s; apply noted_covered).
  apply spec_lift_bind; [|done]. intros t ->.
  apply spec_lift_bind; [|done]. intros listing Hlisting.
  apply spec_lift_bind; [|done]. intros first Hfirst. cbv zeta.
  destruct (String.eqb name "lo"); [by intros s Hs%noted_covered|].
  apply spec_lift_bind; [|done]. intros enslaved _.
  destruct enslaved; [by intros s Hs%noted_covered|].
  apply spec_lift_bind; [|done]. intros info Hinfo.
  assert (keyed info /\ forall k, at_key info k = at_key first k) as [Hk Hat0].
  { destruct (touch_keyed first "addr_info" (touch_ok_keyed _ _ _ Hinfo)) as (v & Hv & ? & Hat).
    by replace info with v by congruence. }
  apply spec_lift_bind; [|done]. intros addresses _.
  destruct (json_empty addresses); cbn [negb]; [|by intros s Hs%noted_covered].
  apply spec_read_noted; [done|]. intros v6.
  apply spec_lift_bind; [|by intros ? ? ?%noted_covered]. intros info1 H1.
  apply spec_read_noted; [eauto with keeps|]. intros rp.
  apply spec_lift_bind; [|by intros ? ? ?%noted_covered]. intros info2 H2.
  intros s Hs. cbn. destruct (append baseline info2) as [b|] eqn:Hb; [|by eapply noted_covered].
  exists info2. split; [exact Hb|]. eapply noted_weaken; [|exact Hs].
  intros l [[[HRl Ht] H6] Hrp]. split; [done|]. exists t, listing, first.
  destruct (set_key_keyed info "disable_ipv6" (of_string v6) Hk) as (w1 & Hw1 & Ht1 & Hat1 & _).
  replace w1 with info1 in * by congruence.
  destruct (set_key_keyed info1 "rp_filter" (of_string rp) ltac:(by right)) as (w2 & Hw2 & _ & Hat2 & _).
  replace w2 with info2 in * by congruence.
  split_and!; try done.
  - exists v6. split; [done|]. by rewrite Hat2, Hat1.
  - exists rp. split; [done|]. by rewrite Hat2.
  - intros k Hk1 Hk2. rewrite Hat2, Hat1, <- Hat0.
    by rewrite (proj2 (String.eqb_neq k "rp_filter") Hk2), (proj2 (String.eqb_neq k "disable_ipv6") Hk1).
Qed.

Lemma spec_noted_keeps {A B} l0 R (m : M A) (k : A -> M B) Q :
  keeps (noted l0 R) m -> (forall a, spec (noted l0 R) (k a) Q (fun _ => covered)) ->
  spec (noted l0 R) (bind m k) Q (fun _ => covered).
Proof. intros Hm Hk. apply spec_bind_keeps; [done | by intros ? ? ?%noted_covered | done]. Qed.

Lemma preflight_spec c :
  forall l0, spec (noted l0 (fun _ => True)) (preflight c)
    (fun b s => noted l0 (seen_links c b) s) (fun _ => covered).
Proof.
  intros l0. unfold preflight.
  apply spec_lift_bind; [|by intros ? ? ?%noted_covered]. intros _ _.
  apply spec_noted_keeps; [net_auto|]. intros reserved. destruct reserved; [by intros s Hs%noted_covered|].
  do 4 (apply spec_noted_keeps; [net_auto|intros ?]). cbn [m_fold].
  apply spec_bind_assoc. eapply spec_bind; [by apply inspect_link_spec|]. intros b1. cbv beta.
  apply spec_bind_assoc. intros s (outer & Hb1 & Hs). revert s Hs.
  match goal with |- forall s, noted l0 ?R s -> match (?m s) with _ => _ end =>
    change (spec (noted l0 R) m (fun b s => noted l0 (seen_links c b) s) (fun _ => covered)) end.
  eapply spec_bind; [apply inspect_link_spec; eauto with keeps|]. intros b2. cbv beta.
  intros s (inner & Hb2 & Hs). revert s Hs.
  match goal with |- forall s, noted l0 ?R s -> match (?m s) with _ => _ end =>
    change (spec (noted l0 R) m (fun b s => noted l0 (seen_links c b) s) (fun _ => covered)) end.
  assert (elements b2 = [outer; inner]) as He.
  { destruct (append_array empty_array outer) as (v1 & Hv1 & Ht1 & He1); [right; apply type_empty_array|].
    replace v1 with b1 in * by congruence.
    destruct (append_array b1 inner) as (v2 & Hv2 & _ & He2); [by right|].
    replace v2 with b2 in * by congruence. by rewrite He2, He1, elements_empty. }
  intros s Hs. unfold bind at 1, ret at 1.
  match goal with |- match (bind ?m _ s) with _ => _ end =>
    assert (keeps (noted l0 (fun l => (True /\ inspected (outer_interface c) l outer) /\
      inspected (inner_interface c) l inner)) m) as Hk by (unfold run; keeps_auto) end.
  specialize (Hk s Hs). unfold bind. destruct (run _ _ s) as [[o|e] s']; [|by eapply noted_covered].
  eapply noted_weaken; [|exact Hk]. intros l [[_ Ho] Hi]. by exists outer, inner.
Qed.

(** The members of the state, with the requests noted so far. *)
Definition holding (l0 : list event) (R : list event -> Prop) (P : Value -> Prop) (s : net) : Prop :=
  noted l0 R s /\ P (state_ s).

Definition updated (k : string) (x : Value) (P : Value -> Prop) (w : Value) : Prop :=
  at_key w k = Ok x /\ exists v, P v /\ forall k', k' <> k -> at_key w k' = at_key v k'.

Lemma spec_set_holding {B} l0 R (P : Value -> Prop) k x (m : unit -> M B) Q :
  spec (holding l0 R (updated k x P)) (m tt) Q (fun _ => covered) ->
  spec (holding l0 R P) (bind (state_set k x) m) Q (fun _ => covered).
Proof.
  intros Hm s [(Hc & Hk & Hl) HP]. destruct (state_set_keyed k x s Hk) as (v' & Hset & Hk' & Hx & Hat).
  rewrite (bind_ok _ _ _ _ _ Hset). apply Hm. split; [by split_and!|]. split; [done|]. by exists (state_ s).
Qed.

Lemma spec_read_holding {B} l0 R P path (k : string -> M B) Q :
  growing R ->
  (forall w, spec (holding l0 (fun l => R l /\ Did (ReadWord path) (Some w) ∈ l) P) (k w) Q
     (fun _ => covered)) ->
  spec (holding l0 R P) (bind (read_file path) k) Q (fun _ => covered).
Proof.
  intros HR Hk s [Hs HP]. unfold read_file.
  pose proof (noted_call l0 R (ReadWord path) HR ltac:(done) s Hs) as Hcall.
  unfold bind, call in *. destruct (answer (ReadWord path) (machine s)) as [[w|] m].
  - by apply (Hk w).
  - by eapply noted_covered.
Qed.

(** [allowed c l0]: what was observed after [l0] and before any change is evidence. *)
Definition allowed (c : NetworkConfig) (l0 : list event) : Prop :=
  forall l v, no_change l -> holds_config c v -> observed c l v -> E (l0 ++ l) v.

Lemma write_ahead_spec c l0 baseline :
  accepted c -> allowed c l0 ->
  spec (noted l0 (seen_links c baseline)) (write_ahead c baseline)
    (fun _ => armed c) (fun _ => covered).
Proof.
  intros (cfg & Hj & Hp) Hallow. unfold write_ahead. rewrite Hj.
  apply spec_lift_bind; [|by intros ? ? ?%noted_covered]. intros cfg' [= <-].
  eapply spec_pre with (P := holding l0 (seen_links c baseline) (fun _ => True)); [|by intros s].
  do 2 apply spec_set_holding. apply spec_read_holding; [eauto with keeps|]. intros fwd.
  apply spec_set_holding. apply spec_read_holding; [eauto with keeps|]. intros rp.
  do 2 apply spec_set_holding. eapply spec_pre; [by apply (journal_spec c "applying")|].
  intros s [(Hc & Hk & l & Hl & Hn & [Hseen Hfwd] & Hrp) Hu].
  destruct Hu as (Hst & v5 & (Hrpv & v4 & (Hfwdv & v3 & (Hb & v2 & (Hcfg & _) & H2) & H3) & H4) & H5).
  assert (holds_config c (state_ s)) as Hh.
  { split; [done|]. exists cfg. split; [|done]. by rewrite H5, H4, H3, H2. }
  split; [|done]. split; [|done]. split; [done|]. split; [done|]. rewrite Hl. apply Hallow; [done|done|].
  split; [|split].
  - exists baseline. split; [|done]. by rewrite H5, H4, H3.
  - exists fwd. split; [done|]. by rewrite H5, H4.
  - exists rp. split; [done|]. by rewrite H5.
Qed.

Lemma commit_spec c : spec (armed c) (commit c) (fun _ => tracked) (fun _ => tracked).
Proof.
  unfold commit. apply (spec_bind _ _ _ (fun _ => tracked)).
  - eapply spec_conseq; [apply keeps_spec, (armed_install c c) | done | intros ? | intros ?];
      apply armed_tracked.
  - intros _. apply keeps_spec. unfold set_status. keeps_auto. by intros s.
Qed.

Lemma apply_spec enabled c :
  forall l0, config_typed c -> allowed c l0 ->
  spec (fun s => covered s /\ log s = l0) (apply enabled c)
    (fun _ => tracked) (fun _ => covered).
Proof.
  intros l0 Ht Hallow. unfold apply. destruct enabled; cbn [negb]; [|by intros s []].
  eapply spec_bind with (R := fun _ => noted l0 (fun _ => True)).
  { intros s [Hc Hl]. unfold status_is. destruct (keyed_dec (state_ s)) as [Hk|Hk].
    - destruct (state_at_keyed "status" s Hk) as (x & v' & Hat & _ & Hk' & _).
      rewrite (bind_ok _ _ _ _ _ Hat). split; [done|]. split; [done|]. exists [].
      by rewrite app_nil_r.
    - destruct (state_at_unkeyed "status" s Hk) as [m Hm]. by rewrite (bind_throw _ _ _ _ _ Hm). }
  intros inactive. destruct inactive; cbn [negb]; [|by intros s Hs%noted_covered].
  intros s Hs. pose proof (preflight_spec c l0 s Hs) as Hpre. unfold bind at 1.
  destruct (preflight c s) as [[baseline|e] s1] eqn:Hp; [|done].
  pose proof (preflight_accepted c s baseline s1 Ht Hp) as Ha.
  clear Hp. revert s1 Hpre.
  change (spec (noted l0 (seen_links c baseline)) (bind (write_ahead c baseline)
    (fun _ => try_catch (commit c) recover)) (fun _ => tracked) (fun _ => covered)).
  eapply spec_bind; [by eapply write_ahead_spec|]. intros ?.
  eapply spec_try; [apply commit_spec|]. intros e. unfold recover.
  apply (spec_bind _ _ _ (fun _ => covered)); [|by intros ? s2].
  eapply spec_try; [apply restore_spec|]. by intros e' s2.
Qed.
End Evidence.

(** ** The operations *)

Lemma grows_undoes op before v : growing (fun l => undoes op before l v).
Proof.
  intros l e. destruct op; cbn; try done.
  - intros (w & Hw & Hv). exists w. split; [by apply growing_did|].
    destruct Hv as [|(c & ? & ? & l0 & l1 & l2 & -> & ?)]; [by left|]. right. exists c.
    split_and!; try done. exists l0, l1, (l2 ++ [e]). by rewrite !app_assoc.
  - intros (? & l1 & l2 & -> & ?). split; [done|]. exists l1, (l2 ++ [e]). by rewrite app_assoc.
Qed.

Lemma same_saved_trans u v w : same_saved u v -> same_saved v w -> same_saved u w.
Proof. intros H1 H2 k Hk. by rewrite H2, H1. Qed.

Lemma observed_saved c l v w : observed c l v -> same_saved v w -> observed c l w.
Proof.
  intros [(b & Hb & Hl) [(f & Hf & Hfv) (r & Hr & Hrv)]] Hs. split; [|split].
  - exists b. split; [|done]. rewrite Hs; [done|]. by apply (bool_decide_unpack _).
  - exists f. split; [done|]. rewrite Hs; [done|]. by apply (bool_decide_unpack _).
  - exists r. split; [done|]. rewrite Hs; [done|]. by apply (bool_decide_unpack _).
Qed.

Lemma holds_saved c v w : holds_config c v -> same_saved v w -> keyed w -> holds_config c w.
Proof.
  intros (_ & cfg & Hc & Hp) Hs Hk. split; [done|]. exists cfg. rewrite Hs; [done|].
  by apply (bool_decide_unpack _).
Qed.

Lemma undoes_saved op before l v w :
  undoes op before l v -> same_saved v w -> keyed w -> undoes op before l w.
Proof.
  intros Hu Hs Hk. destruct op; cbn in *; try by eapply same_saved_trans.
  - destruct Hu as (x & Hx & Hv). exists x. split; [done|].
    destruct Hv as [|(c & ? & ? & l0 & l1 & l2 & ? & ? & ?)]; [left; by eapply same_saved_trans|].
    right. exists c. split_and!; [done|by eapply holds_saved|]. exists l0, l1, l2.
    split_and!; [done..|by eapply observed_saved].
  - destruct Hu as (? & l1 & l2 & ? & ? & ?). split; [by eapply holds_saved|].
    exists l1, l2. split_and!; [done..|by eapply observed_saved].
Qed.

#[local] Hint Extern 1 (keeps (covered _) (call _)) =>
  apply covered_call; intros; reflexivity : keeps.

(** The constructor goes by the stored record [w]. *)
Definition loaded (w : Value) (s : net) : Prop :=
  covered (undoes Construct null) s /\ Did StoreGet (Ok w) ∈ log s /\ same_saved w (state_ s).

Lemma loaded_call {A} w (r : request A) :
  (forall a, mutation (Did r a) = false) -> keeps (loaded w) (call r).
Proof.
  intros Hr s (Hc & Hl & Hs). pose proof (covered_call _ r Hr s Hc) as Hc'. unfold call in *.
  destruct (answer r (machine s)) as [a m]. split; [done|]. split; [by apply growing_did|done].
Qed.
#[local] Hint Extern 1 (keeps (loaded _) (call _)) => apply loaded_call; intros; reflexivity : keeps.

Lemma loaded_with_state w s v :
  loaded w s -> (forall k, at_key v k = at_key (state_ s) k) -> loaded w (with_state s v).
Proof. intros (Hc & Hl & Hs) Hv. split_and!; [done..|]. intros k Hk. cbn. by rewrite Hv, Hs. Qed.

Lemma loaded_tracked w s : loaded w s -> keyed (state_ s) -> tracked (undoes Construct null) s.
Proof. intros (Hc & Hl & Hs) Hk. split; [done|]. split; [done|]. exists w. split; [done|by left]. Qed.

Lemma loaded_state_at w k :
  spec (loaded w) (state_at k)
    (fun x s => loaded w s /\ keyed (state_ s) /\ at_key (state_ s) k = Ok x) (fun _ => loaded w).
Proof.
  intros s Hs. destruct (keyed_dec (state_ s)) as [Hk|Hk].
  - destruct (state_at_keyed k s Hk) as (x & v' & -> & Hx & Hk' & Hat).
    split; [by apply loaded_with_state|]. split; [done|]. cbn. by rewrite Hat.
  - destruct (state_at_unkeyed k s Hk) as [m Hm]. by rewrite Hm.
Qed.

Lemma loaded_status_is w name :
  spec (loaded w) (status_is name) (fun _ s => loaded w s /\ keyed (state_ s)) (fun _ => loaded w).
Proof.
  unfold status_is. eapply spec_bind; [apply loaded_state_at|]. intros x s (? & ? & _). by split.
Qed.

#[local] Hint Resolve logged_call logged_state_at logged_state_set : keeps.

Lemma logged_restore e : keeps (logged 0 e) restore.
Proof. unfold restore, journal. net_auto. Qed.

(** A configuration found in the store is applied again. *)
Lemma allowed_reapply w c l0 config :
  Did StoreGet (Ok w) ∈ l0 -> at_key w "config" = Ok config -> config_from_json config = Ok c ->
  allowed (undoes Construct null) c l0.
Proof.
  intros Hw Hat Hp l v Hn Hh Ho. exists w. split; [apply elem_of_app; by left|]. right. exists c.
  split; [|split; [done|exists l0, l, []; by rewrite app_nil_r]].
  split; [|by exists config]. destruct (keyed_dec w) as [|Hk]; [done|].
  destruct (at_key_unkeyed w "config" Hk) as [m Hm]. congruence.
Qed.

Lemma construct_spec enabled :
  spec (covered (undoes Construct null)) (construct_controller enabled)
    (fun _ => covered (undoes Construct null)) (fun _ => covered (undoes Construct null)).
Proof.
  assert (forall w (e : exn) s, loaded w s -> covered (undoes Construct null) s) as Hout
    by by intros w e s [].
  unfold construct_controller. eapply spec_bind with (R := fun w => fun s =>
    covered (undoes Construct null) s /\ Did StoreGet (Ok w) ∈ log s).
  { intros s Hs. pose proof (covered_call _ StoreGet ltac:(done) s Hs) as Hc.
    unfold call_throw, bind, call, lift in *. destruct (answer StoreGet (machine s)) as [[w|e] m]; [|done].
    split; [done|]. apply elem_of_app. right. by left. }
  intros w. eapply spec_bind with (R := fun _ => loaded w).
  { intros s [Hc Hl]. by split_and!. }
  intros ?. apply spec_bind_keeps; [unfold take_lock; keeps_auto | apply Hout | intros ?].
  eapply spec_bind with (R := fun v s => loaded w s /\ v = state_ s); [by intros s Hs|].
  intros v. eapply spec_bind with (R := fun _ => loaded w).
  { intros s [Hs ->]. destruct (isNull (state_ s)) eqn:Hn; cbn [when]; [|done].
    assert (keyed (state_ s)) as Hk by (type_simp; by left). unfold set_status.
    destruct (state_set_keyed "status" (of_string "inactive") s Hk) as (v' & -> & Hk' & _ & Hat).
    destruct Hs as (Hc & Hl & Hs). split_and!; [done..|]. intros k Hin. cbn.
    rewrite Hat; [by apply Hs|]. intros ->.
    assert ("status" ∉ saved_members) as Hno by (by apply (bool_decide_unpack _)). by destruct Hno. }
  intros ?. eapply spec_bind; [eapply spec_conseq; [apply loaded_status_is | done | done | apply Hout]|].
  intros inactive. cbv beta. destruct (negb inactive && enabled); [|by intros s [[? _] _]].
  eapply spec_bind; [eapply spec_conseq; [apply loaded_status_is | by intros s [] | done | apply Hout]|].
  intros confirmed. cbv beta.
  eapply spec_bind; [eapply spec_conseq; [apply loaded_state_at | by intros s [] | done | apply Hout]|].
  intros desired. cbv beta. set (stored := Did StoreGet (Ok w)).
  apply (spec_bind _ _ _ (fun _ s => (covered (undoes Construct null) s /\ stored ∈ log s) /\
    at_key w "config" = Ok desired)).
  { intros s (Hl & Hk & Hat). pose proof (logged_restore stored s (proj1 (proj2 Hl))) as Hlog.
    pose proof (restore_spec (undoes Construct null) (grows_undoes Construct null)
      (undoes_saved Construct null) s (loaded_tracked w s Hl Hk)) as Hr.
    destruct (restore s) as [[u|e] s']; [|done]. split; [done|].
    destruct Hl as (_ & _ & Hs). rewrite <- Hat. symmetry. apply Hs. by apply (bool_decide_unpack _). }
  intros ?. destruct confirmed; cbn [when]; [|by intros s [[? _] _]].
  apply spec_lift_bind; [|by intros e s [[? _] _]]. intros c Hc.
  intros s [[Hcov Hin] Hat]. revert s Hcov Hin.
  enough (forall l0, stored ∈ l0 -> spec (fun s => covered (undoes Construct null) s /\ log s = l0)
    (do! apply enabled c; confirm enabled) (fun _ => covered (undoes Construct null))
    (fun _ => covered (undoes Construct null))) as Hs.
  { intros s Hcov Hin. exact (Hs (log s) Hin s (conj Hcov eq_refl)). }
  intros l0 Hl0. eapply spec_bind; [apply (apply_spec _ (grows_undoes Construct null) (undoes_saved Construct null))|].
  - apply config_from_json_iff in Hc as [Hr _]. by eapply reads_config_typed.
  - by eapply allowed_reapply.
  - intros ?. apply (confirm_spec _ (grows_undoes Construct null) (undoes_saved Construct null)).
Qed.

(** A state that is neither an object nor null stops them at once. *)
Lemma unkeyed_inert enabled op s :
  ~ keyed (state_ s) -> op = Confirm \/ op = Rollback \/ op = Tick -> (perform enabled op s).2 = s.
Proof.
  intros Hk Hop.
  assert (forall name, exists e, status_is name s = (Throw e, s)) as Hst.
  { intros name. destruct (state_at_unkeyed "status" s Hk) as [m Hm].
    eexists. unfold status_is. by rewrite (bind_throw _ _ _ _ _ Hm). }
  assert (exists e, tick true s = (Throw e, s)) as [e Ht].
  { destruct (Hst "awaiting_confirmation") as [e He]. exists e. unfold tick. cbn [negb].
    by rewrite (bind_throw _ _ _ _ _ He). }
  destruct enabled; [|by destruct Hop as [-> | [-> | ->]]].
  destruct Hop as [-> | [-> | ->]]; cbn [perform].
  - unfold confirm. cbn [negb]. by rewrite (bind_throw _ _ _ _ _ Ht).
  - unfold rollback. cbn [negb]. destruct (Hst "inactive") as [e' He]. by rewrite (bind_throw _ _ _ _ _ He).
  - by rewrite Ht.
Qed.

(** Where an operation starts. *)
Lemma perform_covered enabled op s :
  op_typed op -> log s = [] -> covered (undoes op (state_ s)) (perform enabled op s).2.
Proof.
  intros Ht Hl.
  assert (covered (undoes op (state_ s)) s) as Hc.
  { intros l1 e l2 Heq. rewrite Hl in Heq. by destruct l1. }
  assert (forall (m : M unit) (P : net -> Prop), P s ->
    spec P m (fun _ => covered (undoes op (state_ s))) (fun _ => covered (undoes op (state_ s))) ->
    covered (undoes op (state_ s)) (m s).2) as Hend.
  { intros m P HP Hm. specialize (Hm s HP). by destruct (m s) as [[?|?] ?]. }
  pose proof (grows_undoes op (state_ s)) as Hg. pose proof (undoes_saved op (state_ s)) as Hsv.
  assert (forall op', ~ keyed (state_ s) -> op' = Confirm \/ op' = Rollback \/ op' = Tick ->
    (perform enabled op' s).2 = s) as Hinert by (intros op'; apply unkeyed_inert).
  destruct op as [|c| | |]; cbn [perform] in *.
  - eapply (Hend _ (covered (undoes Construct null))); [exact Hc | apply construct_spec].
  - apply (Hend _ (fun s1 => covered (undoes (Apply c) (state_ s)) s1 /\ log s1 = [])); [done|].
    eapply spec_conseq;
      [apply (apply_spec _ Hg Hsv enabled c []); [exact Ht|] | done | by intros ? ? [] | done].
    intros l v Hn Hh Ho. split; [done|]. exists l, []. by rewrite app_nil_r.
  - destruct (keyed_dec (state_ s)) as [Hk|Hk]; [|by rewrite (Hinert Confirm Hk ltac:(auto) : (confirm enabled s).2 = s)].
    apply (Hend _ (tracked (undoes Confirm (state_ s)))); [by split_and!|by apply confirm_spec].
  - destruct (keyed_dec (state_ s)) as [Hk|Hk]; [|by rewrite (Hinert Rollback Hk ltac:(auto) : (rollback enabled s).2 = s)].
    apply (Hend _ (tracked (undoes Rollback (state_ s)))); [by split_and!|by apply rollback_spec].
  - destruct (keyed_dec (state_ s)) as [Hk|Hk]; [|by rewrite (Hinert Tick Hk ltac:(auto) : (tick enabled s).2 = s)].
    apply (Hend _ (tracked (undoes Tick (state_ s)))); [by split_and!|by apply tick_spec].
Qed.

(** C1: the write-ahead journal. Whatever the machine answers and wherever the operation stops,
    every change of the network made by the constructor, [apply], [confirm], [rollback] or
    [tick] happens while the store durably holds a record from which the next constructor can
    undo it: its status is not [inactive], its configuration parses, and it says how the
    network was. In [apply] the configuration is the one being applied, and the baseline of the
    two interfaces and the two global switches are those read in this run before its first
    change; in the constructor they are those of the record found in the store, or those read
    before the first change of applying again the configuration found there; in the other
    operations they are those the controller held. *)
Theorem write_ahead_journal enabled op s :
  op_typed op -> log s = [] ->
  forall l1 e l2, log (perform enabled op s).2 = l1 ++ e :: l2 -> mutation e = true ->
  exists v, durable l1 = Some v /\ (exists c, recoverable c v) /\ undoes op (state_ s) l1 v.
Proof. intros Ht Hl. exact (perform_covered enabled op s Ht Hl). Qed.
End Journal.

(** ** Witness, on the simulated host *)

From S2P Require Import JsonTree NetworkBench.

(** A rollback after a failing write: what the store held before its last change. *)
Lemma write_ahead_journal_witness :
  let s := (perform true (Apply sample_config) (resting [forward_sysctl])).2 in
  exists l1 e l2 v, log s = l1 ++ e :: l2 /\ mutation e = true /\ durable l1 = Some v /\
    undoes (Apply sample_config) (state_ (resting [forward_sysctl])) l1 v.
Proof.
  intros s.
  assert (exists l1 e l2, log s = l1 ++ e :: l2 /\ mutation e = true) as (l1 & e & l2 & Hl & He).
  { assert (existsb mutation (log s) = true) as Hex by (vm_compute; reflexivity).
    apply List.existsb_exists in Hex as (e & Hin & He).
    apply List.in_split in Hin as (l1 & l2 & Hl). exists l1, e, l2. exact (conj Hl He). }
  destruct (write_ahead_journal true (Apply sample_config) (resting [forward_sysctl])
    sample_typed eq_refl l1 e l2 Hl He) as (v & Hd & _ & Hu).
  exists l1, e, l2, v. exact (conj Hl (conj He (conj Hd Hu))).
Defined.
