(* ===== verification/NetworkRollback.v ===== *)
(** * The rollback

    What [restore] does, for every machine: from a state whose configuration parses it runs
    every undoing action, whatever each of them answers, collects the messages, and records the
    outcome.  The section on the members of the state serves the other operations too. *)
From S2P Require Import Prelude CppStd Inet Config Json Serialize Effects Network NetworkSafety.

Section Rollback.
Context `{IL : InetLaws} `{JL : JsonCppLaws} `{PF : @Platform H0}.

(** ** Assertions on the members of the state *)

(** [w] has the members of [v]. *)
Definition same_members (v w : Value) : Prop :=
  keyed w /\ forall k, at_key w k = at_key v k.

(** [v["status"] == name]. *)
Definition status (v : Value) (name : string) : Prop :=
  keyed v /\ exists x, at_key v "status" = Ok x /\ equals x (of_string name) = true.

Definition state_in (P : Value -> Prop) (s : net) : Prop := P (state_ s).

(** The store holds the state. *)
Definition stored (s : net) : Prop := durable (log s) = Some (state_ s).

(** The last request was a failed put of the state, with this exception. *)
Definition put_failed (e : exn) (s : net) : Prop :=
  exists l, log s = l ++ [Did (StorePut (state_ s)) (Throw e)].

(** Properties of the members alone. *)
Definition by_members (P : Value -> Prop) : Prop :=
  forall v w, P v -> same_members v w -> P w.

Lemma call_state {A} P (r : request A) : keeps (state_in P) (call r).
Proof. intros s Hs. unfold call. by destruct (answer r (machine s)). Qed.

Lemma state_at_members P k :
  by_members P -> (forall v, P v -> keyed v) -> keeps (state_in P) (state_at k).
Proof.
  intros HP Hkeyed s Hs. destruct (state_at_keyed k s (Hkeyed _ Hs)) as (x & v' & -> & _ & Hk & Hat).
  by apply (HP (state_ s)).
Qed.

Lemma holds_config_members c : by_members (holds_config c).
Proof. intros v w (_ & cfg & Hat & Hp) [Hk Hw]. split; [done|]. exists cfg. by rewrite Hw. Qed.

Lemma status_members name : by_members (fun v => status v name).
Proof. intros v w (_ & x & Hx & He) [Hk Hw]. split; [done|]. exists x. by rewrite Hw. Qed.

Lemma status_keyed v name : status v name -> keyed v.
Proof. by intros [? _]. Qed.

Lemma status_inj v a b : status v a -> status v b -> a = b.
Proof.
  intros (_ & x & Hx & Ha) (_ & y & Hy & Hb). replace y with x in * by congruence.
  apply equals_string in Ha as [_ Ha], Hb as [_ Hb]. congruence.
Qed.

Lemma status_set v name : keyed v -> at_key v "status" = Ok (of_string name) -> status v name.
Proof.
  intros Hk Hat. split; [done|]. exists (of_string name). split; [done|].
  apply equals_string. by rewrite type_of_string, asString_of_string.
Qed.

(** Setting a member: the others stay. *)
Lemma state_set_spec (P Q : Value -> Prop) k x :
  (forall v, P v -> keyed v) ->
  (forall v w, P v -> keyed w -> at_key w k = Ok x ->
     (forall k', k' <> k -> at_key w k' = at_key v k') -> Q w) ->
  spec (state_in P) (state_set k x) (fun _ => state_in Q) (fun _ _ => False).
Proof.
  intros Hkeyed HQ s Hs. destruct (state_set_keyed k x s (Hkeyed _ Hs)) as (v' & -> & ? & ? & ?).
  by apply (HQ (state_ s)).
Qed.

(** [status_is] tells the status, and leaves the members as they were. *)
Lemma status_is_spec other s :
  keyed (state_ s) -> exists v' b, status_is other s = (Ok b, with_state s v') /\
    same_members (state_ s) v' /\ (b = true <-> status (state_ s) other).
Proof.
  intros Hk. destruct (state_at_keyed "status" s Hk) as (x & v' & Hat & Hx & Hk' & Hat').
  exists v', (equals x (of_string other)).
  split; [unfold status_is; by rewrite (bind_ok _ _ _ _ _ Hat)|]. split; [done|].
  split; [intros He; by (split; [|exists x])|]. intros (_ & y & Hy & He). congruence.
Qed.

Lemma status_is_unkeyed other s :
  ~ keyed (state_ s) -> exists e, status_is other s = (Throw e, s).
Proof.
  intros Hk. destruct (state_at_unkeyed "status" s Hk) as [m Hm].
  eexists. unfold status_is. by rewrite (bind_throw _ _ _ _ _ Hm).
Qed.

(** A put of the state: the members stay; on success the store holds it. *)
Lemma journal_outcome P :
  spec (state_in P) journal
    (fun _ s => state_in P s /\ stored s) (fun e s => state_in P s /\ put_failed e s).
Proof.
  intros s Hs. unfold journal, call_throw, bind, get_state, call, lift.
  destruct (answer (StorePut (state_ s)) (machine s)) as [a m].
  destruct a as [[]|e]; (split; [exact Hs|]).
  - unfold stored. cbn [log state_]. by rewrite durable_snoc.
  - by exists (log s).
Qed.

(** ** [restore] *)

Lemma state_at_runs P k :
  by_members P -> (forall v, P v -> keyed v) -> runs (state_in P) (state_at k).
Proof.
  intros HP Hkeyed s Hs. destruct (state_at_keyed k s (Hkeyed _ Hs)) as (x & v' & -> & _ & Hk & Hat).
  by apply (HP (state_ s)).
Qed.

(** Decompose the steps of [restore] into attempts and requests. *)
Ltac steps_run :=
  repeat lazymatch goal with
  | |- runs _ (attempt _ _) => apply runs_attempt; net_auto
  | |- runs _ (m_fold attempt _ _) =>
      apply runs_attempts; repeat (apply Forall_cons_2 || apply Forall_nil_2); net_auto
  | |- runs _ (m_fold _ _ _) => apply runs_attempt_each; intros ?; net_auto
  | |- runs _ (call _) => apply runs_call; eauto with keeps
  | |- runs _ (state_at _) => by apply state_at_runs
  | |- runs _ (ret _) => apply runs_ret
  | |- runs _ (bind _ _) => apply runs_bind; [|intros ?]
  | |- runs _ (match ?x with _ => _ end) => destruct x
  end.

(** The steps never stop halfway, and keep the members. *)
Lemma restore_steps_runs P c :
  by_members P -> (forall v, P v -> keyed v) -> runs (state_in P) (restore_steps c).
Proof.
  intros HP Hk. assert (forall k, keeps (state_in P) (state_at k)) as Hat
    by (intros k; by apply state_at_members).
  assert (forall A (r : request A), keeps (state_in P) (call r)) as Hcall
    by (intros A r; apply call_state).
  unfold restore_steps. steps_run.
Qed.
(** How [restore] ends. *)
Definition rolled_back (s : net) : Prop := state_in (fun v => status v "inactive") s /\ stored s.

Definition rollback_incomplete (e : exn) (s : net) : Prop :=
  state_in (fun v => status v "rollback_failed" /\ at_key v "error" = Ok (of_string (what e))) s /\
  stored s.

Definition finished (errors : string) (v : Value) : Prop :=
  status v (if String.eqb errors "" then "inactive" else "rollback_failed") /\
  at_key v "error" = Ok (of_string errors).

(** The statuses a failed [restore] can leave. *)
Definition rollback_status (v : Value) : Prop :=
  status v "rolling_back" \/ status v "rollback_failed" \/ status v "inactive".

Lemma finished_status errors v : finished errors v -> rollback_status v.
Proof. intros [Hs _]. unfold rollback_status. destruct (String.eqb errors ""); auto. Qed.

Lemma restore_outcome_spec c :
  spec (state_in (holds_config c)) restore
    (fun _ => rolled_back)
    (fun e s => rollback_incomplete e s \/ (state_in rollback_status s /\ put_failed e s)).
Proof.
  unfold restore.
  apply (spec_bind _ _ _ (fun config s => state_in (holds_config c) s /\ config_from_json config = Ok c)).
  { intros s (Hk & cfg & Hat & Hp).
    destruct (state_at_keyed "config" s Hk) as (x & v' & -> & Hx & Hk' & Hat').
    split; [|congruence]. split; [done|]. exists cfg. cbn. by rewrite Hat'. }
  intros config. apply (spec_bind _ _ _ (fun c' s => c' = c /\ state_in (holds_config c) s)).
  { apply spec_lift. by intros s [Hs ->]. }
  intros c' s [-> Hs]. revert s Hs.
  match goal with |- forall s, _ -> match (?m s) with _ => _ end =>
    change (spec (state_in (holds_config c)) m (fun _ => rolled_back)
      (fun e s => rollback_incomplete e s \/ (state_in rollback_status s /\ put_failed e s))) end.
  apply (spec_bind _ _ _ (fun _ => state_in (fun v => status v "rolling_back"))).
  { eapply spec_conseq; [apply (state_set_spec (holds_config c) (fun v => status v "rolling_back"))
      | done | done | done].
    - by intros v [Hk _].
    - intros v w _ Hk Hat _. by apply status_set. }
  intros ?. apply (spec_bind _ _ _ (fun _ => state_in (fun v => status v "rolling_back"))).
  { eapply spec_conseq; [apply journal_outcome | intros s Hs; exact Hs | by intros ? s [Hs _] |].
    intros e s [Hs Hf]. right. split; [by left|done]. }
  intros ?. apply (spec_bind _ _ _ (fun _ => state_in (fun v => status v "rolling_back"))).
  { eapply spec_conseq; [apply restore_steps_runs | done | done | done].
    - apply status_members.
    - intros v. apply status_keyed. }
  intros errors.
  set (final := if String.eqb errors "" then "inactive" else "rollback_failed").
  apply (spec_bind _ _ _ (fun _ => state_in (fun v => status v final))).
  { eapply spec_conseq; [apply (state_set_spec (fun v => status v "rolling_back")
      (fun v => status v final)) | done | done | done].
    - intros v. apply status_keyed.
    - intros v w _ Hk Hat _. by apply status_set. }
  intros ?. apply (spec_bind _ _ _ (fun _ => state_in (finished errors))).
  { eapply spec_conseq; [apply (state_set_spec (fun v => status v final) (finished errors))
      | done | done | done].
    - intros v. apply status_keyed.
    - intros v w (_ & x & Hx & He) Hk Hat Hrest. split; [|done]. split; [done|]. exists x.
      by rewrite Hrest. }
  intros ?. apply (spec_bind _ _ _ (fun _ s => state_in (finished errors) s /\ stored s)).
  { eapply spec_conseq; [apply journal_outcome | intros s Hs; exact Hs | done |].
    intros e s [Hs Hf]. right. split; [by eapply finished_status|done]. }
  intros ? s [[Hs He] Hst]. destruct (String.eqb errors ""); [by split|].
  left. by split.
Qed.

(** ** The actions of a rollback *)

Definition message (r : result unit) : string :=
  match r with Ok _ => "" | Throw e => what e +:+ "; " end.
Definition messages (rs : list (result unit)) : string := foldr String.append "" (map message rs).

(** The actions, one after the other, whatever each answers. *)
Fixpoint run_all (ms : list (M unit)) (s : net) : list (result unit) * net :=
  match ms with
  | [] => ([], s)
  | m :: ms' =>
      let '(r, s1) := m s in
      let '(rs, s2) := run_all ms' s1 in (r :: rs, s2)
  end.

Lemma messages_app rs rs' : messages (rs ++ rs') = messages rs +:+ messages rs'.
Proof.
  unfold messages. induction rs as [|r rs IH]; cbn; [done|]. by rewrite IH, app_assoc_s.
Qed.

Lemma messages_none rs : messages rs = "" <-> forallb is_ok rs = true.
Proof.
  unfold messages. induction rs as [|[u|e] rs IH]; cbn; [done|done|]. split; [|done].
  rewrite app_assoc_s. intros Hm. by apply app_semicolon in Hm.
Qed.

Lemma attempt_eq errors m s :
  attempt errors m s = (Ok (errors +:+ message (m s).1), (m s).2).
Proof.
  unfold attempt, try_catch, bind. destruct (m s) as [[u|e] s']; cbn; [by rewrite app_empty_r|done].
Qed.

Lemma attempts_eq errors ms s :
  m_fold attempt errors ms s = (Ok (errors +:+ messages (run_all ms s).1), (run_all ms s).2).
Proof.
  revert errors s. induction ms as [|m ms IH]; intros errors s; cbn [m_fold run_all].
  - cbn. by rewrite app_empty_r.
  - rewrite (bind_ok _ _ _ _ _ (attempt_eq errors m s)), IH. destruct (m s) as [r s1].
    cbn [fst snd]. destruct (run_all ms s1) as [rs s2]. cbn. by rewrite app_assoc_s.
Qed.

Lemma attempt_each_eq {A} errors (f : A -> M unit) l s :
  m_fold (fun errors x => attempt errors (f x)) errors l s =
  (Ok (errors +:+ messages (run_all (map f l) s).1), (run_all (map f l) s).2).
Proof.
  rewrite <- attempts_eq. revert errors s. induction l as [|x l IH]; intros errors s; [done|].
  cbn [m_fold map]. apply m_bind_ext. intros e s'. apply IH.
Qed.

Lemma call_eq {A} (r : request A) s : exists a s', call r s = (Ok a, s').
Proof. unfold call. destruct (answer r (machine s)). eauto. Qed.

(** The state's members are those of [v]: what the actions keep. *)
Lemma same_members_keyed v w : same_members v w -> keyed w.
Proof. by intros [? _]. Qed.

Lemma same_members_by v : by_members (same_members v).
Proof. intros w x [_ Hw] [Hk Hx]. split; [done|]. intros k. by rewrite Hx. Qed.

(** ... and at least [n] requests were made. *)
Definition members_of (n : nat) (v : Value) (s : net) : Prop :=
  state_in (same_members v) s /\ (n <= length (log s))%nat.

Lemma members_state_at n v k : keeps (members_of n v) (state_at k).
Proof.
  intros s [Hs Hn]. split; [|by rewrite state_at_log].
  revert s Hs Hn. intros s Hs _. revert s Hs.
  apply state_at_members; [apply same_members_by | intros w; apply same_members_keyed].
Qed.

Lemma members_call {A} n v (r : request A) : keeps (members_of n v) (call r).
Proof.
  intros s [Hs Hn]. unfold call. destruct (answer r (machine s)). split; [exact Hs|].
  cbn [log snd]. rewrite length_app. lia.
Qed.
#[local] Hint Resolve members_state_at members_call logged_call logged_state_at logged_state_set : keeps.

(** An action that keeps the members of the state and the requests made. *)
Definition mild (n : nat) (v : Value) (m : M unit) : Prop :=
  keeps (members_of n v) m /\ forall e, keeps (logged n e) m.

Lemma run_all_mild n v ms s :
  Forall (mild n v) ms -> members_of n v s ->
  members_of n v (run_all ms s).2 /\ forall e, logged n e s -> logged n e (run_all ms s).2.
Proof.
  intros Hms. revert s. induction Hms as [|m ms [Hm Hl] _ IH]; intros s Hs; [done|].
  cbn [run_all]. specialize (Hm s Hs). assert (forall e, logged n e s -> logged n e (m s).2) as Hls
    by (intros e; apply Hl). destruct (m s) as [r s1]. destruct (IH s1 Hm) as [Hs1 Hl1].
  destruct (run_all ms s1). split; [done|]. intros e He. by apply Hl1, Hls.
Qed.

(** An action of a run in which nothing failed. *)
Lemma run_all_ok n v ms s m :
  Forall (mild n v) ms -> members_of n v s -> forallb is_ok (run_all ms s).1 = true ->
  m ∈ ms ->
  exists s1 s2, members_of n v s1 /\ m s1 = (Ok tt, s2) /\
    forall e, logged n e s2 -> logged n e (run_all ms s).2.
Proof.
  intros Hms. revert s. induction Hms as [|m0 ms [Hm0 Hl0] Hms IH]; intros s Hs Hok Hin.
  { by apply elem_of_nil in Hin. }
  cbn [run_all] in *. specialize (Hm0 s Hs). destruct (m0 s) as [r s1] eqn:E. cbn in Hm0.
  specialize (IH s1 Hm0). destruct (run_all_mild n v ms s1 Hms Hm0) as [_ Hl].
  destruct (run_all ms s1) as [rs s2]. cbn in *. apply andb_true_iff in Hok as [Hr Hok].
  apply elem_of_cons in Hin as [->|Hin]; [|by apply IH].
  destruct r as [[]|]; [|done]. exists s, s1. by split_and!.
Qed.

(** [restore_steps] as three runs of attempts. *)
Definition later_actions (c : NetworkConfig) (index : Z) : list (M unit) :=
  (if index =? 0 then [] else
   [route c true false; route c false false;
    address (outer_name c) (outer_ipv4 c) (outer_prefix c) false]) ++
  [address (inner_interface c) (inner_gateway_ipv4 c) (inner_prefix c) false] ++
  (if has_vlan c then [vlan c false] else []) ++
  [nat_action; write_saved forward_sysctl "ip_forward";
   write_saved (rp_filter_sysctl "all") "rp_filter_all"].

Lemma attempts_cons {A} errors m ms (k : string -> M A) s :
  bind (m_fold attempt errors (m :: ms)) k s =
  bind (attempt errors m) (fun e => bind (m_fold attempt e ms) k) s.
Proof. cbn [m_fold]. unfold bind. by destruct (attempt errors m s) as [[?|?] ?]. Qed.

Lemma attempts_app {A} errors ms ms' (k : string -> M A) s :
  bind (m_fold attempt errors (ms ++ ms')) k s =
  bind (m_fold attempt errors ms) (fun e => bind (m_fold attempt e ms') k) s.
Proof.
  revert errors s. induction ms as [|m ms IH]; intros errors s; [done|]. cbn [app].
  rewrite !attempts_cons. apply m_bind_ext. intros e s1. apply IH.
Qed.

Lemma attempts_nil {A} errors (k : string -> M A) s :
  bind (m_fold attempt errors []) k s = k errors s.
Proof. done. Qed.

Lemma restore_steps_eq c s :
  restore_steps c s =
  (let! errors := m_fold attempt "" [guard_action c; rule c false] in
   let! index := call (IfNameToIndex (c_str (outer_name c))) in
   let! errors := m_fold attempt errors (later_actions c index) in
   let! baseline := state_at "baseline" in
   let! errors := m_fold (fun errors info => attempt errors (restore_link info))
                    errors (elements baseline) in
   if String.eqb errors "" then attempt errors release_action else ret errors) s.
Proof.
  unfold restore_steps. rewrite !attempts_cons. apply m_bind_ext. intros e1 t1.
  rewrite !attempts_cons. apply m_bind_ext. intros e2 t2.
  rewrite attempts_nil. apply m_bind_ext. intros index t3.
  unfold later_actions. rewrite attempts_app.
  assert (forall (k : string -> M string),
    bind (if index =? 0 then ret e2 else m_fold attempt e2 (outer_actions c)) k t3 =
    bind (m_fold attempt e2 (if index =? 0 then [] else outer_actions c)) k t3) as ->
    by (intros k; by destruct (index =? 0)).
  apply m_bind_ext. intros e3 t4. cbn [app]. rewrite attempts_cons. apply m_bind_ext. intros e4 t5.
  rewrite attempts_app.
  assert (forall (k : string -> M string),
    bind (if has_vlan c then attempt e4 (vlan c false) else ret e4) k t5 =
    bind (m_fold attempt e4 (if has_vlan c then [vlan c false] else [])) k t5) as ->
    by (intros k; destruct (has_vlan c); [by rewrite attempts_cons|done]).
  apply m_bind_ext. intros e5 t6. rewrite !attempts_cons. apply m_bind_ext. intros e6 t7.
  rewrite !attempts_cons. apply m_bind_ext. intros e7 t8.
  rewrite !attempts_cons. apply m_bind_ext. intros e8 t9. by rewrite attempts_nil.
Qed.

(** The whole undoing of [c], from [s] to [s']: every action is run; [errors] is the messages of
    those that failed; the guard is released only if none did. *)
Definition undone (c : NetworkConfig) (s : net) (errors : string) (s' : net) : Prop :=
  exists rs1 s1 index s2 rs2 s3 baseline s4 rs3 s5,
  run_all [guard_action c; rule c false] s = (rs1, s1) /\
  call (IfNameToIndex (c_str (outer_name c))) s1 = (Ok index, s2) /\
  run_all (later_actions c index) s2 = (rs2, s3) /\
  state_at "baseline" s3 = (Ok baseline, s4) /\ at_key (state_ s) "baseline" = Ok baseline /\
  run_all (map restore_link (elements baseline)) s4 = (rs3, s5) /\
  if forallb is_ok (rs1 ++ rs2 ++ rs3)
  then errors = message (release_action s5).1 /\ s' = (release_action s5).2
  else errors = messages (rs1 ++ rs2 ++ rs3) /\ s' = s5.

Lemma actions_mild n v c index baseline :
  Forall (mild n v) [guard_action c; rule c false] /\ Forall (mild n v) (later_actions c index) /\
  Forall (mild n v) (map restore_link (elements baseline)) /\ mild n v release_action.
Proof.
  assert (forall m : M unit, keeps (members_of n v) m -> (forall e, keeps (logged n e) m) ->
    mild n v m) as Hmild by done.
  split; [|split; [|split]].
  - repeat (apply Forall_cons_2 || apply Forall_nil_2); apply Hmild; intros; net_auto.
  - unfold later_actions. repeat apply Forall_app_2; [destruct (index =? 0)| |destruct (has_vlan c)|];
      repeat (apply Forall_cons_2 || apply Forall_nil_2); apply Hmild; intros; net_auto.
  - apply Forall_map, Forall_true. intros info. apply Hmild; intros; net_auto.
  - apply Hmild; intros; net_auto.
Qed.

Lemma restore_steps_undone c s :
  keyed (state_ s) ->
  exists errors s', restore_steps c s = (Ok errors, s') /\ undone c s errors s' /\
    same_members (state_ s) (state_ s').
Proof.
  intros Hk. rewrite restore_steps_eq, (bind_ok _ _ _ _ _ (attempts_eq _ _ _)).
  destruct (run_all [guard_action c; rule c false] s) as [rs1 s1] eqn:H1. cbn [fst snd].
  destruct (call_eq (IfNameToIndex (c_str (outer_name c))) s1) as (index & s2 & H2).
  rewrite (bind_ok _ _ _ _ _ H2), (bind_ok _ _ _ _ _ (attempts_eq _ _ _)).
  destruct (run_all (later_actions c index) s2) as [rs2 s3] eqn:H3. cbn [fst snd].
  set (I := members_of 0 (state_ s)).
  pose proof (fun b => actions_mild 0 (state_ s) c index b) as HI.
  assert (I s1) as Hs1.
  { replace s1 with (run_all [guard_action c; rule c false] s).2 by (by rewrite H1).
    apply run_all_mild; [apply (HI null) | split; [by split|lia]]. }
  assert (I s2) as Hs2 by (pose proof (members_call 0 (state_ s) (IfNameToIndex (c_str (outer_name c))) s1 Hs1) as Hc;
    by rewrite H2 in Hc).
  assert (I s3) as Hs3.
  { replace s3 with (run_all (later_actions c index) s2).2 by (by rewrite H3).
    apply run_all_mild; [apply (HI null) | done]. }
  destruct (state_at_keyed "baseline" s3 (proj1 (proj1 Hs3))) as (baseline & v & H4 & Hb & Hkv & Hv).
  rewrite (bind_ok _ _ _ _ _ H4), (bind_ok _ _ _ _ _ (attempt_each_eq _ _ _ _)).
  destruct (run_all (map restore_link (elements baseline)) (with_state s3 v)) as [rs3 s5] eqn:H5.
  cbn [fst snd]. assert (I s5) as Hs5.
  { replace s5 with (run_all (map restore_link (elements baseline)) (with_state s3 v)).2 by (by rewrite H5).
    apply run_all_mild; [apply (HI baseline)|]. split; [|cbn; lia].
    apply (same_members_by (state_ s) (state_ s3)); [apply Hs3|by split]. }
  assert (("" +:+ messages rs1) +:+ messages rs2 +:+ messages rs3 = messages (rs1 ++ rs2 ++ rs3)) as Hm
    by (by rewrite !messages_app).
  rewrite <- app_assoc_s in Hm. rewrite Hm.
  assert (at_key (state_ s) "baseline" = Ok baseline) as Hbase by (by rewrite <- (proj2 (proj1 Hs3))).
  destruct (String.eqb_spec (messages (rs1 ++ rs2 ++ rs3)) "") as [He|He].
  - rewrite He, attempt_eq. eexists _, _. split; [done|]. split.
    + exists rs1, s1, index, s2, rs2, s3, baseline, (with_state s3 v), rs3, s5.
      split_and!; try done. by rewrite (proj1 (messages_none _) He).
    + exact (proj1 (proj1 (proj2 (proj2 (proj2 (HI null)))) s5 Hs5)).
  - eexists _, _. split; [done|]. split; [|exact (proj1 Hs5)].
    exists rs1, s1, index, s2, rs2, s3, baseline, (with_state s3 v), rs3, s5. split_and!; try done.
    destruct (forallb is_ok _) eqn:Hall; [by apply messages_none in Hall|done].
Qed.

(** ** The whole of [restore] *)

(** [w] is [v] with one member set. *)
Definition member_set (key : string) (x v w : Value) : Prop :=
  keyed w /\ at_key w key = Ok x /\ forall k, k <> key -> at_key w k = at_key v k.

(** A run of [restore] from [s], rolling [c] back: the record [rolling_back] is refused by the
    store, and nothing else is done; or it is put, every undoing action is run, and the outcome
    is recorded. *)
Inductive rollback_run (c : NetworkConfig) (s : net) : result unit -> net -> Prop :=
| rollback_not_recorded v e s' :
    member_set "status" (of_string "rolling_back") (state_ s) v ->
    journal (with_state s v) = (Throw e, s') ->
    rollback_run c s (Throw e) s'
| rollback_attempted v s1 errors s2 w r s' :
    member_set "status" (of_string "rolling_back") (state_ s) v ->
    journal (with_state s v) = (Ok tt, s1) ->
    undone c s1 errors s2 ->
    keyed w /\ at_key w "error" = Ok (of_string errors) /\
      at_key w "status" = Ok (of_string (if String.eqb errors "" then "inactive" else "rollback_failed")) /\
      (forall k, k <> "status" -> k <> "error" -> at_key w k = at_key (state_ s) k) ->
    journal (with_state s2 w) = (r, s') ->
    rollback_run c s (do? r; if String.eqb errors "" then Ok tt else throw_runtime errors) s'.

Lemma journal_state s : state_ (journal s).2 = state_ s.
Proof.
  unfold journal, call_throw, bind, get_state, call, lift.
  by destruct (answer (StorePut (state_ s)) (machine s)) as [[?|?] m].
Qed.

Lemma restore_run c s :
  holds_config c (state_ s) -> rollback_run c s (restore s).1 (restore s).2.
Proof.
  intros (Hk & cfg & Hcfg & Hp). unfold restore.
  destruct (state_at_keyed "config" s Hk) as (x & v0 & Hat & Hx & Hk0 & Hv0).
  rewrite (bind_ok _ _ _ _ _ Hat). replace x with cfg by congruence.
  rewrite (bind_ok _ _ _ c (with_state s v0)) by (unfold lift; by rewrite Hp). unfold set_status.
  destruct (state_set_keyed "status" (of_string "rolling_back") (with_state s v0) Hk0)
    as (v & Hset & Hkv & Hst & Hv).
  rewrite (bind_ok _ _ _ _ _ Hset). change (with_state (with_state s v0) v) with (with_state s v).
  assert (member_set "status" (of_string "rolling_back") (state_ s) v) as Hms.
  { split; [done|]. split; [done|]. intros k Hne. rewrite Hv by done. apply Hv0. }
  destruct (journal (with_state s v)) as [[[]|e] s1] eqn:Hj.
  2: { rewrite (bind_throw _ _ _ _ _ Hj). by eapply rollback_not_recorded. }
  rewrite (bind_ok _ _ _ _ _ Hj).
  assert (state_ s1 = v) as Hs1 by (pose proof (journal_state (with_state s v)) as Hjs; by rewrite Hj in Hjs).
  destruct (restore_steps_undone c s1) as (errors & s2 & Hsteps & Hundone & Hk2 & Hsame); [by rewrite Hs1|].
  rewrite (bind_ok _ _ _ _ _ Hsteps).
  destruct (state_set_keyed "status" (of_string (if String.eqb errors "" then "inactive" else "rollback_failed"))
    s2 Hk2) as (w1 & Hset1 & Hkw1 & Hst1 & Hw1).
  rewrite (bind_ok _ _ _ _ _ Hset1).
  destruct (state_set_keyed "error" (of_string errors) (with_state s2 w1) Hkw1) as (w & Hset2 & Hkw & Her & Hw).
  rewrite (bind_ok _ _ _ _ _ Hset2). change (with_state (with_state s2 w1) w) with (with_state s2 w).
  assert (forall r s', journal (with_state s2 w) = (r, s') ->
    rollback_run c s (do? r; if String.eqb errors "" then Ok tt else throw_runtime errors) s') as Hend.
  { intros r s' Hr. eapply rollback_attempted; [exact Hms|exact Hj|exact Hundone| |exact Hr].
    split; [done|]. split; [done|]. split; [by rewrite Hw|].
    intros k Hne1 Hne2. rewrite Hw by done. cbn. rewrite Hw1 by done. rewrite Hsame, Hs1.
    by apply Hms. }
  destruct (journal (with_state s2 w)) as [[u|e] s3] eqn:Hj2.
  - rewrite (bind_ok _ _ _ _ _ Hj2). specialize (Hend _ _ eq_refl). cbn in Hend.
    by destruct (String.eqb errors "").
  - rewrite (bind_throw _ _ _ _ _ Hj2). exact (Hend _ _ eq_refl).
Qed.

(** ** What a complete rollback has done *)

(** The string member [key]. *)
Definition saved (key value : string) (v : Value) : Prop :=
  keyed v /\ exists x, at_key v key = Ok x /\ asString x = Ok value.

Lemma saved_members key value : by_members (saved key value).
Proof. intros v w (_ & x & Hx & Hs) [Hk Hw]. split; [done|]. exists x. by rewrite Hw. Qed.

Definition link_message (index : Z) (up : bool) (attrs : list nl_attr) : nl_message := {|
  nl_kind := RTM_NEWLINK; nl_create := false; nl_head := Ifinfomsg index true up;
  nl_attrs := attrs; nl_proto := NETLINK_ROUTE
|}.

(** The kernel acknowledged the link up or down, with this hardware address if there is one. *)
Definition link_changed (up : bool) (mac : string) (l : list event) : Prop :=
  exists index attrs, Did (NlExchange (link_message index up attrs)) Acked ∈ l /\
    (if String.eqb mac "" then attrs = []
     else exists bytes, mac_octets mac 0 6 = Ok bytes /\ attrs = [IFLA_ADDRESS bytes]).

(** The interface of this baseline entry has its address, its switches and its state back. *)
Definition link_restored (info : Value) (l : list event) : Prop :=
  exists name mac v6 rp flags,
    saved "ifname" name info /\ saved "address" mac info /\ link_changed false mac l /\
    saved "disable_ipv6" v6 info /\ Did (WriteFile (ipv6_sysctl name) v6) true ∈ l /\
    saved "rp_filter" rp info /\ Did (WriteFile (rp_filter_sysctl name) rp) true ∈ l /\
    at_key info "flags" = Ok flags /\ link_changed (flag_up (elements flags)) "" l.

Definition switch_restored (path key : string) (v : Value) (l : list event) : Prop :=
  exists value, saved key value v /\ Did (WriteFile path value) true ∈ l.

(** The network is as the record [v] says it was. *)
Definition network_restored (v : Value) (l : list event) : Prop :=
  switch_restored forward_sysctl "ip_forward" v l /\
  switch_restored (rp_filter_sysctl "all") "rp_filter_all" v l /\
  exists baseline, at_key v "baseline" = Ok baseline /\
    forall info, info ∈ elements baseline -> link_restored info l.

Lemma call_logged {A} n (r : request A) s a s' :
  call r s = (Ok a, s') -> (n <= length (log s))%nat -> logged n (Did r a) s'.
Proof.
  unfold call. destruct (answer r (machine s)) as [b m]. intros [= -> <-] Hn. unfold logged.
  cbn [log]. rewrite drop_app_le by done. apply elem_of_app. right. by left.
Qed.

(** What a computation keeps holds after it. *)
Lemma keeps_after {A} I (m : M A) s a s' : I s -> m s = (Ok a, s') -> keeps I m -> I s'.
Proof. intros Hs Hr Hm. specialize (Hm s Hs). by rewrite Hr in Hm. Qed.

(** At least [n] requests were made. *)
Definition begun (n : nat) (s : net) : Prop := (n <= length (log s))%nat.

Lemma begun_call {A} n (r : request A) : keeps (begun n) (call r).
Proof.
  intros s Hs. unfold call, begun in *. destruct (answer r (machine s)). cbn [log snd].
  rewrite length_app. lia.
Qed.
#[local] Hint Resolve begun_call : keeps.

(** The requests made from [s] to [s']. *)
Definition since (s s' : net) : list event := drop (length (log s)) (log s').

Lemma write_file_ok n path value s u s' :
  write_file path value s = (Ok u, s') -> begun n s -> logged n (Did (WriteFile path value) true) s'.
Proof.
  intros Hw Hn. apply bind_ok_inv in Hw as (ok & s1 & Hc & Hr). destruct ok; [|done].
  injection Hr as _ <-. by eapply call_logged.
Qed.

Lemma link_state_ok n name up mac s u s' :
  link_state name up mac s = (Ok u, s') -> begun n s -> link_changed up mac (drop n (log s')).
Proof.
  unfold link_state, netlink. intros Hl Hn. apply bind_ok_inv in Hl as (opened & s1 & H1 & Hl).
  eapply (keeps_after (begun n)) in Hn; [|exact H1|apply begun_call].
  destruct opened; [|done]. cbn [negb] in Hl.
  apply bind_ok_inv in Hl as ([header attrs] & s2 & Hfill & Hl).
  eapply (keeps_after (begun n)) in Hn; [|exact Hfill|net_auto].
  apply bind_ok_inv in Hl as (reply & s3 & Hcall & Hr). apply (call_logged n) in Hcall; [|exact Hn].
  assert (reply = Acked /\ s' = s3) as [-> ->]
    by (destruct reply; try done; by injection Hr as _ <-).
  apply bind_ok_inv in Hfill as (index & s4 & _ & Hfill). exists index, attrs.
  destruct (String.eqb mac "").
  - injection Hfill as <- <- _. by split.
  - apply bind_ok_inv in Hfill as (bytes & s5 & Hb & Hfill). injection Hb as Hb _.
    injection Hfill as <- <- _. split; [done|]. by exists bytes.
Qed.

Lemma string_at_ok info key s x s' : string_at info key s = (Ok x, s') -> saved key x info /\ s' = s.
Proof.
  unfold string_at, lift. intros [= Hx ->]. apply rbind_ok_inv in Hx as (v & Hv & Hs).
  split; [|done]. split; [|by exists v]. destruct (keyed_dec info) as [|Hk]; [done|].
  destruct (at_key_unkeyed info key Hk) as [m Hm]. congruence.
Qed.

(** What follows in an action keeps the requests made. *)
Lemma logged_after {A} n e (m : M A) s a s' :
  (forall e, keeps (logged n e) m) -> m s = (Ok a, s') -> logged n e s -> logged n e s'.
Proof. intros Hm Hr Hs. specialize (Hm e s Hs). by rewrite Hr in Hm. Qed.

Lemma link_changed_after {A} n up mac (m : M A) s a s' :
  (forall e, keeps (logged n e) m) -> m s = (Ok a, s') -> link_changed up mac (drop n (log s)) ->
  link_changed up mac (drop n (log s')).
Proof. intros Hm Hr (i & l & Hl & Hmac). exists i, l. split; [by eapply logged_after|done]. Qed.

Lemma restore_link_ok n info s u s' :
  restore_link info s = (Ok u, s') -> begun n s -> link_restored info (drop n (log s')).
Proof.
  unfold restore_link. intros Hr Hn.
  apply bind_ok_inv in Hr as (name & s1 & [Hname ->]%string_at_ok & Hr).
  apply bind_ok_inv in Hr as (flags & s2 & Hf & Hr). injection Hf as Hf <-.
  apply bind_ok_inv in Hr as (? & s3 & H3 & Hr). eapply (keeps_after (begun n)) in Hn; [|exact H3|net_auto].
  apply bind_ok_inv in Hr as (mac & s4 & [Hmac ->]%string_at_ok & Hr).
  apply bind_ok_inv in Hr as (? & s5 & H5 & Hr). pose proof (link_state_ok n _ _ _ _ _ _ H5 Hn) as Hdown.
  eapply (keeps_after (begun n)) in Hn; [|exact H5|net_auto].
  apply bind_ok_inv in Hr as (v6 & s6 & [Hv6 ->]%string_at_ok & Hr).
  apply bind_ok_inv in Hr as (? & s7 & Hw6 & Hr). pose proof (write_file_ok n _ _ _ _ _ Hw6 Hn) as Hl6.
  eapply (keeps_after (begun n)) in Hn; [|exact Hw6|net_auto].
  apply bind_ok_inv in Hr as (rp & s8 & [Hrp ->]%string_at_ok & Hr).
  apply bind_ok_inv in Hr as (? & s9 & Hwr & Hr). pose proof (write_file_ok n _ _ _ _ _ Hwr Hn) as Hlr.
  eapply (keeps_after (begun n)) in Hn; [|exact Hwr|net_auto].
  pose proof (link_state_ok n _ _ _ _ _ _ Hr Hn) as Hup.
  assert (forall p v e, keeps (logged n e) (write_file p v)) as Hkw by (intros; net_auto).
  assert (forall e, keeps (logged n e) (link_state name (flag_up (elements flags)) "")) as Hkl
    by (intros; net_auto).
  exists name, mac, v6, rp, flags. split_and!; try done.
  - eapply link_changed_after; [exact Hkl|exact Hr|].
    eapply link_changed_after; [apply Hkw|exact Hwr|].
    by eapply link_changed_after; [apply Hkw|exact Hw6|].
  - eapply logged_after; [exact Hkl|exact Hr|]. by eapply logged_after; [apply Hkw|exact Hwr|].
  - by eapply logged_after; [exact Hkl|exact Hr|].
Qed.

Lemma write_saved_ok n path key s u s' :
  write_saved path key s = (Ok u, s') -> begun n s ->
  switch_restored path key (state_ s) (drop n (log s')).
Proof.
  unfold write_saved. intros Hw Hn. apply bind_ok_inv in Hw as (x & s1 & Hat & Hw).
  apply state_at_ok in Hat as (Hk & Hat & v & -> & _).
  apply bind_ok_inv in Hw as (value & s2 & Hv & Hw). injection Hv as Hv <-.
  exists value. split; [split; [done|by exists x]|]. by eapply write_file_ok.
Qed.

(** The two runs of a rollback in which nothing failed. *)
Lemma undone_ok n c s s' :
  keyed (state_ s) -> begun n s -> undone c s "" s' ->
  exists index s2 baseline s4,
    members_of n (state_ s) s2 /\ members_of n (state_ s) s4 /\
    forallb is_ok (run_all (later_actions c index) s2).1 = true /\
    at_key (state_ s) "baseline" = Ok baseline /\
    forallb is_ok (run_all (map restore_link (elements baseline)) s4).1 = true /\
    (forall e, logged n e (run_all (later_actions c index) s2).2 -> logged n e s') /\
    (forall e, logged n e (run_all (map restore_link (elements baseline)) s4).2 -> logged n e s').
Proof.
  intros Hk Hn (rs1 & s1 & index & s2 & rs2 & s3 & baseline & s4 & rs3 & s5 & H1 & H2 & H3 & H4 & Hb & H5 & Hend).
  destruct (forallb is_ok (rs1 ++ rs2 ++ rs3)) eqn:Hok;
    [|destruct Hend as [He _]; symmetry in He; apply messages_none in He; congruence].
  destruct Hend as [_ ->]. rewrite !forallb_app in Hok.
  apply andb_true_iff in Hok as [_ [Hok2 Hok3]%andb_true_iff].
  destruct (actions_mild n (state_ s) c index baseline) as (HI1 & HI2 & HI3 & _ & Hrelease).
  destruct (run_all_mild _ _ _ s HI1 (conj (conj Hk (fun k => eq_refl)) Hn)) as [Hs1 _]. rewrite H1 in Hs1.
  pose proof (members_call n (state_ s) (IfNameToIndex (c_str (outer_name c))) s1 Hs1) as Hs2. rewrite H2 in Hs2.
  destruct (run_all_mild _ _ _ s2 HI2 Hs2) as [Hs3 _]. rewrite H3 in Hs3.
  pose proof (members_state_at n (state_ s) "baseline" s3 Hs3) as Hs4. rewrite H4 in Hs4.
  destruct (run_all_mild _ _ _ s4 HI3 Hs4) as [_ Hlog]. rewrite H5 in Hlog.
  exists index, s2, baseline, s4. rewrite H3, H5. split_and!; try done; intros e He; apply Hrelease; [|done].
  apply Hlog. pose proof (logged_state_at n e "baseline" s3 He) as Hl. by rewrite H4 in Hl.
Qed.

Lemma link_restored_more info l l' :
  (forall e, e ∈ l -> e ∈ l') -> link_restored info l -> link_restored info l'.
Proof.
  intros Hl (name & mac & v6 & rp & flags & ? & ? & (i & a & Hi & ?) & ? & Hw6 & ? & Hwr & ? &
    (i' & a' & Hi' & ?)).
  exists name, mac, v6, rp, flags. split_and!; try done; try by apply Hl.
  - exists i, a. split; [by apply Hl|done].
  - exists i', a'. split; [by apply Hl|done].
Qed.

Lemma switch_restored_more path key v w l l' :
  (forall e, e ∈ l -> e ∈ l') -> at_key w key = at_key v key ->
  switch_restored path key v l -> switch_restored path key w l'.
Proof.
  intros Hl Hat (value & (_ & x & Hx & Hs) & Hw). exists value. split; [|by apply Hl].
  split; [|exists x; by rewrite Hat]. destruct (keyed_dec w) as [|Hk]; [done|].
  destruct (at_key_unkeyed w key Hk) as [m Hm]. congruence.
Qed.

Lemma undone_restored n c s s' :
  keyed (state_ s) -> begun n s -> undone c s "" s' ->
  network_restored (state_ s) (drop n (log s')).
Proof.
  intros Hk Hn Hu.
  destruct (undone_ok n c s s' Hk Hn Hu) as (index & s2 & baseline & s4 & Hs2 & Hs4 & Hok2 & Hb & Hok3 & Hl2 & Hl3).
  destruct (actions_mild n (state_ s) c index baseline) as (_ & HI2 & HI3 & _).
  assert (forall path key, write_saved path key ∈ later_actions c index ->
    switch_restored path key (state_ s) (drop n (log s'))) as Hswitch.
  { intros path key Hin. destruct (run_all_ok _ _ _ s2 _ HI2 Hs2 Hok2 Hin) as (t1 & t2 & Ht1 & Hrun & Hlog).
    eapply switch_restored_more; [|symmetry; apply (proj1 Ht1)|eapply write_saved_ok; [exact Hrun|apply Ht1]].
    intros e He. by apply Hl2, Hlog. }
  split; [|split].
  - apply Hswitch. unfold later_actions. rewrite !elem_of_app. do 3 right. right. by left.
  - apply Hswitch. unfold later_actions. rewrite !elem_of_app. do 3 right. do 2 right. by left.
  - exists baseline. split; [done|]. intros info Hin.
    destruct (run_all_ok _ _ _ s4 (restore_link info) HI3 Hs4 Hok3) as (t1 & t2 & Ht1 & Hrun & Hlog).
    { by apply (list_elem_of_fmap_2 restore_link). }
    eapply link_restored_more; [|eapply restore_link_ok; [exact Hrun|apply Ht1]].
    intros e He. by apply Hl3, Hlog.
Qed.

Lemma journal_logged n e s : logged n e s -> logged n e (journal s).2.
Proof.
  assert (keeps (logged n e) journal) as Hk by (unfold journal; keeps_auto). apply Hk.
Qed.

Lemma journal_begun n s : begun n s -> begun n (journal s).2.
Proof.
  assert (keeps (begun n) journal) as Hk by (unfold journal; keeps_auto). apply Hk.
Qed.

(** A rollback that returns has put everything back. *)
Lemma rollback_run_ok c s u s' :
  rollback_run c s (Ok u) s' -> network_restored (state_ s) (since s s').
Proof.
  intros Hrun. unfold since. set (n := length (log s)). inversion Hrun as [|v s1 errors s2 w r s'' (Hkv & Hst & Hv) Hj Hundone Hw Hj2 Heq]; subst.
  destruct r as [u'|]; [|done]. cbn in Heq. destruct (String.eqb_spec errors "") as [->|]; [|done].
  assert (state_ s1 = v) as Hs1 by (pose proof (journal_state (with_state s v)) as Hjs; by rewrite Hj in Hjs).
  assert (begun n s1) as Hn
    by (pose proof (journal_begun n (with_state s v) (le_n _)) as Hb; by rewrite Hj in Hb).
  apply (undone_restored n) in Hundone; [|by rewrite Hs1|done]. rewrite Hs1 in Hundone.
  assert (forall e, logged n e s2 -> logged n e s') as Hlog
    by (intros e He; pose proof (journal_logged n e (with_state s2 w) He) as Hl; by rewrite Hj2 in Hl).
  destruct Hundone as (Hf & Hr & baseline & Hb & Hall).
  split; [eapply switch_restored_more; [exact Hlog | symmetry; by apply Hv | done]|].
  split; [eapply switch_restored_more; [exact Hlog | symmetry; by apply Hv | done]|].
  exists baseline. split; [by rewrite <- Hv|].
  intros info Hin. eapply link_restored_more; [exact Hlog | by apply Hall].
Qed.

(** C4: the rollback. From a state whose configuration parses, either the store refuses the
    record [rolling_back], and nothing else is done; or [restore] runs every undoing action in
    order, whatever failed before, releases the guard only if none failed, and puts a record
    with the collected messages under [error] and the status [inactive] if there are none and
    [rollback_failed] otherwise. It returns exactly when there are none and that put succeeds;
    then the switches, addresses and states of the interfaces of the baseline were written back in
    this run, with the kernel's acknowledgement. Otherwise it throws the messages, or the exception
    of the put. *)
Theorem restore_outcome c s :
  holds_config c (state_ s) ->
  let '(r, s') := restore s in
  rollback_run c s r s' /\
  match r with
  | Ok _ => rolled_back s' /\ network_restored (state_ s) (since s s')
  | Throw e => rollback_incomplete e s' \/ (state_in rollback_status s' /\ put_failed e s')
  end.
Proof.
  intros Hs. pose proof (restore_run c s Hs) as Hrun.
  pose proof (restore_outcome_spec c s Hs) as Ho. destruct (restore s) as [[u|e] s']; [|done].
  split; [done|]. split; [done|]. by eapply rollback_run_ok.
Qed.

(** *** The switches are always put back *)

(** A write of [value] to [path] was attempted. *)
Definition tried (path value : string) (s : net) : Prop :=
  exists b, Did (WriteFile path value) b ∈ log s.

Lemma tried_call {A} path value (r : request A) : keeps (tried path value) (call r).
Proof.
  intros s [b Hb]. unfold call. destruct (answer r (machine s)) as [a m].
  exists b. cbn [log snd]. set_solver.
Qed.

Lemma tried_keeps_state {A} path value (m : M A) :
  (forall s, log (m s).2 = log s) -> keeps (tried path value) m.
Proof. intros Hm s. unfold tried. by rewrite Hm. Qed.
#[local] Hint Resolve tried_call : keeps.
#[local] Hint Extern 1 (keeps (tried _ _) (state_at _)) =>
  apply tried_keeps_state, state_at_log : keeps.
#[local] Hint Extern 1 (keeps (tried _ _) (state_set _ _)) =>
  apply tried_keeps_state, state_set_log : keeps.

Lemma write_saved_spec key value path :
  spec (state_in (saved key value)) (write_saved path key)
    (fun _ => tried path value) (fun _ => tried path value).
Proof.
  intros s (Hk & x & Hx & Hs). unfold write_saved, write_file.
  destruct (state_at_keyed key s Hk) as (y & v' & Hat & Hy & _).
  rewrite (bind_ok _ _ _ _ _ Hat). replace y with x by congruence. unfold lift.
  rewrite (bind_ok _ _ _ value (with_state s v')) by (by rewrite Hs).
  unfold bind, call. destruct (answer _ _) as [ok m].
  destruct ok; cbn; [exists true | exists false]; cbn; apply elem_of_app; right; by left.
Qed.

Lemma attempt_saved errors key value path :
  spec (state_in (saved key value)) (attempt errors (write_saved path key))
    (fun _ => tried path value) (fun _ _ => False).
Proof.
  unfold attempt. eapply spec_try with (E' := fun _ => tried path value).
  - eapply spec_bind; [apply write_saved_spec|]. by intros ? s.
  - by intros e s.
Qed.
Definition both_saved (fwd rp : string) (v : Value) : Prop :=
  saved "ip_forward" fwd v /\ saved "rp_filter_all" rp v.

Lemma both_saved_members fwd rp : by_members (both_saved fwd rp).
Proof. intros v w [? ?] ?. split; by eapply saved_members. Qed.

Lemma both_saved_set fwd rp k x :
  k <> "ip_forward" -> k <> "rp_filter_all" ->
  spec (state_in (both_saved fwd rp)) (state_set k x) (fun _ => state_in (both_saved fwd rp))
    (fun _ _ => False).
Proof.
  intros H1 H2. apply state_set_spec; [by intros v [[Hk _] _]|].
  intros v w [(_ & y & Hy & ?) (_ & z & Hz & ?)] Hk _ Hrest. split; (split; [done|]).
  - exists y. by rewrite Hrest.
  - exists z. by rewrite Hrest.
Qed.

Definition tried_both (fwd rp : string) (s : net) : Prop :=
  tried forward_sysctl fwd s /\ tried (rp_filter_sysctl "all") rp s.

Lemma tried_both_call {A} fwd rp (r : request A) : keeps (tried_both fwd rp) (call r).
Proof. intros s [? ?]. split; by apply tried_call. Qed.
#[local] Hint Resolve tried_both_call : keeps.

Lemma tried_both_state {A} fwd rp (m : M A) :
  (forall s, log (m s).2 = log s) -> keeps (tried_both fwd rp) m.
Proof. intros Hm s [? ?]. split; by apply tried_keeps_state. Qed.
#[local] Hint Extern 1 (keeps (tried_both _ _) (state_at _)) =>
  apply tried_both_state, state_at_log : keeps.
#[local] Hint Extern 1 (keeps (tried_both _ _) (state_set _ _)) =>
  apply tried_both_state, state_set_log : keeps.

Lemma restore_steps_tried c fwd rp :
  spec (state_in (both_saved fwd rp)) (restore_steps c) (fun _ => tried_both fwd rp)
    (fun _ => tried_both fwd rp).
Proof.
  assert (forall v, both_saved fwd rp v -> keyed v) as Hk by (by intros v [[Hk _] _]).
  assert (by_members (both_saved fwd rp)) as HP by apply both_saved_members.
  assert (forall k, keeps (state_in (both_saved fwd rp)) (state_at k)) as Hat
    by (intros k; by apply state_at_members).
  assert (forall A (r : request A), keeps (state_in (both_saved fwd rp)) (call r)) as Hcall
    by (intros A r; apply call_state).
  assert (forall A (m : M A) Q E, runs (state_in (both_saved fwd rp)) m ->
    (forall a, spec (state_in (both_saved fwd rp)) (Q a) (fun _ => tried_both fwd rp) E) ->
    spec (state_in (both_saved fwd rp)) (bind m Q) (fun _ : string => tried_both fwd rp) E) as Hstep.
  { intros A m Q E Hm HQ. eapply spec_bind; [|exact HQ].
    eapply spec_conseq; [exact Hm | done..]. }
  unfold restore_steps. do 7 (apply Hstep; [steps_run | intros ?]).
  apply (spec_bind _ _ _
    (fun _ s => state_in (both_saved fwd rp) s /\ tried forward_sysctl fwd s)).
  { eapply spec_conseq; [apply spec_and;
      [apply (runs_attempt (state_in (both_saved fwd rp))); net_auto |
       eapply spec_pre; [apply (attempt_saved _ "ip_forward" fwd) | by intros s [Hs _]]]
      | done | done | by intros ? ? []]. }
  intros errors. apply (spec_bind _ _ _ (fun _ => tried_both fwd rp)).
  { intros s [Hs Ht].
    assert (keeps (tried forward_sysctl fwd)
      (attempt errors (write_saved (rp_filter_sysctl "all") "rp_filter_all"))) as Hkeep by net_auto.
    pose proof (attempt_saved errors "rp_filter_all" rp (rp_filter_sysctl "all") s (proj2 Hs)) as Hnew.
    specialize (Hkeep s Ht). by destruct (attempt _ _ s) as [[] ?]. }
  intros ?. apply keeps_spec. net_auto.
Qed.

(** Forwarding is put back. Every run of [restore] whose first record reached the store
    attempts to write the saved values of [ip_forward] and of the global [rp_filter],
    whatever other step failed before. *)
Theorem restore_resets_switches c fwd rp s :
  holds_config c (state_ s) -> both_saved fwd rp (state_ s) ->
  tried_both fwd rp (restore s).2 \/
  (state_in (fun v => status v "rolling_back") (restore s).2 /\
   exists e, (restore s).1 = Throw e /\ put_failed e (restore s).2).
Proof.
  intros Hc Hb.
  set (P v := holds_config c v /\ both_saved fwd rp v).
  set (out (s : net) e := tried_both fwd rp s \/
    (state_in (fun v => status v "rolling_back") s /\ put_failed e s)).
  assert (spec (state_in P) restore (fun _ => tried_both fwd rp) (fun e s => out s e)) as Hspec.
  { unfold restore.
    apply (spec_bind _ _ _ (fun config s => state_in P s /\ config_from_json config = Ok c)).
    { clear s Hc Hb. intros s [[Hk (cfg & Hat & Hp)] Hb].
      destruct (state_at_keyed "config" s Hk) as (x & v' & -> & Hx & Hk' & Hat').
      split; [|congruence]. split; [|by eapply both_saved_members].
      split; [done|]. exists cfg. cbn. by rewrite Hat'. }
    intros config. apply (spec_bind _ _ _ (fun _ => state_in P)).
    { apply spec_lift. by intros ? [? ->]. }
    intros ?. apply (spec_bind _ _ _ (fun _ => state_in (fun v => status v "rolling_back" /\
                                                          both_saved fwd rp v))).
    { eapply spec_conseq; [apply spec_and;
        [apply (state_set_spec P (fun v => status v "rolling_back")) |
         eapply spec_pre; [apply (both_saved_set fwd rp "status") |]] | | |]; try done.
      - by intros v [[Hk _] _].
      - intros v w _ Hk Hat _. by apply status_set.
      - by intros ? [_ ?].
      - by intros ? ? []. }
    intros ?. eapply spec_bind.
    { eapply spec_conseq; [apply journal_outcome | intros ? Hs; exact Hs | intros ? ? Hs; exact Hs |].
      intros e s' [[Hs _] Hf]. right. by split. }
    intros ?. apply (spec_bind _ _ _ (fun _ => tried_both fwd rp)).
    { eapply spec_conseq; [apply restore_steps_tried | by intros ? [[_ ?] _] | done | by left]. }
    intros ?. eapply spec_conseq; [apply (keeps_spec (tried_both fwd rp)) | done | done | by left].
    unfold set_status, journal. keeps_auto. }
  specialize (Hspec s (conj Hc Hb)). destruct (restore s) as [[a|e] s']; cbn; [by left|].
  destruct Hspec as [|[? ?]]; [by left|]. right. eauto.
Qed.
End Rollback.

(** ** Witnesses, on the simulated host *)

From S2P Require Import JsonTree NetworkBench.

Ltac on_bench :=
  repeat match goal with
  | |- status _ _ => split; [by right | eexists; split; [vm_compute; reflexivity | reflexivity]]
  | |- holds_config _ _ => split; [by right | eexists; split; [vm_compute; reflexivity |]]
  | |- both_saved _ _ _ => split
  | |- saved _ _ _ => split; [by right | eexists; split; [vm_compute; reflexivity | reflexivity]]
  | |- keyed _ => by right
  | |- log _ = [] => reflexivity
  | |- config_from_json _ = _ => vm_compute; reflexivity
  | |- config_typed _ => unfold config_typed, sample_config; cbn; lia
  end.

(** The configuration applied on the bench is rolled back. *)
Lemma restore_outcome_witness :
  (let '(r, s') := restore applied in
   rollback_run sample_config applied r s' /\
   match r with
   | Ok _ => rolled_back s' /\ network_restored (state_ applied) (since applied s')
   | Throw e => rollback_incomplete e s' \/ (state_in rollback_status s' /\ put_failed e s')
   end).
Proof. apply (restore_outcome sample_config applied). on_bench. Defined.

Lemma restore_resets_switches_witness :
  tried_both "1" "1" (restore applied).2 \/
  (state_in (fun v => status v "rolling_back") (restore applied).2 /\
   exists e, (restore applied).1 = Throw e /\ put_failed e (restore applied).2).
Proof. apply (restore_resets_switches sample_config "1" "1" applied); on_bench. Defined.
