(* ===== verification/NetworkControl.v ===== *)
(** * Outcomes of the controller's operations

    The states and exceptions [apply], [confirm], [tick] and the constructor can end in, for
    every machine: what is pending, confirmed or rolled back, what the store then holds, and
    when.  How a rollback ends is in NetworkRollback.v. *)
From S2P Require Import Prelude CppStd Inet Config Json Serialize Effects Network NetworkSafety.
From S2P Require Import NetworkRollback.

Section Control.
Context `{IL : InetLaws} `{JL : JsonCppLaws} `{PF : @Platform H0}.

(** ** [apply] *)

(** Waiting for a confirmation of [c]: the store knows, and sixty seconds remain from a
    reading of the clock. *)
Definition pending (c : NetworkConfig) (v : Value) : Prop :=
  status v "awaiting_confirmation" /\ holds_config c v.

Definition awaiting (c : NetworkConfig) (s : net) : Prop :=
  state_in (pending c) s /\ stored s /\
  exists now, Did SteadyNow now ∈ log s /\ deadline_ s = now + seconds 60.

Definition unchanged_network (s : net) : Prop := existsb mutation (log s) = false.

(** A refusal: nothing was done; [applying] if the first record could not be put. *)
Definition refused (s : net) : Prop :=
  state_in (fun v => status v "inactive" \/ status v "applying") s /\ unchanged_network s.

Definition fresh (P : Value -> Prop) (s : net) : Prop := state_in P s /\ unchanged_network s.

Lemma fresh_call {A} P (r : request A) :
  (forall a, mutation (Did r a) = false) -> keeps (fresh P) (call r).
Proof.
  intros Hr s [Hs Hn]. split; [by apply call_state|]. unfold call, unchanged_network in *.
  destruct (answer r (machine s)) as [a m]. cbn [log snd]. rewrite existsb_app, Hn.
  cbn [existsb]. by rewrite Hr.
Qed.
#[local] Hint Extern 1 (keeps (fresh _) (call _)) =>
  apply fresh_call; intros; reflexivity : keeps.

Lemma fresh_set (P Q : Value -> Prop) k x :
  spec (state_in P) (state_set k x) (fun _ => state_in Q) (fun _ _ => False) ->
  spec (fresh P) (state_set k x) (fun _ => fresh Q) (fun _ _ => False).
Proof.
  intros Hset s [Hs Hn]. specialize (Hset s Hs). pose proof (state_set_log k x s) as Hl.
  destruct (state_set k x s) as [[a|e] s']; [|done]. split; [done|].
  unfold unchanged_network in *. cbn in Hl. by rewrite Hl.
Qed.

Lemma set_other P k x :
  k <> "status" -> k <> "config" ->
  (P = (fun v => status v "inactive") \/
   exists c, P = (fun v => status v "inactive" /\ holds_config c v)) ->
  spec (state_in P) (state_set k x) (fun _ => state_in P) (fun _ _ => False).
Proof.
  intros H1 H2 HP. apply state_set_spec.
  - intros v Hv. destruct HP as [->|[c ->]]; [by eapply status_keyed|].
    by eapply status_keyed, Hv.
  - intros v w Hv Hk _ Hrest.
    assert (status v "inactive" -> status w "inactive") as Hst.
    { intros (_ & y & Hy & He). split; [done|]. exists y. by rewrite Hrest. }
    destruct HP as [->|[c ->]]; [by apply Hst|]. destruct Hv as [Hv (_ & cfg & Hat & Hp)].
    split; [by apply Hst|]. split; [done|]. exists cfg. by rewrite Hrest.
Qed.

(** The record is put, and the network is still as it was. *)
Definition prepared (c : NetworkConfig) (s : net) : Prop :=
  fresh (fun v => status v "applying" /\ holds_config c v) s /\ stored s.

Lemma write_ahead_outcome c cfg baseline :
  config_json c = Ok cfg -> config_from_json cfg = Ok c ->
  spec (fresh (fun v => status v "inactive")) (write_ahead c baseline)
    (fun _ => prepared c) (fun _ => refused).
Proof.
  intros Hj Hp. unfold write_ahead. rewrite Hj.
  set (I := fun v => status v "inactive"). set (J := fun v => status v "inactive" /\ holds_config c v).
  assert (forall (e : exn) s, fresh J s -> refused s) as Hout.
  { intros e s [[Hs _] Hn]. split; [by left|done]. }
  apply (spec_bind _ _ _ (fun config s => config = cfg /\ fresh I s)); [by intros s Hs|].
  intros config. apply (spec_bind _ _ _ (fun _ => fresh J)).
  { intros s [-> Hs]. revert s Hs. eapply spec_conseq; [apply (fresh_set I J) | done..].
    apply state_set_spec; [intros v; apply status_keyed|]. intros v w (_ & y & Hy & He) Hk Hat Hrest.
    split; [split; [done|]; exists y; by rewrite Hrest|]. by split; [|exists cfg]. }
  assert (forall k x (m : unit -> M unit), k <> "status" -> k <> "config" ->
    (forall u, spec (fresh J) (m u) (fun _ => prepared c) (fun _ => refused)) ->
    spec (fresh J) (bind (state_set k x) m) (fun _ => prepared c) (fun _ => refused))
    as Hset.
  { intros k x m H1 H2 Hm. eapply spec_bind; [|exact Hm].
    eapply spec_conseq; [apply (fresh_set J J); apply set_other; eauto | done..]. }
  intros ?. apply Hset; [done|done|intros ?].
  apply spec_bind_keeps; [unfold read_file; keeps_auto | done | intros ?].
  apply Hset; [done|done|intros ?].
  apply spec_bind_keeps; [unfold read_file; keeps_auto | done | intros ?].
  apply Hset; [done|done|intros ?].
  set (K := fun v => status v "applying" /\ holds_config c v).
  apply (spec_bind _ _ _ (fun _ => fresh K)).
  { eapply spec_conseq; [apply (fresh_set J K) | done..].
    apply state_set_spec; [by intros v [[? _] _]|].
    intros v w (_ & _ & cfg' & Hc & Hp') Hk Hat Hrest. split; [by apply status_set|].
    split; [done|]. exists cfg'. by rewrite Hrest. }
  intros ?. assert (keeps (fresh K) journal) as Hj' by (unfold journal; keeps_auto).
  eapply spec_conseq; [apply (spec_and journal (fresh K)); [by apply keeps_spec|] | done | |].
  - eapply spec_pre; [apply (journal_outcome K) | by intros s []].
  - intros ? s [Hs [_ Hst]]. by split.
  - intros e s [[[Hs _] Hn] _]. split; [by right|done].
Qed.

(** [commit] changes the status only. *)
Lemma commit_members c s :
  keyed (state_ s) -> forall k, k <> "status" -> at_key (state_ (commit c s).2) k = at_key (state_ s) k.
Proof.
  intros Hk. set (P v := keyed v /\ forall k, k <> "status" -> at_key v k = at_key (state_ s) k).
  assert (forall A (r : request A), keeps (state_in P) (call r)) as Hcall
    by (intros A r; apply call_state).
  assert (forall x, keeps (state_in P) (state_set "status" x)) as Hset.
  { intros x s1 [Hk1 H1]. destruct (state_set_keyed "status" x s1 Hk1) as (v & -> & Hkv & _ & Hv).
    split; [done|]. intros k Hne. cbn. by rewrite Hv, H1. }
  assert (forall d, keeps (state_in P) (set_deadline d)) as Hd by by intros d s1.
  assert (keeps (state_in P) (commit c)) as Hkeep by (unfold commit, journal; net_auto).
  apply (Hkeep s). by split.
Qed.

Lemma commit_logged n e : keeps (logged n e) (do! set_status "awaiting_confirmation";
  let! now := call SteadyNow in do! set_deadline (now + seconds 60); journal).
Proof.
  assert (forall d, keeps (logged n e) (set_deadline d)) as Hd by by intros d s.
  assert (forall A (r : request A), keeps (logged n e) (call r)) as Hcall by (intros A r; apply logged_call).
  assert (forall x, keeps (logged n e) (state_set "status" x)) as Hset by (intros x; apply logged_state_set).
  unfold journal. net_auto.
Qed.

Lemma commit_outcome c :
  spec (state_in (holds_config c)) (commit c) (fun _ => awaiting c) (fun _ => state_in (holds_config c)).
Proof.
  unfold commit. apply (spec_bind _ _ _ (fun _ => state_in (holds_config c))).
  { apply keeps_spec. assert (forall A (r : request A), keeps (state_in (holds_config c)) (call r))
      as Hcall by (intros A r; apply call_state). net_auto. }
  intros ?. apply (spec_bind _ _ _ (fun _ => state_in (pending c))).
  { eapply spec_conseq; [apply (state_set_spec (holds_config c) (pending c)) | done..].
    - by intros v [Hk _].
    - intros v w (_ & cfg & Hc & Hp) Hk Hat Hrest. split; [by apply status_set|].
      split; [done|]. exists cfg. by rewrite Hrest. }
  intros ?. apply (spec_bind _ _ _ (fun now s => state_in (pending c) s /\ Did SteadyNow now ∈ log s)).
  { intros s Hs. unfold call. destruct (answer SteadyNow (machine s)) as [now m].
    split; [exact Hs|]. apply elem_of_app. right. by left. }
  intros now. apply (spec_bind _ _ _ (fun _ s => state_in (pending c) s /\
    Did SteadyNow now ∈ log s /\ deadline_ s = now + seconds 60)).
  { by intros s [Hs Hl]. }
  intros ? s (Hs & Hl & Hd). pose proof (journal_outcome (pending c) s Hs) as Hj.
  assert (keeps (fun s => Did SteadyNow now ∈ log s /\ deadline_ s = now + seconds 60) journal) as Hk.
  { unfold journal. keeps_auto. intros s1 [? ?]. unfold call.
    destruct (answer _ (machine s1)). split; [|done]. cbn [log snd]. set_solver. }
  specialize (Hk s (conj Hl Hd)). destruct (journal s) as [[?|?] s'].
  - destruct Hj as [? ?]. split; [done|]. split; [done|]. by exists now.
  - by destruct Hj as [[_ ?] _].
Qed.

Lemma recover_outcome c e :
  spec (state_in (holds_config c)) (recover e) (fun _ _ => False) (fun _ => state_in rollback_status).
Proof.
  unfold recover. apply (spec_bind _ _ _ (fun _ => state_in rollback_status)); [|by intros ? s].
  eapply spec_try with (E' := fun _ => state_in rollback_status); [|by intros e' s].
  eapply spec_conseq; [apply restore_outcome_spec | done | |].
  - intros ? s [Hs _]. right. by right.
  - intros e' s [[[Hs _] _]|[Hs _]]; [|done]. right. by left.
Qed.
(** What the handler of [apply] does with the exception of [commit]. *)
Definition failure (error : exn) (r : result unit) : exn :=
  Exn runtime_error (what error +:+
    match r with Ok _ => "" | Throw e => "; rollback failed: " +:+ what e end).

Lemma recover_run c error s :
  holds_config c (state_ s) -> exists r s', recover error s = (Throw (failure error r), s') /\
    rollback_run c s r s' /\ state_in rollback_status s'.
Proof.
  intros Hc. pose proof (restore_run c s Hc) as Hrun. pose proof (recover_outcome c error s Hc) as Hst.
  exists (restore s).1, (restore s).2. unfold recover, bind, try_catch in *.
  destruct (restore s) as [[u|e] s']; cbn in *; [|done].
  split; [|done]. unfold failure, throw, throw_runtime. by rewrite app_empty_r.
Qed.

(** From [s], the machine was inspected and [c] recorded with what was found, without touching
    the network; this led to [s0]. *)
Definition recorded (c : NetworkConfig) (s s0 : net) : Prop :=
  exists v baseline s1, same_members (state_ s) v /\
    preflight c (with_state s v) = (Ok baseline, s1) /\ write_ahead c baseline s1 = (Ok tt, s0) /\
    prepared c s0.

(** [c] was applied: it was recorded, then installed, and the rest only recorded that. *)
Definition applied_by (c : NetworkConfig) (s s' : net) : Prop :=
  exists s0 s1, recorded c s s0 /\ install c s0 = (Ok tt, s1) /\ forall e, e ∈ since s0 s1 -> e ∈ since s0 s'.

(** [c] was recorded, the change failed, and the rollback ran; if it returned, the network is as
    the record said it was. *)
Definition undone_by (c : NetworkConfig) (e : exn) (s s' : net) : Prop :=
  exists s0 error s1 r, recorded c s s0 /\ commit c s0 = (Throw error, s1) /\
    rollback_run c s1 r s' /\ e = failure error r /\
    (r = Ok tt -> network_restored (state_ s0) (since s1 s')).

Lemma network_restored_members v w l :
  (forall k, k <> "status" -> at_key w k = at_key v k) -> network_restored v l -> network_restored w l.
Proof.
  intros Hv (Hf & Hr & baseline & Hb & Hall).
  split; [by eapply switch_restored_more; [|by apply Hv|exact Hf]|].
  split; [by eapply switch_restored_more; [|by apply Hv|exact Hr]|].
  exists baseline. by rewrite Hv.
Qed.

Lemma commit_applied c s0 s s' : recorded c s0 s -> commit c s = (Ok tt, s') -> applied_by c s0 s'.
Proof.
  intros Hs Hc. unfold commit in Hc. apply bind_ok_inv in Hc as ([] & s1 & Hi & Hc).
  exists s, s1. split_and!; [done..|]. intros e He. pose proof (commit_logged _ e s1 He) as Hl.
  by rewrite Hc in Hl.
Qed.

(** C3: how an application ends. From the status [inactive], [apply] either returns: the
    configuration was recorded and then installed, every step having succeeded, it awaits a
    confirmation of exactly this configuration with the store holding that state, and the
    deadline is sixty seconds after a reading of the clock made in the run. Or it throws, and
    then either the network was not touched at all; or the configuration had been recorded, its
    installation failed, and the rollback ran from there (NetworkRollback.rollback_run: every
    undoing action, unless the store refused the record), its own failure being added to the
    message; if the rollback returned, the network is as it was observed before. Nothing is ever
    left pending or confirmed by a failed [apply]. *)
Theorem apply_outcome c s :
  config_typed c -> status (state_ s) "inactive" -> log s = [] ->
  match apply true c s with
  | (Ok _, s') => awaiting c s' /\ applied_by c s s'
  | (Throw e, s') => refused s' \/ undone_by c e s s' /\ state_in rollback_status s'
  end.
Proof.
  intros Ht Hst Hlog. set (I := fun v => status v "inactive").
  assert (fresh I s) as Hs by (split; [done|]; unfold unchanged_network; by rewrite Hlog).
  assert (forall s, fresh I s -> refused s) as Hout by (intros s1 [H1 H2]; split; [by left|done]).
  unfold apply. cbn [negb].
  destruct (status_is_spec "inactive" s ltac:(by eapply status_keyed)) as (v' & b & Heq & Hsame & Hb).
  rewrite (bind_ok _ _ _ _ _ Heq). rewrite (proj2 Hb Hst). cbn [negb].
  assert (fresh I (with_state s v')) as Hs' by (split; [by eapply status_members|apply Hs]).
  unfold bind at 1. assert (keeps (fresh I) (preflight c)) as Hkeep by net_auto. specialize (Hkeep _ Hs').
  destruct (preflight c (with_state s v')) as [[baseline|e] s1] eqn:Hp; [|left; by apply Hout].
  destruct (preflight_accepted c _ baseline s1 Ht Hp) as (cfg & Hj & Hr).
  pose proof (write_ahead_outcome c cfg baseline Hj Hr s1 Hkeep) as Hw.
  unfold bind. destruct (write_ahead c baseline s1) as [[[]|?] s2] eqn:Hwrite; [|by left].
  assert (recorded c s s2) as Hrec by (by exists v', baseline, s1).
  assert (holds_config c (state_ s2)) as Hc2 by apply Hw.
  pose proof (commit_outcome c s2 Hc2) as Hc. pose proof (commit_members c s2 (proj1 Hc2)) as Hmem.
  unfold try_catch. destruct (commit c s2) as [[[]|error] s3] eqn:Hcommit.
  { split; [done|]. by eapply commit_applied. }
  destruct (recover_run c error s3 Hc) as (r & s4 & -> & Hrun & Hstatus). right. split; [|done].
  exists s2, error, s3, r. split_and!; try done. intros ->.
  apply rollback_run_ok in Hrun. eapply network_restored_members; [|exact Hrun].
  intros k Hk. symmetry. by apply Hmem.
Qed.

(** ** [tick] and [confirm] *)

Lemma restore_ok_inactive s u s' : restore s = (Ok u, s') -> rolled_back s'.
Proof.
  intros Hr. assert (exists c, holds_config c (state_ s)) as [c Hc].
  { unfold restore, bind at 1 in Hr. destruct (state_at "config" s) as [[cfg|e] s1] eqn:Hat; [|done].
    apply state_at_ok in Hat as (Hk & Hat & _). unfold bind at 1, lift in Hr.
    destruct (config_from_json cfg) as [c|] eqn:Hp; [|done]. exists c. split; [done|]. by exists cfg. }
  pose proof (restore_outcome_spec c s Hc) as Ho. by rewrite Hr in Ho.
Qed.

(** What the clock answers in this state, and the state after asking. *)
Definition clock (s : net) : Z := (answer SteadyNow (machine s)).1.
Definition after_clock (s : net) : net := (call SteadyNow s).2.

Lemma call_clock s : call SteadyNow s = (Ok (clock s), after_clock s).
Proof. unfold after_clock, clock, call. by destruct (answer SteadyNow (machine s)). Qed.

Lemma after_clock_state s : state_ (after_clock s) = state_ s /\ deadline_ (after_clock s) = deadline_ s.
Proof. unfold after_clock, call. by destruct (answer SteadyNow (machine s)). Qed.

(** [tick] with a configuration pending, by the clock. *)
Lemma tick_pending s :
  status (state_ s) "awaiting_confirmation" ->
  exists v', same_members (state_ s) v' /\
    tick true s = if deadline_ s <=? clock s then restore (after_clock (with_state s v'))
                  else (Ok tt, after_clock (with_state s v')).
Proof.
  intros Hst.
  destruct (status_is_spec "awaiting_confirmation" s ltac:(by eapply status_keyed))
    as (v' & b & Heq & Hsame & Hb).
  exists v'. split; [done|]. unfold tick. cbn [negb].
  rewrite (bind_ok _ _ _ _ _ Heq), (proj2 Hb Hst). cbn [negb].
  rewrite (bind_ok _ _ _ _ _ (call_clock _)).
  rewrite (bind_ok _ _ _ (deadline_ s) (after_clock (with_state s v')))
    by (unfold get_deadline; by rewrite (proj2 (after_clock_state _))).
  change (clock (with_state s v')) with (clock s).
  by destruct (deadline_ s <=? clock s).
Qed.

Lemma tick_other s :
  keyed (state_ s) -> ~ status (state_ s) "awaiting_confirmation" ->
  exists v', same_members (state_ s) v' /\ tick true s = (Ok tt, with_state s v').
Proof.
  intros Hk Hst. destruct (status_is_spec "awaiting_confirmation" s Hk) as (v' & b & Heq & Hsame & Hb).
  exists v'. split; [done|]. unfold tick. cbn [negb]. rewrite (bind_ok _ _ _ _ _ Heq).
  destruct b; [by destruct Hst; apply Hb|done].
Qed.

(** The automatic rollback. With a configuration pending, [tick] runs [restore] as soon as
    the clock has reached the deadline and does nothing before it; in any other status it
    does nothing and does not read the clock. *)
Theorem tick_deadline s :
  keyed (state_ s) ->
  exists v', same_members (state_ s) v' /\
  (status (state_ s) "awaiting_confirmation" ->
     (deadline_ s <= clock s -> tick true s = restore (after_clock (with_state s v'))) /\
     (clock s < deadline_ s -> tick true s = (Ok tt, after_clock (with_state s v')))) /\
  (~ status (state_ s) "awaiting_confirmation" -> tick true s = (Ok tt, with_state s v')).
Proof.
  intros Hk. destruct (status_is_spec "awaiting_confirmation" s Hk) as (_ & b & _ & _ & Hb).
  destruct b.
  - destruct (tick_pending s (proj1 Hb eq_refl)) as (v' & Hsame & Heq). exists v'.
    split; [done|]. rewrite Heq. split; [intros _ | by rewrite <- Hb].
    destruct (Z.leb_spec (deadline_ s) (clock s)); split; intros; done || lia.
  - assert (~ status (state_ s) "awaiting_confirmation") as Hn by (by rewrite <- Hb).
    destruct (tick_other s Hk Hn) as (v' & Hsame & Heq). exists v'. by rewrite Heq.
Qed.
Lemma confirm_tail s :
  status (state_ s) "awaiting_confirmation" ->
  exists v', same_members (state_ s) v' /\
    (let! pending := status_is "awaiting_confirmation" in
     if negb pending then throw "No pending configuration"
     else do! set_status "confirmed"; journal) s =
    (do! set_status "confirmed"; journal) (with_state s v').
Proof.
  intros Hst.
  destruct (status_is_spec "awaiting_confirmation" s ltac:(by eapply status_keyed))
    as (v' & b & Heq & Hsame & Hb).
  exists v'. split; [done|]. by rewrite (bind_ok _ _ _ _ _ Heq), (proj2 Hb Hst).
Qed.

Lemma confirm_tail_other s :
  keyed (state_ s) -> ~ status (state_ s) "awaiting_confirmation" ->
  exists s', (let! pending := status_is "awaiting_confirmation" in
     if negb pending then throw "No pending configuration"
     else do! set_status "confirmed"; journal) s = (throw_runtime "No pending configuration", s').
Proof.
  intros Hk Hst. destruct (status_is_spec "awaiting_confirmation" s Hk) as (v' & b & Heq & _ & Hb).
  exists (with_state s v'). rewrite (bind_ok _ _ _ _ _ Heq). destruct b; [by destruct Hst; apply Hb|done].
Qed.

(** Confirmed, with the other members of [v]. *)
Definition confirmed_from (v w : Value) : Prop :=
  status w "confirmed" /\ forall k, k <> "status" -> at_key w k = at_key v k.

Lemma confirm_commit v :
  spec (state_in (same_members v)) (do! set_status "confirmed"; journal)
    (fun _ s => state_in (confirmed_from v) s /\ stored s)
    (fun e s => state_in (confirmed_from v) s /\ put_failed e s).
Proof.
  apply (spec_bind _ _ _ (fun _ => state_in (confirmed_from v))).
  - eapply spec_conseq; [apply (state_set_spec (same_members v) (confirmed_from v)) | done..].
    + by intros w [Hk _].
    + intros w x [_ Hw] Hk Hat Hrest. split; [by apply status_set|]. intros k Hne.
      by rewrite Hrest, Hw.
  - intros ?. apply journal_outcome.
Qed.

(** C9: confirmation in time. [confirm] returns only if a configuration was pending and the
    clock had not reached its deadline; then the state and the store say [confirmed] and keep
    every other member. When it is pending and in time, the only possible exception is that of
    the put. *)
Theorem confirm_in_time s :
  (forall u s', confirm true s = (Ok u, s') ->
     status (state_ s) "awaiting_confirmation" /\ clock s < deadline_ s /\
     state_in (confirmed_from (state_ s)) s' /\ stored s') /\
  (forall e s', confirm true s = (Throw e, s') ->
     status (state_ s) "awaiting_confirmation" -> clock s < deadline_ s -> put_failed e s').
Proof.
  destruct (keyed_dec (state_ s)) as [Hk|Hk].
  2: { destruct (status_is_unkeyed "awaiting_confirmation" s Hk) as [e He].
       unfold confirm, tick. cbn [negb]. unfold bind. rewrite He.
       split; [done|]. by intros ? ? _ [? _]. }
  unfold confirm. cbn [negb].
  destruct (status_is_spec "awaiting_confirmation" s Hk) as (_ & b & _ & _ & Hb).
  destruct b.
  - pose proof (proj1 Hb eq_refl) as Hst. destruct (tick_pending s Hst) as (v' & Hsame & Heq).
    destruct (Z.leb_spec (deadline_ s) (clock s)) as [Hle|Hlt].
    + split; [|intros; lia]. intros u s' Hc. exfalso. unfold bind at 1 in Hc. rewrite Heq in Hc.
      destruct (restore _) as [[?|?] s1] eqn:Hr; [|done]. apply restore_ok_inactive in Hr as [Hi _].
      destruct (confirm_tail_other s1) as [s2 Hs2];
        [by eapply status_keyed | by intros Ha; discriminate (status_inj _ _ _ Hi Ha)|].
      rewrite Hs2 in Hc. done.
    + rewrite (bind_ok _ _ _ _ _ Heq).
      set (s1 := after_clock (with_state s v')). assert (state_ s1 = v') as Hs1 by apply after_clock_state.
      destruct (confirm_tail s1) as (v2 & Hsame2 & Heq2); [rewrite Hs1; by eapply status_members|].
      rewrite Heq2. rewrite Hs1 in Hsame2.
      assert (same_members (state_ s) v2) as Hv2.
      { destruct Hsame as [_ H1], Hsame2 as [? H2]. split; [done|]. intros k. by rewrite H2. }
      pose proof (confirm_commit (state_ s) (with_state s1 v2) Hv2) as Hcommit.
      split; intros ? s' Hc; rewrite Hc in Hcommit; [|by intros _ _; apply Hcommit].
      by split_and!; [..|apply Hcommit|apply Hcommit].
  - assert (~ status (state_ s) "awaiting_confirmation") as Hn by (by rewrite <- Hb).
    split; [|by intros ? ? _ ?]. intros u s' Hc. exfalso.
    destruct (tick_other s Hk Hn) as (v' & Hsame & Heq). rewrite (bind_ok _ _ _ _ _ Heq) in Hc.
    destruct (confirm_tail_other (with_state s v')) as [s2 Hs2]; [by destruct Hsame| |by rewrite Hs2 in Hc].
    intros Ha. apply Hn. eapply status_members; [exact Ha|]. destruct Hsame as [_ Hw].
    split; [done|]. intros k. by rewrite Hw.
Qed.

(** ** [state] *)

(** The countdown. While a configuration is pending, [state] reports under
    [remaining_seconds] the whole seconds left: between 0 and the length of the window, zero
    from the deadline on; it reports whether changes are enabled, and changes nothing. *)
Theorem state_remaining enabled s :
  status (state_ s) "awaiting_confirmation" ->
  exists v n, state enabled s = (Ok v, after_clock s) /\ state_ (after_clock s) = state_ s /\
    at_key v "enabled" = Ok (of_bool enabled) /\ at_key v "remaining_seconds" = Ok (of_int n) /\
    0 <= n /\ (deadline_ s <= clock s -> n = 0) /\
    (clock s < deadline_ s -> seconds n <= deadline_ s - clock s < seconds (n + 1)).
Proof.
  intros (Hk & x & Hx & He). unfold state, get_state.
  destruct (set_key_keyed (state_ s) "enabled" (of_bool enabled) Hk) as (v1 & Hv1 & Ht1 & Hat1 & _).
  destruct (touch_keyed v1 "status" ltac:(by right)) as (v2 & Hv2 & Hk2 & Hat2).
  set (n := Z.max 0 (Z.quot (deadline_ s - clock s) (seconds 1))).
  destruct (set_key_keyed v2 "remaining_seconds" (of_int n) Hk2) as (v3 & Hv3 & _ & Hat3 & _).
  exists v3, n. unfold bind, lift. rewrite Hv1, Hv2, Hat2, Hat1. cbn [String.eqb Ascii.eqb Bool.eqb].
  change (String.eqb "status" "enabled") with false. cbv iota. rewrite Hx, He.
  unfold get_deadline. rewrite call_clock. fold n. rewrite Hv3.
  split; [done|]. split; [apply after_clock_state|].
  split; [by rewrite Hat3, Hat2, Hat1|]. split; [by rewrite Hat3|].
  subst n. unfold seconds. split; [lia|]. split; intros; dlia.
Qed.

(** ** Restarting *)

(** The start of the constructor: the stored state, and the lock. *)
Definition boot : M unit :=
  let! stored := call_throw StoreGet in do! put_state stored; take_lock.

Lemma status_not_null v name : status v name -> isNull v = false.
Proof.
  intros (_ & x & Hx & He). apply bool_decide_eq_false. intros Hn.
  apply (isMember_nullValue v "status"), at_key_missing in Hn. rewrite Hn in Hx. injection Hx as <-.
  apply equals_string in He as [He _]. rewrite type_null in He. done.
Qed.

(** C13: recovery. When the store holds a record with a status other than [inactive], the
    constructor rolls it back before anything else; a confirmed configuration it then applies
    and confirms again. *)
Theorem restart_restores s s1 name c :
  boot s = (Ok tt, s1) -> status (state_ s1) name -> name <> "inactive" ->
  holds_config c (state_ s1) ->
  exists s2, same_members (state_ s1) (state_ s2) /\ log s2 = log s1 /\
  construct_controller true s =
    (if String.eqb name "confirmed" then do! restore; do! apply true c; confirm true
     else restore) s2.
Proof.
  intros Hboot Hst Hne Hc. unfold boot in Hboot.
  apply bind_ok_inv in Hboot as (v & s0 & Hget & Hlock).
  apply bind_ok_inv in Hlock as (u & s0' & Hput & Hlock).
  unfold construct_controller. rewrite (bind_ok _ _ _ _ _ Hget), (bind_ok _ _ _ _ _ Hput).
  cbn [when]. rewrite (bind_ok _ _ _ _ _ Hlock), (bind_ok get_state _ s1 (state_ s1) s1 eq_refl).
  rewrite (status_not_null _ _ Hst). rewrite (bind_ok (when false _) _ s1 tt s1) by done.
  destruct (status_is_spec "inactive" s1 ltac:(by eapply status_keyed)) as (v1 & b1 & Hi & Hs1 & Hb1).
  rewrite (bind_ok _ _ _ _ _ Hi). destruct b1; [by destruct Hne; apply (status_inj _ _ _ Hst), Hb1|].
  cbn [negb andb].
  assert (status v1 name) as Hst1 by (by eapply status_members).
  destruct (status_is_spec "confirmed" (with_state s1 v1) ltac:(by eapply status_keyed))
    as (v2 & b2 & Hcf & Hs2 & Hb2).
  rewrite (bind_ok _ _ _ _ _ Hcf). cbn in Hs2, Hb2.
  assert (holds_config c v2) as (Hk2 & cfg & Hat & Hp).
  { eapply holds_config_members; [|exact Hs2]. by eapply holds_config_members. }
  destruct (state_at_keyed "config" (with_state (with_state s1 v1) v2) Hk2)
    as (x & v3 & Hcfg & Hx & Hk3 & Hat3).
  rewrite (bind_ok _ _ _ _ _ Hcfg). replace x with cfg by (cbn in Hx; congruence).
  exists (with_state (with_state (with_state s1 v1) v2) v3). split; [|split; [|]]; cycle 2.
  - destruct (String.eqb_spec name "confirmed") as [->|Hn].
    + rewrite (proj2 Hb2 Hst1). apply m_bind_ext. intros ? s4. cbn [when].
      by rewrite (bind_ok (lift _) _ s4 c s4) by (unfold lift; by rewrite Hp).
    + destruct b2; [by destruct Hn; apply (status_inj _ _ _ Hst1), Hb2|].
      unfold bind. by destruct (restore _) as [[[]|?] s4].
  - destruct Hs1 as [_ H1], Hs2 as [_ H2]. split; [done|]. intros k. cbn. cbn in Hat3.
    by rewrite Hat3, H2, H1.
  - done.
Qed.
End Control.

(** ** Witnesses, on the simulated host *)

From S2P Require Import JsonTree NetworkBench.

Lemma bench_ok (m : @M JsonTree Bench unit) s : is_ok (m s).1 = true -> m s = (Ok tt, (m s).2).
Proof. by destruct (m s) as [[[]|?] ?]. Qed.

Lemma apply_outcome_witness :
  match apply true sample_config (resting []) with
  | (Ok _, s') => awaiting sample_config s' /\ applied_by sample_config (resting []) s'
  | (Throw e, s') =>
      refused s' \/ undone_by sample_config e (resting []) s' /\ state_in rollback_status s'
  end.
Proof. apply (apply_outcome sample_config (resting [])); on_bench. Defined.

(** Sixty seconds have not passed on the bench. *)
Lemma tick_deadline_witness :
  exists v', same_members (state_ applied) v' /\
    tick true applied = (Ok tt, after_clock (with_state applied v')).
Proof.
  destruct (tick_deadline applied) as (v' & Hv' & Hp & _); [on_bench|].
  exists v'. split; [exact Hv'|]. apply Hp; [on_bench | reflexivity].
Defined.

Lemma confirm_in_time_witness :
  state_in (confirmed_from (state_ applied)) (confirm true applied).2 /\
  stored (confirm true applied).2.
Proof.
  destruct (confirm_in_time applied) as [Hok _].
  destruct (Hok tt (confirm true applied).2) as (_ & _ & Hc & Hs); [|exact (conj Hc Hs)].
  apply (bench_ok (confirm true) applied). vm_compute. reflexivity.
Defined.

Lemma state_remaining_witness :
  exists v n, state true applied = (Ok v, after_clock applied) /\ 0 <= n <= 59.
Proof.
  destruct (state_remaining true applied) as (v & n & Hv & _ & _ & _ & Hn & _ & Hb); [on_bench|].
  exists v, n. split; [exact Hv|]. specialize (Hb ltac:(vm_compute; reflexivity)).
  change (clock applied) with 101000000000 in Hb.
  change (deadline_ applied) with 160000000000 in Hb. unfold seconds in Hb. lia.
Defined.

(** A controller starting on the bench whose store still awaits a confirmation. *)
Lemma restart_restores_witness :
  exists s2, same_members (state_ (boot applied).2) (state_ s2) /\
    construct_controller true applied = restore s2.
Proof.
  destruct (restart_restores applied (boot applied).2 "awaiting_confirmation" sample_config)
    as (s2 & Hsame & _ & Heq); [apply (bench_ok boot applied); vm_compute; reflexivity | on_bench | discriminate | on_bench |].
  exists s2. split; [exact Hsame | exact Heq].
Defined.
