(* ===== verification/NetworkSound.v ===== *)
(** * What the controller's operations keep

    [sound]: a pending configuration is one that can be rolled back.  The constructor
    establishes it and every operation keeps it, so that the work loop (Runtime.v) can rely on
    it for the whole life of the process. *)
From S2P Require Import Prelude CppStd Inet Config Json Serialize Effects Network NetworkSafety.
From S2P Require Import NetworkRollback NetworkControl.

Section Sound.
Context `{IL : InetLaws} `{JL : JsonCppLaws} `{PF : @Platform H0}.

(** The state is an object, and holds a configuration when it waits for a confirmation. *)
Definition sound (v : Value) : Prop :=
  keyed v /\ (status v "awaiting_confirmation" -> exists c, holds_config c v).

(** Nothing is pending. *)
Definition quiet (v : Value) : Prop := keyed v /\ ~ status v "awaiting_confirmation".

Lemma quiet_sound v : quiet v -> sound v.
Proof. by intros [? ?]. Qed.

Lemma same_status v w name : keyed v -> same_members v w -> status w name -> status v name.
Proof. intros Hk [_ Hw] (_ & x & Hx & He). split; [done|]. exists x. by rewrite <- Hw. Qed.

Lemma sound_members : by_members sound.
Proof.
  intros v w [Hk Hv] Hw. split; [apply Hw|]. intros Hst.
  destruct (Hv (same_status v w _ Hk Hw Hst)) as [c Hc]. exists c. by eapply holds_config_members.
Qed.

Lemma quiet_members : by_members quiet.
Proof.
  intros v w [Hk Hv] Hw. split; [apply Hw|]. intros Hst. by apply Hv, (same_status v w).
Qed.

Lemma rollback_status_quiet v : rollback_status v -> quiet v.
Proof.
  intros Hv. split; [by destruct Hv as [Hs|[Hs|Hs]]; eapply status_keyed|].
  intros Ha. destruct Hv as [Hs|[Hs|Hs]]; discriminate (status_inj _ _ _ Hs Ha).
Qed.

Lemma inactive_quiet v : status v "inactive" -> quiet v.
Proof. intros Hs. apply rollback_status_quiet. by right; right. Qed.

(** ** Single steps *)

Lemma quiet_state_at k : keeps (state_in quiet) (state_at k).
Proof. apply state_at_members; [apply quiet_members | by intros v []]. Qed.

Lemma sound_state_at k : keeps (state_in sound) (state_at k).
Proof. apply state_at_members; [apply sound_members | by intros v []]. Qed.

Lemma quiet_set_member k x : k <> "status" -> keeps (state_in quiet) (state_set k x).
Proof.
  intros Hne s [Hk Hq]. destruct (state_set_keyed k x s Hk) as (v' & -> & Hk' & _ & Hat).
  split; [done|]. intros (_ & y & Hy & He). apply Hq. split; [done|]. exists y.
  by rewrite <- Hat by done.
Qed.

Lemma quiet_set_status name :
  name <> "awaiting_confirmation" ->
  spec (state_in keyed) (set_status name) (fun _ => state_in quiet) (fun _ => state_in quiet).
Proof.
  intros Hne s Hk. unfold set_status.
  destruct (state_set_keyed "status" (of_string name) s Hk) as (v' & -> & Hk' & Hat & _).
  split; [done|]. intros Ha. by destruct Hne; apply (status_inj v'); [apply status_set|].
Qed.

Lemma quiet_set_quiet name :
  name <> "awaiting_confirmation" -> keeps (state_in quiet) (set_status name).
Proof.
  intros Hne. apply spec_keeps. eapply spec_conseq; [by apply quiet_set_status | | done | done].
  by intros s [].
Qed.

Lemma sound_set_status name :
  name <> "awaiting_confirmation" -> keeps (state_in sound) (set_status name).
Proof.
  intros Hne. apply spec_keeps. eapply spec_conseq; [by apply quiet_set_status | | |].
  - by intros s [].
  - intros ? s. apply quiet_sound.
  - intros ? s. apply quiet_sound.
Qed.

Lemma quiet_call {A} (r : request A) : keeps (state_in quiet) (call r).
Proof. apply call_state. Qed.
Lemma sound_call {A} (r : request A) : keeps (state_in sound) (call r).
Proof. apply call_state. Qed.
#[local] Hint Resolve quiet_state_at sound_state_at quiet_call sound_call : keeps.
#[local] Hint Extern 1 (keeps (state_in quiet) (set_status _)) =>
  apply quiet_set_quiet; discriminate : keeps.
#[local] Hint Extern 1 (keeps (state_in sound) (set_status _)) =>
  apply sound_set_status; discriminate : keeps.
#[local] Hint Extern 1 (keeps (state_in quiet) (state_set _ _)) =>
  apply quiet_set_member; discriminate : keeps.

(** ** The operations *)

(** A configuration that parses is not pending after [restore], however it ends. *)
Lemma restore_quiet c :
  spec (state_in (holds_config c)) restore (fun _ => state_in quiet) (fun _ => state_in quiet).
Proof.
  eapply spec_conseq; [apply restore_outcome_spec | done | |].
  - intros ? s [Hs _]. by apply inactive_quiet.
  - intros e s [[[Hs _] _]|[Hs _]]; apply rollback_status_quiet; [right; by left | done].
Qed.

Lemma sound_restore : keeps (state_in sound) restore.
Proof.
  intros s Hs. destruct (state_at_keyed "config" s (proj1 Hs)) as (x & v' & Hat & Hx & Hk & Hat').
  destruct (config_from_json x) as [c|e] eqn:Hp.
  - assert (state_in (holds_config c) s) as Hc by (split; [apply Hs|]; by exists x).
    pose proof (restore_quiet c s Hc) as Hq.
    destruct (restore s) as [[?|?] s']; by apply quiet_sound.
  - unfold restore. rewrite (bind_ok _ _ _ _ _ Hat).
    rewrite (bind_throw _ _ _ e (with_state s v')) by (unfold lift; by rewrite Hp).
    by apply (sound_members (state_ s)).
Qed.
#[local] Hint Resolve sound_restore : keeps.

Lemma sound_tick enabled : keeps (state_in sound) (tick enabled).
Proof. unfold tick, status_is. keeps_auto. Qed.
#[local] Hint Resolve sound_tick : keeps.

Lemma sound_confirm enabled : keeps (state_in sound) (confirm enabled).
Proof. unfold confirm, status_is, journal. keeps_auto. Qed.

Lemma sound_rollback enabled : keeps (state_in sound) (rollback enabled).
Proof. unfold rollback, status_is. keeps_auto. Qed.

(** [state] reads the clock at most. *)
Lemma state_keeps P enabled : keeps (state_in P) (state enabled).
Proof.
  assert (forall A (r : request A), keeps (state_in P) (call r)) as Hcall
    by (intros A r; apply call_state).
  unfold state. keeps_auto.
Qed.

Lemma interfaces_keeps P : keeps (state_in P) interfaces.
Proof.
  assert (forall A (r : request A), keeps (state_in P) (call r)) as Hcall
    by (intros A r; apply call_state).
  unfold interfaces. net_auto.
Qed.

(** The state document: the members of the state, whether changes are enabled, and while a
    configuration is pending the whole seconds left. *)
Definition reported (enabled : bool) (s : net) (v : Value) : Prop :=
  keyed v /\ at_key v "enabled" = Ok (of_bool enabled) /\
  (forall k, k <> "enabled" -> k <> "remaining_seconds" -> at_key v k = at_key (state_ s) k) /\
  (status (state_ s) "awaiting_confirmation" -> at_key v "remaining_seconds" =
     Ok (of_int (Z.max 0 (Z.quot (deadline_ s - clock s) (seconds 1))))) /\
  (~ status (state_ s) "awaiting_confirmation" ->
     at_key v "remaining_seconds" = at_key (state_ s) "remaining_seconds").

(** It is always produced from an object. *)
Lemma state_document enabled s :
  keyed (state_ s) -> exists v s', state enabled s = (Ok v, s') /\ state_ s' = state_ s /\
    reported enabled s v.
Proof.
  intros Hk. unfold state. rewrite (bind_ok get_state _ s (state_ s) s eq_refl).
  destruct (set_key_keyed (state_ s) "enabled" (of_bool enabled) Hk) as (v1 & Hv1 & Ht1 & Hat1 & _).
  rewrite (bind_ok _ _ s v1 s) by (unfold lift; by rewrite Hv1).
  destruct (touch_keyed v1 "status" ltac:(by right)) as (v2 & Hv2 & Hk2 & Hat2).
  rewrite (bind_ok _ _ s v2 s) by (unfold lift; by rewrite Hv2).
  destruct (at_key_keyed v2 "status" Hk2) as [x Hx].
  rewrite (bind_ok _ _ s x s) by (unfold lift; by rewrite Hx).
  assert (forall k, k <> "enabled" -> at_key v2 k = at_key (state_ s) k) as Hsame.
  { intros k Hne. rewrite Hat2, Hat1. by destruct (String.eqb_spec k "enabled"). }
  assert (at_key v2 "enabled" = Ok (of_bool enabled)) as He by (by rewrite Hat2, Hat1).
  rewrite (Hsame "status") in Hx by done.
  destruct (equals x (of_string "awaiting_confirmation")) eqn:Hst; cycle 1.
  { exists v2, s. split; [done|]. split; [done|]. split; [done|]. split; [done|].
    split; [by intros k ? _; apply Hsame|]. split; [|intros _; by apply Hsame].
    intros (_ & y & Hy & Hye). congruence. }
  rewrite (bind_ok get_deadline _ s (deadline_ s) s eq_refl).
  rewrite (bind_ok _ _ _ _ _ (call_clock s)).
  match goal with |- context [set_key v2 ?k ?y] =>
    destruct (set_key_keyed v2 k y Hk2) as (v3 & Hv3 & Ht3 & Hat3 & _) end.
  exists v3, (after_clock s). unfold lift. rewrite Hv3. split; [done|].
  split; [apply after_clock_state|]. split; [by right|]. split; [by rewrite Hat3|].
  split; [|split; [intros _; by rewrite Hat3|]].
  - intros k H1 H2. rewrite Hat3. destruct (String.eqb_spec k "remaining_seconds"); [done|].
    by apply Hsame.
  - intros Hn. destruct Hn. split; [done|]. by exists x.
Qed.

(** The write-ahead record holds the configuration. *)
Lemma write_ahead_holds c baseline :
  accepted c ->
  spec (state_in quiet) (write_ahead c baseline) (fun _ => state_in (holds_config c)) (fun _ => state_in quiet).
Proof.
  intros (cfg & Hj & Hp). unfold write_ahead. rewrite Hj.
  set (P v := quiet v /\ holds_config c v).
  assert (forall k x, k <> "config" -> k <> "status" -> keeps (state_in P) (state_set k x)) as Hset.
  { intros k x H1 H2 s [Hq (Hk & cfg' & Hc & Hp')]. pose proof (quiet_set_member k x H2 s Hq) as Hq'.
    destruct (state_set_keyed k x s Hk) as (v' & Heq & Hk' & _ & Hat). rewrite Heq in *.
    split; [done|]. split; [done|]. exists cfg'. cbn. by rewrite Hat by done. }
  assert (forall A (r : request A), keeps (state_in P) (call r)) as Hcall
    by (intros A r; apply call_state).
  assert (forall (e : exn) s, state_in P s -> state_in quiet s) as Hout by by intros e s [].
  apply (spec_bind _ _ _ (fun config s => config = cfg /\ state_in quiet s)); [by intros s Hs|].
  intros config. apply (spec_bind _ _ _ (fun _ => state_in P)).
  { intros s [-> Hs]. pose proof (quiet_set_member "config" cfg ltac:(done) s Hs) as Hq.
    destruct (state_set_keyed "config" cfg s (proj1 Hs)) as (v' & Heq & Hk & Hat & _).
    rewrite Heq in *. split; [done|]. split; [done|]. by exists cfg. }
  intros ?. apply spec_bind_keeps; [by apply Hset | done | intros ?].
  apply spec_bind_keeps; [unfold read_file; keeps_auto | done | intros ?].
  apply spec_bind_keeps; [by apply Hset | done | intros ?].
  apply spec_bind_keeps; [unfold read_file; keeps_auto | done | intros ?].
  apply spec_bind_keeps; [by apply Hset | done | intros ?].
  assert (keeps (state_in P) (set_status "applying")) as Hst.
  { intros s [Hq (Hk & cfg' & Hc & Hp')]. pose proof (quiet_set_quiet "applying" ltac:(done) s Hq) as Hq'.
    unfold set_status in *.
    destruct (state_set_keyed "status" (of_string "applying") s Hk) as (v' & Heq & Hk' & _ & Hat).
    rewrite Heq in *. split; [done|]. split; [done|]. exists cfg'. cbn. by rewrite Hat by done. }
  apply spec_bind_keeps; [exact Hst | done | intros ?].
  unfold journal. eapply spec_conseq; [apply (keeps_spec (state_in P)); keeps_auto | done | | done].
  by intros ? s [].
Qed.

(** The part of [apply] after the checks. *)
Lemma apply_tail_sound c baseline :
  accepted c ->
  spec (state_in quiet)
    (bind (write_ahead c baseline) (fun _ => try_catch (commit c) recover))
    (fun _ => state_in sound) (fun _ => state_in sound).
Proof.
  intros Ha. eapply spec_bind.
  { eapply spec_conseq; [by apply write_ahead_holds | done | done | by intros ? s; apply quiet_sound]. }
  intros ?. eapply spec_try with (E' := fun _ => state_in (holds_config c)).
  - eapply spec_conseq; [apply (commit_outcome c) | done | | done].
    intros ? s ([Hst Hc] & _). split; [by eapply status_keyed|]. intros _. by exists c.
  - intros e. eapply spec_conseq; [apply recover_outcome | done | done |].
    intros e' s Hs. by apply quiet_sound, rollback_status_quiet.
Qed.

Lemma sound_apply enabled c : config_typed c -> keeps (state_in sound) (apply enabled c).
Proof.
  intros Ht. apply spec_keeps. intros s Hs. unfold apply. destruct enabled; cbn [negb]; [|exact Hs].
  destruct (status_is_spec "inactive" s (proj1 Hs)) as (v' & b & Heq & Hsame & Hb).
  rewrite (bind_ok _ _ _ _ _ Heq). destruct b; cbn [negb]; [|by apply (sound_members (state_ s))].
  assert (state_in quiet (with_state s v')) as Hs'.
  { apply (quiet_members (state_ s)); [|done]. by apply inactive_quiet, Hb. }
  clear Heq Hb. revert Hs'. generalize (with_state s v'). clear -Ht JL IL. intros s Hq.
  assert (keeps (state_in quiet) (preflight c)) as Hkeep by net_auto.
  specialize (Hkeep s Hq). unfold bind at 1.
  destruct (preflight c s) as [[baseline|e] s1] eqn:Hp; [|by apply quiet_sound].
  exact (apply_tail_sound c baseline (preflight_accepted c s baseline s1 Ht Hp) s1 Hkeep).
Qed.

(** Every operation keeps the invariant. *)
Lemma sound_perform enabled op :
  op <> Construct -> op_typed op -> keeps (state_in sound) (perform enabled op).
Proof.
  intros Hop Ht. destruct op as [|c| | |]; cbn in *; [done | | | |].
  - by apply sound_apply.
  - apply sound_confirm.
  - apply sound_rollback.
  - apply sound_tick.
Qed.

(** The constructor leaves an object, enabled or not; enabled, it establishes the invariant. *)
Lemma construct_sound enabled s u s' :
  construct_controller enabled s = (Ok u, s') ->
  state_in keyed s' /\ (enabled = true -> state_in sound s').
Proof.
  intros Hc. unfold construct_controller in Hc.
  do 5 (apply bind_ok_inv in Hc as (? & ? & _ & Hc)).
  apply bind_ok_inv in Hc as (inactive & s6 & H6 & Hc). unfold status_is in H6.
  apply bind_ok_inv in H6 as (st & s6' & Hat & Hb). injection Hb as Hb ->.
  apply state_at_ok in Hat as (_ & Hx & v6 & -> & Hk6 & Hat6).
  destruct inactive; cbn [negb andb] in Hc.
  { injection Hc as _ <-. split; [done|]. intros _. apply quiet_sound, inactive_quiet.
    split; [done|]. exists st. cbn. by rewrite Hat6. }
  destruct enabled; [|by injection Hc as _ <-].
  enough (state_in sound s') as Hs by (split; [apply Hs|done]).
  do 2 (apply bind_ok_inv in Hc as (? & ? & _ & Hc)).
  apply bind_ok_inv in Hc as (? & s9 & [Hi _]%restore_ok_inactive & Hc).
  assert (state_in sound s9) as Hs9 by by apply quiet_sound, inactive_quiet.
  match goal with _ : when ?b _ _ = _ |- _ => destruct b end; cbn [when] in Hc;
    [|by injection Hc as _ <-].
  apply bind_ok_inv in Hc as (c & s10 & Hl & Hc). unfold lift in Hl. injection Hl as Hp <-.
  apply config_from_json_iff in Hp as [Hr _].
  apply bind_ok_inv in Hc as (? & s11 & Ha & Hc).
  eapply (keeps_after (state_in sound)) in Hs9;
    [|exact Ha|apply (sound_perform true (Apply c)); [done | by eapply reads_config_typed]].
  by eapply (keeps_after (state_in sound)) in Hs9; [|exact Hc|by apply (sound_perform true Confirm)].
Qed.

(** ** The state stays an object *)

Lemma keyed_state_at k : keeps (state_in keyed) (state_at k).
Proof. apply state_at_members; [by intros v w _ [] | done]. Qed.

Lemma keyed_state_set k x : keeps (state_in keyed) (state_set k x).
Proof. intros s Hk. by destruct (state_set_keyed k x s Hk) as (v' & -> & Hk' & _). Qed.

Lemma keyed_state_call {A} (r : request A) : keeps (state_in keyed) (call r).
Proof. apply call_state. Qed.
#[local] Hint Resolve keyed_state_at keyed_state_set keyed_state_call : keeps.

Lemma keyed_restore : keeps (state_in keyed) restore.
Proof. unfold restore, journal. net_auto. Qed.
#[local] Hint Resolve keyed_restore : keeps.

Lemma keyed_tick enabled : keeps (state_in keyed) (tick enabled).
Proof. unfold tick. net_auto. Qed.
#[local] Hint Resolve keyed_tick : keeps.

Lemma keyed_perform enabled op : op <> Construct -> keeps (state_in keyed) (perform enabled op).
Proof.
  assert (forall d, keeps (state_in keyed) (set_deadline d)) as Hd by by intros d s.
  intros Hop. destruct op as [|c| | |]; cbn [perform]; [done| | | |].
  - unfold apply, write_ahead, commit, recover, journal. net_auto.
  - unfold confirm, journal. net_auto.
  - unfold rollback. net_auto.
  - apply keyed_tick.
Qed.
End Sound.
