(* ===== verification/Lifecycle.v ===== *)
(** * The life of a network configuration, as a state machine

    The abstract specification of the controller: six modes, and the transitions each operation
    may take.  The records the controller puts into its store, successfully or not, are exactly
    the transitions it takes: whatever the machine answers, the sequence of their statuses is a
    run of the abstract machine, and the state in memory is where the run ends. *)
From S2P Require Import Prelude CppStd Inet Config Json Serialize Effects Network NetworkSafety.
From S2P Require Import NetworkRollback NetworkControl.

(** ** The abstract machine *)

Inductive mode := Inactive | Applying | Awaiting | Confirmed | RollingBack | RollbackFailed.

#[export] Instance mode_eq_dec : EqDecision mode.
Proof. solve_decision. Defined.

(** The value of [state_["status"]]. *)
Definition mode_name (m : mode) : string :=
  match m with
  | Inactive => "inactive"
  | Applying => "applying"
  | Awaiting => "awaiting_confirmation"
  | Confirmed => "confirmed"
  | RollingBack => "rolling_back"
  | RollbackFailed => "rollback_failed"
  end.

#[export] Instance mode_name_inj : Inj (=) (=) mode_name.
Proof. intros m m'. by destruct m, m'. Qed.

(** The modes an operation may roll back from: a failed [apply] its own, [tick] and [confirm] an
    expired one, [rollback] and the constructor any but [Inactive]. *)
Definition undoes (op : operation) (m : mode) : bool :=
  match op with
  | Apply _ => bool_decide (m = Applying) || bool_decide (m = Awaiting)
  | Tick | Confirm => bool_decide (m = Awaiting)
  | Rollback | Construct => negb (bool_decide (m = Inactive))
  end.

Definition applies (op : operation) : bool :=
  match op with Apply _ | Construct => true | _ => false end.
Definition confirms (op : operation) : bool :=
  match op with Confirm | Construct => true | _ => false end.

(** The transitions of an operation. *)
Inductive moves (op : operation) : mode -> mode -> Prop :=
| moves_apply : applies op = true -> moves op Inactive Applying
| moves_applied : applies op = true -> moves op Applying Awaiting
| moves_confirm : confirms op = true -> moves op Awaiting Confirmed
| moves_undo m : undoes op m = true -> moves op m RollingBack
| moves_undone : moves op RollingBack Inactive
| moves_stuck : moves op RollingBack RollbackFailed.

(** [path op m ms m']: [op] goes from [m] to [m'] through [ms], the last of which is [m']. *)
Inductive path (op : operation) : mode -> list mode -> mode -> Prop :=
| path_nil m : path op m [] m
| path_cons m m1 ms m2 : moves op m m1 -> path op m1 ms m2 -> path op m (m1 :: ms) m2.

Inductive session : mode -> list operation -> list mode -> mode -> Prop :=
| session_nil m : session m [] [] m
| session_op op ops m ms m1 ms' m2 :
    path op m ms m1 -> session m1 ops ms' m2 -> session m (op :: ops) (ms ++ ms') m2.

Lemma path_snoc op m ms m1 m2 : path op m ms m1 -> moves op m1 m2 -> path op m (ms ++ [m2]) m2.
Proof. induction 1; intros; cbn; econstructor; eauto using path_nil. Qed.

(** ** The records put *)

Section Lifecycle.
Context `{JL : JsonCppLaws} `{IN : Inet} `{PF : @Platform H}.

Definition put_value (e : event) : option Value :=
  match e with Did r _ => match r with StorePut v => Some v | _ => None end end.

Definition records (l : list event) : list Value := omap put_value l.

Definition in_mode (v : Value) (m : mode) : Prop := status v (mode_name m).

Section Run.
Context (op : operation) (before : list event) (m0 : mode).

(** The records put since [before] are a path of [op] from [m0] to [m]. *)
Definition trail (m : mode) (s : net) : Prop :=
  exists l ms, log s = before ++ l /\ Forall2 in_mode (records l) ms /\ path op m0 ms m.

(** The state in memory is in the mode [m1]. *)
Definition tracks (m m1 : mode) (s : net) : Prop := trail m s /\ in_mode (state_ s) m1.

(** It is where the records are. *)
Definition held (m : mode) : net -> Prop := tracks m m.

Definition somewhere (s : net) : Prop := exists m, held m s.

Lemma trail_start s : before = log s -> trail m0 s.
Proof. intros ->. exists [], []. rewrite app_nil_r. split; [done|]. split; constructor. Qed.

Lemma trail_call {A} m (r : request A) : puts r = false -> keeps (trail m) (call r).
Proof.
  intros Hr s (l & ms & Hl & Hms & Hp). unfold call. destruct (answer r (machine s)) as [a k].
  exists (l ++ [Did r a]), ms. cbn. rewrite Hl, app_assoc. split; [done|]. split; [|done].
  unfold records in *. rewrite omap_app. cbn. destruct r; by rewrite ?app_nil_r.
Qed.

Lemma tracks_call {A} m m1 (r : request A) : puts r = false -> keeps (tracks m m1) (call r).
Proof. intros Hr s [Ht Hs]. split; [by apply trail_call | by apply call_state]. Qed.

Lemma tracks_set_deadline m m1 d : keeps (tracks m m1) (set_deadline d).
Proof. by intros s. Qed.

Lemma in_mode_members m : by_members (fun v => in_mode v m).
Proof. apply status_members. Qed.

Lemma tracks_state_at m m1 k : keeps (tracks m m1) (state_at k).
Proof.
  intros s [(l & Hl) Hs]. split; [exists l; by rewrite state_at_log|].
  apply (state_at_members (fun v => in_mode v m1)); [apply in_mode_members | | exact Hs].
  intros v. apply status_keyed.
Qed.

Lemma tracks_state_set m m1 k x : k <> "status" -> runs (tracks m m1) (state_set k x).
Proof.
  intros Hne s [(l & Hl) (Hk & y & Hy & He)]. pose proof (state_set_log k x s) as Hlog.
  destruct (state_set_keyed k x s Hk) as (v' & Heq & Hk' & _ & Hat). rewrite Heq in *.
  split; [by exists l|]. split; [done|]. exists y. by rewrite Hat.
Qed.

Lemma tracks_keeps_set m m1 k x : k <> "status" -> keeps (tracks m m1) (state_set k x).
Proof.
  intros Hne. apply spec_keeps. eapply spec_conseq; [by apply tracks_state_set | done..].
Qed.

(** A new status, and its record: one transition, whether the put succeeds or not. *)
Lemma set_status_tracks m m1 name :
  name = mode_name m1 -> spec (held m) (set_status name) (fun _ => tracks m m1) (fun _ _ => False).
Proof.
  intros -> s [(l & Hl) Hs]. unfold set_status.
  pose proof (state_set_log "status" (of_string (mode_name m1)) s) as Hlog.
  destruct (state_set_keyed "status" (of_string (mode_name m1)) s (status_keyed _ _ Hs))
    as (v' & Heq & Hk & Hat & _).
  rewrite Heq in *. split; [by exists l|]. by apply status_set.
Qed.

Lemma journal_moves m m1 :
  moves op m m1 -> spec (tracks m m1) journal (fun _ => held m1) (fun _ => held m1).
Proof.
  intros Hm s ((l & ms & Hl & Hms & Hp) & Hs). unfold journal, call_throw, bind, get_state, call, lift.
  destruct (answer (StorePut (state_ s)) (machine s)) as [a k].
  assert (held m1 {| machine := k; state_ := state_ s; deadline_ := deadline_ s;
                     log := log s ++ [Did (StorePut (state_ s)) a] |}).
  { split; [|exact Hs]. exists (l ++ [Did (StorePut (state_ s)) a]), (ms ++ [m1]). cbn.
    rewrite Hl, app_assoc. split; [done|]. split; [|by eapply path_snoc].
    unfold records. rewrite omap_app. apply Forall2_app; [done|].
    constructor; [exact Hs | constructor]. }
  by destruct a.
Qed.

Lemma advance m m1 name :
  name = mode_name m1 -> moves op m m1 ->
  spec (held m) (do! set_status name; journal) (fun _ => held m1) (fun _ => held m1).
Proof.
  intros Hn Hm. apply (spec_bind _ _ _ (fun _ => tracks m m1)); [|intros ?; by apply journal_moves].
  eapply spec_conseq; [by apply set_status_tracks | done..].
Qed.

(** [if (state_["status"] == other)], in a known mode. *)
Lemma in_mode_case {A} m other name (k : bool -> M A) Q E :
  name = mode_name other ->
  (m = other -> spec (held other) (k true) Q E) -> (m <> other -> spec (held m) (k false) Q E) ->
  spec (held m) (bind (status_is name) k) Q E.
Proof.
  intros -> Ht Hf s [(l & Hl) Hs].
  destruct (status_is_spec (mode_name other) s (status_keyed _ _ Hs)) as (v' & b & Heq & Hsame & Hb).
  rewrite (bind_ok _ _ _ _ _ Heq).
  assert (held m (with_state s v')) as Hs' by (split; [by exists l | by eapply in_mode_members]).
  destruct b.
  - assert (m = other) as ->; [|by apply Ht]. apply (inj mode_name), (status_inj _ _ _ Hs), Hb. done.
  - apply Hf; [|done]. intros ->. discriminate (proj2 Hb Hs).
Qed.

#[local] Hint Extern 1 (keeps (tracks _ _) (call _)) => apply tracks_call; reflexivity : keeps.
#[local] Hint Extern 1 (keeps (held _) (call _)) => apply tracks_call; reflexivity : keeps.
#[local] Hint Extern 1 (keeps (tracks _ _) (state_set _ _)) =>
  apply tracks_keeps_set; discriminate : keeps.
#[local] Hint Extern 1 (keeps (held _) (state_set _ _)) =>
  apply tracks_keeps_set; discriminate : keeps.
#[local] Hint Extern 1 (keeps (held _) (state_at _)) => apply tracks_state_at : keeps.
#[local] Hint Resolve tracks_set_deadline : keeps.

Lemma held_somewhere m s : held m s -> somewhere s.
Proof. by exists m. Qed.

(** ** The operations *)

Lemma moves_finish errors :
  moves op RollingBack (if String.eqb errors "" then Inactive else RollbackFailed).
Proof. destruct (String.eqb errors ""); [apply moves_undone | apply moves_stuck]. Qed.

Lemma restore_moves m :
  undoes op m = true -> spec (held m) restore (fun _ => held Inactive) (fun _ => somewhere).
Proof.
  intros Hm. unfold restore.
  apply spec_bind_keeps; [apply tracks_state_at | intros ? s; apply held_somewhere | intros config].
  apply spec_bind_keeps; [apply keeps_lift | intros ? s; apply held_somewhere | intros c].
  apply (spec_bind _ _ _ (fun _ => tracks m RollingBack)).
  { eapply spec_conseq; [by apply (set_status_tracks m RollingBack) | done..]. }
  intros ?. apply (spec_bind _ _ _ (fun _ => held RollingBack)).
  { eapply spec_conseq; [apply (journal_moves m RollingBack); by constructor | done | done |].
    intros ? s. apply held_somewhere. }
  intros ?. apply spec_bind_keeps; [net_auto | intros ? s; apply held_somewhere | intros errors].
  set (m1 := if String.eqb errors "" then Inactive else RollbackFailed).
  apply (spec_bind _ _ _ (fun _ => tracks RollingBack m1)).
  { eapply spec_conseq; [apply (set_status_tracks RollingBack m1) | done..].
    by subst m1; destruct (String.eqb errors ""). }
  intros ?. apply (spec_bind _ _ _ (fun _ => tracks RollingBack m1)).
  { eapply spec_conseq; [by apply tracks_state_set | done..]. }
  intros ?. apply (spec_bind _ _ _ (fun _ => held m1)).
  { eapply spec_conseq; [apply (journal_moves RollingBack m1), moves_finish | done | done |].
    intros ? s. apply held_somewhere. }
  intros ? s Hs. subst m1. destruct (String.eqb errors ""); [done | by eapply held_somewhere].
Qed.

(** [restore] from wherever it may. *)
Lemma restore_somewhere m :
  undoes op m = true -> spec (held m) restore (fun _ => somewhere) (fun _ => somewhere).
Proof.
  intros Hm. eapply spec_conseq; [by apply restore_moves | done | | done].
  intros ? s. apply held_somewhere.
Qed.

Lemma nothing_moves {A} m (r : result A) : spec (held m) (lift r) (fun _ => somewhere) (fun _ => somewhere).
Proof. apply spec_lift. intros s Hs. destruct r; by exists m. Qed.

Lemma tick_moves m :
  undoes op Awaiting = true ->
  spec (held m) (tick true) (fun _ => somewhere) (fun _ => somewhere).
Proof.
  intros Hm. unfold tick. cbn [negb].
  apply (in_mode_case m Awaiting); [done | intros -> | intros _; apply (nothing_moves m (Ok tt))].
  cbn [negb]. do 2 (apply spec_bind_keeps; [keeps_auto | intros ? s; apply held_somewhere | intros ?]).
  unfold when. destruct (_ <=? _); [by apply restore_somewhere | apply (nothing_moves Awaiting (Ok tt))].
Qed.

(** After a step that ends somewhere. *)
Lemma somewhere_bind {A B} (m : M A) (k : A -> M B) P Q :
  spec P m (fun _ => somewhere) (fun _ => somewhere) ->
  (forall m1 x, spec (held m1) (k x) Q (fun _ => somewhere)) ->
  spec P (bind m k) Q (fun _ => somewhere).
Proof.
  intros Hm Hk. eapply spec_bind; [exact Hm|]. intros x s [m1 Hs]. by apply (Hk m1 x).
Qed.

Lemma confirm_moves m :
  undoes op Awaiting = true -> confirms op = true ->
  spec (held m) (confirm true) (fun _ => somewhere) (fun _ => somewhere).
Proof.
  intros Hu Hc. unfold confirm. cbn [negb]. eapply somewhere_bind; [by apply tick_moves|]. intros m1 ?.
  apply (in_mode_case m1 Awaiting); [done | intros _ | intros _; apply (nothing_moves m1 (throw_runtime _))].
  cbn [negb]. eapply spec_conseq; [by apply (advance Awaiting Confirmed), moves_confirm | done | |];
    intros ? s; apply held_somewhere.
Qed.

Lemma rollback_moves m :
  (m <> Inactive -> undoes op m = true) ->
  spec (held m) (rollback true) (fun _ => somewhere) (fun _ => somewhere).
Proof.
  intros Hu. unfold rollback. cbn [negb].
  apply (in_mode_case m Inactive); [done | intros _; apply (nothing_moves Inactive (Ok tt)) | intros Hm].
  by apply restore_somewhere, Hu.
Qed.

Lemma write_ahead_moves c baseline :
  applies op = true ->
  spec (held Inactive) (write_ahead c baseline) (fun _ => held Applying) (fun _ => somewhere).
Proof.
  intros Ha. unfold write_ahead.
  do 7 (apply spec_bind_keeps; [unfold read_file; keeps_auto | intros ? s; apply held_somewhere | intros ?]).
  eapply spec_conseq; [by apply (advance Inactive Applying), moves_apply | done | done |].
  intros ? s. apply held_somewhere.
Qed.

Lemma commit_moves c :
  applies op = true ->
  spec (held Applying) (commit c) (fun _ => held Awaiting)
    (fun _ s => exists m, held m s /\ (m = Applying \/ m = Awaiting)).
Proof.
  intros Ha. unfold commit.
  apply spec_bind_keeps; [net_auto | intros ? s Hs; exists Applying; auto | intros ?].
  apply (spec_bind _ _ _ (fun _ => tracks Applying Awaiting)).
  { eapply spec_conseq; [by apply (set_status_tracks Applying Awaiting) | done..]. }
  intros ?. apply (spec_bind _ _ _ (fun _ => tracks Applying Awaiting)).
  { intros s Hs. pose proof (tracks_call Applying Awaiting SteadyNow eq_refl s Hs) as Hk.
    unfold call in *. by destruct (answer _ (machine s)). }
  intros now. apply (spec_bind _ _ _ (fun _ => tracks Applying Awaiting)); [by intros s|].
  intros ?. eapply spec_conseq; [by apply (journal_moves Applying Awaiting), moves_applied | done | done |].
  intros ? s Hs. exists Awaiting. auto.
Qed.

Lemma apply_moves c m :
  applies op = true -> undoes op Applying = true -> undoes op Awaiting = true ->
  spec (held m) (apply true c) (fun _ => somewhere) (fun _ => somewhere).
Proof.
  intros Ha H1 H2. unfold apply. cbn [negb].
  apply (in_mode_case m Inactive); [done | intros _ | intros _; apply (nothing_moves m (throw_runtime _))].
  cbn [negb].
  apply spec_bind_keeps; [net_auto | intros ? s; apply held_somewhere | intros baseline].
  eapply spec_bind; [by apply write_ahead_moves|]. intros ?.
  eapply spec_try; [eapply spec_conseq; [by apply commit_moves | done | | done]|].
  { intros ? s. apply held_somewhere. }
  intros e s (m1 & Hs & Hm1). revert s Hs.
  change (spec (held m1) (recover e) (fun _ => somewhere) (fun _ => somewhere)).
  unfold recover. eapply somewhere_bind; [|intros m2 ?; apply (nothing_moves m2 (throw_runtime _))].
  eapply spec_try; [apply restore_somewhere; by destruct Hm1 as [->| ->]|].
  intros e' s [m2 Hs]. by exists m2.
Qed.

(** ** The constructor *)

(** What the store may hold: nothing, or a state of a mode. *)
Definition stored_mode (v : Value) (m : mode) : Prop := in_mode v m \/ isNull v = true /\ m = Inactive.

Definition entered (s : net) : Prop := trail m0 s /\ stored_mode (state_ s) m0.

Lemma entered_call {A} (r : request A) : puts r = false -> keeps entered (call r).
Proof.
  intros Hr s [Ht Hs]. split; [by apply trail_call|]. unfold call. by destruct (answer r (machine s)).
Qed.
#[local] Hint Extern 1 (keeps entered (call _)) => apply entered_call; reflexivity : keeps.

Definition on_trail (s : net) : Prop := exists m, trail m s.

Lemma somewhere_on_trail s : somewhere s -> on_trail s.
Proof. intros [m [Ht _]]. by exists m. Qed.

Lemma isNull_keyed v : isNull v = true -> keyed v.
Proof. intros Hn. left. by apply bool_decide_eq_true in Hn. Qed.

(** From the stored state to the modes. *)
Lemma enter_moves :
  spec entered (let! v := get_state in when (isNull v) (set_status "inactive"))
    (fun _ => held m0) (fun _ => on_trail).
Proof.
  intros s [(l & Hl) Hs]. rewrite (bind_ok get_state _ s (state_ s) s eq_refl).
  destruct (isNull (state_ s)) eqn:Hn; cbn [when].
  - destruct (state_set_keyed "status" (of_string "inactive") s (isNull_keyed _ Hn))
      as (v' & Heq & Hk & Hat & _).
    pose proof (state_set_log "status" (of_string "inactive") s) as Hlog.
    unfold set_status. rewrite Heq in *. split; [by exists l|].
    destruct Hs as [Hs|[_ ->]]; [|by apply status_set].
    by rewrite (status_not_null _ _ Hs) in Hn.
  - destruct Hs as [Hs|[Hnull _]]; [|congruence]. split; [by exists l|done].
Qed.

Lemma reapply_moves enabled desired m :
  op = Construct ->
  spec (held m) (let! c := lift (config_from_json desired) in do! apply enabled c; confirm enabled)
    (fun _ => somewhere) (fun _ => somewhere).
Proof.
  intros Hop. eapply somewhere_bind; [apply nothing_moves|]. intros m1 c.
  destruct enabled; [|apply (nothing_moves m1 (throw_runtime _))].
  eapply somewhere_bind; [apply apply_moves; by rewrite Hop|]. intros m2 ?.
  apply confirm_moves; by rewrite Hop.
Qed.

Lemma resume_moves enabled m :
  op = Construct ->
  spec (held m)
    (let! inactive := status_is "inactive" in
     if negb inactive && enabled then
       let! confirmed := status_is "confirmed" in
       let! desired := state_at "config" in
       do! restore;
       when confirmed (let! c := lift (config_from_json desired) in do! apply enabled c; confirm enabled)
     else ret tt)
    (fun _ => somewhere) (fun _ => somewhere).
Proof.
  intros Hop.
  apply (in_mode_case m Inactive); [done | intros _; apply (nothing_moves Inactive (Ok tt)) | intros Hm].
  cbn [negb andb]. destruct enabled; [|apply (nothing_moves m (Ok tt))].
  assert (forall b, spec (held m)
    (let! desired := state_at "config" in
     do! restore;
     when b (let! c := lift (config_from_json desired) in do! apply true c; confirm true))
    (fun _ => somewhere) (fun _ => somewhere)) as Hrest.
  { intros b. apply spec_bind_keeps; [keeps_auto | intros ? s; apply held_somewhere | intros desired].
    eapply spec_bind; [apply restore_moves; rewrite Hop; cbn; by rewrite bool_decide_false|].
    intros ?. destruct b; [by apply reapply_moves | apply (nothing_moves Inactive (Ok tt))]. }
  apply (in_mode_case m Confirmed); [done | intros -> | intros _]; apply Hrest.
Qed.

Lemma construct_moves enabled s :
  op = Construct -> before = log s ->
  (forall v k, answer StoreGet (machine s) = (Ok v, k) -> stored_mode v m0) ->
  match construct_controller enabled s with
  | (Ok _, s') => somewhere s' | (Throw _, s') => on_trail s' end.
Proof.
  intros Hop Hbefore Hstored. unfold construct_controller, bind at 1, call_throw, bind at 1.
  assert (forall m s', trail m s' -> on_trail s') as Hon by (by intros m s' ?; exists m).
  pose proof (trail_call m0 StoreGet eq_refl s) as Ht. unfold call in *. cbn [fst snd] in *.
  destruct (answer StoreGet (machine s)) as [[v|e] k] eqn:Hget; cbn [snd lift] in *.
  2: { apply (Hon m0), Ht, trail_start. done. }
  match goal with |- context [bind (put_state v) ?m ?s0] =>
    change (bind (put_state v) m s0) with (m tt (with_state s0 v)); cbv beta;
    assert (entered (with_state s0 v)) as Hs end.
  { split; [by apply Ht, trail_start | by eapply Hstored]. }
  revert Hs. generalize (with_state {| machine := k; state_ := state_ s; deadline_ := deadline_ s;
    log := log s ++ [Did StoreGet (Ok v)] |} v). clear -JL Hop. intros s Hs. revert s Hs.
  match goal with |- forall s, _ -> match ?m s with _ => _ end =>
    change (spec entered m (fun _ => somewhere) (fun _ => on_trail)) end.
  apply spec_bind_keeps.
  { apply keeps_when. unfold take_lock. keeps_auto. }
  { intros ? s [Ht _]. by exists m0. }
  intros ?. pose proof enter_moves as He.
  intros s Hs. specialize (He s Hs). unfold bind at 1, get_state. unfold bind at 1, get_state in He.
  unfold bind at 1. destruct (when _ _ s) as [[?|?] s1]; [|done].
  pose proof (resume_moves enabled m0 Hop s1 He) as Hr.
  destruct (bind _ _ s1) as [[?|?] s2]; [done | by apply somewhere_on_trail].
Qed.
End Run.

Lemma perform_moves enabled op before m0 m :
  op <> Construct ->
  spec (held op before m0 m) (perform enabled op)
    (fun _ => somewhere op before m0) (fun _ => somewhere op before m0).
Proof.
  intros Hop. destruct op as [|c| | |]; cbn [perform]; [done|..];
    (destruct enabled;
     [|unfold apply, confirm, rollback, tick; cbn [negb];
       first [apply (nothing_moves _ before m0 m (throw_runtime _))
             | apply (nothing_moves _ before m0 m (Ok tt))]]).
  - by apply apply_moves.
  - by apply confirm_moves.
  - apply rollback_moves. intros Hm. cbn. by rewrite bool_decide_false.
  - by apply tick_moves.
Qed.

(** ** The whole life of a controller *)

(** A caller that survives the exceptions of the operations, as the worker does. *)
Definition attempted (enabled : bool) (op : operation) : M unit :=
  try_catch (perform enabled op) (fun _ => ret tt).

Definition life (enabled : bool) (ops : list operation) : M unit :=
  do! construct_controller enabled; m_iter (attempted enabled) ops.

(** What a run of operations put, from [s] to [s']. *)
Definition session_between (m : mode) (ops : list operation) (s s' : net) (m' : mode) : Prop :=
  exists l ms, log s' = log s ++ l /\ Forall2 in_mode (records l) ms /\ session m ops ms m' /\
    in_mode (state_ s') m'.

Lemma session_between_cons op ops m m1 m2 s s1 s2 :
  held op (log s) m m1 s1 -> session_between m1 ops s1 s2 m2 ->
  session_between m (op :: ops) s s2 m2.
Proof.
  intros [(l & ms & Hl & Hms & Hp) _] (l' & ms' & Hl' & Hms' & Hr & Hs).
  exists (l ++ l'), (ms ++ ms'). rewrite Hl', Hl, app_assoc. split; [done|].
  unfold records in *. rewrite omap_app. split; [by apply Forall2_app|].
  split; [by econstructor|done].
Qed.

Lemma attempted_between enabled op m s :
  op <> Construct -> in_mode (state_ s) m ->
  exists m1, held op (log s) m m1 (attempted enabled op s).2.
Proof.
  intros Hop Hs. pose proof (perform_moves enabled op (log s) m m Hop s) as Hp.
  unfold attempted, try_catch. destruct (perform enabled op s) as [[?|?] s'];
    apply Hp; (split; [by apply trail_start|done]).
Qed.

Lemma operations_between enabled ops s m :
  Forall (fun op => op <> Construct) ops -> in_mode (state_ s) m ->
  exists s' m', m_iter (attempted enabled) ops s = (Ok tt, s') /\ session_between m ops s s' m'.
Proof.
  intros Hops. revert s m. induction Hops as [|op ops Hop _ IH]; intros s m Hs; cbn [m_iter].
  - exists s, m. split; [done|]. exists [], []. rewrite app_nil_r.
    split; [done|]. split; [constructor|]. split; [constructor|done].
  - destruct (attempted_between enabled op m s Hop Hs) as [m1 Hm1].
    assert (exists s1, attempted enabled op s = (Ok tt, s1)) as [s1 Hs1].
    { unfold attempted, try_catch, ret. destruct (perform enabled op s) as [[[]|?] s1]; by eexists. }
    rewrite Hs1 in Hm1. rewrite (bind_ok _ _ _ _ _ Hs1).
    destruct (IH s1 m1 (proj2 Hm1)) as (s' & m' & Heq & Hb). exists s', m'. split; [done|].
    by eapply session_between_cons.
Qed.

(** C2: the controller implements the state machine of a configuration. Whatever the machine
    answers, for every sequence of operations after construction, the statuses of the records
    put into the store, successfully or not, are a run of the abstract machine that starts in
    the stored mode, each operation taking only its own transitions; and the status in memory
    is the end of the run. *)
Theorem controller_refines_lifecycle enabled ops s m :
  log s = [] -> Forall (fun op => op <> Construct) ops ->
  (forall v k, answer StoreGet (machine s) = (Ok v, k) -> stored_mode v m) ->
  let '(r, s') := life enabled ops s in
  exists ms m', Forall2 in_mode (records (log s')) ms /\
    if is_ok r then session m (Construct :: ops) ms m' /\ in_mode (state_ s') m'
    else path Construct m ms m'.
Proof.
  intros Hlog Hops Hstored.
  pose proof (construct_moves Construct (log s) m enabled s eq_refl eq_refl Hstored) as Hc.
  unfold life, bind. destruct (construct_controller enabled s) as [[[]|e] s1].
  - destruct Hc as [m1 Hm1].
    destruct (operations_between enabled ops s1 m1 Hops (proj2 Hm1)) as (s2 & m2 & Heq & Hb).
    rewrite Heq. destruct (session_between_cons Construct ops m m1 m2 s s1 s2 Hm1 Hb)
      as (l & ms & Hl & Hms & Hr). rewrite Hlog in Hl. cbn in Hl. rewrite Hl. by exists ms, m2.
  - destruct Hc as [m1 (l & ms & Hl & Hms & Hp)]. rewrite Hlog in Hl. cbn in Hl. rewrite Hl.
    by exists ms, m1.
Qed.
End Lifecycle.

(** ** Witness, on the simulated host *)

From S2P Require Import JsonTree NetworkBench.

(** A restart while awaiting a confirmation, then a configuration applied, confirmed, rolled
    back: seven records. *)
Definition busy_life : list operation :=
  [Tick; Apply sample_config; Confirm; Rollback; Confirm].

Lemma bench_stored (b : bench) v k : @answer _ Bench _ StoreGet b = (Ok v, k) -> v = record b.
Proof. by intros [= <- _]. Qed.

Lemma controller_refines_lifecycle_witness :
  is_ok (life true busy_life applied).1 = true /\
  length (records (log (life true busy_life applied).2)) = 7%nat /\
  exists ms m', Forall2 in_mode (records (log (life true busy_life applied).2)) ms /\
    if is_ok (life true busy_life applied).1
    then session Awaiting (Construct :: busy_life) ms m' /\ in_mode (state_ (life true busy_life applied).2) m'
    else path Construct Awaiting ms m'.
Proof.
  split; [vm_compute; reflexivity|]. split; [vm_compute; reflexivity|].
  pose proof (controller_refines_lifecycle true busy_life applied Awaiting eq_refl) as H.
  destruct (life true busy_life applied) as [r s']. apply H.
  - repeat constructor; discriminate.
  - intros v k ->%bench_stored. left.
    split; [by right | eexists; split; [vm_compute; reflexivity | reflexivity]].
Defined.
