(* ===== verification/Process.v ===== *)
(** * Running a subprocess (src/process.cpp)

    [command] as a function of what the system calls return.  The two loops take the answers of
    their rounds from infinite sequences, those of [waitpid] depending on whether SIGKILL was
    sent, and run on fuel; the theorems show when the fuel is enough.  The effects on descriptors
    and on the child are recorded in order. *)
From S2P Require Import Prelude CppStd.

(** ** What the system calls answer *)

Inductive poll_answer := PollReady | PollTimeout | PollEintr | PollError.
Inductive read_answer := ReadData (bytes : string) | ReadEof | ReadEintr | ReadError.

(** One round of the reading loop: the clock, [poll], and [read] if it is reached. *)
Record read_round := { round_now : Z; round_poll : poll_answer; round_read : read_answer }.

(** The status [waitpid] stores. *)
Inductive wait_status := Exited (code : Z) | Signaled (signal : Z).
Inductive wait_answer := Reaped (status : wait_status) | StillRunning | WaitEintr | WaitError.
Record wait_round := { wait_result : wait_answer; wait_now : Z }.

Record system := {
  tmpfile_ok : bool;
  written : Z;                       (** what [fwrite] returns *)
  pipe_ok : bool;
  spawn_error : option string;       (** [strerror] of a failed [posix_spawnp] *)
  start_now : Z;
  reads : nat -> read_round;
  waits : bool -> nat -> wait_round  (** with [true], once SIGKILL has been sent to the child *)
}.

Inductive effect := PipeOpened | ReadEndClosed | WriteEndClosed | ChildStarted | ChildKilled
  | ChildReaped.

#[export] Instance effect_eq_dec : EqDecision effect.
Proof. solve_decision. Defined.

(** ** The loops *)

Definition output_limit : Z := 262144.

(** Lines 41-53, from round [i]: whether the loop failed, and the output. *)
Fixpoint read_loop (fuel : nat) (rounds : nat -> read_round) (deadline : Z) (i : nat)
    (output : string) : option (bool * string) :=
  match fuel with
  | O => None
  | S fuel =>
      let r := rounds i in
      if (deadline <=? round_now r) || (output_limit <? size output) then Some (true, output)
      else match round_poll r with
           | PollEintr | PollTimeout => read_loop fuel rounds deadline (S i) output
           | PollError => Some (true, output)
           | PollReady =>
               match round_read r with
               | ReadEof => Some (false, output)
               | ReadEintr => read_loop fuel rounds deadline (S i) output
               | ReadError => Some (true, output)
               | ReadData bytes => read_loop fuel rounds deadline (S i) (output +:+ bytes)
               end
           end
  end.

(** Lines 57-63, from round [i]: the status, whether the command failed, and the kills.
    [killed]: SIGKILL has been sent. *)
Fixpoint wait_loop (fuel : nat) (rounds : bool -> nat -> wait_round) (deadline : Z) (i : nat)
    (killed failed : bool) : option (result (wait_status * bool) * list effect) :=
  match fuel with
  | O => None
  | S fuel =>
      let r := rounds killed i in
      match wait_result r with
      | Reaped status => Some (Ok (status, failed), [ChildReaped])
      | WaitError => Some (throw_runtime "Cannot reap command process", [])
      | StillRunning | WaitEintr =>
          if deadline <=? wait_now r then
            match wait_loop fuel rounds deadline (S i) true true with
            | Some (res, effects) => Some (res, ChildKilled :: effects)
            | None => None
            end
          else wait_loop fuel rounds deadline (S i) killed failed
      end
  end.

Definition success (status : wait_status) : bool :=
  match status with Exited code => code =? 0 | Signaled _ => false end.

(** ** [command] *)

(** Lines 38-66: the child runs. *)
Definition collect (fuel : nat) (sys : system) (program : string)
  : option (result string * list effect) :=
  let deadline := start_now sys + 10 * 1000000000 in
  match read_loop fuel (reads sys) deadline 0 "" with
  | None => None
  | Some (failed, output) =>
  match wait_loop fuel (waits sys) deadline 0 failed failed with
  | None => None
  | Some (waited, effects) =>
  Some (match waited with
        | Throw e => Throw e
        | Ok (status, failed) =>
            if failed || negb (success status)
            then throw_runtime (program +:+ " failed: " +:+
                   (if failed then "timeout or output limit" else output))
            else Ok output
        end, [ReadEndClosed] ++ (if failed then [ChildKilled] else []) ++ effects)
  end end.

Definition command (fuel : nat) (sys : system) (args : list string) (input : string)
  : option (result string * list effect) :=
  match args with
  | [] => Some (throw_invalid "Empty command", [])
  | program :: _ =>
      if negb (tmpfile_ok sys) then Some (throw_runtime "Cannot create command input", [])
      else if negb (written sys =? size input)
      then Some (throw_runtime "Cannot write command input", [])
      else if negb (pipe_ok sys) then Some (throw_runtime "Cannot create command pipe", [])
      else match spawn_error sys with
           | Some error =>
               Some (throw_runtime (program +:+ ": " +:+ error),
                     [PipeOpened; WriteEndClosed; ReadEndClosed])
           | None =>
               match collect fuel sys program with
               | None => None
               | Some (res, effects) =>
                   Some (res, [PipeOpened; ChildStarted; WriteEndClosed] ++ effects)
               end
           end
  end.

(** ** Specification *)

(** The rounds before [n] are data, or nothing; [n] is the end of file, before the deadline. *)
Fixpoint drained_by (rounds : nat -> read_round) (deadline : Z) (i n : nat) : option string :=
  let r := rounds i in
  if deadline <=? round_now r then None else
  match n with
  | O => match round_poll r, round_read r with
         | PollReady, ReadEof => Some ""
         | _, _ => None
         end
  | S n =>
      rest ← drained_by rounds deadline (S i) n;
      match round_poll r, round_read r with
      | PollReady, ReadData bytes => Some (bytes +:+ rest)
      | PollReady, ReadEintr | PollEintr, _ | PollTimeout, _ => Some rest
      | _, _ => None
      end
  end.

(** [waitpid] is asked again. *)
Definition unreaped (r : wait_round) : bool :=
  match wait_result r with Reaped _ | WaitError => false | _ => true end.

(** What a killed child does: SIGKILL cannot be caught, so [waitpid] reaps the child, or has none
    to wait for, within [m] rounds of the signal. *)
Definition sigkill_ends (m : nat) (sys : system) : Prop :=
  forall i, exists k, (i <= k <= i + m)%nat /\ unreaped (waits sys true k) = false.

(** The child is reaped in round [i + n], before the deadline is seen to have passed. *)
Fixpoint exits_by (rounds : nat -> wait_round) (deadline : Z) (i n : nat) : option wait_status :=
  match n, wait_result (rounds i) with
  | O, Reaped status => Some status
  | S n, (StillRunning | WaitEintr) =>
      if deadline <=? wait_now (rounds i) then None else exits_by rounds deadline (S i) n
  | _, _ => None
  end.

(** ** Lemmas *)

Lemma size_app s t : size (s +:+ t) = size s + size t.
Proof. rewrite <- !length_chars, chars_app, length_app. lia. Qed.

Lemma size_nonneg s : 0 <= size s.
Proof. unfold size. lia. Qed.

(** The reading loop ends: by the round in which the clock reaches the deadline. *)
Lemma read_loop_ends rounds deadline n i output :
  deadline <= round_now (rounds (i + n)%nat) ->
  exists r, read_loop (S n) rounds deadline i output = Some r.
Proof.
  revert i output. induction n as [|n IH]; intros i output Hn.
  - rewrite Nat.add_0_r in Hn. cbn. rewrite (proj2 (Z.leb_le _ _) Hn). eauto.
  - rewrite <- Nat.add_succ_comm in Hn.
    remember (S n) as m eqn:Hm. cbn [read_loop].
    destruct (_ || _); [eauto|].
    destruct (round_poll (rounds i)); eauto; destruct (round_read (rounds i)); eauto.
Qed.

Lemma read_loop_more n k rounds deadline i output r :
  read_loop n rounds deadline i output = Some r ->
  read_loop (n + k) rounds deadline i output = Some r.
Proof.
  revert i output. induction n as [|n IH]; intros i output Hr; [done|]. cbn in *.
  destruct (_ || _); [done|].
  destruct (round_poll (rounds i)); auto; destruct (round_read (rounds i)); auto.
Qed.

Lemma wait_loop_more n k rounds deadline i killed failed r :
  wait_loop n rounds deadline i killed failed = Some r ->
  wait_loop (n + k) rounds deadline i killed failed = Some r.
Proof.
  revert i killed failed r. induction n as [|n IH]; intros i killed failed r Hr; [done|]. cbn in *.
  destruct (wait_result (rounds killed i)); auto; (destruct (_ <=? _); [|by apply IH]);
    (destruct (wait_loop n _ _ _ _ true) as [[? ?]|] eqn:E; [|done]); by rewrite (IH _ _ _ _ E).
Qed.

(** Once the child is killed, the waiting loop ends with it. *)
Lemma wait_loop_killed rounds deadline n i failed :
  unreaped (rounds true (i + n)%nat) = false ->
  exists r, wait_loop (S n) rounds deadline i true failed = Some r.
Proof.
  revert i failed. induction n as [|n IH]; intros i failed Hn.
  - rewrite Nat.add_0_r in Hn. unfold unreaped in Hn. cbn.
    destruct (wait_result (rounds true i)); try discriminate; eauto.
  - rewrite <- Nat.add_succ_comm in Hn.
    remember (S n) as m eqn:Hm. cbn [wait_loop].
    destruct (wait_result (rounds true i)); eauto; (destruct (_ <=? _); [|by apply IH]);
      destruct (IH (S i) true Hn) as [[? ?] ->]; eauto.
Qed.

Lemma wait_loop_sigkill sys m deadline i failed :
  sigkill_ends m sys -> exists r, wait_loop (S m) (waits sys) deadline i true failed = Some r.
Proof.
  intros Hm. destruct (Hm i) as (k & Hk & Hr).
  destruct (wait_loop_killed (waits sys) deadline (k - i) i failed) as [r Hw].
  { by replace (i + (k - i))%nat with k by lia. }
  exists r. replace (S m) with (S (k - i) + (m - (k - i)))%nat by lia. by apply wait_loop_more.
Qed.

(** The waiting loop kills the child when the deadline passes, so it ends whatever the child does. *)
Lemma wait_loop_ends sys m deadline w i killed failed :
  sigkill_ends m sys -> deadline <= wait_now (waits sys false (i + w)) ->
  exists r, wait_loop (S (w + S m)) (waits sys) deadline i killed failed = Some r.
Proof.
  intros Hm. destruct killed.
  { intros _. destruct (wait_loop_sigkill sys m deadline i failed Hm) as [r Hr]. exists r.
    replace (S (w + S m)) with (S m + S w)%nat by lia. by apply wait_loop_more. }
  revert i failed. induction w as [|w IH]; intros i failed Hw.
  - rewrite Nat.add_0_r in Hw. cbn [Nat.add]. remember (S m) as n eqn:Hn. cbn [wait_loop].
    destruct (wait_result (waits sys false i)); eauto; rewrite (proj2 (Z.leb_le _ _) Hw); subst n;
      destruct (wait_loop_sigkill sys m deadline (S i) true Hm) as [[? ?] ->]; eauto.
  - rewrite <- Nat.add_succ_comm in Hw. remember (w + S m)%nat as n eqn:Hn.
    cbn [Nat.add]. rewrite <- Hn. remember (S n) as n' eqn:Hn'. cbn [wait_loop].
    destruct (wait_result (waits sys false i)); eauto; (destruct (_ <=? _); [|subst; by apply IH]);
      subst n' n; destruct (wait_loop_sigkill sys m deadline (S i) true Hm) as [[res fx] Hr];
      (replace (S (w + S m)) with (S m + S w)%nat by lia); rewrite (wait_loop_more _ _ _ _ _ _ _ _ Hr); eauto.
Qed.

(** What a finished reading loop read. *)
Lemma read_loop_ok fuel rounds deadline i output out :
  read_loop fuel rounds deadline i output = Some (false, out) ->
  size out <= output_limit /\
  exists n rest, drained_by rounds deadline i n = Some rest /\ out = output +:+ rest.
Proof.
  revert i output. induction fuel as [|fuel IH]; intros i output Hr; [done|]. cbn in Hr.
  destruct (Z.leb_spec deadline (round_now (rounds i))) as [|Hnow]; [done|]. cbn [orb] in Hr.
  destruct (Z.ltb_spec output_limit (size output)) as [|Hsize]; [done|].
  assert (forall n rest, drained_by rounds deadline (S i) n = Some rest ->
    (forall bytes, round_poll (rounds i) = PollReady -> round_read (rounds i) = ReadData bytes ->
       drained_by rounds deadline i (S n) = Some (bytes +:+ rest)) /\
    (round_poll (rounds i) = PollReady -> round_read (rounds i) = ReadEintr ->
       drained_by rounds deadline i (S n) = Some rest) /\
    (round_poll (rounds i) = PollEintr \/ round_poll (rounds i) = PollTimeout ->
       drained_by rounds deadline i (S n) = Some rest)) as Hstep.
  { intros n rest Hn. cbn [drained_by]. rewrite (proj2 (Z.leb_gt _ _) Hnow), Hn. cbn.
    split_and!; [intros bytes -> ->; done | intros -> ->; done | intros [-> | ->]; done]. }
  destruct (round_poll (rounds i)) eqn:Hp; try done.
  - destruct (round_read (rounds i)) eqn:Hrd; try done.
    + apply IH in Hr as (? & n & rest & Hn & ->). split; [done|].
      exists (S n), (bytes +:+ rest). rewrite <- app_assoc_s. split; [|done].
      destruct (Hstep _ _ Hn) as (H1 & _ & _). by apply H1.
    + injection Hr as <-. split; [done|]. exists O, "". rewrite app_empty_r. split; [|done].
      cbn. by rewrite (proj2 (Z.leb_gt _ _) Hnow), Hp, Hrd.
    + apply IH in Hr as (? & n & rest & Hn & ->). split; [done|]. exists (S n), rest.
      split; [|done]. destruct (Hstep _ _ Hn) as (_ & H2 & _). by apply H2.
  - apply IH in Hr as (? & n & rest & Hn & ->). split; [done|]. exists (S n), rest.
    split; [|done]. destruct (Hstep _ _ Hn) as (_ & _ & H3). apply H3. auto.
  - apply IH in Hr as (? & n & rest & Hn & ->). split; [done|]. exists (S n), rest.
    split; [|done]. destruct (Hstep _ _ Hn) as (_ & _ & H3). apply H3. auto.
Qed.

(** An output within the limit that ends before the deadline is read. *)
Lemma read_loop_drains rounds deadline n i output rest :
  drained_by rounds deadline i n = Some rest -> size (output +:+ rest) <= output_limit ->
  read_loop (S n) rounds deadline i output = Some (false, output +:+ rest).
Proof.
  revert i output rest. induction n as [|n IH]; intros i output rest Hd Hs;
    pose proof (size_nonneg rest); rewrite size_app in Hs; cbn [drained_by] in Hd;
    remember (S n) as m eqn:Hm || idtac; cbn [read_loop];
    destruct (deadline <=? round_now (rounds i)) eqn:?; try done; cbn [orb];
    rewrite (proj2 (Z.ltb_ge _ _)) by lia.
  - destruct (round_poll (rounds i)), (round_read (rounds i)); try done.
    injection Hd as <-. by rewrite app_empty_r.
  - destruct (drained_by rounds deadline (S i) n) as [rest'|] eqn:Hn; [|done]. cbn in Hd. subst m.
    destruct (round_poll (rounds i)); try done; [destruct (round_read (rounds i)); try done|..];
      injection Hd as <-; rewrite ?size_app in *;
      try (apply IH; [done | rewrite size_app; lia]).
    rewrite <- app_assoc_s. apply IH; [done|]. rewrite !size_app. lia.
Qed.

Lemma read_loop_fun fuel n rounds deadline i output r r' :
  read_loop fuel rounds deadline i output = Some r -> read_loop n rounds deadline i output = Some r' ->
  r = r'.
Proof.
  intros Hr%(read_loop_more _ n) Hr'%(read_loop_more _ fuel).
  rewrite Nat.add_comm in Hr'. congruence.
Qed.

Lemma wait_loop_fun fuel n rounds deadline i killed failed r r' :
  wait_loop fuel rounds deadline i killed failed = Some r ->
  wait_loop n rounds deadline i killed failed = Some r' -> r = r'.
Proof.
  intros Hr%(wait_loop_more _ n) Hr'%(wait_loop_more _ fuel).
  rewrite Nat.add_comm in Hr'. congruence.
Qed.

(** The cases of one round of the waiting loop. *)
Ltac wait_round Hw :=
  match type of Hw with context [wait_result ?r] => destruct (wait_result r) eqn:?; try done end;
  try (destruct (_ <=? _) eqn:?; [destruct (wait_loop _ _ _ _ true true) as [[? ?]|] eqn:?; [|done]|]).

(** What a finished waiting loop saw. *)
Lemma wait_loop_ok fuel rounds deadline i killed failed status failed' effects :
  wait_loop fuel rounds deadline i killed failed = Some (Ok (status, failed'), effects) ->
  count_occ effect_eq_dec effects ChildReaped = 1%nat /\
  (failed' = false -> failed = false /\ effects = [ChildReaped] /\
     exists k, exits_by (rounds killed) deadline i k = Some status).
Proof.
  revert i killed failed effects. induction fuel as [|fuel IH]; intros i killed failed effects Hw;
    [done|]. cbn in Hw. wait_round Hw.
  - injection Hw as -> -> <-. split; [done|]. intros ->. split_and!; try done. exists O. cbn. by case_match; simplify_eq.
  - injection Hw as -> <-. match goal with E : wait_loop _ _ _ _ _ _ = _ |- _ => apply IH in E as [? Hf] end.
    split; [done|]. intros ->. by destruct (Hf eq_refl).
  - apply IH in Hw as [? Hf]. split; [done|]. intros Hf'. destruct (Hf Hf') as (-> & -> & k & Hk).
    split_and!; try done. exists (S k). cbn. by repeat case_match; simplify_eq.
  - injection Hw as -> <-. match goal with E : wait_loop _ _ _ _ _ _ = _ |- _ => apply IH in E as [? Hf] end.
    split; [done|]. intros ->. by destruct (Hf eq_refl).
  - apply IH in Hw as [? Hf]. split; [done|]. intros Hf'. destruct (Hf Hf') as (-> & -> & k & Hk).
    split_and!; try done. exists (S k). cbn. by repeat case_match; simplify_eq.
Qed.

(** A child that exits in time is reaped. *)
Lemma wait_loop_exits rounds deadline n i killed failed status :
  exits_by (rounds killed) deadline i n = Some status ->
  wait_loop (S n) rounds deadline i killed failed = Some (Ok (status, failed), [ChildReaped]).
Proof.
  revert i. induction n as [|n IH]; intros i He; cbn [exits_by] in He.
  - cbn. destruct (wait_result _); try done. by injection He as ->.
  - remember (S n) as m eqn:Hm. cbn [wait_loop].
    destruct (wait_result _); try done; (destruct (_ <=? _); [done|]); subst m; by apply IH.
Qed.

Lemma wait_loop_throw fuel rounds deadline i killed failed e effects :
  wait_loop fuel rounds deadline i killed failed = Some (Throw e, effects) ->
  e = Exn runtime_error "Cannot reap command process" /\
  count_occ effect_eq_dec effects ChildReaped = 0%nat.
Proof.
  revert i killed failed effects. induction fuel as [|fuel IH]; intros i killed failed effects Hw;
    [done|]. cbn in Hw. wait_round Hw; try (by eapply IH).
  - injection Hw as -> <-. match goal with E : wait_loop _ _ _ _ _ _ = _ |- _ => by apply IH in E end.
  - injection Hw as -> <-. match goal with E : wait_loop _ _ _ _ _ _ = _ |- _ => by apply IH in E end.
  - by injection Hw as <- <-.
Qed.

(** The waiting loop touches nothing but the child. *)
Lemma wait_loop_effects fuel rounds deadline i killed failed res effects :
  wait_loop fuel rounds deadline i killed failed = Some (res, effects) ->
  Forall (fun x => x = ChildKilled \/ x = ChildReaped) effects.
Proof.
  revert i killed failed res effects.
  induction fuel as [|fuel IH]; intros i killed failed res effects Hw; [done|].
  cbn in Hw. wait_round Hw; try (by eapply IH); try (injection Hw as _ <-; by repeat constructor).
  - injection Hw as -> <-. constructor; [by left | by eapply IH].
  - injection Hw as -> <-. constructor; [by left | by eapply IH].
Qed.

Lemma wait_effects_absent effects x :
  Forall (fun x => x = ChildKilled \/ x = ChildReaped) effects ->
  x <> ChildKilled -> x <> ChildReaped -> count_occ effect_eq_dec effects x = 0%nat.
Proof.
  intros Hall H1 H2. apply count_occ_not_In. intros Hin.
  rewrite List.Forall_forall in Hall. by destruct (Hall _ Hin).
Qed.

Definition deadline_of (sys : system) : Z := start_now sys + 10 * 1000000000.

(** C33: [command] returns, whatever the child does. If the clock reaches the deadline by the
    [n]-th round of the reading loop, and by the [w]-th round of the waiting loop when no signal
    has been sent, and a child sent SIGKILL is gone within [m] rounds of the signal, then there
    is a result after that many rounds, and more fuel gives the same one: a child that neither
    closes its output nor exits is killed. *)
Theorem command_terminates n w m sys args input :
  deadline_of sys <= round_now (reads sys n) ->
  deadline_of sys <= wait_now (waits sys false w) -> sigkill_ends m sys ->
  exists r, forall k, command (S n + S (w + S m) + k) sys args input = Some r.
Proof.
  intros Hn Hw Hm. unfold command. destruct args as [|program rest]; [eauto|].
  destruct (negb (tmpfile_ok sys)); [eauto|]. destruct (negb (_ =? _)); [eauto|].
  destruct (negb (pipe_ok sys)); [eauto|]. destruct (spawn_error sys); [eauto|].
  destruct (read_loop_ends (reads sys) (deadline_of sys) n 0 "" Hn) as [[failed out] Hr].
  destruct (wait_loop_ends sys m (deadline_of sys) w 0 failed failed Hm Hw) as [[waited fx] Hl].
  unfold collect. fold (deadline_of sys). eexists. intros k.
  replace (S n + S (w + S m) + k)%nat with (S n + (S (w + S m) + k))%nat by lia.
  rewrite (read_loop_more _ _ _ _ _ _ _ Hr).
  replace (S n + (S (w + S m) + k))%nat with (S (w + S m) + (S n + k))%nat by lia.
  rewrite (wait_loop_more _ _ _ _ _ _ _ _ Hl). reflexivity.
Qed.

(** The child was started. *)
Definition prepared (sys : system) (input : string) : Prop :=
  tmpfile_ok sys = true /\ written sys = size input /\ pipe_ok sys = true /\ spawn_error sys = None.

(** A successful run: the child is started, closes its output before the deadline having written
    [out], at most 262144 bytes, and exits by itself with status 0 before the deadline. *)
Definition succeeds (sys : system) (args : list string) (input out : string) : Prop :=
  args <> [] /\ prepared sys input /\ size out <= 262144 /\
  (exists n, drained_by (reads sys) (deadline_of sys) 0 n = Some out) /\
  exists k, exits_by (waits sys false) (deadline_of sys) 0 k = Some (Exited 0).

(** The child's output does not end within the limit before the deadline. *)
Definition overruns (sys : system) : Prop :=
  forall n out, drained_by (reads sys) (deadline_of sys) 0 n = Some out -> 262144 < size out.

Lemma collect_result fuel sys program r effects :
  collect fuel sys program = Some (r, effects) ->
  (forall out, r = Ok out <-> size out <= 262144 /\
     (exists n, drained_by (reads sys) (deadline_of sys) 0 n = Some out) /\
     exists k, exits_by (waits sys false) (deadline_of sys) 0 k = Some (Exited 0)) /\
  match r with
  | Ok _ => effects = [ReadEndClosed; ChildReaped]
  | Throw e => exn_class e = runtime_error
  end /\
  (overruns sys -> exists fx, effects = [ReadEndClosed; ChildKilled] ++ fx).
Proof.
  unfold collect. fold (deadline_of sys).
  destruct (read_loop _ _ _ _ _) as [[failed out]|] eqn:Hr; [|done].
  destruct (wait_loop _ _ _ _ _ _) as [[waited fx]|] eqn:Hw; [|done].
  set (r' := match waited with Ok _ => _ | Throw _ => _ end). intros [= <- <-].
  assert (forall out', r' = Ok out' <-> size out' <= 262144 /\
     (exists n, drained_by (reads sys) (deadline_of sys) 0 n = Some out') /\
     exists k, exits_by (waits sys false) (deadline_of sys) 0 k = Some (Exited 0)) as Hok.
  { intros out'. split.
    - subst r'. destruct waited as [[status failed']|e]; [|done].
      destruct failed'; cbn [orb]; [done|]. destruct status as [code|]; [|done]. cbn [success].
      destruct (Z.eqb_spec code 0) as [->|]; cbn [negb]; [|done]. intros [= <-].
      apply wait_loop_ok in Hw as (_ & Hf). destruct (Hf eq_refl) as (-> & _ & Hk).
      apply read_loop_ok in Hr as (Hsize & n & rest & Hn & ->).
      split; [exact Hsize|]. split; [by exists n|exact Hk].
    - intros (Hs & (n & Hn) & k & Hk).
      pose proof (read_loop_drains _ _ _ _ "" _ Hn Hs) as Hr'.
      pose proof (read_loop_fun _ _ _ _ _ _ _ _ Hr Hr') as [= -> ->].
      pose proof (wait_loop_exits (waits sys) _ _ _ false false _ Hk) as Hw'.
      pose proof (wait_loop_fun _ _ _ _ _ _ _ _ _ Hw Hw') as [= -> ->]. done. }
  split; [exact Hok|]. split.
  - subst r'. destruct waited as [[status failed']|e]; [|by apply wait_loop_throw in Hw as [-> _]].
    destruct failed'; cbn [orb]; [done|]. destruct (success status); cbn [negb]; [|done].
    apply wait_loop_ok in Hw as (_ & Hf). by destruct (Hf eq_refl) as (-> & -> & _).
  - intros Hover. destruct failed; [by exists fx|].
    apply read_loop_ok in Hr as (Hsize & n & rest & Hn & ->). apply Hover in Hn.
    change (size rest <= 262144) in Hsize. lia.
Qed.

(** C34: what [command] returns. It returns an output exactly when the run succeeds: the child
    is started, writes exactly that output, at most 262144 bytes, up to the end of file before
    the deadline, and exits with status 0 without being killed. In every other case it throws a
    [std::runtime_error], or [std::invalid_argument] for an empty argument vector; and a child
    whose output overruns is killed. *)
Theorem command_result fuel sys args input r effects :
  command fuel sys args input = Some (r, effects) ->
  (forall out, r = Ok out <-> succeeds sys args input out) /\
  match r with
  | Ok _ => effects = [PipeOpened; ChildStarted; WriteEndClosed; ReadEndClosed; ChildReaped]
  | Throw e => exn_class e = if bool_decide (args = []) then invalid_argument else runtime_error
  end /\
  (args <> [] -> prepared sys input -> overruns sys ->
     exists fx, effects = [PipeOpened; ChildStarted; WriteEndClosed; ReadEndClosed; ChildKilled] ++ fx).
Proof.
  unfold command, succeeds. destruct args as [|program rest].
  { intros [= <- <-]. split; [|done]. intros out. split; [done | by intros [? _]]. }
  destruct (negb (tmpfile_ok sys)) eqn:E1; [|destruct (negb (written sys =? size input)) eqn:E2;
    [|destruct (negb (pipe_ok sys)) eqn:E3; [|destruct (spawn_error sys) as [error|] eqn:E4]]].
  1-4: intros [= <- <-]; (assert (~ prepared sys input) as Hp
    by (intros (H1 & H2 & H3 & H4); bool_simp; congruence));
    (split; [|done]); intros out; split; [done | by intros (_ & ? & _)].
  bool_simp. destruct (collect fuel sys program) as [[r' fx]|] eqn:Hc; [|done].
  intros [= <- <-]. apply collect_result in Hc as (Hok & Hr & Hover). split_and!.
  - intros out. rewrite Hok. split; [|naive_solver]. intros Hs. split; [done|]. by split.
  - destruct r'; [by rewrite Hr | exact Hr].
  - intros _ _ Ho. destruct (Hover Ho) as [fx' ->]. by exists fx'.
Qed.

(** No leak. On every path both ends of the pipe are closed exactly once if it was opened,
    and the child is reaped exactly once if it was started, unless [waitpid] itself failed. *)
Theorem command_cleans_up fuel sys args input r effects :
  command fuel sys args input = Some (r, effects) ->
  let times x := count_occ effect_eq_dec effects x in
  times ReadEndClosed = times PipeOpened /\ times WriteEndClosed = times PipeOpened /\
  (times ChildReaped = times ChildStarted \/
   r = throw_runtime "Cannot reap command process").
Proof.
  unfold command. destruct args as [|program rest]; [intros [= <- <-]; cbn; auto|].
  destruct (negb (tmpfile_ok sys)); [intros [= <- <-]; cbn; auto|].
  destruct (negb (_ =? _)); [intros [= <- <-]; cbn; auto|].
  destruct (negb (pipe_ok sys)); [intros [= <- <-]; cbn; auto|].
  destruct (spawn_error sys); [intros [= <- <-]; cbn; auto|].
  unfold collect. destruct (read_loop _ _ _ _ _) as [[failed out]|] eqn:Hr; [|done].
  destruct (wait_loop _ _ _ _ _ _) as [[waited fx]|] eqn:Hw; [|done].
  intros [= <- Heq]. pose proof (wait_loop_effects _ _ _ _ _ _ _ _ Hw) as Hall.
  assert (effects = [PipeOpened; ChildStarted; WriteEndClosed; ReadEndClosed] ++
    (if failed then [ChildKilled] else []) ++ fx) as -> by (by rewrite <- Heq).
  clear Heq. cbv zeta.
  rewrite !count_occ_app.
  pose proof (wait_effects_absent fx ChildStarted Hall ltac:(done) ltac:(done)) as Hstarted.
  rewrite (wait_effects_absent fx ReadEndClosed), (wait_effects_absent fx WriteEndClosed),
    (wait_effects_absent fx PipeOpened) by done.
  assert (forall x, x <> ChildKilled -> count_occ effect_eq_dec (if failed then [ChildKilled] else []) x = 0%nat)
    as Hk by (intros x Hx; destruct failed; [|done]; apply count_occ_not_In;
        intros [?|[]]; congruence).
  rewrite !Hk by done. cbn. rewrite Hstarted. split; [done|]. split; [done|].
  destruct waited as [[status failed']|e].
  - left. by apply wait_loop_ok in Hw as (-> & _).
  - right. by apply wait_loop_throw in Hw as [-> _].
Qed.

(** ** Witnesses: a child that prints twice and exits, and one that hangs until it is killed *)

Definition printing : system := {|
  tmpfile_ok := true; written := 2; pipe_ok := true; spawn_error := None; start_now := 0;
  reads := fun i => {|
    round_now := Z.of_nat i * 4000000000;
    round_poll := match i with 1%nat => PollTimeout | _ => PollReady end;
    round_read := match i with 0%nat => ReadData "ab" | _ => ReadEof end |};
  waits := fun killed i => {|
    wait_result := match i with 0%nat => StillRunning | _ => Reaped (Exited 0) end;
    wait_now := 9000000000 |}
|}.

Lemma command_result_witness :
  succeeds printing ["nft"; "-f"; "-"] "ok" "ab".
Proof.
  refine (proj1 (proj1 (command_result 5 printing ["nft"; "-f"; "-"] "ok" (Ok "ab")
            [PipeOpened; ChildStarted; WriteEndClosed; ReadEndClosed; ChildReaped] _) "ab") eq_refl).
  vm_compute. reflexivity.
Defined.

(** It never writes, never closes its output and never exits; a signal ends it in two rounds. *)
Definition hanging : system := {|
  tmpfile_ok := true; written := 0; pipe_ok := true; spawn_error := None; start_now := 0;
  reads := fun i => {| round_now := Z.of_nat i * 6000000000; round_poll := PollTimeout;
                       round_read := ReadEintr |};
  waits := fun killed i => {|
    wait_result := if killed && Nat.odd i then Reaped (Signaled 9) else StillRunning;
    wait_now := 12000000000 |}
|}.

Lemma hanging_sigkill : sigkill_ends 1 hanging.
Proof.
  intros i. destruct (Nat.odd i) eqn:Hi.
  - exists i. split; [lia|]. unfold unreaped. cbn. by rewrite Hi.
  - exists (S i). split; [lia|]. unfold unreaped. cbn [waits hanging wait_result].
    by rewrite Nat.odd_succ, <- Nat.negb_odd, Hi.
Qed.

Lemma command_terminates_witness :
  exists r, forall k, command (S 2 + S (0 + 2) + k) hanging ["ip"] "" = Some r.
Proof. apply (command_terminates 2 0 1 hanging); [discriminate | discriminate | exact hanging_sigkill]. Defined.

Lemma command_cleans_up_witness :
  let effects := [PipeOpened; ChildStarted; WriteEndClosed; ReadEndClosed; ChildKilled; ChildKilled;
                  ChildReaped] in
  count_occ effect_eq_dec effects ReadEndClosed = count_occ effect_eq_dec effects PipeOpened.
Proof.
  apply (command_cleans_up 5 hanging ["ip"] "" (throw_runtime "ip failed: timeout or output limit")).
  vm_compute. reflexivity.
Defined.
