(* ===== verification/Cli.v ===== *)
(** * The command line (src/main.cpp) *)
From S2P Require Import Prelude CppStd.

(** [struct Options] of appliance.hpp, with its initialisers. *)
Record Options := {
  listen : string; port : Z; database : string; token_file : string; web_root : string;
  capture_interface : string; allow_network : bool
}.

Definition default_options : Options := {|
  listen := "127.0.0.1"; port := 8080; database := "magicbox.sqlite"; token_file := "";
  web_root := "web"; capture_interface := ""; allow_network := false
|}.

(** ** Assignments *)

Definition set_listen (o : Options) (v : string) : Options := {|
  listen := v; port := port o; database := database o; token_file := token_file o;
  web_root := web_root o; capture_interface := capture_interface o;
  allow_network := allow_network o |}.
Definition set_port (o : Options) (v : Z) : Options := {|
  listen := listen o; port := v; database := database o; token_file := token_file o;
  web_root := web_root o; capture_interface := capture_interface o;
  allow_network := allow_network o |}.
Definition set_database (o : Options) (v : string) : Options := {|
  listen := listen o; port := port o; database := v; token_file := token_file o;
  web_root := web_root o; capture_interface := capture_interface o;
  allow_network := allow_network o |}.
Definition set_token_file (o : Options) (v : string) : Options := {|
  listen := listen o; port := port o; database := database o; token_file := v;
  web_root := web_root o; capture_interface := capture_interface o;
  allow_network := allow_network o |}.
Definition set_web_root (o : Options) (v : string) : Options := {|
  listen := listen o; port := port o; database := database o; token_file := token_file o;
  web_root := v; capture_interface := capture_interface o; allow_network := allow_network o |}.
Definition set_capture (o : Options) (v : string) : Options := {|
  listen := listen o; port := port o; database := database o; token_file := token_file o;
  web_root := web_root o; capture_interface := v; allow_network := allow_network o |}.
Definition set_allow_network (o : Options) (v : bool) : Options := {|
  listen := listen o; port := port o; database := database o; token_file := token_file o;
  web_root := web_root o; capture_interface := capture_interface o; allow_network := v |}.

(** ** The loop over the arguments *)

Inductive action := PrintVersion | PrintHelp | Run (options : Options).

(** Lines 33-37. *)
Definition parse_port (value : string) : result Z :=
  match from_chars_unsigned 10 (chars value) with
  | FcOk n consumed =>
      if (consumed =? length (chars value))%nat && negb (n <? 1) && negb (65535 <? n)
      then Ok (u16 n) else throw_invalid "Invalid port"
  | _ => throw_invalid "Invalid port"
  end.

Definition set_option (o : Options) (arg value : string) : result Options :=
  if String.eqb arg "--listen" then Ok (set_listen o value)
  else if String.eqb arg "--database" then Ok (set_database o value)
  else if String.eqb arg "--web-root" then Ok (set_web_root o value)
  else if String.eqb arg "--capture" then Ok (set_capture o value)
  else if String.eqb arg "--token-file" then Ok (set_token_file o value)
  else if String.eqb arg "--port" then let? n := parse_port value in Ok (set_port o n)
  else throw_invalid ("Unknown option: " +:+ arg).

(** Lines 40-41: the end of the loop. *)
Definition finish (o : Options) : result action :=
  if String.eqb (token_file o) ""
  then throw_invalid "--token-file is required; use --help for usage"
  else Ok (Run o).

(** [args] are the arguments from [argv[i]] on. *)
Fixpoint parse_args (o : Options) (args : list string) : result action :=
  match args with
  | [] => finish o
  | arg :: rest =>
      if String.eqb arg "--version" then Ok PrintVersion
      else if String.eqb arg "--help" || String.eqb arg "-h" then Ok PrintHelp
      else if String.eqb arg "--allow-network" then parse_args (set_allow_network o true) rest
      else match rest with
           | [] => throw_invalid ("Missing value for " +:+ arg)
           | value :: rest' => let? o' := set_option o arg value in parse_args o' rest'
           end
  end.

(** [main]: the exit code, given the outcome of [run_appliance]. *)
Definition main (run_appliance : Options -> result Z) (args : list string) : Z :=
  match (let? a := parse_args default_options args in
         match a with Run o => run_appliance o | _ => Ok 0 end) with
  | Ok code => code
  | Throw _ => 1
  end.

(** ** Specification *)

(** A port in decimal: digits only, of value 1 to 65535. *)
Definition reads_port (value : string) (n : Z) : Prop :=
  (exists ds, Forall2 (fun c d => digit_in 10 c = Some d) (chars value) ds /\ ds <> [] /\
              digits_number 10 ds = n) /\ 1 <= n <= 65535.

(** The command line that sets every option. *)
Definition render (o : Options) : list string :=
  (if allow_network o then ["--allow-network"] else []) ++
  ["--listen"; listen o; "--port"; to_string (port o); "--database"; database o;
   "--token-file"; token_file o; "--web-root"; web_root o; "--capture"; capture_interface o].

(** ** Lemmas *)

Lemma digits_prefix_all cs :
  length (digits_prefix 10 cs) = length cs <->
  Forall2 (fun c d => digit_in 10 c = Some d) cs (digits_prefix 10 cs).
Proof.
  split; [|intros Hall; symmetry; by eapply Forall2_length].
  induction cs as [|c cs IH]; cbn; [constructor|].
  destruct (digit_in 10 c) eqn:E; cbn; [|done]. intros [= Hl]. constructor; auto.
Qed.

Lemma digits_prefix_fun cs ds :
  Forall2 (fun c d => digit_in 10 c = Some d) cs ds -> digits_prefix 10 cs = ds.
Proof. induction 1 as [|c d cs ds Hc _ IH]; cbn; [done|]. by rewrite Hc, IH. Qed.

Lemma parse_port_spec value n : parse_port value = Ok n <-> reads_port value n.
Proof.
  unfold parse_port, from_chars_unsigned, reads_port. split.
  - destruct (digits_prefix 10 (chars value)) as [|d ds] eqn:Hds; [done|]. rewrite <- Hds.
    destruct (_ <? 2 ^ 32); [|done]. cbv zeta.
    destruct (Nat.eqb_spec (length (digits_prefix 10 (chars value))) (length (chars value)))
      as [Hl|]; [|done].
    destruct (_ <? 1) eqn:H1; [done|]. destruct (65535 <? _) eqn:H2; [done|].
    cbn [negb andb]. intros [= <-]. bool_simp. rewrite u16_id by lia. split; [|lia].
    exists (digits_prefix 10 (chars value)). split; [by apply digits_prefix_all|].
    split; [congruence|done].
  - intros [(ds & Hall & Hne & Hn) Hr]. rewrite (digits_prefix_fun _ _ Hall).
    destruct ds as [|d ds]; [done|]. cbv zeta. rewrite Hn.
    rewrite (proj2 (Z.ltb_lt n (2 ^ 32))) by lia.
    rewrite <- (Forall2_length _ _ _ Hall), Nat.eqb_refl.
    rewrite (proj2 (Z.ltb_ge n 1)), (proj2 (Z.ltb_ge 65535 n)) by lia.
    cbn [negb andb]. by rewrite u16_id by lia.
Qed.

Lemma digits_number_snoc base ds d :
  digits_number base (ds ++ [d]) = digits_number base ds * base + d.
Proof. unfold digits_number. by rewrite fold_left_app. Qed.

Lemma pretty_digit n : (n < 10)%N -> digit_in 10 (pretty_N_char n) = Some (Z.of_N n).
Proof.
  intros Hn. assert (n ∈ [0;1;2;3;4;5;6;7;8;9]%N) as Hin.
  { destruct n as [|p]; [set_solver|]. destruct (decide (p < 10)%positive) as [Hp|]; [|lia].
    do 4 (destruct p as [p|p|]; try lia; try set_solver). }
  repeat (apply elem_of_cons in Hin as [->|Hin]; [reflexivity|]). by apply elem_of_nil in Hin.
Qed.

(** Decimal printing produces the digits of the number. *)
Lemma pretty_go_digits n s :
  exists cs ds, chars (pretty_N_go n s) = cs ++ chars s /\
    Forall2 (fun c d => digit_in 10 c = Some d) cs ds /\ digits_number 10 ds = Z.of_N n /\
    (n <> 0%N -> ds <> []).
Proof.
  revert s. induction (N.lt_wf_0 n) as [n _ IH]; intros s.
  destruct (decide (n = 0%N)) as [->|Hn].
  { exists [], []. rewrite pretty_N_go_0. by repeat constructor. }
  rewrite pretty_N_go_step by lia.
  destruct (IH (n `div` 10)%N ltac:(apply N.div_lt; lia) (String (pretty_N_char (n `mod` 10)) s))
    as (cs & ds & Hcs & Hall & Hnum & _).
  exists (cs ++ [pretty_N_char (n `mod` 10)]), (ds ++ [Z.of_N (n `mod` 10)]).
  split; [rewrite Hcs, <- app_assoc; done|]. split; [|split].
  - apply Forall2_app; [done|]. constructor; [|constructor]. apply pretty_digit, N.mod_lt. lia.
  - rewrite digits_number_snoc, Hnum. pose proof (N.div_mod' n 10). lia.
  - intros _. by destruct ds.
Qed.

Lemma reads_port_to_string n : 1 <= n <= 65535 -> reads_port (to_string n) n.
Proof.
  intros Hn. destruct n as [|p|p]; try lia. split; [|lia].
  unfold to_string, pretty, pretty_Z, pretty, pretty_positive, pretty, pretty_N.
  destruct (decide (N.pos p = 0)%N); [done|].
  destruct (pretty_go_digits (N.pos p) "") as (cs & ds & Hcs & Hall & Hnum & Hne).
  exists ds. rewrite Hcs, app_nil_r. auto.
Qed.

(** ** Properties *)

(** C40: every option can be set: parsing the command line that spells out [o] yields [o], for
    any values of its members, a port from 1 to 65535 and a nonempty token file. *)
Theorem parse_args_render o :
  1 <= port o <= 65535 -> token_file o <> "" ->
  parse_args default_options (render o) = Ok (Run o).
Proof.
  intros Hp Ht. apply reads_port_to_string, parse_port_spec in Hp.
  unfold render. destruct o as [l p d t w c a]; cbn [allow_network listen port database token_file
    web_root capture_interface] in *.
  destruct a; cbn; rewrite Hp; cbn; unfold finish; cbn; by rewrite (proj2 (String.eqb_neq t "")).
Qed.

(** What the loop guarantees of the options it ends with. *)
Definition options_ok (o : Options) : Prop := 1 <= port o <= 65535.

Lemma set_option_ok o arg value o' :
  set_option o arg value = Ok o' ->
  (options_ok o -> options_ok o') /\ allow_network o' = allow_network o.
Proof.
  unfold set_option. repeat case_match; try (by intros [= <-]); try done.
  intros (n & Hn & [= <-])%rbind_ok_inv. split; [|done]. intros _.
  apply parse_port_spec in Hn as [_ Hn]. exact Hn.
Qed.

Lemma parse_args_ok o args o' :
  options_ok o -> parse_args o args = Ok (Run o') ->
  options_ok o' /\ token_file o' <> "" /\
  (allow_network o' = true -> allow_network o = true \/ "--allow-network" ∈ args).
Proof.
  remember (length args) as n eqn:Hn. revert args o Hn.
  induction (lt_wf n) as [n _ IH]; intros args o -> Ho.
  destruct args as [|arg rest]; cbn.
  - unfold finish. destruct (String.eqb_spec (token_file o) ""); [done|]. intros [= <-]. auto.
  - destruct (String.eqb arg "--version"); [done|].
    destruct (_ || _); [done|].
    destruct (String.eqb_spec arg "--allow-network") as [->|].
    + intros Hp. apply (IH (length rest)) in Hp as (? & ? & Ha); [|cbn; lia|done|done].
      split_and!; [done..|]. intros _. right. by left.
    + destruct rest as [|value rest]; [done|]. intros (o1 & Hset & Hp)%rbind_ok_inv.
      apply set_option_ok in Hset as [H1 H2].
      apply (IH (length rest)) in Hp as (? & ? & Ha); [|cbn; lia|done|auto].
      split_and!; [done..|]. intros Hal. destruct (Ha Hal) as [Hb|Hb]; [left; congruence|].
      right. by do 2 right.
Qed.

(** No accidental privilege. Whatever the arguments, an accepted command line has a token
    file and a port from 1 to 65535, and it enables network changes only if the word
    [--allow-network] is among the arguments. *)
Theorem parse_args_safe args o :
  parse_args default_options args = Ok (Run o) ->
  1 <= port o <= 65535 /\ token_file o <> "" /\
  (allow_network o = true -> "--allow-network" ∈ args).
Proof.
  intros Hp. apply parse_args_ok in Hp as (Ho & Ht & Ha); [|unfold options_ok; cbn; lia].
  split; [exact Ho|]. split; [exact Ht|]. intros Hal. by destruct (Ha Hal).
Qed.

(** ** Witnesses *)

Definition sample_options : Options := {|
  listen := "0.0.0.0"; port := 8443; database := "/var/lib/magicbox/db"; token_file := "/etc/token";
  web_root := "web"; capture_interface := "eth0"; allow_network := true
|}.

Lemma parse_args_render_witness :
  parse_args default_options (render sample_options) = Ok (Run sample_options).
Proof. apply (parse_args_render sample_options); [cbn; lia | discriminate]. Defined.

Lemma parse_args_safe_witness :
  "--allow-network" ∈ ["--token-file"; "/etc/token"; "--allow-network"; "--port"; "9090"].
Proof.
  apply (parse_args_safe _ (set_port (set_allow_network (set_token_file default_options "/etc/token")
    true) 9090)); reflexivity.
Defined.
