(* ===== verification/Store.v ===== *)
(** * The store (src/store.cpp)

    The three SQLite tables as finite maps keyed by their primary keys, and each method of
    [Store] as the effect of its statements on them.  SQLite itself is a parameter ([Sqlite]):
    the order it gives to rows that compare equal, its arithmetic beyond 64 bits and its JSON
    functions; a statement that fails is an argument of the method that runs it. *)
From stdpp Require Import sorting.
From S2P Require Import Prelude CppStd Config Json Serialize.

(** ** Tables *)

Record sample_row := { s_packets : Z; s_bytes : Z; s_details : string }.

Record flow_row := {
  first_seen : Z; last_seen : Z; f_packets : Z; f_bytes : Z; f_metadata : string
}.

Record db := {
  settings : gmap string string;
  samples : gmap Z sample_row;
  flows : gmap string flow_row
}.

Definition with_settings (d : db) (m : gmap string string) : db :=
  {| settings := m; samples := samples d; flows := flows d |}.
Definition with_samples (d : db) (m : gmap Z sample_row) : db :=
  {| settings := settings d; samples := m; flows := flows d |}.
Definition with_flows (d : db) (m : gmap string flow_row) : db :=
  {| settings := settings d; samples := samples d; flows := m |}.

(** ** SQLite *)

Class Sqlite := {
  (** [a + b] beyond 64 bits is a REAL; this is what [sqlite3_column_int64] reads of it *)
  real_add : Z -> Z -> Z;
  (** what it reads of [SUM(COALESCE(json_extract(details, '$.protocols.NAME'), 0))] *)
  protocol_sum : string -> list string -> Z;
  (** the rows of [flows ORDER BY last_seen DESC] *)
  by_last_seen : gmap string flow_row -> list (string * flow_row);
}.

Definition newest_first (a b : string * flow_row) : Prop := last_seen b.2 <= last_seen a.2.

(** ORDER BY lists every row once, in the order asked for. *)
Class SqliteLaws `{Sqlite} : Prop := {
  by_last_seen_perm m : by_last_seen m ≡ₚ map_to_list m;
  by_last_seen_sorted m : StronglySorted newest_first (by_last_seen m);
}.

Section Store.
Context `{JsonCpp} `{Sqlite}.

Definition sql_add (a b : Z) : Z :=
  if (- 2 ^ 63 <=? a + b) && (a + b <? 2 ^ 63) then a + b else real_add a b.

(** SUM over integers: an overflow is an error of the statement. *)
Fixpoint sql_sum (l : list Z) (acc : Z) : result Z :=
  match l with
  | [] => Ok acc
  | a :: l' =>
      if (- 2 ^ 63 <=? acc + a) && (acc + a <? 2 ^ 63) then sql_sum l' (acc + a)
      else throw_runtime "integer overflow"
  end.

(** [check] on a statement: [Some message] is an error code. *)
Definition check (fault : option string) : result unit :=
  match fault with Some message => throw_runtime message | None => Ok tt end.

(** ** settings *)

Definition put (fault : option string) (key : string) (value : Value) (d : db)
  : result unit * db :=
  match check fault with
  | Throw e => (Throw e, d)
  | Ok _ => (Ok tt, with_settings d (<[key := json_text value]> (settings d)))
  end.

(** [sqlite3_column_text] yields a C string. *)
Definition get (fault : option string) (key : string) (d : db) : result Value :=
  do? check fault;
  match settings d !! key with
  | None => Ok null
  | Some t => parse_json (c_str t)
  end.

(** ** samples *)

Definition week : Z := 7 * 86400.

(** [ON CONFLICT(ts) DO UPDATE]. *)
Definition upsert_sample (ts packets bytes : Z) (details : Value) (m : gmap Z sample_row)
  : gmap Z sample_row :=
  <[ts := match m !! ts with
          | None => {| s_packets := s64 packets; s_bytes := s64 bytes; s_details := json_text details |}
          | Some old => {| s_packets := sql_add (s_packets old) (s64 packets);
                           s_bytes := sql_add (s_bytes old) (s64 bytes);
                           s_details := json_text details |}
          end]> m.

(** [DELETE FROM samples WHERE ts < ?]. *)
Definition forget_samples (limit : Z) (m : gmap Z sample_row) : gmap Z sample_row :=
  filter (fun kv => limit <= kv.1) m.

(** [fault1] and [fault2] are the two statements; the first is committed before the second. *)
Definition sample (fault1 fault2 : option string) (ts packets bytes : Z) (details : Value) (d : db)
  : result unit * db :=
  match check fault1 with
  | Throw e => (Throw e, d)
  | Ok _ =>
      let d := with_samples d (upsert_sample ts packets bytes details (samples d)) in
      match check fault2 with
      | Throw e => (Throw e, d)
      | Ok _ => (Ok tt, with_samples d (forget_samples (s64 (ts - week)) (samples d)))
      end
  end.

(** One row of [history]. *)
Record bucket := {
  b_timestamp : Z; b_packets : Z; b_bytes : Z; b_samples : Z; b_protocols : list (string * Z)
}.

(** [(ts / ?) * ?]: SQL division truncates. *)
Definition bucket_of (interval ts : Z) : Z := Z.quot ts interval * interval.

Definition in_range (from to : Z) (kv : Z * sample_row) : bool := (from <=? kv.1) && (kv.1 <? to).

Definition selected (from to : Z) (d : db) : list (Z * sample_row) :=
  List.filter (in_range from to) (map_to_list (samples d)).

(** GROUP BY 1 ORDER BY 1. *)
Definition bucket_keys (interval : Z) (rows : list (Z * sample_row)) : list Z :=
  merge_sort Z.le (remove_dups (map (fun kv => bucket_of interval kv.1) rows)).

Definition group (interval : Z) (rows : list (Z * sample_row)) (t : Z) : list (Z * sample_row) :=
  List.filter (fun kv => bucket_of interval kv.1 =? t) rows.

Definition aggregate (interval : Z) (rows : list (Z * sample_row)) (t : Z) : result bucket :=
  let g := group interval rows t in
  let? packets := sql_sum (map (fun kv => s_packets kv.2) g) 0 in
  let? bytes := sql_sum (map (fun kv => s_bytes kv.2) g) 0 in
  Ok {| b_timestamp := t; b_packets := packets; b_bytes := bytes;
        b_samples := Z.of_nat (length g);
        b_protocols := map (fun p => (p, protocol_sum p (map (fun kv => s_details kv.2) g)))
                         ["tcp"; "udp"; "icmp"; "other"] |}.

Fixpoint aggregate_all (interval : Z) (rows : list (Z * sample_row)) (keys : list Z)
  : result (list bucket) :=
  match keys with
  | [] => Ok []
  | t :: keys' =>
      let? b := aggregate interval rows t in
      let? rest := aggregate_all interval rows keys' in
      Ok (b :: rest)
  end.

(** The rows before they are written as JSON. *)
Definition history_rows (from to interval : Z) (d : db) : result (list bucket) :=
  if (negb (interval =? 60) && negb (interval =? 300) && negb (interval =? 3600)) ||
     (to <=? from) || (week <? s64 (to - from))
  then throw_invalid "History requires interval 60/300/3600 and a range up to seven days"
  else
    let rows := selected from to d in
    aggregate_all interval rows (take 1000 (bucket_keys interval rows)).

Definition bucket_json (b : bucket) : result Value :=
  let? protocols := set_keys null (map (fun p => (p.1, of_string (to_string p.2))) (b_protocols b)) in
  set_keys null [("timestamp", of_int (b_timestamp b));
                 ("packets", of_string (to_string (b_packets b)));
                 ("wire_bytes", of_string (to_string (b_bytes b)));
                 ("samples", of_int (b_samples b));
                 ("protocols", protocols)].

Fixpoint append_all {A} (f : A -> result Value) (acc : Value) (l : list A) : result Value :=
  match l with
  | [] => Ok acc
  | x :: l' => let? v := f x in let? acc' := append acc v in append_all f acc' l'
  end.

Definition history (fault : option string) (from to interval : Z) (d : db) : result Value :=
  let? rows := history_rows from to interval d in
  do? check fault; append_all bucket_json empty_array rows.

(** ** flows *)

Definition int_at (v : Value) (key : string) : result Z := let? x := at_key v key in asInt64 x.

Definition upsert_flow (fault : option string) (flow : Value) (m : gmap string flow_row)
  : result (gmap string flow_row) :=
  let? key := (let? k := at_key flow "key" in asString k) in
  let? first := int_at flow "first_seen" in
  let? timestamp := int_at flow "timestamp_ms" in
  let? packets := int_at flow "packets" in
  let? bytes := int_at flow "bytes" in
  do? check fault;
  Ok (<[key := match m !! key with
               | None => {| first_seen := first; last_seen := timestamp; f_packets := packets;
                            f_bytes := bytes; f_metadata := json_text flow |}
               | Some old => {| first_seen := first_seen old; last_seen := timestamp;
                                f_packets := sql_add (f_packets old) packets;
                                f_bytes := sql_add (f_bytes old) bytes;
                                f_metadata := json_text flow |}
               end]> m).

Fixpoint upsert_all (faults : list (option string)) (flows : list Value) (m : gmap string flow_row)
  : result (gmap string flow_row) :=
  match flows with
  | [] => Ok m
  | flow :: flows' =>
      let? m' := upsert_flow (default None (head faults)) flow m in
      upsert_all (tail faults) flows' m'
  end.

(** The two DELETE statements; [now] is [strftime('%s', 'now')]. *)
Definition expire (now : Z) (m : gmap string flow_row) : gmap string flow_row :=
  filter (fun kv => (now - 604800) * 1000 <= last_seen kv.2) m.

Definition flow_limit : nat := Z.to_nat 10000.

Definition shrink (m : gmap string flow_row) : gmap string flow_row :=
  list_to_map (take flow_limit (by_last_seen m)).

(** A connection: what is committed, and the flow table as written since BEGIN, if a
    transaction is open. *)
Record connection := { committed : db; written : option (gmap string flow_row) }.

Definition begin_immediate (fault : option string) (d : db) : result connection :=
  do? check fault; Ok {| committed := d; written := Some (flows d) |}.

(** The loop over the flows; [faults] has one outcome per flow.  A flow that fails leaves those
    before it in the transaction. *)
Fixpoint insert_flows (faults : list (option string)) (list : list Value) (c : connection)
  : result unit * connection :=
  match list with
  | [] => (Ok tt, c)
  | flow :: list' =>
      match upsert_flow (default None (head faults)) flow (default (flows (committed c)) (written c)) with
      | Throw e => (Throw e, c)
      | Ok m => insert_flows (tail faults) list' {| committed := committed c; written := Some m |}
      end
  end.

(** The two DELETE statements and COMMIT, in one [sqlite3_exec]. *)
Definition delete_and_commit (fault : option string) (now : Z) (c : connection)
  : result unit * connection :=
  match check fault with
  | Throw e => (Throw e, c)
  | Ok _ =>
      let m := shrink (expire now (default (flows (committed c)) (written c))) in
      (Ok tt, {| committed := with_flows (committed c) m; written := None |})
  end.

Definition rollback_transaction (c : connection) : result unit * connection :=
  match written c with
  | None => (throw_runtime "cannot rollback - no transaction is active", c)
  | Some _ => (Ok tt, {| committed := committed c; written := None |})
  end.

(** [begin], [faults] and [commit] are the outcomes of the statements; [ended]: SQLite answered
    the failing statement by ending the transaction itself, so that ROLLBACK reports an error.
    The code does not look at what ROLLBACK reports. *)
Definition record_flows (begin : option string) (faults : list (option string))
    (commit : option string) (ended : bool) (now : Z) (list : Value) (d : db) : result unit * db :=
  match begin_immediate begin d with
  | Throw e => (Throw e, d)
  | Ok c =>
      let '(r, c) :=
        match insert_flows faults (elements list) c with
        | (Throw e, c) => (Throw e, c)
        | (Ok _, c) => delete_and_commit commit now c
        end in
      match r with
      | Ok _ => (Ok tt, committed c)
      | Throw e =>
          let c := if ended then {| committed := committed c; written := None |} else c in
          let '(_, c) := rollback_transaction c in
          (Throw e, committed c)
      end
  end.

Definition connection_json (r : string * flow_row) : result Value :=
  let? row := parse_json (c_str (f_metadata r.2)) in
  set_keys row [("first_seen", of_int (first_seen r.2)); ("last_seen", of_int (last_seen r.2));
                ("packets", of_string (to_string (f_packets r.2)));
                ("bytes", of_string (to_string (f_bytes r.2)))].

Definition connections (fault : option string) (d : db) : result Value :=
  do? check fault; append_all connection_json empty_array (take 200 (by_last_seen (flows d))).
End Store.

(** ** Lemmas: sums over buckets *)

Definition sum_of {A} (f : A -> Z) (l : list A) : Z := foldr (fun x n => f x + n) 0 l.

#[global] Arguments sum_of : simpl never.

Lemma sum_of_cons {A} (f : A -> Z) x l : sum_of f (x :: l) = f x + sum_of f l.
Proof. reflexivity. Qed.

Lemma sum_of_app {A} (f : A -> Z) l l' : sum_of f (l ++ l') = sum_of f l + sum_of f l'.
Proof. induction l as [|x l IH]; [done|]. cbn [app]. rewrite !sum_of_cons. lia. Qed.

Lemma sum_of_ext {A} (f g : A -> Z) l : (forall x, x ∈ l -> f x = g x) -> sum_of f l = sum_of g l.
Proof.
  induction l as [|x l IH]; intros Hfg; [done|]. rewrite !sum_of_cons.
  rewrite IH by (intros y Hy; apply Hfg; by right). by rewrite (Hfg x) by by left.
Qed.

Lemma sum_of_zero {A} (f : A -> Z) l : (forall x, x ∈ l -> f x = 0) -> sum_of f l = 0.
Proof.
  induction l as [|x l IH]; intros Hf; [done|]. rewrite sum_of_cons, (Hf x) by by left.
  rewrite IH; [done|]. intros y Hy. apply Hf. by right.
Qed.

Lemma sum_of_plus {A} (f g : A -> Z) l :
  sum_of (fun x => f x + g x) l = sum_of f l + sum_of g l.
Proof. induction l as [|x l IH]; [done|]. rewrite !sum_of_cons. lia. Qed.

(** One key picks its own share. *)
Lemma sum_of_pick (k : Z) v l :
  NoDup l -> k ∈ l -> sum_of (fun t => if k =? t then v else 0) l = v.
Proof.
  induction 1 as [|t l Hnin Hnd IH]; intros Hin; [by apply elem_of_nil in Hin|].
  rewrite sum_of_cons. apply elem_of_cons in Hin as [->|Hin].
  - rewrite Z.eqb_refl. rewrite sum_of_zero; [lia|]. intros x Hx.
    destruct (Z.eqb_spec t x); [by subst|done].
  - destruct (Z.eqb_spec k t); [by subst|]. rewrite IH by done. lia.
Qed.

(** Summing group by group is summing the rows. *)
Lemma sum_of_groups interval (f : Z * sample_row -> Z) rows keys :
  NoDup keys -> (forall kv, kv ∈ rows -> bucket_of interval kv.1 ∈ keys) ->
  sum_of (fun t => sum_of f (group interval rows t)) keys = sum_of f rows.
Proof.
  intros Hnd. induction rows as [|kv rows IH]; intros Hin.
  - by apply sum_of_zero.
  - rewrite sum_of_cons, <- IH by (intros x Hx; apply Hin; by right).
    rewrite <- (sum_of_pick (bucket_of interval kv.1) (f kv) keys) at 1
      by (auto; apply Hin; by left).
    rewrite <- sum_of_plus. apply sum_of_ext. intros t _. unfold group. cbn [List.filter].
    destruct (_ =? t); [|lia]. by rewrite sum_of_cons.
Qed.

(** A partial sum leaves the 64-bit range. *)
Definition overflows {A} (f : A -> Z) (l : list A) : Prop :=
  exists n, ~ in_s64 (sum_of f (take n l)).

Lemma sql_sum_spec {A} (f : A -> Z) l acc :
  in_s64 acc ->
  match sql_sum (map f l) acc with
  | Ok s => s = acc + sum_of f l /\ forall n, in_s64 (acc + sum_of f (take n l))
  | Throw e => e = Exn runtime_error "integer overflow" /\
      exists n, ~ in_s64 (acc + sum_of f (take n l))
  end.
Proof.
  revert acc. induction l as [|a l IH]; intros acc Hacc; cbn [map sql_sum].
  { change (sum_of f []) with 0. split; [lia|]. intros n. rewrite take_nil. change (sum_of f []) with 0. lia. }
  destruct ((- 2 ^ 63 <=? acc + f a) && (acc + f a <? 2 ^ 63)) eqn:E.
  - apply andb_true_iff in E as [E1%Z.leb_le E2%Z.ltb_lt].
    change (2 ^ 63) with 9223372036854775808 in *.
    specialize (IH (acc + f a) ltac:(lia)). destruct (sql_sum _ _) as [s|e].
    + rewrite sum_of_cons. destruct IH as [-> IH]. split; [lia|]. intros [|n]; cbn [take].
      * change (sum_of f []) with 0. lia.
      * rewrite sum_of_cons. specialize (IH n). lia.
    + destruct IH as (-> & n & Hn). split; [done|]. exists (S n). cbn [take].
      rewrite sum_of_cons. lia.
  - split; [done|]. exists 1%nat. change (2 ^ 63) with 9223372036854775808 in *.
    apply andb_false_iff in E. rewrite Z.leb_gt, Z.ltb_ge in E. cbn [take].
    rewrite sum_of_cons, take_0. change (sum_of f []) with 0. lia.
Qed.

Lemma sum_of_one {A} (l : list A) : sum_of (fun _ => 1) l = Z.of_nat (length l).
Proof. induction l as [|x l IH]; [done|]. rewrite sum_of_cons. cbn [length]. lia. Qed.

(** ** [history] *)

Section History.
Context `{JsonCppLaws} `{Sqlite}.

Lemma group_elem interval rows t kv :
  kv ∈ group interval rows t <-> kv ∈ rows /\ bucket_of interval kv.1 = t.
Proof. unfold group. by rewrite list_elem_of_In, List.filter_In, <- list_elem_of_In, Z.eqb_eq. Qed.

Lemma aggregate_spec interval rows t :
  let g := group interval rows t in
  match aggregate interval rows t with
  | Ok b => b_timestamp b = t /\ b_samples b = Z.of_nat (length g) /\
      b_packets b = sum_of (fun kv => s_packets kv.2) g /\
      b_bytes b = sum_of (fun kv => s_bytes kv.2) g /\
      b_protocols b = map (fun p => (p, protocol_sum p (map (fun kv => s_details kv.2) g)))
                        ["tcp"; "udp"; "icmp"; "other"] /\
      ~ overflows (fun kv => s_packets kv.2) g /\ ~ overflows (fun kv => s_bytes kv.2) g
  | Throw e => e = Exn runtime_error "integer overflow" /\
      (overflows (fun kv => s_packets kv.2) g \/ overflows (fun kv => s_bytes kv.2) g)
  end.
Proof.
  cbv zeta. unfold aggregate, overflows. set (g := group interval rows t).
  pose proof (sql_sum_spec (fun kv => s_packets kv.2) g 0 ltac:(lia)) as Hp.
  destruct (sql_sum (map (fun kv => s_packets kv.2) g) 0) as [p|e]; cbn [rbind]; [|naive_solver].
  pose proof (sql_sum_spec (fun kv => s_bytes kv.2) g 0 ltac:(lia)) as Hn.
  destruct (sql_sum (map (fun kv => s_bytes kv.2) g) 0) as [n|e]; cbn [rbind]; [|naive_solver].
  destruct Hp as [-> Hp], Hn as [-> Hn]. cbn. split_and!; try done.
  - intros [k Hk]. exact (Hk (Hp k)).
  - intros [k Hk]. exact (Hk (Hn k)).
Qed.

Lemma aggregate_ok interval rows t b :
  aggregate interval rows t = Ok b ->
  let g := group interval rows t in
  b_timestamp b = t /\ b_samples b = Z.of_nat (length g) /\
  b_packets b = sum_of (fun kv => s_packets kv.2) g /\
  b_bytes b = sum_of (fun kv => s_bytes kv.2) g /\
  b_protocols b = map (fun p => (p, protocol_sum p (map (fun kv => s_details kv.2) g)))
                    ["tcp"; "udp"; "icmp"; "other"].
Proof. intros Hb. pose proof (aggregate_spec interval rows t) as Hs. rewrite Hb in Hs. naive_solver. Qed.

Lemma aggregate_all_overflow interval rows keys :
  let some_overflow := exists t, t ∈ keys /\
    let g := group interval rows t in
    overflows (fun kv => s_packets kv.2) g \/ overflows (fun kv => s_bytes kv.2) g in
  match aggregate_all interval rows keys with
  | Ok _ => ~ some_overflow
  | Throw e => e = Exn runtime_error "integer overflow" /\ some_overflow
  end.
Proof.
  cbv zeta. induction keys as [|t keys IH]; cbn [aggregate_all].
  { intros (t & Ht & _). by apply elem_of_nil in Ht. }
  pose proof (aggregate_spec interval rows t) as Hs. cbv zeta in Hs.
  destruct (aggregate interval rows t) as [b|e]; cbn [rbind].
  - destruct (aggregate_all interval rows keys) as [bs|e]; cbn [rbind].
    + intros (t' & [->|Ht']%elem_of_cons & Ho); [naive_solver|]. apply IH. eauto.
    + destruct IH as (-> & t' & Ht' & Ho). split; [done|]. exists t'. split; [by right|done].
  - destruct Hs as [-> Ho]. split; [done|]. exists t. split; [by left|done].
Qed.

Lemma aggregate_all_ok interval rows keys bs :
  aggregate_all interval rows keys = Ok bs ->
  Forall2 (fun t b => aggregate interval rows t = Ok b) keys bs.
Proof.
  revert bs. induction keys as [|t keys IH]; cbn; intros bs; [by intros [= <-]; constructor|].
  intros (b & Hb & Hrest)%rbind_ok_inv. apply rbind_ok_inv in Hrest as (rest & Hrest & [= <-]).
  constructor; auto.
Qed.

Lemma sorted_strictly (l : list Z) : NoDup l -> StronglySorted Z.le l -> StronglySorted Z.lt l.
Proof.
  intros Hnd Hs. induction Hs as [|x l Hs IH Hall]; [constructor|].
  apply NoDup_cons in Hnd as [Hx Hnd]. constructor; [by apply IH|].
  rewrite Forall_forall in *. intros y Hy. specialize (Hall y Hy).
  assert (x <> y) by (by intros ->). lia.
Qed.

Lemma bucket_keys_spec interval rows :
  NoDup (bucket_keys interval rows) /\ StronglySorted Z.lt (bucket_keys interval rows) /\
  forall t, t ∈ bucket_keys interval rows <-> exists kv, kv ∈ rows /\ bucket_of interval kv.1 = t.
Proof.
  unfold bucket_keys. set (l := map (fun kv => bucket_of interval kv.1) rows).
  pose proof (merge_sort_Permutation Z.le (remove_dups l)) as Hp. split_and!.
  - rewrite Hp. apply NoDup_remove_dups.
  - apply sorted_strictly; [|apply (StronglySorted_merge_sort _)].
    rewrite Hp. apply NoDup_remove_dups.
  - intros t. rewrite Hp, elem_of_remove_dups. subst l. rewrite (list_elem_of_fmap (fun kv => bucket_of interval kv.1) rows t). naive_solver.
Qed.
Lemma selected_spec from to d kv :
  kv ∈ selected from to d <-> samples d !! kv.1 = Some kv.2 /\ from <= kv.1 < to.
Proof.
  unfold selected, in_range. rewrite list_elem_of_In, List.filter_In, <- list_elem_of_In.
  destruct kv as [ts row]. rewrite elem_of_map_to_list, andb_true_iff. cbn. rewrite Z.leb_le, Z.ltb_lt.
  tauto.
Qed.

Lemma aggregate_rows_sum interval rows keys bs (f : Z * sample_row -> Z) (g : bucket -> Z) :
  (forall t b, aggregate interval rows t = Ok b -> g b = sum_of f (group interval rows t)) ->
  Forall2 (fun t b => aggregate interval rows t = Ok b) keys bs ->
  sum_of g bs = sum_of (fun t => sum_of f (group interval rows t)) keys.
Proof.
  intros Hg. induction 1 as [|t b keys bs Hb _ IH]; [done|]. by rewrite !sum_of_cons, IH, (Hg t b).
Qed.

Lemma aggregate_timestamps interval rows keys bs :
  Forall2 (fun t b => aggregate interval rows t = Ok b) keys bs -> map b_timestamp bs = keys.
Proof.
  induction 1 as [|t b keys bs Hb _ IH]; [done|]. cbn. rewrite IH.
  apply aggregate_ok in Hb as [-> _]. done.
Qed.

Lemma take_sorted {A} (R : A -> A -> Prop) n l : StronglySorted R l -> StronglySorted R (take n l).
Proof.
  intros Hs. revert n. induction Hs as [|x l Hs IH Hall]; intros [|n]; cbn; constructor; auto.
  by apply Forall_take.
Qed.

(** What [history] answers for the buckets of [rows]: at most a thousand, in increasing order,
    none empty, each with the number and the exact sums of its samples; a sample is left out only
    when a thousand earlier buckets are answered. *)
Record exact_rows (interval : Z) (rows : list (Z * sample_row)) (bs : list bucket) : Prop := {
  er_bound : (length bs <= 1000)%nat;
  er_sorted : StronglySorted Z.lt (map b_timestamp bs);
  er_rows : forall b, b ∈ bs ->
    let g := group interval rows (b_timestamp b) in
    g <> [] /\ b_samples b = Z.of_nat (length g) /\
    b_packets b = sum_of (fun kv => s_packets kv.2) g /\
    b_bytes b = sum_of (fun kv => s_bytes kv.2) g /\
    b_protocols b = map (fun p => (p, protocol_sum p (map (fun kv => s_details kv.2) g)))
                      ["tcp"; "udp"; "icmp"; "other"];
  er_left_out : forall kv, kv ∈ rows -> bucket_of interval kv.1 ∉ map b_timestamp bs ->
    length bs = 1000%nat /\ forall b, b ∈ bs -> b_timestamp b < bucket_of interval kv.1;
  er_total : (length (bucket_keys interval rows) <= 1000)%nat ->
    sum_of b_samples bs = Z.of_nat (length rows) /\
    sum_of b_packets bs = sum_of (fun kv => s_packets kv.2) rows /\
    sum_of b_bytes bs = sum_of (fun kv => s_bytes kv.2) rows
}.

Lemma aggregate_all_exact interval rows bs :
  aggregate_all interval rows (take 1000 (bucket_keys interval rows)) = Ok bs ->
  exact_rows interval rows bs.
Proof.
  intros Hall%aggregate_all_ok.
  destruct (bucket_keys_spec interval rows) as (Hnd & Hsorted & Hin).
  pose proof (aggregate_timestamps _ _ _ _ Hall) as Hts.
  assert (length bs = length (take 1000 (bucket_keys interval rows))) as Hlen
    by (rewrite <- (length_map b_timestamp bs); by rewrite Hts).
  split.
  - rewrite Hlen, length_take. lia.
  - rewrite Hts. by apply take_sorted.
  - intros b Hb. apply list_elem_of_lookup in Hb as [i Hb].
    destruct (Forall2_lookup_r _ _ _ _ _ Hall Hb) as (t & Ht & Hagg).
    apply aggregate_ok in Hagg as (-> & Hs & Hp & Hn & Hd). cbv zeta. split_and!; auto.
    apply lookup_take_Some in Ht as [Ht _]. apply list_elem_of_lookup_2, Hin in Ht as (kv & Hkv & <-).
    intros Hg. eapply elem_of_nil. rewrite <- Hg. by apply group_elem.
  - intros kv Hkv Hout. rewrite Hts in Hout.
    assert (bucket_of interval kv.1 ∈ bucket_keys interval rows) as Hk by (apply Hin; eauto).
    rewrite <- (take_drop 1000 (bucket_keys interval rows)) in Hk, Hsorted.
    apply elem_of_app in Hk as [Hk|Hk]; [done|]. split.
    + rewrite Hlen, length_take. apply list_elem_of_lookup in Hk as [i Hi].
      apply lookup_lt_Some in Hi. rewrite length_drop in Hi. lia.
    + intros b Hb. apply (StronglySorted_app_1_elem_of _ _ _ _ _ Hsorted); [|done].
      rewrite <- Hts. by apply (list_elem_of_fmap_2 b_timestamp).
  - intros Hle. rewrite take_ge in Hall by done.
    assert (forall kv, kv ∈ rows -> bucket_of interval kv.1 ∈ bucket_keys interval rows) as Hcover
      by (intros kv Hkv; apply Hin; eauto).
    rewrite <- (sum_of_one rows), <- !(sum_of_groups interval _ rows _ Hnd Hcover).
    split_and!; (eapply aggregate_rows_sum; [|exact Hall]); intros t b Hb;
      apply aggregate_ok in Hb as (_ & Hs & Hp & Hn & _); [by rewrite Hs, sum_of_one|done|done].
Qed.

Lemma append_documents {A} (f : A -> result Value) (P : A -> Value -> Prop) l acc :
  (forall x, exists v, f x = Ok v /\ P x v) -> type acc = arrayValue ->
  exists v, append_all f acc l = Ok v /\ type v = arrayValue /\
    exists vs, elements v = elements acc ++ vs /\ Forall2 P l vs.
Proof.
  intros Hf. revert acc. induction l as [|x l IH]; intros acc Ht; cbn.
  { exists acc. split; [done|]. split; [done|]. exists []. by rewrite app_nil_r. }
  destruct (Hf x) as (v & -> & Hv). cbn.
  destruct (append_array acc v) as (acc' & -> & Ht' & He); [auto|]. cbn.
  destruct (IH acc' Ht') as (w & -> & Hw & vs & Hvs & Hall). exists w. split; [done|]. split; [done|].
  exists (v :: vs). rewrite Hvs, He, <- app_assoc. split; [done|]. by constructor.
Qed.

(** The rows of one of the buckets do not add up within 64 bits. *)
Definition sums_overflow (interval : Z) (rows : list (Z * sample_row)) : Prop :=
  exists t, t ∈ take 1000 (bucket_keys interval rows) /\
    let g := group interval rows t in
    overflows (fun kv => s_packets kv.2) g \/ overflows (fun kv => s_bytes kv.2) g.

(** The document of one row. *)
Definition bucket_document (b : bucket) (v : Value) : Prop :=
  at_key v "timestamp" = Ok (of_int (b_timestamp b)) /\
  at_key v "packets" = Ok (of_string (to_string (b_packets b))) /\
  at_key v "wire_bytes" = Ok (of_string (to_string (b_bytes b))) /\
  at_key v "samples" = Ok (of_int (b_samples b)) /\
  exists p, at_key v "protocols" = Ok p /\
    forall name, at_key p name =
      Ok (match assoc_last (b_protocols b) name with
          | Some n => of_string (to_string n)
          | None => null
          end).

Lemma assoc_last_map {A B} (f : A -> B) l k :
  assoc_last (map (fun p => (p.1, f p.2)) l) k = f <$> assoc_last l k.
Proof.
  induction l as [|[k' x] l IH]; [done|]. cbn. rewrite IH.
  destruct (assoc_last l k); [done|]. by destruct (String.eqb k k').
Qed.

Lemma bucket_json_spec b : exists v, bucket_json b = Ok v /\ bucket_document b v.
Proof.
  unfold bucket_json.
  destruct (set_keys_keyed null (map (fun p => (p.1, of_string (to_string p.2))) (b_protocols b)) keyed_null)
    as (p & -> & _ & _ & Hp & _). cbn [rbind].
  match goal with |- context [set_keys null ?l] =>
    destruct (set_keys_keyed null l keyed_null) as (v & -> & _ & _ & Hv & _) end.
  exists v. split; [done|]. unfold bucket_document. rewrite !Hv. cbn.
  split_and!; try done. exists p. split; [done|]. intros name. rewrite Hp.
  rewrite (assoc_last_map (fun n => of_string (to_string n))).
  destruct (assoc_last _ _); cbn; [done|]. apply at_key_missing, isMember_null.
Qed.

End History.

(** ** [put] and [get] *)

Section Settings.
Context `{JsonCppLaws}.

(** Settings. A value put under a key is read back as an equivalent value when its text stands
    for it, other keys, samples and flows are as before; a put that fails changes nothing. *)
Theorem put_get key value d :
  let d' := (put None key value d).2 in
  (put None key value d).1 = Ok tt /\
  (faithful stack_levels value -> exists w, get None key d' = Ok w /\ json_equiv value w) /\
  (forall key', key' <> key -> get None key' d' = get None key' d) /\
  samples d' = samples d /\ flows d' = flows d /\
  (forall message, put (Some message) key value d = (throw_runtime message, d)).
Proof.
  cbn. split_and!; try done.
  - unfold get. cbn. rewrite lookup_insert_eq. unfold json_text.
    rewrite c_str_id by apply write_no_nul. by apply parse_json_text.
  - intros key' Hk. unfold get. cbn. by rewrite lookup_insert_ne.
Qed.
End Settings.

(** ** [record_flows] *)

Section Flows.
Context `{JsonCpp} `{SL : SqliteLaws}.

Lemma by_last_seen_NoDup m : NoDup (map fst (by_last_seen m)).
Proof. rewrite (by_last_seen_perm m). apply NoDup_fst_map_to_list. Qed.

Lemma kept_NoDup m : NoDup (take flow_limit (by_last_seen m)).*1.
Proof.
  pose proof (by_last_seen_NoDup m) as Hnd.
  rewrite <- (take_drop flow_limit (by_last_seen m)), map_app in Hnd.
  apply NoDup_app in Hnd as [Hnd _]. exact Hnd.
Qed.

Lemma shrink_spec m k r :
  shrink m !! k = Some r <-> (k, r) ∈ take flow_limit (by_last_seen m).
Proof.
  unfold shrink. symmetry. apply elem_of_list_to_map, kept_NoDup.
Qed.

Lemma by_last_seen_elem m k r : (k, r) ∈ by_last_seen m <-> m !! k = Some r.
Proof. by rewrite (by_last_seen_perm m), elem_of_map_to_list. Qed.

Lemma shrink_size m : (base.size (shrink m) <= flow_limit)%nat.
Proof.
  unfold shrink. rewrite <- length_map_to_list, map_to_list_to_map by apply kept_NoDup.
  rewrite length_take. apply Nat.le_min_l.
Qed.

Lemma shrink_all m : (base.size m <= flow_limit)%nat -> shrink m = m.
Proof.
  intros Hle. apply map_eq. intros k. apply option_eq. intros r.
  rewrite shrink_spec, take_ge; [apply by_last_seen_elem|].
  by rewrite (Permutation_length (by_last_seen_perm m)), length_map_to_list.
Qed.

Lemma expire_spec now m k r :
  expire now m !! k = Some r <-> m !! k = Some r /\ (now - 604800) * 1000 <= last_seen r.
Proof. unfold expire. by rewrite map_lookup_filter_Some. Qed.

(** The loop is the merge of the flows, and never commits. *)
Lemma insert_flows_spec faults list d m :
  let c := {| committed := d; written := Some m |} in
  match insert_flows faults list c, upsert_all faults list m with
  | (Ok _, c'), Ok m' => c' = {| committed := d; written := Some m' |}
  | (Throw e, c'), Throw e' => e = e' /\ committed c' = d /\ written c' <> None
  | _, _ => False
  end.
Proof.
  cbv zeta. revert faults m. induction list as [|flow list IH]; intros faults m; cbn; [done|].
  destruct (upsert_flow _ flow m) as [m'|e]; cbn; [apply IH | done].
Qed.

(** What [record_flows] does, statement by statement, is the effect on the table. *)
Lemma record_flows_effect begin faults commit ended now list d :
  record_flows begin faults commit ended now list d =
  match (do? check begin; let? m := upsert_all faults (elements list) (flows d) in
         do? check commit; Ok (shrink (expire now m))) with
  | Ok m => (Ok tt, with_flows d m)
  | Throw e => (Throw e, d)
  end.
Proof.
  unfold record_flows, begin_immediate. destruct (check begin) as [u|e]; cbn; [|done].
  pose proof (insert_flows_spec faults (elements list) d (flows d)) as Hi. cbv zeta in Hi.
  destruct (insert_flows _ _ _) as [[u1|e] c], (upsert_all _ _ _) as [m|e']; try done; cbn.
  - subst c. unfold delete_and_commit. destruct (check commit) as [u2|e]; cbn; [done|].
    by destruct ended.
  - destruct Hi as (-> & Hc & Hw). destruct ended, c as [d' w]; cbn in *; subst d'; [done|].
    by destruct w.
Qed.

Lemma record_flows_settings begin faults commit ended now list d :
  settings (record_flows begin faults commit ended now list d).2 = settings d.
Proof. rewrite record_flows_effect. by destruct (do? _; _). Qed.

End Flows.

(** ** A concrete ordering, and witnesses *)

#[export] Instance newest_first_dec : RelDecision newest_first.
Proof. intros a b. unfold newest_first. apply _. Defined.
#[export] Instance newest_first_total : Total newest_first.
Proof. intros a b. unfold newest_first. lia. Qed.
#[export] Instance newest_first_trans : Transitive newest_first.
Proof. intros a b c. unfold newest_first. lia. Qed.

#[export] Instance LocalSqlite : Sqlite := {|
  real_add := fun a b => 9223372036854775807;
  protocol_sum := fun name details => 0;
  by_last_seen := fun m => merge_sort newest_first (map_to_list m)
|}.

#[export] Instance LocalSqlite_laws : @SqliteLaws LocalSqlite.
Proof.
  split; intros m; cbn; [apply merge_sort_Permutation | apply (StronglySorted_merge_sort _)].
Qed.

From S2P Require Import JsonTree.

Definition sample_db : db := {|
  settings := ∅;
  samples := {[ 60 := {| s_packets := 2; s_bytes := 120; s_details := "" |};
                119 := {| s_packets := 3; s_bytes := 300; s_details := "" |};
                120 := {| s_packets := 5; s_bytes := 700; s_details := "" |} ]};
  flows := {[ "a" := {| first_seen := 1; last_seen := 2000; f_packets := 7; f_bytes := 70;
                        f_metadata := "" |} ]}
|}.

Definition sample_rows : list bucket :=
  match history_rows 60 180 60 sample_db with Ok l => l | Throw _ => [] end.

(** Two buckets, of two samples and of one. *)
Example history_rows_sample : map b_samples sample_rows = [2; 1].
Proof. vm_compute. reflexivity. Qed.


Lemma put_get_witness :
  exists w, get None "network" (put None "network" (JString "x" : @Value JsonTree) sample_db).2 = Ok w /\
            json_equiv (JString "x" : @Value JsonTree) w.
Proof.
  apply (put_get "network" (JString "x" : @Value JsonTree) sample_db). vm_compute. lia.
Defined.

Definition sample_flow : @Value JsonTree :=
  JArray [JObject [("key", JString "a"); ("first_seen", JInt 5); ("timestamp_ms", JInt 3000);
                   ("packets", JInt 2); ("bytes", JInt 30)]].

