(* ===== verification/Schema.v ===== *)
(** * Opening the store (src/store.cpp, the constructor)

    The constructor opens or creates the database file and runs seven statements: two pragmas,
    the three tables and the index unless they exist, the version.  The file is modelled with
    the tables it has; a statement that fails stops the script, and what the earlier ones did
    stays in the file.  SQLite decides whether the journal mode can be changed: it answers the
    pragma with the mode it leaves, which for a database in memory is the old one. *)
From S2P Require Import Prelude Config Json Store.

(** The database file; [None] is a table that does not exist. *)
Record db_file := {
  wal_mode : bool;
  settings_table : option (gmap string string);
  samples_table : option (gmap Z sample_row);
  flows_table : option (gmap string flow_row);
  flows_last_seen : bool;   (** the index *)
  user_version : Z
}.

(** The file [SQLITE_OPEN_CREATE] creates. *)
Definition new_file : db_file := {|
  wal_mode := false; settings_table := None; samples_table := None; flows_table := None;
  flows_last_seen := false; user_version := 0
|}.

Inductive statement :=
| PragmaJournalMode | PragmaSynchronous
| CreateSettings | CreateSamples | CreateFlows | CreateIndex
| PragmaUserVersion.

#[export] Instance statement_eq_dec : EqDecision statement.
Proof. solve_decision. Defined.

(** The script, in order. *)
Definition schema : list statement := [
  PragmaJournalMode; PragmaSynchronous; CreateSettings; CreateSamples; CreateFlows; CreateIndex;
  PragmaUserVersion
].

Definition if_not_exists {A} (table : option A) (empty : A) : option A := Some (default empty table).

(** [wal]: SQLite can put this database in WAL mode; if not it keeps the mode, without an error.
    [PRAGMA synchronous] is the connection's, not the file's. *)
Definition run_statement (wal : bool) (s : statement) (f : db_file) : db_file :=
  {| wal_mode := if decide (s = PragmaJournalMode) then wal || wal_mode f else wal_mode f;
     settings_table := if decide (s = CreateSettings) then if_not_exists (settings_table f) ∅
                       else settings_table f;
     samples_table := if decide (s = CreateSamples) then if_not_exists (samples_table f) ∅
                      else samples_table f;
     flows_table := if decide (s = CreateFlows) then if_not_exists (flows_table f) ∅
                    else flows_table f;
     flows_last_seen := if decide (s = CreateIndex) then true else flows_last_seen f;
     user_version := if decide (s = PragmaUserVersion) then 1 else user_version f |}.

(** [sqlite3_exec]: [faults s] is the error of the statement [s], if it has one. *)
Fixpoint exec (wal : bool) (faults : statement -> option string) (script : list statement) (f : db_file)
  : result unit * db_file :=
  match script with
  | [] => (Ok tt, f)
  | s :: script' =>
      match check (faults s) with
      | Throw e => (Throw e, f)
      | Ok _ => exec wal faults script' (run_statement wal s f)
      end
  end.

(** The tables of an opened file. *)
Definition tables_of (f : db_file) : option db :=
  match settings_table f, samples_table f, flows_table f with
  | Some s, Some p, Some w => Some {| settings := s; samples := p; flows := w |}
  | _, _, _ => None
  end.

(** The outcomes of opening: [sqlite3_open_v2], the statements of the script, and whether the
    database can be in WAL mode. *)
Record open_faults := {
  of_open : option string; of_statement : statement -> option string; of_wal : bool
}.

(** [Store::Store]; the file, if there is one, and the file afterwards. *)
Definition open_store (faults : open_faults) (file : option db_file)
  : result unit * option db_file :=
  match check (of_open faults) with
  | Throw e => (Throw e, file)
  | Ok _ => let '(r, f) := exec (of_wal faults) (of_statement faults) schema (default new_file file) in
            (r, Some f)
  end.

(** ** What opening promises *)

(** The rows a file holds, with nothing in the tables it lacks. *)
Definition contents (f : db_file) : db := {|
  settings := default ∅ (settings_table f); samples := default ∅ (samples_table f);
  flows := default ∅ (flows_table f)
|}.

Lemma run_statement_contents wal s f : contents (run_statement wal s f) = contents f.
Proof.
  unfold contents. cbn. f_equal; (destruct (decide _); [|done]); by destruct (_ f).
Qed.

Lemma exec_contents wal faults script f : contents (exec wal faults script f).2 = contents f.
Proof.
  revert f. induction script as [|s script IH]; intros f; [done|]. cbn [exec].
  destruct (check (faults s)); [|done]. by rewrite IH, run_statement_contents.
Qed.

Lemma exec_ok wal faults script f u f' :
  exec wal faults script f = (Ok u, f') ->
  f' = fold_left (fun f s => run_statement wal s f) script f.
Proof.
  revert f. induction script as [|s script IH]; intros f; cbn [exec fold_left].
  - by intros [= _ <-].
  - destruct (check (faults s)); [apply IH | done].
Qed.

Lemma exec_faultless wal faults script f :
  (forall s, s ∈ script -> faults s = None) ->
  exec wal faults script f = (Ok tt, fold_left (fun f s => run_statement wal s f) script f).
Proof.
  revert f. induction script as [|s script IH]; intros f Hs; [done|]. cbn [exec fold_left].
  rewrite (Hs s) by set_solver. apply IH. set_solver.
Qed.

(** A file of version 1 with all its tables. *)
Definition complete (f : db_file) : Prop :=
  flows_last_seen f = true /\ user_version f = 1 /\
  tables_of f = Some (contents f).

Lemma schema_complete wal f :
  let f' := fold_left (fun f s => run_statement wal s f) schema f in
  complete f' /\ wal_mode f' = wal || wal_mode f.
Proof. repeat split. Qed.

Lemma schema_idempotent wal f :
  complete f -> wal = false \/ wal_mode f = true ->
  fold_left (fun f s => run_statement wal s f) schema f = f.
Proof.
  destruct f as [w st sa fl ix v]. unfold complete, tables_of. cbn. intros (-> & -> & Hf) Hw.
  destruct Hw as [->| ->]; [|destruct wal]; by destruct st, sa, fl.
Qed.

(** C39: opening the store never loses a row. Whatever fails, the rows of an existing file are
    as before and a missing file holds none; a success leaves every table present, with
    exactly those rows, the index and the version, and the database in WAL mode if SQLite can
    change its mode and in the mode it had if not; without a fault opening succeeds, and changes
    nothing in a complete file that needs no change of mode. *)
Theorem open_store_preserves faults file :
  let '(r, file') := open_store faults file in
  let before := default new_file file in
  (forall f, file' = Some f -> contents f = contents before) /\
  (is_ok r = true -> exists f, file' = Some f /\ complete f /\ tables_of f = Some (contents before) /\
     wal_mode f = of_wal faults || wal_mode before) /\
  (of_open faults = None -> (forall s, of_statement faults s = None) -> r = Ok tt /\
     (complete before -> of_wal faults = false \/ wal_mode before = true -> file' = Some before)).
Proof.
  unfold open_store. destruct (of_open faults) as [m|] eqn:Hopen; cbn [check].
  { split; [by intros f ->|]. by split. }
  pose proof (exec_contents (of_wal faults) (of_statement faults) schema (default new_file file)) as Hc.
  destruct (exec _ (of_statement faults) schema (default new_file file)) as [r f] eqn:He.
  cbn [snd] in Hc. split; [by intros ? [= <-]|]. split.
  - destruct r as [u|]; [intros _|done]. apply exec_ok in He. exists f. split; [done|].
    destruct (schema_complete (of_wal faults) (default new_file file)) as [Hf Hw].
    rewrite <- Hc, He. split; [exact Hf|]. split; [apply Hf | exact Hw].
  - intros _ Hs. rewrite exec_faultless in He by auto.
    split; [congruence|]. intros Hf Hw. f_equal.
    rewrite schema_idempotent in He by done. congruence.
Qed.

(** A file that lacks the flows and the version gets both, and keeps its settings. *)
Lemma open_store_preserves_witness :
  let file := {| wal_mode := false; settings_table := Some {["network" := "null"]};
                 samples_table := Some ∅; flows_table := None; flows_last_seen := false;
                 user_version := 0 |} in
  exists f, (open_store {| of_open := None; of_statement := fun _ => None; of_wal := true |}
               (Some file)).2 = Some f /\
    complete f /\ settings (contents f) = {["network" := "null"]}.
Proof.
  intros file.
  pose proof (open_store_preserves
    {| of_open := None; of_statement := fun _ => None; of_wal := true |} (Some file)) as (Hrows & Hok & _).
  destruct (Hok eq_refl) as (f & Hf & Hc & _). exists f. split; [exact Hf|]. split; [exact Hc|].
  rewrite (Hrows f Hf). reflexivity.
Defined.
