(* ===== verification/Sample.v ===== *)
(** * Aggregation of captured packets (server.cpp, [ApplianceRuntime::sample])

    The per-second aggregates of the runtime: protocol counts, bytes per talker, flows and the
    recent packets, each bounded; and their flush into the store.  The metrics document, which
    holds floating-point rates, is an argument of the flush. *)
From stdpp Require Import sorting.
From S2P Require Import Prelude CppStd Config Json Packet Serialize Store.

(** ** State *)

(** [std::string]'s order on the keys of a [std::map]. *)
Definition key_le {V} (x y : string * V) : Prop := String.leb x.1 y.1 = true.
#[export] Instance key_le_dec {V} : RelDecision (@key_le V).
Proof. intros x y. unfold key_le. apply _. Defined.

Section Sample.
Context `{JsonCpp} `{Sqlite}.

Record aggregates := {
  capture_interface_ : string;
  protocols_ : gmap string Z;
  talkers_ : gmap string Z;
  flows_ : gmap string Value;
  recent_ : Value;
  talkers_omitted_ : Z;
  flows_omitted_ : Z;
  previous_packets_ : Z;
  previous_bytes_ : Z;
  last_sample_ : Z;
  storage_error_ : string
}.

Definition with_protocols_ (a : aggregates) (m : gmap string Z) : aggregates := {|
  capture_interface_ := capture_interface_ a; protocols_ := m; talkers_ := talkers_ a;
  flows_ := flows_ a; recent_ := recent_ a; talkers_omitted_ := talkers_omitted_ a;
  flows_omitted_ := flows_omitted_ a; previous_packets_ := previous_packets_ a;
  previous_bytes_ := previous_bytes_ a; last_sample_ := last_sample_ a;
  storage_error_ := storage_error_ a |}.
Definition with_talkers_ (a : aggregates) (m : gmap string Z) (n : Z) : aggregates := {|
  capture_interface_ := capture_interface_ a; protocols_ := protocols_ a; talkers_ := m;
  flows_ := flows_ a; recent_ := recent_ a; talkers_omitted_ := n;
  flows_omitted_ := flows_omitted_ a; previous_packets_ := previous_packets_ a;
  previous_bytes_ := previous_bytes_ a; last_sample_ := last_sample_ a;
  storage_error_ := storage_error_ a |}.
Definition with_flows_ (a : aggregates) (m : gmap string Value) (n : Z) : aggregates := {|
  capture_interface_ := capture_interface_ a; protocols_ := protocols_ a; talkers_ := talkers_ a;
  flows_ := m; recent_ := recent_ a; talkers_omitted_ := talkers_omitted_ a;
  flows_omitted_ := n; previous_packets_ := previous_packets_ a;
  previous_bytes_ := previous_bytes_ a; last_sample_ := last_sample_ a;
  storage_error_ := storage_error_ a |}.
Definition with_recent_ (a : aggregates) (v : Value) : aggregates := {|
  capture_interface_ := capture_interface_ a; protocols_ := protocols_ a; talkers_ := talkers_ a;
  flows_ := flows_ a; recent_ := v; talkers_omitted_ := talkers_omitted_ a;
  flows_omitted_ := flows_omitted_ a; previous_packets_ := previous_packets_ a;
  previous_bytes_ := previous_bytes_ a; last_sample_ := last_sample_ a;
  storage_error_ := storage_error_ a |}.

(** What [start_capture] leaves (lines 123-127): all but [storage_error_] is reset. *)
Definition fresh_aggregates (name old_error : string) (now : Z) : aggregates := {|
  capture_interface_ := name; protocols_ := ∅; talkers_ := ∅; flows_ := ∅; recent_ := empty_array;
  talkers_omitted_ := 0; flows_omitted_ := 0; previous_packets_ := 0; previous_bytes_ := 0;
  last_sample_ := now; storage_error_ := old_error
|}.

(** ** One packet (lines 132-153) *)

Definition text_at (v : Value) (key : string) : result string :=
  let? x := at_key v key in asString x.

(** [flow.get(key, fallback)]. *)
Definition get_or (v : Value) (key : string) (fallback : Value) : result Value :=
  let? present := isMember v key in if present then at_key v key else Ok fallback.

Definition flow_key (iface : string) (p : PacketMetadata) (json : Value) : result string :=
  let? protocol := text_at json "protocol" in
  let? source_port := text_at json "source_port" in
  let? destination_port := text_at json "destination_port" in
  Ok (iface +:+ "|" +:+ source_ip p +:+ "|" +:+ destination_ip p +:+ "|" +:+ protocol +:+ "|" +:+
      source_port +:+ "|" +:+ destination_port).

(** Lines 138-144; [flow] is null for a new key. *)
Definition update_flow (iface key : string) (p : PacketMetadata) (json flow : Value) : result Value :=
  let? count := (let? x := get_or flow "packets" (of_int 0) in asInt64 x) in
  let? bytes := (let? x := get_or flow "bytes" (of_int 0) in asInt64 x) in
  let? timestamp := at_key json "timestamp_ms" in
  let? first := (let? x := get_or flow "first_seen" timestamp in asInt64 x) in
  set_keys json [("key", of_string key); ("capture_interface", of_string iface);
                 ("first_seen", of_int first); ("packets", of_int (count + 1));
                 ("bytes", of_int (bytes + wire_bytes p))].

Definition flow_limit_ : nat := Z.to_nat 4096.
Definition talker_limit_ : nat := Z.to_nat 1024.
Definition recent_limit : nat := 200.

(** [m.contains(key) || m.size() < limit]. *)
Definition admits {V} (limit : nat) (m : gmap string V) (key : string) : bool :=
  bool_decide (is_Some (m !! key)) || (base.size m <? limit)%nat.

Definition track_flow (p : PacketMetadata) (json : Value) (a : aggregates) : result aggregates :=
  if String.eqb (source_ip p) "" then Ok a else
  let? key := flow_key (capture_interface_ a) p json in
  if admits flow_limit_ (flows_ a) key then
    let? flow := update_flow (capture_interface_ a) key p json (default null (flows_ a !! key)) in
    Ok (with_flows_ a (<[key := flow]> (flows_ a)) (flows_omitted_ a))
  else Ok (with_flows_ a (flows_ a) (u64 (flows_omitted_ a + 1))).

Definition count_protocol (json : Value) (a : aggregates) : result aggregates :=
  let? name := text_at json "protocol" in
  Ok (with_protocols_ a (<[name := u64 (default 0 (protocols_ a !! name) + 1)]> (protocols_ a))).

Definition track_talker (p : PacketMetadata) (a : aggregates) : aggregates :=
  if String.eqb (source_ip p) "" then a else
  if admits talker_limit_ (talkers_ a) (source_ip p) then
    with_talkers_ a
      (<[source_ip p := u64 (default 0 (talkers_ a !! source_ip p) + wire_bytes p)]> (talkers_ a))
      (talkers_omitted_ a)
  else with_talkers_ a (talkers_ a) (u64 (talkers_omitted_ a + 1)).

Definition process_packet (p : PacketMetadata) (a : aggregates) : result aggregates :=
  let? json := packet_json p in
  let? a := track_flow p json a in
  let? a := count_protocol json a in
  let a := track_talker p a in
  let? recent := append (recent_ a) json in
  Ok (with_recent_ a recent).

Fixpoint process_packets (ps : list PacketMetadata) (a : aggregates) : result aggregates :=
  match ps with
  | [] => Ok a
  | p :: ps' => let? a := process_packet p a in process_packets ps' a
  end.

(** Lines 154-158. *)
Definition trim_recent (a : aggregates) : result aggregates :=
  let n := length (elements (recent_ a)) in
  if (recent_limit <? n)%nat then
    let? tail := append_all Ok empty_array (drop (n - recent_limit) (elements (recent_ a))) in
    Ok (with_recent_ a tail)
  else Ok a.

(** ** The flush (lines 159-192) *)

(** The flows in the order of the [std::map]. *)
Definition flow_values (a : aggregates) : list Value :=
  map snd (merge_sort key_le (map_to_list (flows_ a))).

(** The outcomes of the statements of [record_flows]. *)
Record flow_faults := {
  fl_begin : option string; fl_upserts : list (option string); fl_commit : option string;
  fl_ended : bool
}.

Definition no_flow_faults : flow_faults :=
  {| fl_begin := None; fl_upserts := []; fl_commit := None; fl_ended := false |}.

(** Lines 183-192.  [packets] and [bytes] are the engine's counters, [seconds] the system clock
    and [sql_now] SQLite's. *)
Definition flush (sample_faults : option string * option string)
    (faults : flow_faults) (now seconds sql_now packets bytes : Z) (metrics : Value) (a : aggregates) (d : db)
  : aggregates * db :=
  let delta_packets := u64 (packets - previous_packets_ a) in
  let delta_bytes := u64 (bytes - previous_bytes_ a) in
  let '(r1, d1) := sample sample_faults.1 sample_faults.2 seconds delta_packets delta_bytes metrics d in
  let '(r, d2) :=
    match r1 with
    | Throw e => (Throw e, d1)
    | Ok _ =>
        match append_all Ok empty_array (flow_values a) with
        | Throw e => (Throw e, d1)
        | Ok flows =>
            record_flows (fl_begin faults) (fl_upserts faults) (fl_commit faults) (fl_ended faults)
              sql_now flows d1
        end
    end in
  ({| capture_interface_ := capture_interface_ a; protocols_ := ∅; talkers_ := ∅; flows_ := ∅;
      recent_ := recent_ a; talkers_omitted_ := 0; flows_omitted_ := 0;
      previous_packets_ := packets; previous_bytes_ := bytes; last_sample_ := now;
      storage_error_ := match r with Ok _ => "" | Throw e => what e end |}, d2).
End Sample.

(** ** Specification *)

Definition sum_bytes (ps : list PacketMetadata) : Z := sum_of wire_bytes ps.

(** The key a packet is tracked under, if it is tracked. *)
Definition talker_of (p : PacketMetadata) : option string :=
  if String.eqb (source_ip p) "" then None else Some (source_ip p).

Definition port_text (port : option Z) : string :=
  match port with Some n => to_string n | None => "" end.

Definition flow_of (iface : string) (p : PacketMetadata) : option string :=
  if String.eqb (source_ip p) "" then None
  else Some (iface +:+ "|" +:+ source_ip p +:+ "|" +:+ destination_ip p +:+ "|" +:+
             protocol_name (protocol p) +:+ "|" +:+ port_text (source_port p) +:+ "|" +:+
             port_text (destination_port p)).

(** ** Bounded accumulation: what flows and talkers share *)

Section Bounded.
Context {V : Type} (limit : nat) (key : PacketMetadata -> option string)
  (R : string -> V -> list PacketMetadata -> Prop).

Definition of_key (k : string) (ps : list PacketMetadata) : list PacketMetadata :=
  List.filter (fun p => bool_decide (key p = Some k)) ps.

(** The packets whose key the map has no room for. *)
Definition left_out (m : gmap string V) (p : PacketMetadata) : bool :=
  match key p with Some k => bool_decide (m !! k = None) | None => false end.
Definition omitted_in (m : gmap string V) (ps : list PacketMetadata) : list PacketMetadata :=
  List.filter (left_out m) ps.

(** The map holds, for each of its keys, an account of all packets of that key; [n] counts the
    packets of the other keys; and there are such packets only if the map is full. *)
Record bounded (ps : list PacketMetadata) (m : gmap string V) (n : Z) : Prop := {
  bd_exact k v : m !! k = Some v -> R k v (of_key k ps);
  bd_omitted : n = u64 (Z.of_nat (length (omitted_in m ps)));
  bd_size : (base.size m <= limit)%nat;
  bd_full p : p ∈ ps -> left_out m p = true -> base.size m = limit
}.

Lemma of_key_app k ps qs : of_key k (ps ++ qs) = of_key k ps ++ of_key k qs.
Proof. apply List.filter_app. Qed.

Lemma of_key_one k p : of_key k [p] = if bool_decide (key p = Some k) then [p] else [].
Proof. done. Qed.

Lemma omitted_app m ps qs : omitted_in m (ps ++ qs) = omitted_in m ps ++ omitted_in m qs.
Proof. apply List.filter_app. Qed.

Lemma bounded_empty : bounded [] ∅ 0.
Proof. split; [done|done|rewrite map_size_empty; lia|intros p Hp; by apply elem_of_nil in Hp]. Qed.

Lemma admits_spec (m : gmap string V) k :
  admits limit m k = true <-> is_Some (m !! k) \/ (base.size m < limit)%nat.
Proof. unfold admits. by rewrite orb_true_iff, bool_decide_eq_true, Nat.ltb_lt. Qed.

(** A key that is admitted and new had no packet before. *)
Lemma bounded_new ps m n k :
  bounded ps m n -> m !! k = None -> admits limit m k = true -> of_key k ps = [].
Proof.
  intros Hb Hk [[v Hv]|Hlt]%admits_spec; [congruence|].
  destruct (of_key k ps) as [|p l] eqn:E; [done|].
  assert (In p (of_key k ps)) as [Hin Hp]%List.filter_In by (rewrite E; by left).
  apply bool_decide_eq_true in Hp. apply list_elem_of_In in Hin.
  pose proof (bd_full _ _ _ Hb p Hin) as Hfull. unfold left_out in Hfull.
  rewrite Hp, bool_decide_true in Hfull by done. specialize (Hfull eq_refl). lia.
Qed.

Lemma bounded_skip ps m n p : key p = None -> bounded ps m n -> bounded (ps ++ [p]) m n.
Proof.
  intros Hp [He Ho Hs Hf].
  assert (left_out m p = false) as Hl by (unfold left_out; by rewrite Hp). split.
  - intros k v Hv. rewrite of_key_app, of_key_one, bool_decide_false, app_nil_r by congruence. auto.
  - rewrite omitted_app. cbn. rewrite Hl, app_nil_r. done.
  - done.
  - intros q [Hq|Hq%list_elem_of_singleton]%elem_of_app Hout; [by eapply Hf|]. congruence.
Qed.

Lemma bounded_insert ps m n p k v :
  key p = Some k -> admits limit m k = true -> R k v (of_key k ps ++ [p]) ->
  bounded ps m n -> bounded (ps ++ [p]) (<[k := v]> m) n.
Proof.
  intros Hp Ha HR Hb.
  assert (forall q, q ∈ ps -> left_out (<[k := v]> m) q = left_out m q) as Hsame.
  { intros q Hq. unfold left_out. destruct (key q) as [k'|] eqn:Hk; [|done].
    destruct (decide (k' = k)) as [->|Hne]; [|by rewrite lookup_insert_ne by done].
    rewrite lookup_insert_eq, !bool_decide_false; [done| |done]. intros Hnone.
    pose proof (bounded_new ps m n k Hb Hnone Ha) as Hnil.
    assert (In q (of_key k ps)) as Hin
      by (apply List.filter_In; split; [by apply list_elem_of_In | by apply bool_decide_eq_true]).
    by rewrite Hnil in Hin. }
  assert (left_out (<[k := v]> m) p = false) as Hl.
  { unfold left_out. by rewrite Hp, lookup_insert_eq. }
  destruct Hb as [He Ho Hs Hf]. split.
  - intros k' v' Hv'. rewrite of_key_app, of_key_one. destruct (decide (k' = k)) as [->|Hne].
    + rewrite lookup_insert_eq in Hv'. injection Hv' as <-. by rewrite bool_decide_true.
    + rewrite lookup_insert_ne in Hv' by done.
      rewrite bool_decide_false, app_nil_r by congruence. auto.
  - rewrite omitted_app. cbn. rewrite Hl, app_nil_r, Ho. do 3 f_equal.
    unfold omitted_in. apply List.filter_ext_in. intros q Hq%list_elem_of_In. by rewrite Hsame.
  - rewrite map_size_insert. apply admits_spec in Ha as [[w Hw]|Hlt].
    + by rewrite Hw.
    + destruct (m !! k); cbn; lia.
  - intros q [Hq|Hq%list_elem_of_singleton]%elem_of_app Hout; [|congruence].
    rewrite Hsame in Hout by done. pose proof (Hf q Hq Hout) as Hfull.
    apply admits_spec in Ha as [[w Hw]|Hlt]; [|lia]. rewrite map_size_insert, Hw. done.
Qed.

Lemma bounded_omit ps m n p k :
  key p = Some k -> admits limit m k = false ->
  bounded ps m n -> bounded (ps ++ [p]) m (u64 (n + 1)).
Proof.
  intros Hp Ha [He Ho Hs Hf].
  assert (m !! k = None /\ (limit <= base.size m)%nat) as [Hk Hge].
  { split; [apply eq_None_not_Some | apply Nat.nlt_ge]; intros Hc;
      apply not_true_iff_false in Ha; apply Ha, admits_spec; auto. }
  assert (left_out m p = true) as Hl by (unfold left_out; by rewrite Hp, bool_decide_true). split.
  - intros k' v Hv. rewrite of_key_app, of_key_one, bool_decide_false, app_nil_r; [auto|]. congruence.
  - rewrite omitted_app, length_app. cbn. rewrite Hl, Ho. cbn. unfold u64.
    rewrite Z.add_mod_idemp_l by done. f_equal. lia.
  - done.
  - intros q _ _. lia.
Qed.
End Bounded.

(** ** The invariant of the aggregates *)

Section Exact.
Context `{JL : JsonCppLaws} `{Sqlite}.

(** A flow's document accounts for the packets [l] of its key. *)
Record flow_account (k : string) (v : Value) (l : list PacketMetadata) : Prop := {
  fa_object : type v = objectValue;
  fa_key : at_key v "key" = Ok (of_string k);
  fa_packets : at_key v "packets" = Ok (of_int (Z.of_nat (length l)));
  fa_bytes : at_key v "bytes" = Ok (of_int (sum_bytes l));
  fa_first : exists p, head l = Some p /\ at_key v "first_seen" = Ok (of_int (timestamp_ms p));
  fa_last : exists p, last l = Some p /\ at_key v "timestamp_ms" = Ok (of_int (timestamp_ms p))
}.

Definition talker_account (k : string) (n : Z) (l : list PacketMetadata) : Prop :=
  n = u64 (sum_bytes l).

Definition of_protocol (name : string) (ps : list PacketMetadata) : list PacketMetadata :=
  List.filter (fun p => bool_decide (protocol_name (protocol p) = name)) ps.

(** What the aggregates say of the packets processed since they were fresh. *)
Record exact (ps : list PacketMetadata) (a : aggregates) : Prop := {
  ex_talkers : bounded talker_limit_ talker_of talker_account ps (talkers_ a) (talkers_omitted_ a);
  ex_flows : bounded flow_limit_ (flow_of (capture_interface_ a)) flow_account ps (flows_ a)
               (flows_omitted_ a);
  ex_protocols name : default 0 (protocols_ a !! name) = u64 (Z.of_nat (length (of_protocol name ps)));
  ex_recent : type (recent_ a) = arrayValue /\
    Forall2 (fun v p => packet_json p = Ok v) (elements (recent_ a)) ps
}.

(** The members' types, and a capture time within 64 bits of milliseconds. *)
Definition packet_ok (p : PacketMetadata) : Prop := packet_typed p /\ in_s64 (timestamp_ms p).

(** ** One packet *)

Lemma packet_json_spec p :
  exists v, packet_json p = Ok v /\ type v = objectValue /\
    at_key v "protocol" = Ok (of_string (protocol_name (protocol p))) /\
    at_key v "source_port" = Ok (port_value (source_port p)) /\
    at_key v "destination_port" = Ok (port_value (destination_port p)) /\
    at_key v "timestamp_ms" = Ok (of_int (timestamp_ms p)).
Proof.
  unfold packet_json.
  match goal with |- context [set_keys null ?l] =>
    destruct (set_keys_keyed null l keyed_null) as (v & -> & Ht & _ & Hat & _) end.
  exists v. split; [done|]. split; [by apply Ht|]. by rewrite !Hat.
Qed.

Lemma port_text_spec port : port_typed port -> asString (port_value port) = Ok (port_text port).
Proof.
  destruct port as [n|]; cbn; [|intros _; apply asString_null].
  intros Hn. apply asString_of_int. lia.
Qed.

Lemma flow_key_spec iface p json :
  packet_ok p -> packet_json p = Ok json -> source_ip p <> "" ->
  exists k, flow_of iface p = Some k /\ flow_key iface p json = Ok k.
Proof.
  intros [(_ & Hs & Hd) _] Hj Hip. destruct (packet_json_spec p) as (v & Hv & _ & Hp & Hsp & Hdp & _).
  replace v with json in * by congruence. unfold flow_of, flow_key, text_at.
  rewrite (proj2 (String.eqb_neq _ _) Hip), Hp, Hsp, Hdp. cbn [rbind].
  rewrite asString_of_string, !port_text_spec by done. cbn [rbind]. eauto.
Qed.

(** The counters of the flow the packet is added to. *)
Lemma flow_counters iface k p json flow l :
  packet_ok p -> packet_json p = Ok json ->
  (flow = null /\ l = [] \/ flow_account k flow l) ->
  in_s64 (Z.of_nat (length l)) -> in_s64 (sum_bytes l) -> Forall packet_ok l ->
  exists v, update_flow iface k p json flow = Ok v /\ flow_account k v (l ++ [p]).
Proof.
  intros [_ Hts] Hj Hflow Hlen Hsum Hall.
  destruct (packet_json_spec p) as (v & Hv & Ht & _ & _ & _ & Hat).
  replace v with json in * by congruence. clear v Hv.
  assert (exists q, head (l ++ [p]) = Some q /\ in_s64 (timestamp_ms q) /\
    get_or flow "packets" (of_int 0) = Ok (of_int (Z.of_nat (length l))) /\
    get_or flow "bytes" (of_int 0) = Ok (of_int (sum_bytes l)) /\
    get_or flow "first_seen" (of_int (timestamp_ms p)) = Ok (of_int (timestamp_ms q)))
    as (q & Hq & Hqt & Hc & Hb & Hf).
  { unfold get_or. destruct Hflow as [[-> ->]|[Ho _ Hc Hb (q & Hq & Hf) _]].
    - exists p. rewrite !isMember_null. cbn. auto.
    - exists q. assert (forall name n, at_key flow name = Ok (of_int n) -> isMember flow name = Ok true)
        as Hmem.
      { intros name n Hn. destruct (isMember_keyed flow name ltac:(by right)) as [[] Hm]; [done|].
        apply at_key_missing in Hm. assert (null = of_int n) as Heq by congruence.
        apply (f_equal type) in Heq. by rewrite type_null, type_of_int in Heq. }
      rewrite (Hmem _ _ Hc), (Hmem _ _ Hb), (Hmem _ _ Hf). cbn [rbind].
      destruct l as [|q' l]; [done|]. injection Hq as ->. cbn [head app].
      apply Forall_cons in Hall as [[_ Hqt] _]. auto 10. }
  unfold update_flow. rewrite Hc, Hb, Hat. cbn [rbind]. rewrite Hf. cbn [rbind].
  rewrite !asInt64_of_int by done. cbn [rbind].
  match goal with |- context [set_keys json ?l] =>
    destruct (set_keys_keyed json l (keyed_object _ Ht)) as (v & -> & Hvt & _ & Hvat & _) end.
  exists v. split; [done|]. split.
  - by apply Hvt.
  - by rewrite Hvat.
  - rewrite Hvat. cbn. rewrite length_app. cbn. do 2 f_equal. lia.
  - rewrite Hvat. cbn. unfold sum_bytes. rewrite sum_of_app, sum_of_cons. do 2 f_equal.
    unfold sum_of at 3. cbn. lia.
  - exists q. split; [done|]. by rewrite Hvat.
  - exists p. split; [by rewrite last_snoc|]. by rewrite Hvat.
Qed.
(** The totals stay within 64 bits. *)
Definition small (ps : list PacketMetadata) : Prop :=
  Forall packet_ok ps /\ Z.of_nat (length ps) < 2 ^ 63 /\ sum_bytes ps < 2 ^ 63.

Lemma sum_bytes_nonneg ps : Forall packet_ok ps -> 0 <= sum_bytes ps.
Proof.
  induction 1 as [|p ps [[Hp _] _] _ IH]; [done|]. unfold sum_bytes in *. rewrite sum_of_cons. lia.
Qed.

Lemma small_filter f ps : small ps -> small (List.filter f ps).
Proof.
  intros (Hall & Hl & Hs). revert Hl Hs. induction Hall as [|p ps Hp Hall IH]; intros Hl Hs; [done|].
  pose proof (sum_bytes_nonneg ps Hall) as Hnn. destruct (id Hp) as [[Hw _] _].
  unfold sum_bytes in *. rewrite sum_of_cons in Hs. cbn [length] in Hl.
  destruct IH as (Ha & Hb & Hc); [lia|lia|]. cbn [List.filter]. destruct (f p); [|done].
  assert (length (List.filter f ps) <= length ps)%nat as Hfl by apply List.filter_length_le.
  assert (sum_of wire_bytes (List.filter f ps) <= sum_of wire_bytes ps) as Hfs.
  { clear -Hall. induction Hall as [|q ps [[Hq _] _] _ IH]; [done|]. cbn [List.filter].
    destruct (f q); rewrite !sum_of_cons; lia. }
  split; [by constructor|]. cbn [length]. unfold sum_bytes. rewrite sum_of_cons. lia.
Qed.

Lemma small_ranges ps : small ps -> in_s64 (Z.of_nat (length ps)) /\ in_s64 (sum_bytes ps).
Proof. intros (Hall & ? & ?). pose proof (sum_bytes_nonneg ps Hall). lia. Qed.

Lemma small_app ps qs : small (ps ++ qs) -> small ps.
Proof.
  intros (Hall & Hl & Hs). apply Forall_app in Hall as [H1 H2].
  pose proof (sum_bytes_nonneg qs H2). unfold sum_bytes in *. rewrite sum_of_app in Hs.
  rewrite length_app in Hl. split; [done|]. unfold sum_bytes. lia.
Qed.

Lemma track_flow_exact ps p json a :
  small ps -> packet_ok p -> packet_json p = Ok json ->
  bounded flow_limit_ (flow_of (capture_interface_ a)) flow_account ps (flows_ a) (flows_omitted_ a) ->
  exists m n, track_flow p json a = Ok (with_flows_ a m n) /\
    bounded flow_limit_ (flow_of (capture_interface_ a)) flow_account (ps ++ [p]) m n.
Proof.
  intros Hsmall Hok Hj Hb. unfold track_flow. destruct (String.eqb_spec (source_ip p) "") as [Hip|Hip].
  - exists (flows_ a), (flows_omitted_ a). split; [by destruct a|].
    apply bounded_skip; [|done]. unfold flow_of. by rewrite Hip.
  - destruct (flow_key_spec (capture_interface_ a) p json Hok Hj Hip) as (k & Hk & ->). cbn [rbind].
    destruct (admits flow_limit_ (flows_ a) k) eqn:Ha.
    + set (l := of_key (flow_of (capture_interface_ a)) k ps).
      assert (small l) as Hl by by apply small_filter.
      destruct (small_ranges l Hl) as [H1 H2].
      destruct (flow_counters (capture_interface_ a) k p json (default null (flows_ a !! k)) l)
        as (v & -> & Hv); try done.
      { destruct (flows_ a !! k) as [v|] eqn:Hv; [right; by apply (bd_exact _ _ _ _ _ _ Hb)|].
        left. split; [done|]. by eapply bounded_new. }
      { apply Hl. }
      cbn [rbind]. do 2 eexists. split; [done|]. by apply bounded_insert.
    + do 2 eexists. split; [done|]. by eapply bounded_omit.
Qed.

Lemma track_talker_exact ps p a :
  bounded talker_limit_ talker_of talker_account ps (talkers_ a) (talkers_omitted_ a) ->
  exists m n, track_talker p a = with_talkers_ a m n /\
    bounded talker_limit_ talker_of talker_account (ps ++ [p]) m n.
Proof.
  intros Hb. unfold track_talker. destruct (String.eqb_spec (source_ip p) "") as [Hip|Hip].
  - exists (talkers_ a), (talkers_omitted_ a). split; [by destruct a|].
    apply bounded_skip; [|done]. unfold talker_of. by rewrite Hip.
  - assert (talker_of p = Some (source_ip p)) as Hk
      by (unfold talker_of; by rewrite (proj2 (String.eqb_neq _ _) Hip)).
    destruct (admits talker_limit_ (talkers_ a) (source_ip p)) eqn:Ha.
    + do 2 eexists. split; [done|]. apply bounded_insert; try done.
      unfold talker_account, sum_bytes. rewrite sum_of_app, sum_of_cons.
      destruct (talkers_ a !! source_ip p) as [n|] eqn:Hn.
      * apply (bd_exact _ _ _ _ _ _ Hb) in Hn. unfold talker_account, sum_bytes in Hn.
        cbn [from_option id]. rewrite Hn. unfold u64.
        rewrite Z.add_mod_idemp_l by done. f_equal. unfold sum_of at 3. cbn. lia.
      * rewrite (bounded_new _ _ _ _ _ _ _ Hb Hn Ha). cbn. unfold sum_of. cbn. f_equal. lia.
    + do 2 eexists. split; [done|]. by eapply bounded_omit.
Qed.

(** The C++ protocol names are distinct. *)
Lemma count_protocol_exact ps p json a :
  packet_json p = Ok json ->
  (forall name, default 0 (protocols_ a !! name) = u64 (Z.of_nat (length (of_protocol name ps)))) ->
  exists m, count_protocol json a = Ok (with_protocols_ a m) /\
    forall name, default 0 (m !! name) = u64 (Z.of_nat (length (of_protocol name (ps ++ [p])))).
Proof.
  intros Hj Hall. destruct (packet_json_spec p) as (v & Hv & _ & Hp & _).
  replace v with json in * by congruence. unfold count_protocol, text_at. rewrite Hp. cbn [rbind].
  rewrite asString_of_string. cbn [rbind]. eexists. split; [done|]. intros name.
  unfold of_protocol. rewrite List.filter_app, length_app. cbn [List.filter].
  destruct (decide (protocol_name (protocol p) = name)) as [<-|Hne].
  - rewrite lookup_insert_eq, bool_decide_true by done. cbn. rewrite Hall. unfold of_protocol, u64.
    rewrite Z.add_mod_idemp_l by done. f_equal. lia.
  - rewrite lookup_insert_ne, bool_decide_false by done. cbn. by rewrite Nat.add_0_r.
Qed.

Lemma process_packet_exact ps p a :
  small ps -> packet_ok p -> exact ps a ->
  exists a', process_packet p a = Ok a' /\ exact (ps ++ [p]) a' /\
    capture_interface_ a' = capture_interface_ a.
Proof.
  intros Hsmall Hok [Ht Hf Hp [Hrt Hr]]. unfold process_packet.
  destruct (packet_json_spec p) as (json & Hj & _). rewrite Hj. cbn [rbind].
  destruct (track_flow_exact ps p json a Hsmall Hok Hj Hf) as (mf & nf & -> & Hf'). cbn [rbind].
  destruct (count_protocol_exact ps p json (with_flows_ a mf nf) Hj Hp) as (mp & -> & Hp').
  cbn [rbind].
  destruct (track_talker_exact ps p (with_protocols_ (with_flows_ a mf nf) mp) Ht)
    as (mt & nt & -> & Ht').
  destruct (append_array (recent_ a) json ltac:(by right)) as (v & Hv & Hvt & Hve).
  cbn [recent_ with_talkers_ with_protocols_ with_flows_]. rewrite Hv. cbn [rbind].
  eexists. split; [done|]. split; [|done]. split; cbn; try done.
  split; [done|]. rewrite Hve. apply Forall2_app; [done|]. by constructor.
Qed.

Lemma process_packets_app ps qs a :
  process_packets (ps ++ qs) a = let? a' := process_packets ps a in process_packets qs a'.
Proof.
  revert a. induction ps as [|p ps IH]; intros a; [done|]. cbn.
  destruct (process_packet p a); cbn; [apply IH|done].
Qed.

Lemma process_packets_exact iface err now ps :
  small ps ->
  exists a, process_packets ps (fresh_aggregates iface err now) = Ok a /\ exact ps a /\
    capture_interface_ a = iface.
Proof.
  induction ps as [|p ps IH] using rev_ind; intros Hsmall.
  - eexists. split; [done|]. split; [|done]. split; try apply bounded_empty; [done|].
    split; [apply type_empty_array|]. cbn. rewrite elements_empty. constructor.
  - destruct (IH (small_app _ _ Hsmall)) as (a & Ha & Hex & Hi).
    pose proof (proj1 Hsmall) as Hall. apply Forall_app in Hall as [_ Hp%Forall_inv].
    destruct (process_packet_exact ps p a) as (a' & Ha' & Hex' & Hi'); eauto using small_app.
    exists a'. rewrite process_packets_app, Ha. cbn. rewrite Ha'. cbn. split_and!; congruence || done.
Qed.
(** C35: exact accounting. Starting a capture and processing any packets whose totals fit 64
    bits never throws, and leaves: for every protocol, the number of its packets; at most 1024
    talkers and at most 4096 flows, each with the exact totals of all its packets (counts, bytes,
    first and last time); the number of packets that found no room, which is positive only
    if the map is full; and the packets, in order, in the recent list. *)
Theorem aggregates_exact iface err now ps :
  small ps ->
  exists a, process_packets ps (fresh_aggregates iface err now) = Ok a /\ exact ps a /\
    (base.size (talkers_ a) <= 1024)%nat /\ (base.size (flows_ a) <= 4096)%nat.
Proof.
  intros Hsmall. destruct (process_packets_exact iface err now ps Hsmall) as (a & Ha & Hex & _).
  exists a. split; [done|]. split; [done|]. destruct Hex as [[_ _ Ht _] [_ _ Hf _] _ _].
  unfold talker_limit_, flow_limit_ in *. lia.
Qed.

(** ** The recent packets and the flush *)

Lemma append_all_ok (l : list Value) acc :
  type acc = arrayValue ->
  exists v, append_all Ok acc l = Ok v /\ type v = arrayValue /\ elements v = elements acc ++ l.
Proof.
  revert acc. induction l as [|x l IH]; intros acc Hacc; cbn.
  - exists acc. by rewrite app_nil_r.
  - destruct (append_array acc x ltac:(by right)) as (v & -> & Hv & He). cbn [rbind].
    destruct (IH v Hv) as (w & Hw & Hwt & Hwe). exists w. split; [done|]. split; [done|].
    by rewrite Hwe, He, <- app_assoc.
Qed.

(** *** Shapes and sizes, whatever the packets *)

Record tables_bounded (a : aggregates) : Prop := {
  tb_recent : type (recent_ a) = arrayValue;
  tb_flows : (base.size (flows_ a) <= flow_limit_)%nat;
  tb_talkers : (base.size (talkers_ a) <= talker_limit_)%nat
}.

Lemma admits_insert_size {V} limit (m : gmap string V) k v :
  (base.size m <= limit)%nat -> admits limit m k = true -> (base.size (<[k := v]> m) <= limit)%nat.
Proof.
  intros Hs Ha. unfold admits in Ha. apply orb_true_iff in Ha as [Ha|Ha].
  - apply bool_decide_eq_true in Ha as [w Hw]. rewrite map_size_insert_Some; [done|by exists w].
  - apply Nat.ltb_lt in Ha. rewrite map_size_insert. destruct (m !! k); unfold id; lia.
Qed.

Lemma process_packet_bounded p a a' :
  tables_bounded a -> process_packet p a = Ok a' -> tables_bounded a'.
Proof.
  intros [Hr Hf Ht]. unfold process_packet.
  destruct (packet_json p) as [json|]; cbn [rbind]; [|done].
  destruct (track_flow p json a) as [a1|] eqn:H1; cbn [rbind]; [|done].
  assert (recent_ a1 = recent_ a /\ talkers_ a1 = talkers_ a /\
          (base.size (flows_ a1) <= flow_limit_)%nat) as (Hr1 & Ht1 & Hf1).
  { unfold track_flow in H1. destruct (String.eqb _ _); [by injection H1 as <-|].
    destruct (flow_key _ _ _) as [k|]; cbn [rbind] in H1; [|done].
    destruct (admits flow_limit_ (flows_ a) k) eqn:Ha; [|by injection H1 as <-].
    destruct (update_flow _ _ _ _ _) as [v|]; cbn [rbind] in H1; [|done]. injection H1 as <-.
    split; [done|]. split; [done|]. by apply admits_insert_size. }
  destruct (count_protocol json a1) as [a2|] eqn:H2; cbn [rbind]; [|done].
  unfold count_protocol in H2. destruct (text_at json "protocol"); cbn [rbind] in H2; [|done].
  injection H2 as <-. cbv zeta.
  match goal with |- context [track_talker p ?b] => set (a2 := b) end.
  assert (recent_ (track_talker p a2) = recent_ a /\ flows_ (track_talker p a2) = flows_ a1 /\
          (base.size (talkers_ (track_talker p a2)) <= talker_limit_)%nat) as (Hr3 & Hf3 & Ht3).
  { unfold track_talker. destruct (String.eqb _ _); [by subst a2; rewrite <- Ht1 in Ht|].
    destruct (admits talker_limit_ (talkers_ a2) (source_ip p)) eqn:Ha;
      (split; [done|]; split; [done|]); subst a2; rewrite <- Ht1 in Ht; [|done].
    by apply admits_insert_size. }
  rewrite Hr3. destruct (append_array (recent_ a) json ltac:(by right)) as (v & -> & Hv & _).
  cbn [rbind]. intros [= <-]. split; cbn; [done| |done]. by rewrite Hf3.
Qed.

Lemma process_packets_bounded ps a a' :
  tables_bounded a -> process_packets ps a = Ok a' -> tables_bounded a'.
Proof.
  revert a. induction ps as [|p ps IH]; cbn; intros a Ha; [by intros [= <-]|].
  destruct (process_packet p a) as [a1|] eqn:Hp; cbn; [|done]. apply IH.
  by eapply process_packet_bounded.
Qed.

(** The interface is only set by [start_capture]. *)
Lemma process_packet_interface p a a' :
  process_packet p a = Ok a' -> capture_interface_ a' = capture_interface_ a.
Proof.
  unfold process_packet, track_flow, count_protocol, track_talker. intros Hp. r_inv.
  repeat (case_match; r_inv); done.
Qed.

Lemma process_packets_interface ps a a' :
  process_packets ps a = Ok a' -> capture_interface_ a' = capture_interface_ a.
Proof.
  revert a. induction ps as [|p ps IH]; cbn; intros a; [by intros [= <-]|].
  destruct (process_packet p a) as [a1|] eqn:Hp; cbn [rbind]; [|done]. intros Ha.
  rewrite (IH a1 Ha). by eapply process_packet_interface.
Qed.

Lemma trim_recent_spec a :
  type (recent_ a) = arrayValue ->
  exists v, trim_recent a = Ok (with_recent_ a v) /\ type v = arrayValue /\
    elements v = drop (length (elements (recent_ a)) - 200) (elements (recent_ a)).
Proof.
  intros Ht. unfold trim_recent. fold recent_limit.
  destruct (Nat.ltb_spec recent_limit (length (elements (recent_ a)))) as [Hlt|Hge].
  - destruct (append_all_ok (drop (length (elements (recent_ a)) - recent_limit)
      (elements (recent_ a))) empty_array type_empty_array) as (v & -> & Hv & He).
    exists v. split; [done|]. split; [done|]. by rewrite He, elements_empty.
  - exists (recent_ a). split; [by destruct a|]. split; [done|].
    replace (length _ - recent_limit)%nat with 0%nat by lia. done.
Qed.

(** The recent list. Trimming keeps exactly the last 200 packets, in order, and nothing else
    changes. *)
Theorem trim_recent_last a :
  type (recent_ a) = arrayValue ->
  exists v, trim_recent a = Ok (with_recent_ a v) /\ type v = arrayValue /\
    elements v = drop (length (elements (recent_ a)) - 200) (elements (recent_ a)).
Proof. apply trim_recent_spec. Qed.

(** The row a flow's document is merged into. *)
Definition merged_row (old : option flow_row) (k : string) (v : Value) (l : list PacketMetadata)
    (row : flow_row) : Prop :=
  match old with
  | None => f_packets row = Z.of_nat (length l) /\ f_bytes row = sum_bytes l /\
      exists p, head l = Some p /\ first_seen row = timestamp_ms p
  | Some old => f_packets row = sql_add (f_packets old) (Z.of_nat (length l)) /\
      f_bytes row = sql_add (f_bytes old) (sum_bytes l) /\ first_seen row = first_seen old
  end /\ f_metadata row = json_text v /\
  exists p, last l = Some p /\ last_seen row = timestamp_ms p.

Lemma upsert_account k v l m :
  flow_account k v l -> small l ->
  exists row, upsert_flow None v m = Ok (<[k := row]> m) /\ merged_row (m !! k) k v l row.
Proof.
  intros [_ Hk Hp Hb (q & Hq & Hfst) (r & Hr & Hlst)] Hsmall.
  destruct (small_ranges l Hsmall) as [H1 H2]. destruct Hsmall as (Hall & _).
  assert (in_s64 (timestamp_ms q) /\ in_s64 (timestamp_ms r)) as [Hqt Hrt].
  { rewrite Forall_forall in Hall. split; apply Hall.
    - destruct l; [done|]. injection Hq as ->. by left.
    - by apply last_Some_elem_of. }
  unfold upsert_flow, int_at. rewrite Hk, Hp, Hb, Hfst, Hlst. cbn [rbind].
  rewrite asString_of_string, !asInt64_of_int by done. cbn [rbind check].
  eexists. split; [done|]. unfold merged_row.
  destruct (m !! k); cbn; (split; [|split; [done | by exists r]]); [done|].
  split; [done|]. split; [done|]. by exists q.
Qed.

Lemma upsert_all_account (kvs : list (string * Value)) ps (key : PacketMetadata -> option string) m :
  small ps -> NoDup kvs.*1 ->
  (forall k v, (k, v) ∈ kvs -> flow_account k v (of_key key k ps)) ->
  exists m', upsert_all [] kvs.*2 m = Ok m' /\
    (forall k, k ∉ kvs.*1 -> m' !! k = m !! k) /\
    (forall k v, (k, v) ∈ kvs -> exists row, m' !! k = Some row /\
       merged_row (m !! k) k v (of_key key k ps) row).
Proof.
  intros Hsmall. revert m. induction kvs as [|[k v] kvs IH]; intros m Hnd Hacc.
  - exists m. split; [done|]. split; [done|]. intros ? ? Hin. by apply elem_of_nil in Hin.
  - cbn [fmap list_fmap fst snd] in *. apply NoDup_cons in Hnd as [Hnin Hnd].
    destruct (upsert_account k v (of_key key k ps) m) as (row & Hrow & Hmerged);
      [apply Hacc; by left | by apply small_filter |].
    cbn [upsert_all head tail default]. unfold default, from_option. rewrite Hrow. cbn [rbind].
    destruct (IH (<[k := row]> m) Hnd) as (m' & Hm' & Hother & Hin).
    { intros k' v' Hkv. apply Hacc. by right. }
    exists m'. split; [done|]. split.
    + intros k' [Hk1 Hk2]%not_elem_of_cons. rewrite Hother by done. by rewrite lookup_insert_ne.
    + intros k' v' [Heq|Hkv]%elem_of_cons.
      * injection Heq as -> ->. exists row. rewrite Hother by done. by rewrite lookup_insert_eq.
      * destruct (Hin k' v' Hkv) as (row' & Hrow' & Hm). exists row'. split; [done|].
        rewrite lookup_insert_ne in Hm; [done|]. intros <-. apply Hnin.
        by apply (list_elem_of_fmap_2 fst) in Hkv.
Qed.

(** The first statement of [record_flows] that fails, with [n] flows to write. *)
Definition first_fault (n : nat) (f : flow_faults) : option string :=
  head (omap id (fl_begin f :: take n (fl_upserts f) ++ [fl_commit f])).

(** What a flush leaves of the aggregates, whatever the store answered. *)
Record flushed (now packets bytes : Z) (a a' : aggregates) : Prop := {
  fu_interface : capture_interface_ a' = capture_interface_ a;
  fu_recent : recent_ a' = recent_ a;
  fu_cleared : protocols_ a' = ∅ /\ talkers_ a' = ∅ /\ flows_ a' = ∅ /\
               talkers_omitted_ a' = 0 /\ flows_omitted_ a' = 0;
  fu_remembered : previous_packets_ a' = packets /\ previous_bytes_ a' = bytes /\
                  last_sample_ a' = now
}.

(** The flow table after the flows of [a], accounting for [ps], are merged into it. *)
Definition merged_flows (ps : list PacketMetadata) (a : aggregates) (before m : gmap string flow_row)
  : Prop :=
  (forall k, flows_ a !! k = None -> m !! k = before !! k) /\
  (forall k v, flows_ a !! k = Some v -> exists row, m !! k = Some row /\
     merged_row (before !! k) k v (of_key (flow_of (capture_interface_ a)) k ps) row).

Lemma upsert_all_faults faults vs m m' :
  upsert_all [] vs m = Ok m' ->
  upsert_all faults vs m =
    match head (omap id (take (length vs) faults)) with
    | Some message => throw_runtime message
    | None => Ok m'
    end.
Proof.
  revert faults m. induction vs as [|v vs IH]; intros faults m; [by intros [= <-]|].
  cbn [upsert_all]. unfold upsert_flow. cbn [head tail default from_option].
  intros (m1 & Hv & Hvs)%rbind_ok_inv. revert Hv.
  repeat (match goal with |- rbind ?x _ = Ok _ -> _ => destruct x; cbn [rbind]; [|done] end).
  cbn [check rbind]. destruct faults as [|[message|] faults]; cbn [head tail default from_option id check rbind throw_runtime]; try done.
  - intros [= <-]. rewrite (IH [] _ Hvs). by rewrite take_nil.
  - intros [= <-]. by rewrite (IH faults _ Hvs).
Qed.

End Exact.

(** ** Witnesses *)

From S2P Require Import JsonTree.

Definition packet_from (src dst : string) (n : Z) : PacketMetadata := {|
  timestamp := n * 1000000; wire_bytes := n; source_ip := src; destination_ip := dst;
  source_port := Some 5000; destination_port := Some 53; protocol := Protocol.udp;
  application := Application.dns
|}.

Definition sample_batch : list PacketMetadata :=
  [packet_from "10.0.0.5" "10.0.0.9" 60; packet_from "10.0.0.5" "10.0.0.9" 80;
   packet_from "10.0.0.7" "10.0.0.9" 90].

Lemma sample_batch_small : small sample_batch.
Proof.
  split; [|split; reflexivity].
  repeat (apply Forall_cons_2; [split; [split; cbn; lia | vm_compute; split; discriminate || done]|]).
  apply Forall_nil_2.
Qed.

Lemma aggregates_exact_witness :
  exists a : @aggregates JsonTree,
    process_packets sample_batch (fresh_aggregates "eth0" "" 0) = Ok a /\ exact sample_batch a.
Proof.
  destruct (aggregates_exact (H := JsonTree) "eth0" "" 0 sample_batch sample_batch_small)
    as (a & Ha & Hex & _).
  exists a. exact (conj Ha Hex).
Defined.

Definition sample_aggregates : @aggregates JsonTree :=
  match process_packets sample_batch (fresh_aggregates "eth0" "" 0) with
  | Ok a => a | Throw _ => fresh_aggregates "" "" 0 end.

Lemma trim_recent_last_witness :
  exists v, trim_recent sample_aggregates = Ok (with_recent_ sample_aggregates v).
Proof.
  destruct (trim_recent_last sample_aggregates) as (v & Hv & _); [vm_compute; reflexivity|].
  exists v. exact Hv.
Defined.

Lemma sample_aggregates_exact : exact sample_batch sample_aggregates.
Proof.
  destruct (process_packets_exact (H := JsonTree) "eth0" "" 0 sample_batch sample_batch_small)
    as (a & Ha & Hex & _).
  unfold sample_aggregates. rewrite Ha. exact Hex.
Qed.

