(* ===== verification/Metrics.v ===== *)
(** * The metrics document (server.cpp, [ApplianceRuntime::sample], lines 162-179)

    The protocol counts, the top talkers and the completeness flag that a sample publishes.
    The three floating-point rates are JSON values given by functions of the integers they are
    computed from; [std::sort], which leaves the order of equal talkers open, is any function
    that returns a descending permutation. *)
From stdpp Require Import sorting.
From S2P Require Import Prelude CppStd Config Json Packet Serialize Store Sample.

(** [std::sort] on (name, bytes), by descending bytes. *)
Definition busier (x y : string * Z) : Prop := y.2 <= x.2.

Class StdSort := {
  std_sort : list (string * Z) -> list (string * Z);
  std_sort_perm l : std_sort l ≡ₚ l;
  std_sort_sorted l : StronglySorted busier (std_sort l)
}.

(** The floating-point members: bits and packets per second from a difference and the elapsed
    nanoseconds, and the elapsed seconds. *)
Class Rates `{JsonCpp} := {
  bits_per_second : Z -> Z -> Value;
  packets_per_second : Z -> Z -> Value;
  elapsed_seconds : Z -> Value
}.

Section Metrics.
Context `{JsonCpp} `{!Rates} `{StdSort}.

(** The entries of a [std::map], in its order. *)
Definition map_entries {V} (m : gmap string V) : list (string * V) := merge_sort key_le (map_to_list m).

Definition protocols_json (a : aggregates) : result Value :=
  set_keys empty_object
    (map (fun '(name, count) => (name, of_string (to_string count))) (map_entries (protocols_ a))).

Definition top_talkers (a : aggregates) : list (string * Z) :=
  take 10 (std_sort (map_entries (talkers_ a))).

Definition talker_json (t : string * Z) : result Value :=
  set_keys null [("ip", of_string t.1); ("wire_bytes", of_string (to_string t.2))].

(** [elapsed] in nanoseconds, at least a microsecond. *)
Definition update_metrics (seconds elapsed delta_packets delta_bytes dropped : Z) (a : aggregates)
    (metrics : Value) : result Value :=
  let? protocols := protocols_json a in
  let? talkers := append_all talker_json empty_array (top_talkers a) in
  set_keys metrics [
    ("timestamp", of_int seconds);
    ("bits_per_second", bits_per_second delta_bytes elapsed);
    ("packets_per_second", packets_per_second delta_packets elapsed);
    ("elapsed_seconds", elapsed_seconds elapsed);
    ("protocols", protocols);
    ("top_talkers", talkers);
    ("talkers_omitted", of_string (to_string (talkers_omitted_ a)));
    ("flows_omitted", of_string (to_string (flows_omitted_ a)));
    ("breakdown_complete", of_bool ((dropped =? 0) && (talkers_omitted_ a =? 0)))
  ].

(** ** Specification *)

(** The document of one talker. *)
Definition shows_talker (v : Value) (t : string * Z) : Prop :=
  at_key v "ip" = Ok (of_string t.1) /\ at_key v "wire_bytes" = Ok (of_string (to_string t.2)).

Record busiest (m : gmap string Z) (l : list (string * Z)) : Prop := {
  bs_length : length l = min 10 (base.size m);
  bs_nodup : NoDup l;
  bs_entries : Forall (fun t => m !! t.1 = Some t.2) l;
  bs_sorted : StronglySorted busier l;
  bs_rest k n : m !! k = Some n -> (k, n) ∉ l -> Forall (fun t => n <= t.2) l
}.

(** ** Lemmas *)

Lemma map_entries_perm {V} (m : gmap string V) : map_entries m ≡ₚ map_to_list m.
Proof. apply merge_sort_Permutation. Qed.

Lemma assoc_last_nodup {A} (l : list (string * A)) k x :
  NoDup l.*1 -> assoc_last l k = Some x <-> (k, x) ∈ l.
Proof.
  revert x. induction l as [|[k' y] l IH]; cbn; intros x Hnd.
  { split; [done|by intros ?%elem_of_nil]. }
  apply NoDup_cons in Hnd as [Hnin Hnd]. rewrite elem_of_cons, <- (IH x Hnd).
  destruct (assoc_last l k) as [z|] eqn:Hz; destruct (String.eqb_spec k k') as [->|Hk].
  - destruct Hnin. apply (list_elem_of_fmap_2 fst l (k', z)). by apply (IH z Hnd).
  - split; [auto|]. intros [Heq|?]; [congruence|done].
  - split; [intros [= ->]; by left|]. intros [Heq|?]; congruence.
  - split; [done|]. intros [Heq|?]; congruence.
Qed.

Lemma busiest_top a : busiest (talkers_ a) (top_talkers a).
Proof.
  unfold top_talkers. set (all := std_sort (map_entries (talkers_ a))).
  assert (all ≡ₚ map_to_list (talkers_ a)) as Hperm.
  { unfold all. by rewrite std_sort_perm, map_entries_perm. }
  pose proof (std_sort_sorted (map_entries (talkers_ a))) as Hs. fold all in Hs.
  assert (NoDup all) as Hnd by (rewrite Hperm; apply NoDup_map_to_list).
  rewrite <- (take_drop 10 all) in Hs, Hnd. apply NoDup_app in Hnd as (Hnd & _ & _). split.
  - rewrite length_take, Hperm, length_map_to_list. done.
  - done.
  - apply Forall_forall. intros [k n] Hin. apply elem_of_map_to_list. rewrite <- Hperm.
    apply elem_of_take in Hin as (i & Hi & _). by apply list_elem_of_lookup_2 in Hi.
  - by apply StronglySorted_app_1_l in Hs.
  - intros k n Hk Hnin. apply Forall_forall. intros t Ht.
    assert ((k, n) ∈ drop 10 all) as Hd.
    { apply elem_of_map_to_list in Hk. rewrite <- Hperm in Hk.
      rewrite <- (take_drop 10 all), elem_of_app in Hk. by destruct Hk. }
    eapply StronglySorted_app_1_elem_of in Hs; [|exact Ht|exact Hd]. exact Hs.
Qed.

Lemma talker_json_spec `{JL : !JsonCppLaws} t : exists w, talker_json t = Ok w /\ shows_talker w t.
Proof.
  unfold talker_json.
  match goal with |- context [set_keys null ?m] =>
    destruct (set_keys_keyed null m keyed_null) as (w & -> & _ & _ & Hat & _) end.
  exists w. split; [done|]. split; by rewrite Hat.
Qed.

Lemma talkers_json `{JL : !JsonCppLaws} (l : list (string * Z)) acc :
  type acc = arrayValue ->
  exists v, append_all talker_json acc l = Ok v /\ type v = arrayValue /\
    exists vs, elements v = elements acc ++ vs /\ Forall2 shows_talker vs l.
Proof.
  revert acc. induction l as [|t l IH]; intros acc Hacc; cbn [append_all].
  { exists acc. split; [done|]. split; [done|]. exists []. by rewrite app_nil_r. }
  destruct (talker_json_spec t) as (w & -> & Hw). cbn [rbind].
  destruct (append_array acc w ltac:(by right)) as (v1 & -> & Hv1 & He1). cbn [rbind].
  destruct (IH v1 Hv1) as (v & Hv & Ht & vs & He & Hall). exists v. split; [done|]. split; [done|].
  exists (w :: vs). rewrite He, He1, <- app_assoc. split; [done|]. by constructor.
Qed.

(** The members of the protocols' document are the entries of the map. *)
Lemma protocols_spec `{JL : !JsonCppLaws} a :
  exists p, protocols_json a = Ok p /\ forall name,
    at_key p name = Ok (match protocols_ a !! name with
                        | Some n => of_string (to_string n) | None => null end).
Proof.
  unfold protocols_json. set (l := map_entries (protocols_ a)).
  set (l' := map _ l).
  destruct (set_keys_keyed empty_object l') as (p & -> & _ & _ & Hat & _).
  { right. apply type_empty_object. }
  exists p. split; [done|]. intros name. rewrite Hat.
  assert (l'.*1 = l.*1) as Hkeys.
  { unfold l'. clear. induction l as [|[k n] l IH]; cbn; [done|]. by rewrite IH. }
  assert (NoDup l.*1) as Hnd.
  { unfold l. rewrite map_entries_perm. apply NoDup_fst_map_to_list. }
  assert (forall k n, (k, n) ∈ l <-> protocols_ a !! k = Some n) as Hl.
  { intros k n. unfold l. by rewrite map_entries_perm, elem_of_map_to_list. }
  destruct (assoc_last l' name) as [x|] eqn:Hx.
  - apply assoc_last_nodup in Hx; [|by rewrite Hkeys].
    apply list_elem_of_fmap in Hx as ([k n] & [= -> ->] & Hkn%Hl). by rewrite Hkn.
  - destruct (protocols_ a !! name) as [n|] eqn:Hn; [|by apply at_key_missing, isMember_empty].
    exfalso. assert (is_Some (assoc_last l' name)) as [y Hy]; [|congruence].
    apply assoc_last_names. change (name ∈ l'.*1). rewrite Hkeys.
    apply (list_elem_of_fmap_2 fst l (name, n)). by apply Hl.
Qed.

Lemma update_metrics_keyed `{JL : !JsonCppLaws} seconds elapsed dp db dropped a metrics v :
  keyed metrics -> update_metrics seconds elapsed dp db dropped a metrics = Ok v -> keyed v.
Proof.
  intros Hk. unfold update_metrics. destruct (protocols_json a); cbn [rbind]; [|done].
  destruct (append_all _ _ _); cbn [rbind]; [|done].
  match goal with |- context [set_keys metrics ?m] =>
    destruct (set_keys_keyed metrics m Hk) as (w & -> & _ & Hw & _) end.
  by intros [= <-].
Qed.

(** C37: the metrics document. Every sample publishes, for a document that is an object (as
    [start_capture] makes it): the count of every protocol seen, and no other; the ten busiest
    talkers, or all when fewer, in descending order, no unlisted talker having more bytes than a
    listed one, whatever order the sort gives to equal ones; and a completeness flag that is
    true exactly when no packet and no talker was left out. *)
Theorem metrics_document `{JL : !JsonCppLaws} seconds elapsed dp db dropped a metrics :
  keyed metrics ->
  exists v p t,
    update_metrics seconds elapsed dp db dropped a metrics = Ok v /\ type v = objectValue /\
    at_key v "protocols" = Ok p /\
    (forall name n, protocols_ a !! name = Some n -> at_key p name = Ok (of_string (to_string n))) /\
    (forall name, protocols_ a !! name = None -> at_key p name = Ok null) /\
    at_key v "top_talkers" = Ok t /\
    (exists l, busiest (talkers_ a) l /\ Forall2 shows_talker (elements t) l) /\
    at_key v "breakdown_complete" = Ok (of_bool (bool_decide (dropped = 0 /\ talkers_omitted_ a = 0))).
Proof.
  intros Hk. unfold update_metrics. destruct (protocols_spec a) as (p & -> & Hp). cbn [rbind].
  destruct (talkers_json (top_talkers a) empty_array type_empty_array) as (t & -> & _ & vs & He & Hall).
  rewrite elements_empty in He. cbn [app] in He. cbn [rbind].
  match goal with |- context [set_keys metrics ?m] =>
    destruct (set_keys_keyed metrics m Hk) as (v & -> & Ht & _ & Hat & _) end.
  exists v, p, t. split; [done|]. split; [by apply Ht|]. rewrite !Hat. cbn. split; [done|].
  split; [intros name n Hn; by rewrite Hp, Hn|]. split; [intros name Hn; by rewrite Hp, Hn|].
  split; [done|]. split; [exists (top_talkers a); rewrite He; split; [apply busiest_top|done]|].
  do 2 f_equal. apply eq_bool_prop_intro. rewrite !Is_true_true, bool_decide_eq_true.
  rewrite andb_true_iff, !Z.eqb_eq. done.
Qed.
End Metrics.

(** ** A concrete sort *)

#[export] Instance busier_dec : RelDecision busier.
Proof. intros x y. unfold busier. apply _. Defined.
#[export] Instance busier_total : Total busier.
Proof. intros x y. unfold busier. lia. Qed.
#[export] Instance busier_trans : Transitive busier.
Proof. intros x y z. unfold busier. lia. Qed.

#[export] Instance MergeSort : StdSort := {|
  std_sort := merge_sort busier;
  std_sort_perm := merge_sort_Permutation busier;
  std_sort_sorted := StronglySorted_merge_sort busier
|}.

From S2P Require Import JsonTree.

(** Rates rounded down to integers. *)
#[export] Instance WholeRates : @Rates JsonTree := {|
  bits_per_second delta elapsed := JInt (delta * 8 * 1000000000 / elapsed);
  packets_per_second delta elapsed := JInt (delta * 1000000000 / elapsed);
  elapsed_seconds elapsed := JInt (elapsed / 1000000000)
|}.

Lemma metrics_document_witness :
  exists v p : @Value JsonTree,
    update_metrics 100 2000000000 3 230 0 sample_aggregates (JObject []) = Ok v /\
    at_key v "protocols" = Ok p /\ at_key p "udp" = Ok (of_string "3").
Proof.
  destruct (metrics_document 100 2000000000 3 230 0 sample_aggregates (JObject [] : @Value JsonTree))
    as (v & p & t & Hv & _ & Hp & Hcount & _); [right; reflexivity|].
  exists v, p. split; [exact Hv|]. split; [exact Hp|]. apply (Hcount "udp" 3). vm_compute. reflexivity.
Defined.
