(* ===== verification/Server.v ===== *)
(** * The HTTP control plane (src/server.cpp)

    Authentication, the bounded control queue, the mapping of exceptions to status codes and the
    routing of requests.  The operations a request reaches are an interface ([Backend]); the
    event loop of the framework is a step relation. *)
From stdpp Require Import relations.
From S2P Require Import Prelude CppStd Inet Config Json Serialize JsonTree.

(** ** Authentication *)

(** [a[i] ^ b[i]] accumulated with [|=]. *)
Definition difference (a b : string) : Z :=
  fold_left (fun d xy => Z.lor d (Z.lxor (code xy.1) (code xy.2))) (combine (chars a) (chars b)) 0.

Definition token_equal (a b : string) : bool :=
  if negb (size a =? size b) then false else difference a b =? 0.

Inductive http_method := Get | Post | Put | Delete.

#[export] Instance http_method_eq_dec : EqDecision http_method.
Proof. solve_decision. Defined.

(** What the handlers read of an [HttpRequest]; a missing header or parameter is empty. *)
Record http_request := {
  path : string; method : http_method; body : string; origin : string; host_header : string;
  authorization : string; parameter : string -> string
}.

Definition valid_origin (r : http_request) : bool :=
  String.eqb (origin r) "" || String.eqb (origin r) ("http://" +:+ host_header r) ||
  String.eqb (origin r) ("https://" +:+ host_header r).

Definition bearer : string := "Bearer ".

(** The guard of the HTTP handler. *)
Definition admitted (token_ : string) (r : http_request) : bool :=
  valid_origin r && String.prefix bearer (authorization r) &&
  token_equal token_ (String.substring 7 (String.length (authorization r) - 7) (authorization r)).

(** ** The operations behind the requests *)

Section Server.
Context `{Inet} `{JsonCpp}.

(** [App]: the other members of [ApplianceRuntime].  Every operation may throw. *)
Class Backend := {
  App : Type;
  network_state : App -> result Value * App;
  network_interfaces : App -> result Value * App;
  network_apply : NetworkConfig -> App -> result unit * App;
  network_confirm : App -> result unit * App;
  network_rollback : App -> result unit * App;
  status_document : App -> result Value * App;
  snapshot_document : App -> result Value * App;
  start_capture : string -> App -> result unit * App;
  stop_capture : App -> result unit * App;
  recent_packets : App -> result Value * App;
  store_connections : App -> result Value * App;
  store_history : Z -> Z -> Z -> App -> result Value * App;
  now_seconds : App -> Z;
}.
Context `{Backend}.

(** ** The runtime's monad *)

Definition R (A : Type) : Type := App -> result A * App.
Definition r_lift {A} (r : result A) : R A := fun a => (r, a).
Definition r_bind {A B} (m : R A) (k : A -> R B) : R B := fun a =>
  match m a with (Ok x, a') => k x a' | (Throw e, a') => (Throw e, a') end.

(** ** Routing (lines 54-100) *)

Definition error_json (message : string) : Value :=
  match set_key null "error" (of_string message) with Ok v => v | Throw _ => null end.

(** The lambda [number]. *)
Definition number (r : http_request) (key : string) (fallback : Z) : result Z :=
  let value := parameter r key in
  if String.eqb value "" then Ok fallback
  else let? read := stoll value in
       let '(n, consumed) := read in
       if negb (consumed =? size value) then throw_invalid "Invalid query integer" else Ok n.

Definition parse_config (r : http_request) : result NetworkConfig :=
  let? v := parse_json (body r) in config_from_json v.

(** [request.path() == p && request.method() == m]. *)
Definition route_is (r : http_request) (p : string) (m : http_method) : bool :=
  String.eqb (path r) p && bool_decide (method r = m).

Definition handle_validate (r : http_request) : result Value :=
  let? config := parse_config r in
  let? written := config_json config in
  set_keys null [("valid", of_bool true); ("config", written)].

Definition handle_capture (r : http_request) : R Value :=
  r_bind (r_lift (
    let? v := parse_json (body r) in
    let? interface := at_key v "interface" in
    if negb (isString interface) then throw_invalid "interface must be a string"
    else asString interface)) (fun name =>
  r_bind (start_capture name) (fun _ => snapshot_document)).

Definition handle_history (r : http_request) : R Value := fun a =>
  r_bind (r_lift (number r "interval" 60)) (fun interval =>
  if negb (interval =? 60) && negb (interval =? 300) && negb (interval =? 3600)
  then r_lift (throw_invalid "Invalid interval")
  else
    r_bind (r_lift (
      let? from := number r "from" (now_seconds a - 3600) in
      let? to := number r "to" (now_seconds a + 1) in
      Ok (from, to))) (fun range => store_history range.1 range.2 interval)) a.

Definition request (r : http_request) : R Value :=
  if route_is r "/api/v1/status" Get then status_document
  else if route_is r "/api/v1/interfaces" Get then network_interfaces
  else if route_is r "/api/v1/config" Get then network_state
  else if route_is r "/api/v1/config/validate" Post then r_lift (handle_validate r)
  else if route_is r "/api/v1/config" Put then
    r_bind (r_lift (parse_config r)) (fun config =>
    r_bind (network_apply config) (fun _ => network_state))
  else if route_is r "/api/v1/config/confirm" Post then r_bind network_confirm (fun _ => network_state)
  else if route_is r "/api/v1/config/rollback" Post then r_bind network_rollback (fun _ => network_state)
  else if route_is r "/api/v1/capture" Put then handle_capture r
  else if route_is r "/api/v1/capture" Delete then r_bind stop_capture (fun _ => snapshot_document)
  else if route_is r "/api/v1/metrics" Get then snapshot_document
  else if route_is r "/api/v1/packets" Get then recent_packets
  else if route_is r "/api/v1/flows" Get then store_connections
  else if route_is r "/api/v1/history" Get then handle_history r
  else r_lift (throw_invalid "Unknown endpoint or unsupported method").

(** ** The control queue (lines 44-53) *)

(** A submitted task: a request, or the snapshot of a live socket. *)
Inductive task := HttpTask (r : http_request) | LiveTask.

Definition run_task (t : task) : R Value :=
  match t with HttpTask r => request r | LiveTask => snapshot_document end.

(** A reply: the document and the status. *)
Definition reply : Type := Value * Z.

(** The lambda pushed on the queue: run the task, reply with its outcome. *)
Definition answer_task (t : task) (a : App) : reply * App :=
  match run_task t a with
  | (Ok v, a') => ((v, 200), a')
  | (Throw e, a') =>
      ((error_json (what e), if decide (exn_class e = invalid_argument) then 422 else 409), a')
  end.

Definition queue_limit : nat := 64.

(** [submit]: the new queue, or the immediate reply. *)
Definition submit (t : task) (tasks : list task) : list task + reply :=
  if (queue_limit <=? length tasks)%nat then inr (error_json "Control queue full", 429)
  else inl (tasks ++ [t]).

(** The HTTP handler: an immediate reply, or a queued task. *)
Definition handle_http (token_ : string) (r : http_request) (tasks : list task)
  : list task + reply :=
  if negb (admitted token_ r) then inr (error_json "Unauthorized", 401)
  else submit (HttpTask r) tasks.

(** ** The server as a step relation *)

(** [accepted], [served] and [replies] are the history: the tasks queued, those run, and the
    replies to arrivals refused at once and to tasks run. *)
Record server := {
  app : App; tasks : list task; accepted : list task; served : list task;
  refused_replies : list reply; replies : list reply; arrivals : nat
}.

Definition arrive (t : task) (outcome : list task + reply) (s : server) : server :=
  match outcome with
  | inl q => {| app := app s; tasks := q; accepted := accepted s ++ [t]; served := served s;
                refused_replies := refused_replies s; replies := replies s;
                arrivals := S (arrivals s) |}
  | inr r => {| app := app s; tasks := tasks s; accepted := accepted s; served := served s;
                refused_replies := refused_replies s ++ [r]; replies := replies s;
                arrivals := S (arrivals s) |}
  end.

(** [authorized_live]: a text message whose token is the right one, with a current
    acknowledgement (see Live.v).  [between]: the worker's own [tick] and [sample]. *)
Inductive server_step (token_ : string) : server -> server -> Prop :=
| st_http s r : server_step token_ s (arrive (HttpTask r) (handle_http token_ r (tasks s)) s)
| st_live s : server_step token_ s (arrive LiveTask (submit LiveTask (tasks s)) s)
| st_serve s t q :
    tasks s = t :: q ->
    server_step token_ s {| app := (answer_task t (app s)).2; tasks := q; accepted := accepted s;
                     served := served s ++ [t]; refused_replies := refused_replies s;
                     replies := replies s ++ [(answer_task t (app s)).1]; arrivals := arrivals s |}
| st_between s (f : App -> App) :
    server_step token_ s {| app := f (app s); tasks := tasks s; accepted := accepted s;
                     served := served s; refused_replies := refused_replies s;
                     replies := replies s; arrivals := arrivals s |}.

Definition server_start (a : App) : server := {|
  app := a; tasks := []; accepted := []; served := []; refused_replies := []; replies := [];
  arrivals := 0
|}.

Definition server_reachable (token_ : string) (s : server) : Prop :=
  exists a, rtc (server_step token_) (server_start a) s.
End Server.

(** ** Authentication: the comparison is equality *)

Lemma lor_fold_zero (l : list (ascii * ascii)) d :
  0 <= d ->
  fold_left (fun d xy => Z.lor d (Z.lxor (code xy.1) (code xy.2))) l d = 0 <->
  d = 0 /\ Forall (fun xy => xy.1 = xy.2) l.
Proof.
  revert d. induction l as [|[x y] l IH]; intros d Hd; cbn; [by rewrite Forall_nil; intuition|].
  pose proof (code_range x). pose proof (code_range y).
  assert (0 <= Z.lxor (code x) (code y)) by (apply Z.lxor_nonneg; lia).
  rewrite IH by (by apply Z.lor_nonneg). rewrite Z.lor_eq_0_iff, Forall_cons. cbn.
  rewrite Z.lxor_eq_0_iff. split; [intros [[-> ?%code_inj] ?]; auto | intros (-> & -> & ?); auto].
Qed.

Lemma combine_same {A} (l l' : list A) :
  length l = length l' -> Forall (fun xy => xy.1 = xy.2) (combine l l') <-> l = l'.
Proof.
  revert l'. induction l as [|x l IH]; intros [|y l'] Hl; try done; cbn in *.
  rewrite Forall_cons, IH by lia. cbn. split; [intros [-> ->]; done | by intros [= -> ->]].
Qed.

Lemma token_equal_iff a b : token_equal a b = true <-> a = b.
Proof.
  unfold token_equal, difference. split.
  - destruct (Z.eqb_spec (size a) (size b)) as [Hs|]; cbn [negb]; [|done]. intros Hd%Z.eqb_eq.
    apply lor_fold_zero in Hd as [_ Hd]; [|done]. rewrite <- !length_chars in Hs.
    apply combine_same in Hd; [by apply chars_inj | lia].
  - intros ->. rewrite Z.eqb_refl. cbn [negb]. apply Z.eqb_eq, lor_fold_zero; [done|].
    split; [done|]. by apply combine_same.
Qed.

Lemma string_prefix_app p s : String.prefix p s = true -> exists r, s = p +:+ r.
Proof.
  revert s. induction p as [|c p IH]; intros s Hp; [by exists s|].
  destruct s as [|d s]; [done|]. cbn in Hp. destruct (ascii_dec c d) as [->|]; [|done].
  destruct (IH s Hp) as [r ->]. by exists r.
Qed.

Lemma string_prefix_self p r : String.prefix p (p +:+ r) = true.
Proof.
  induction p as [|c p IH]; [by destruct r|].
  change (String c p +:+ r) with (String c (p +:+ r)). cbn [String.prefix].
  destruct (ascii_dec c c); [exact IH|done].
Qed.

Lemma substring_all s : String.substring 0 (String.length s) s = s.
Proof. induction s as [|c s IH]; [done|]. exact (f_equal (String c) IH). Qed.

Lemma after_bearer t : String.substring 7 (String.length (bearer +:+ t) - 7) (bearer +:+ t) = t.
Proof.
  replace (String.length (bearer +:+ t) - 7)%nat with (String.length t)
    by (change (String.length (bearer +:+ t)) with (7 + String.length t)%nat; lia).
  apply substring_all.
Qed.

Lemma admitted_iff token_ r :
  admitted token_ r = true <-> valid_origin r = true /\ authorization r = bearer +:+ token_.
Proof.
  unfold admitted. rewrite !andb_true_iff, token_equal_iff. split.
  - intros [[Ho [rest Hr]%string_prefix_app] Ht]. split; [done|].
    rewrite Hr, after_bearer in Ht. by rewrite Hr, Ht.
  - intros [Ho ->]. split; [split; [done | apply string_prefix_self]|]. by rewrite after_bearer.
Qed.

(** ** The control queue *)

Section Queue.
Context `{I : Inet} `{BK : Backend}.

Definition task_admitted (token_ : string) (t : task) : Prop :=
  match t with
  | HttpTask r => valid_origin r = true /\ authorization r = bearer +:+ token_
  | LiveTask => True
  end.

(** The reply is the outcome of the task, in the state it met. *)
Definition replied (t : task) (r : reply) : Prop := exists a, r = (answer_task t a).1.

Record server_inv (token_ : string) (s : server) : Prop := {
  si_fifo : accepted s = served s ++ tasks s;
  si_bound : (length (tasks s) <= queue_limit)%nat;
  si_admitted : Forall (task_admitted token_) (accepted s);
  si_replies : Forall2 replied (served s) (replies s);
  si_arrivals : arrivals s = (length (accepted s) + length (refused_replies s))%nat;
  si_refused : Forall (fun r => r.2 = 401 \/ r.2 = 429) (refused_replies s)
}.

Lemma submit_inv token_ t s :
  task_admitted token_ t -> server_inv token_ s -> server_inv token_ (arrive t (submit t (tasks s)) s).
Proof.
  intros Ht [Hf Hb Ha Hr Hn Hrf]. unfold submit.
  destruct (Nat.leb_spec queue_limit (length (tasks s))); split; cbn; try done;
    rewrite ?length_app; cbn; try lia.
  - apply Forall_app. split; [done|]. constructor; auto.
  - by rewrite Hf, app_assoc.
  - apply Forall_app. by repeat constructor.
Qed.

Lemma refuse_inv token_ t r s :
  r.2 = 401 \/ r.2 = 429 -> server_inv token_ s -> server_inv token_ (arrive t (inr r) s).
Proof.
  intros Hr [Hf Hb Ha Hrp Hn Hrf]. split; cbn; try done; rewrite ?length_app; cbn; [lia|].
  apply Forall_app. split; [done|]. constructor; [done|constructor].
Qed.

Lemma server_step_inv token_ s s' : server_step token_ s s' -> server_inv token_ s -> server_inv token_ s'.
Proof.
  destruct 1 as [s r|s|s t q Ht|s f]; intros Hinv.
  - unfold handle_http. destruct (admitted token_ r) eqn:Ha; cbn [negb].
    + apply submit_inv; [by apply admitted_iff|done].
    + apply refuse_inv; [by left|done].
  - by apply submit_inv.
  - destruct Hinv as [Hf Hb Ha Hr Hn Hrf]. rewrite Ht in Hf, Hb. cbn in Hb.
    split; cbn; try done; rewrite ?length_app; cbn; try lia; [by rewrite Hf, <- app_assoc|].
    apply Forall2_app; [done|]. constructor; [by eexists|constructor].
  - by destruct Hinv.
Qed.

Lemma server_reachable_inv token_ s : server_reachable token_ s -> server_inv token_ s.
Proof.
  intros [a Hr]. revert s Hr. apply rtc_ind_r.
  - split; cbn; try done. unfold queue_limit. lia.
  - intros s s' _ Hstep Hinv. by eapply server_step_inv.
Qed.

(** C15: the control plane is authenticated, bounded and fair. In every reachable state of the
    server: every HTTP request that was queued or run came from a permitted origin with exactly
    the configured bearer token; tasks run in the order they were queued, each producing one
    reply; at most 64 wait; and every arrival is accounted for, as run, waiting, or refused at
    once with 401 or 429. *)
Theorem control_queue token_ s :
  server_reachable token_ s ->
  (forall r, HttpTask r ∈ served s ++ tasks s ->
     valid_origin r = true /\ authorization r = bearer +:+ token_) /\
  accepted s = served s ++ tasks s /\ length (replies s) = length (served s) /\
  (length (tasks s) <= 64)%nat /\
  arrivals s = (length (served s) + length (tasks s) + length (refused_replies s))%nat /\
  Forall (fun r => r.2 = 401 \/ r.2 = 429) (refused_replies s).
Proof.
  intros [Hf Hb Ha Hr Hn Hrf]%server_reachable_inv. split_and!; try done.
  - intros r Hin. rewrite <- Hf in Hin. rewrite Forall_forall in Ha. by apply Ha in Hin.
  - by apply Forall2_length in Hr.
  - rewrite Hn, Hf, length_app. lia.
Qed.

(** ** Every task is answered *)

(** An execution in which the worker serves [n] tasks. *)
Inductive serves (token_ : string) : nat -> server -> server -> Prop :=
| sv_refl s : serves token_ 0 s s
| sv_serve n s s1 s' t q :
    tasks s = t :: q -> tasks s1 = q -> served s1 = served s ++ [t] ->
    server_step token_ s s1 -> serves token_ n s1 s' -> serves token_ (S n) s s'
| sv_other n s s1 s' :
    served s1 = served s -> server_step token_ s s1 -> serves token_ n s1 s' ->
    serves token_ n s s'.

Lemma serves_steps token_ n s s' : serves token_ n s s' -> rtc (server_step token_) s s'.
Proof. induction 1; [done|by eapply rtc_l|by eapply rtc_l]. Qed.

Lemma arrival_tasks token_ s s' :
  server_step token_ s s' -> served s' = served s -> tasks s `prefix_of` tasks s'.
Proof.
  intros Hstep Hserved. destruct Hstep as [s r|s|s t q Ht|s f].
  - unfold handle_http, submit. destruct (admitted token_ r); cbn [negb]; [|done].
    destruct (_ <=? _)%nat; [done|by apply prefix_app_r].
  - unfold submit. destruct (_ <=? _)%nat; [done|by apply prefix_app_r].
  - cbn in Hserved. apply (f_equal length) in Hserved. rewrite length_app in Hserved. cbn in Hserved. lia.
  - done.
Qed.

Lemma serves_prefix token_ n s s' :
  serves token_ n s s' -> served s ++ take n (tasks s) `prefix_of` served s'.
Proof.
  induction 1 as [s|n s s1 s' t q Ht Hq Hsv _ _ IH|n s s1 s' Hsv Hstep _ IH].
  - by rewrite take_0, app_nil_r.
  - rewrite Ht. cbn [take]. by rewrite Hsv, Hq, <- app_assoc in IH.
  - destruct (arrival_tasks _ _ _ Hstep Hsv) as [k Hk]. rewrite Hsv, Hk in IH.
    etrans; [|exact IH]. apply prefix_app. rewrite take_app. by apply prefix_app_r.
Qed.

(** C16: no task is forgotten. In every execution from a reachable state, however many requests
    arrive in between, the task at position [i] of the queue has been run, in its turn, as soon
    as the worker has served [i + 1] tasks, and its reply is what running it gave. *)
Theorem task_answered token_ s s' n i t :
  server_reachable token_ s -> tasks s !! i = Some t -> serves token_ n s s' -> (i < n)%nat ->
  served s' !! (length (served s) + i)%nat = Some t /\
  exists r a, replies s' !! (length (served s) + i)%nat = Some r /\ r = (answer_task t a).1.
Proof.
  intros [a0 Hr] Hi Hs Hn.
  assert (server_inv token_ s') as Hinv.
  { apply server_reachable_inv. exists a0. etrans; [exact Hr|by eapply serves_steps]. }
  assert (served s' !! (length (served s) + i)%nat = Some t) as Ht.
  { eapply prefix_lookup_Some; [|by eapply serves_prefix].
    rewrite lookup_app_r by lia. replace (_ + i - _)%nat with i by lia. by rewrite lookup_take_lt. }
  split; [done|]. destruct (Forall2_lookup_l _ _ _ _ _ (si_replies _ _ Hinv) Ht) as (r & Hlr & a & ->).
  by exists (answer_task t a).1, a.
Qed.

(** ** What the tasks keep *)

(** [m] leaves the assertion on the application true, whatever the outcome. *)
Definition r_keeps {A} (P : App -> Prop) (m : R A) : Prop := forall a, P a -> P (m a).2.

Lemma r_keeps_lift {A} P (r : result A) : r_keeps P (r_lift r).
Proof. by intros a. Qed.

Lemma r_keeps_bind {A B} P (m : R A) (k : A -> R B) :
  r_keeps P m -> (forall x, r_keeps P (k x)) -> r_keeps P (r_bind m k).
Proof.
  intros Hm Hk a Ha. unfold r_bind. specialize (Hm a Ha). destruct (m a) as [[x|e] a']; [|done].
  by apply Hk.
Qed.

(** The operations of the backend keep [P]; [network_apply] only ever meets valid
    configurations. *)
Class BackendKeeps (P : App -> Prop) : Prop := {
  bk_state : r_keeps P network_state;
  bk_interfaces : r_keeps P network_interfaces;
  bk_apply c : config_typed c -> valid_config c -> r_keeps P (network_apply c);
  bk_confirm : r_keeps P network_confirm;
  bk_rollback : r_keeps P network_rollback;
  bk_status : r_keeps P status_document;
  bk_snapshot : r_keeps P snapshot_document;
  bk_start name : r_keeps P (start_capture name);
  bk_stop : r_keeps P stop_capture;
  bk_recent : r_keeps P recent_packets;
  bk_connections : r_keeps P store_connections;
  bk_history from to interval : r_keeps P (store_history from to interval)
}.

(** ** Requests *)

Context `{JL : !JsonCppLaws} `{IL : !InetLaws}.

(** A body the reader gives up on, or one that is no configuration. *)
Lemma parse_config_invalid r e :
  parse_config r = Throw e ->
  reader_parse (body r) = Throw e \/
  is_ok (reader_parse (body r)) = true /\ exn_class e = invalid_argument.
Proof.
  unfold parse_config, parse_json. destruct (reader_parse (body r)) as [[m|v]|e']; cbn.
  - intros [= <-]. by right.
  - intros Hc. right. split; [done|]. by eapply config_from_json_only_invalid.
  - intros [= <-]. by left.
Qed.

(** The body is the JSON text of a valid configuration. *)
Definition body_config (r : http_request) (c : NetworkConfig) : Prop :=
  exists v, reader_parse (body r) = Ok (inr v) /\ reads_config v c /\ valid_config c.

Lemma parse_config_ok r c : parse_config r = Ok c <-> body_config r c.
Proof.
  unfold parse_config, parse_json, body_config. destruct (reader_parse (body r)) as [[e|v]|e]; cbn.
  - split; [done | by intros (v & ? & _)].
  - rewrite config_from_json_iff. split; [intros Hc; by exists v|].
    by intros (w & [= ->] & Hc).
  - split; [done | by intros (v & ? & _)].
Qed.

(** Every task keeps what the operations keep. *)
Lemma answer_task_keeps P `{BackendKeeps P} t a : P a -> P (answer_task t a).2.
Proof.
  assert (r_keeps P (run_task t)) as Hk.
  { destruct t as [r|]; cbn; [|apply bk_snapshot]. unfold request.
    repeat (match goal with |- r_keeps _ (if ?b then _ else _) => destruct b end;
      [auto using bk_state, bk_interfaces, bk_status, bk_snapshot, bk_recent, bk_connections,
         bk_confirm, bk_rollback, bk_stop, r_keeps_lift, r_keeps_bind|]); [| | |apply r_keeps_lift].
    - intros a0 Ha. unfold r_bind at 1, r_lift. destruct (parse_config r) as [c|] eqn:Hc; [|done].
      apply parse_config_ok in Hc as (v & _ & Hr & Hv). revert a0 Ha.
      apply (r_keeps_bind P (network_apply c)); [|intros ?; apply bk_state].
      apply bk_apply; [by eapply reads_config_typed | done].
    - unfold handle_capture. apply r_keeps_bind; [apply r_keeps_lift|]. intros name.
      apply r_keeps_bind; [apply bk_start|]. intros ?. apply bk_snapshot.
    - intros a0 Ha. unfold handle_history. revert a0 Ha. intros a0.
      match goal with |- P a0 -> P (?m a0).2 => assert (r_keeps P m) as Hm; [|exact (Hm a0)] end.
      apply r_keeps_bind; [apply r_keeps_lift|]. intros n.
      destruct (negb _ && _ && _); [apply r_keeps_lift|].
      apply r_keeps_bind; [apply r_keeps_lift|]. intros range. apply bk_history. }
  intros Ha. specialize (Hk a Ha). unfold answer_task.
  by destruct (run_task t a) as [[v|e] a'].
Qed.

(** A token is accepted exactly when it is the configured one, whatever the lengths. *)
Theorem token_equal_correct a b : token_equal a b = true <-> a = b.
Proof. apply token_equal_iff. Qed.

(** C25: a PUT of the configuration endpoint applies a configuration only when the body is the
    JSON text of a valid one, and then applies that one.  A body on which the JSON reader throws,
    one nested beyond its stack limit, is answered with status 409; every other body is answered
    with status 422.  Both replies carry the message and change nothing. *)
Theorem put_config r a :
  route_is r "/api/v1/config" Put = true ->
  (exists c, body_config r c /\
     request r a = match network_apply c a with
                   | (Ok _, a') => network_state a'
                   | (Throw e, a') => (Throw e, a')
                   end) \/
  (exists e, reader_parse (body r) = Throw e /\
     answer_task (HttpTask r) a = ((error_json (what e), 409), a)) \/
  ((forall c, ~ body_config r c) /\ is_ok (reader_parse (body r)) = true /\
   exists message, answer_task (HttpTask r) a = ((error_json message, 422), a)).
Proof.
  unfold route_is. intros [Hp%String.eqb_eq Hm%bool_decide_eq_true]%andb_true_iff.
  assert (request r a = r_bind (r_lift (parse_config r)) (fun config =>
            r_bind (network_apply config) (fun _ => network_state)) a) as Hreq.
  { unfold request, route_is. by rewrite Hp, Hm. }
  destruct (parse_config r) as [c|e] eqn:E.
  - left. exists c. split; [by apply parse_config_ok|]. rewrite Hreq. unfold r_bind, r_lift.
    by destruct (network_apply c a) as [[] ?].
  - right. assert (answer_task (HttpTask r) a =
      ((error_json (what e), if decide (exn_class e = invalid_argument) then 422 else 409), a)) as ->.
    { unfold answer_task, run_task. rewrite Hreq. unfold r_bind, r_lift. done. }
    destruct (parse_config_invalid r e E) as [He|[Hok He]].
    + left. exists e. split; [done|]. by rewrite (reader_parse_throws _ _ He).
    + right. split_and!; [|done|exists (what e); by rewrite decide_True].
      intros c Hc%parse_config_ok. by rewrite Hc in E.
Qed.
End Queue.

(** ** Concrete inputs *)

(** A backend that counts the configurations applied and answers null. *)
#[export] Instance CountingBackend `{JsonCpp} : Backend := {|
  App := nat;
  network_state a := (Ok null, a);
  network_interfaces a := (Ok null, a);
  network_apply _ a := (Ok tt, S a);
  network_confirm a := (Ok tt, a);
  network_rollback a := (Ok tt, a);
  status_document a := (Ok null, a);
  snapshot_document a := (Ok null, a);
  start_capture _ a := (Ok tt, a);
  stop_capture a := (Ok tt, a);
  recent_packets a := (Ok null, a);
  store_connections a := (Ok null, a);
  store_history _ _ _ a := (Ok null, a);
  now_seconds _ := 0
|}.

Definition sample_request (p : string) (m : http_method) (b : string)
    (q : string -> string) : http_request := {|
  path := p; method := m; body := b; origin := "http://box"; host_header := "box";
  authorization := "Bearer secret"; parameter := q
|}.

Definition no_parameter (key : string) : string := "".

Definition counting : @Backend JsonTree := CountingBackend.

Definition counting_start : @server _ counting := @server_start _ counting 0%nat.

Lemma control_queue_witness :
  let r := sample_request "/api/v1/metrics" Get "" no_parameter in
  let s := @arrive _ counting (HttpTask r) (handle_http "secret" r []) counting_start in
  server_reachable "secret" s /\
  (forall r', HttpTask r' ∈ served s ++ tasks s ->
     valid_origin r' = true /\ authorization r' = bearer +:+ "secret").
Proof.
  intros r s.
  assert (server_reachable "secret" s) as Hs.
  { exists 0%nat. eapply rtc_l; [|apply rtc_refl]. apply (st_http "secret" counting_start r). }
  split; [exact Hs|]. destruct (control_queue "secret" s Hs) as [Hr _]. exact Hr.
Defined.

(** The server after a request arrived, and after it was served. *)
Definition metrics_request : http_request := sample_request "/api/v1/metrics" Get "" no_parameter.
Definition one_waiting : @server _ counting :=
  @arrive _ counting (HttpTask metrics_request) (handle_http "secret" metrics_request []) counting_start.
Definition one_served : @server _ counting :=
  let o := @answer_task _ _ counting (HttpTask metrics_request) 0%nat in
  {| app := o.2; tasks := []; accepted := [HttpTask metrics_request];
     served := [HttpTask metrics_request]; refused_replies := []; replies := [o.1];
     arrivals := 1 |}.

Lemma task_answered_witness :
  served one_served !! 0%nat = Some (HttpTask metrics_request) /\
  exists r a, replies one_served !! 0%nat = Some r /\
    r = (@answer_task _ _ counting (HttpTask metrics_request) a).1.
Proof.
  refine (task_answered "secret" one_waiting one_served 1 0 _ _ _ _ _).
  - exists 0%nat. eapply rtc_l; [|apply rtc_refl]. apply (st_http "secret" counting_start metrics_request).
  - reflexivity.
  - refine (sv_serve "secret" 0 one_waiting one_served one_served (HttpTask metrics_request) []
      eq_refl eq_refl eq_refl _ (sv_refl _ _)).
    exact (st_serve "secret" one_waiting (HttpTask metrics_request) [] eq_refl).
  - lia.
Defined.

Lemma put_config_witness :
  let r := sample_request "/api/v1/config" Put "{}" no_parameter in
  route_is r "/api/v1/config" Put = true /\
  ((exists c, body_config r c /\
      @request _ _ counting r 0%nat = match @network_apply _ counting c 0%nat with
                      | (Ok _, a') => @network_state _ counting a'
                      | (Throw e, a') => (Throw e, a')
                      end) \/
   (exists e, reader_parse (body r) = Throw e /\
      @answer_task _ _ counting (HttpTask r) 0%nat = ((error_json (what e), 409), 0%nat)) \/
   ((forall c, ~ body_config r c) /\ is_ok (reader_parse (body r)) = true /\
    exists message, @answer_task _ _ counting (HttpTask r) 0%nat = ((error_json message, 422), 0%nat))).
Proof. intros r. split; [reflexivity|]. exact (put_config (BK := counting) r 0%nat eq_refl). Defined.

(** A body nested 1000 levels deep: the reader throws, and the answer is 409, not 422. *)
Example put_config_too_deep :
  let deep := Nat.iter 1000 (fun v => JArray [v]) JNull in
  let r := sample_request "/api/v1/config" Put (tree_write deep) no_parameter in
  (@answer_task _ _ counting (HttpTask r) 0%nat).1.2 = 409.
Proof.
  intros deep r.
  destruct (@answer_task _ _ counting (HttpTask r) 0%nat) as [[d n] a] eqn:E.
  assert (reader_parse (body r) = Throw (Exn json_runtime_error "Exceeded stackLimit in readValue().")) as Hr.
  { apply tree_parse_deep. assert (depth deep = 1000%nat) as -> by reflexivity. unfold stack_levels. lia. }
  revert E. unfold answer_task, run_task, request, parse_config, parse_json, r_bind, r_lift. cbn -[deep r reader_parse].
  rewrite Hr. cbn. by intros [= <- <- <-].
Qed.

(** An integer beyond 64 bits in the query makes [std::stoll] throw [std::out_of_range], which
    is not an [invalid_argument]: the answer is 409, not 422. *)
Example history_out_of_range :
  let q key := if String.eqb key "from" then "99999999999999999999" else "" in
  let r := sample_request "/api/v1/history" Get "" q in
  (@answer_task _ _ counting (HttpTask r) 0%nat).1.2 = 409.
Proof. reflexivity. Qed.
