(* ===== verification/Live.v ===== *)
(** * The live WebSocket (src/server.cpp, [SocketState], [LiveSocket])

    One socket, shared by the event loop that receives its messages and the worker that runs
    their tasks.  Each message is an agent with a program counter between the atomic
    operations on [busy] and [sequence]; a step of the relation is one such operation. *)
From stdpp Require Import relations.
From S2P Require Import Prelude CppStd Inet Config Json Serialize JsonTree Sample Server.

Section Live.
Context `{JsonCpp}.

(** ** Lines 250-255: the message *)

(** [None]: the token is missing or wrong.  [Some ack]: authorised, with this acknowledgement. *)
Definition live_request (token_ message : string) : result (option string) :=
  let? body := parse_json message in
  let? token := at_key body "token" in
  let? authorised := (if isString token then let? t := asString token in Ok (token_equal token_ t)
                      else Ok false) in
  if negb authorised then Ok None
  else let? ack := get_or body "ack" (of_string "0") in
       let? ack := asString ack in Ok (Some ack).

(** ** Program counters *)

Inductive live_pc :=
| Received           (** the message is about to be examined *)
| Compared           (** the acknowledgement matched; [busy.exchange] is next *)
| Claimed            (** [busy] was clear; [submit] is next *)
| Queued             (** the task waits for the worker *)
| Replying           (** the reply runs: on the worker, or at once when the queue is full *)
| Counted (n : Z)    (** [++sequence] gave [n] *)
| Sent               (** the snapshot went out; [busy = false] is next *)
| Ignored            (** stale acknowledgement, or busy *)
| Violation          (** closed with [kViolation] *)
| InvalidMessage     (** closed with [kInvalidMessage] *)
| Finished.

Record agent := { message : string; pc : live_pc }.

Record socket := {
  busy : bool; sequence : Z; connected : bool; agents : list agent; sent : list Z
}.

Definition opened : socket :=
  {| busy := false; sequence := 0; connected := true; agents := []; sent := [] |}.

(** [handleNewConnection]: no context is attached for a foreign origin. *)
Definition handleNewConnection (r : http_request) : option socket :=
  if negb (valid_origin r) then None else Some opened.

(** Lines 250-255 up to [sequence.load()]. *)
Definition examine (token_ : string) (loaded : Z) (message : string) : live_pc :=
  match live_request token_ message with
  | Throw _ => InvalidMessage
  | Ok None => Violation
  | Ok (Some ack) => if negb (String.eqb ack (to_string loaded)) then Ignored else Compared
  end.

Definition closes (p : live_pc) : bool :=
  match p with Violation | InvalidMessage => true | _ => false end.

(** ** Atomic steps *)

Definition move (i : nat) (a : agent) (p : live_pc) (s : socket) : list agent :=
  <[i := {| message := message a; pc := p |}]> (agents s).

Definition load (token_ : string) (i : nat) (a : agent) (s : socket) : socket :=
  let p := examine token_ (sequence s) (message a) in
  {| busy := busy s; sequence := sequence s; connected := connected s && negb (closes p);
     agents := move i a p s; sent := sent s |}.

Definition exchange (i : nat) (a : agent) (s : socket) : socket :=
  {| busy := true; sequence := sequence s; connected := connected s;
     agents := move i a (if busy s then Ignored else Claimed) s; sent := sent s |}.

Definition submit_live (full : bool) (i : nat) (a : agent) (s : socket) : socket :=
  {| busy := busy s; sequence := sequence s; connected := connected s;
     agents := move i a (if full then Replying else Queued) s; sent := sent s |}.

Definition run_queued (i : nat) (a : agent) (s : socket) : socket :=
  {| busy := busy s; sequence := sequence s; connected := connected s;
     agents := move i a Replying s; sent := sent s |}.

Definition count (i : nat) (a : agent) (s : socket) : socket :=
  let n := u64 (sequence s + 1) in
  {| busy := busy s; sequence := n; connected := connected s;
     agents := move i a (Counted n) s; sent := sent s |}.

Definition send (n : Z) (i : nat) (a : agent) (s : socket) : socket :=
  {| busy := busy s; sequence := sequence s; connected := connected s;
     agents := move i a Sent s; sent := if connected s then sent s ++ [n] else sent s |}.

Definition release (i : nat) (a : agent) (s : socket) : socket :=
  {| busy := false; sequence := sequence s; connected := connected s;
     agents := move i a Finished s; sent := sent s |}.

Definition receive (m : string) (s : socket) : socket :=
  {| busy := busy s; sequence := sequence s; connected := connected s;
     agents := agents s ++ [{| message := m; pc := Received |}]; sent := sent s |}.

Definition disconnect (s : socket) : socket :=
  {| busy := busy s; sequence := sequence s; connected := false; agents := agents s;
     sent := sent s |}.

Inductive agent_step (token_ : string) (s : socket) (i : nat) (a : agent) : socket -> Prop :=
| as_load : pc a = Received -> agent_step token_ s i a (load token_ i a s)
| as_exchange : pc a = Compared -> agent_step token_ s i a (exchange i a s)
| as_submit full : pc a = Claimed -> agent_step token_ s i a (submit_live full i a s)
| as_run : pc a = Queued -> agent_step token_ s i a (run_queued i a s)
| as_count : pc a = Replying -> agent_step token_ s i a (count i a s)
| as_send n : pc a = Counted n -> agent_step token_ s i a (send n i a s)
| as_release : pc a = Sent -> agent_step token_ s i a (release i a s).

Inductive live_step (token_ : string) : socket -> socket -> Prop :=
| ls_receive s m : live_step token_ s (receive m s)
| ls_disconnect s : live_step token_ s (disconnect s)
| ls_agent s i a s' :
    agents s !! i = Some a -> agent_step token_ s i a s' -> live_step token_ s s'.

Definition live_reachable (token_ : string) (s : socket) : Prop :=
  rtc (live_step token_) opened s.

(** ** Invariant *)

(** Holding the [busy] flag. *)
Definition in_flight (a : agent) : bool :=
  match pc a with Claimed | Queued | Replying | Counted _ | Sent => true | _ => false end.

(** Past the token check. *)
Definition passed (a : agent) : bool :=
  match pc a with
  | Compared | Claimed | Queued | Replying | Counted _ | Sent | Finished => true
  | _ => false
  end.

Definition authorised (token_ : string) (message : string) : Prop :=
  exists v t, reader_parse message = Ok (inr v) /\ at_key v "token" = Ok t /\ isString t = true /\
              asString t = Ok token_.

(** Snapshots counted by the holder and not yet sent. *)
Definition pending_count (h : option nat) (s : socket) : Z :=
  match h ≫= (fun i => agents s !! i) with
  | Some {| pc := Counted _ |} => 1
  | _ => 0
  end.

(** [h] is the agent that holds the [busy] flag. *)
Record live_inv (token_ : string) (h : option nat) (s : socket) : Prop := {
  li_holder : forall j a, agents s !! j = Some a -> in_flight a = true <-> h = Some j;
  li_busy : busy s = true <-> is_Some h;
  li_range : forall j, h = Some j -> is_Some (agents s !! j);
  li_sent : exists k lost, 0 <= lost /\ sent s = u64 <$> seqZ 1 (Z.of_nat k) /\
      sequence s = u64 (Z.of_nat k + pending_count h s + lost) /\ (connected s = true -> lost = 0);
  li_counted : forall j a n, agents s !! j = Some a -> pc a = Counted n -> n = sequence s;
  li_token : forall j a, agents s !! j = Some a -> passed a = true -> authorised token_ (message a)
}.

Lemma sent_succ k :
  (u64 <$> seqZ 1 (Z.of_nat k)) ++ [u64 (Z.of_nat k + 1)] = u64 <$> seqZ 1 (Z.of_nat (S k)).
Proof.
  replace (Z.of_nat (S k)) with (Z.of_nat k + 1) by lia.
  rewrite (seqZ_app 1 (Z.of_nat k) 1), fmap_app by lia. cbn.
  by replace (1 + Z.of_nat k) with (Z.of_nat k + 1) by lia.
Qed.

Lemma examine_spec token_ n m :
  examine token_ n m = Compared /\ authorised token_ m \/
  (examine token_ n m = Ignored \/ closes (examine token_ n m) = true).
Proof.
  unfold examine, live_request, authorised, parse_json.
  destruct (reader_parse m) as [[?|v]|?] eqn:Hp; cbn; [auto| |auto].
  destruct (at_key v "token") as [t|?] eqn:Ht; cbn; [|auto].
  destruct (isString t) eqn:Hs; cbn; [|auto].
  destruct (asString t) as [x|?] eqn:Hx; cbn; [|auto].
  destruct (token_equal token_ x) eqn:He; cbn; [|auto].
  apply token_equal_iff in He as ->.
  destruct (get_or v "ack" _) as [a|?]; cbn; [|auto].
  destruct (asString a) as [ack|?]; cbn; [|auto].
  destruct (String.eqb ack (to_string n)); cbn; [|auto].
  left. split; [done|]. by exists v, t.
Qed.

Lemma in_flight_at token_ h s i a :
  live_inv token_ h s -> agents s !! i = Some a -> in_flight a = true -> h = Some i.
Proof. intros Hinv Hi Ha. by apply (li_holder _ _ _ Hinv i a). Qed.

(** What a step of agent [i] to [p] must supply, [h'] being the holder after it. *)
Lemma move_inv token_ h h' i a p s s' :
  live_inv token_ h s -> agents s !! i = Some a -> agents s' = move i a p s ->
  let a' := {| message := message a; pc := p |} in
  (in_flight a' = true <-> h' = Some i) ->
  (forall j, j <> i -> h' = Some j <-> h = Some j) ->
  (busy s' = true <-> is_Some h') ->
  (passed a' = true -> passed a = true \/ authorised token_ (message a)) ->
  sequence s' = sequence s \/ h = Some i ->
  (forall n, p = Counted n -> n = sequence s') ->
  (exists k lost, 0 <= lost /\ sent s' = u64 <$> seqZ 1 (Z.of_nat k) /\
      sequence s' = u64 (Z.of_nat k + pending_count h' s' + lost) /\ (connected s' = true -> lost = 0)) ->
  live_inv token_ h' s'.
Proof.
  intros [Hh Hb Hr Hs Hc Ht] Hi Hm a' Hfl Hother Hb' Hp Hseq Hcnt Hs'.
  assert (forall j b, agents s' !! j = Some b ->
            j = i /\ b = a' \/ j <> i /\ agents s !! j = Some b) as Hlook.
  { rewrite Hm. unfold move. intros j b [(-> & <- & _)|[? ?]]%list_lookup_insert_Some; auto. }
  split; try done.
  - intros j b [[-> ->]|[Hj Hb2]]%Hlook; [done|]. rewrite Hother by done. by apply Hh.
  - intros j Hj. rewrite Hm. unfold move. destruct (decide (j = i)) as [->|Hne].
    + rewrite list_lookup_insert_eq by (by apply lookup_lt_Some in Hi). done.
    + rewrite list_lookup_insert_ne by done. by apply Hr, Hother.
  - intros j b n [[-> ->]|[Hj Hb2]]%Hlook Hn; [by apply Hcnt|].
    destruct Hseq as [->|Hhi]; [by eapply Hc|].
    assert (h = Some j) by (apply (Hh j b Hb2); unfold in_flight; by rewrite Hn). congruence.
  - intros j b [[-> ->]|[Hj Hb2]]%Hlook Hpass; [|by eapply Ht].
    destruct (Hp Hpass) as [Ha|Ha]; [by eapply (Ht i a)|done].
Qed.

Definition counted (p : live_pc) : Z := match p with Counted _ => 1 | _ => 0 end.

Lemma pending_at i a s : agents s !! i = Some a -> pending_count (Some i) s = counted (pc a).
Proof. unfold pending_count. cbn. intros ->. destruct a as [m p]. by destruct p. Qed.

Lemma pending_moved i a p s s' :
  agents s !! i = Some a -> agents s' = move i a p s -> pending_count (Some i) s' = counted p.
Proof.
  intros Hi Hm. rewrite (pending_at i {| message := message a; pc := p |}); [done|].
  rewrite Hm. apply list_lookup_insert_eq. by apply lookup_lt_Some in Hi.
Qed.

Lemma pending_other h i a p s s' :
  h <> Some i -> agents s' = move i a p s -> pending_count h s' = pending_count h s.
Proof.
  intros Hne Hm. unfold pending_count. destruct h as [j|]; cbn; [|done].
  rewrite Hm. unfold move. by rewrite list_lookup_insert_ne by congruence.
Qed.

(** A step of an agent that does not hold the flag and does not take it. *)
Lemma bystander_inv token_ h i a p s s' :
  live_inv token_ h s -> agents s !! i = Some a -> agents s' = move i a p s ->
  in_flight a = false -> in_flight {| message := message a; pc := p |} = false ->
  busy s' = busy s -> sequence s' = sequence s -> sent s' = sent s ->
  (connected s' = true -> connected s = true) ->
  (passed {| message := message a; pc := p |} = true ->
   passed a = true \/ authorised token_ (message a)) ->
  live_inv token_ h s'.
Proof.
  intros Hinv Hi Hm Ha Ha' Hb Hseq Hsent Hconn Hp.
  assert (h <> Some i) as Hne.
  { intros Hh. apply (li_holder _ _ _ Hinv i a Hi) in Hh. congruence. }
  apply (move_inv token_ h h i a p s s'); try done.
  - rewrite Ha'. done.
  - rewrite Hb. apply Hinv.
  - by left.
  - intros n ->. done.
  - destruct (li_sent _ _ _ Hinv) as (k & lost & Hl & Hs & Hq & Hc). exists k, lost.
    rewrite (pending_other h i a p s s' Hne Hm), Hseq, Hsent. split_and!; auto.
Qed.

(** A step of the holder. *)
Lemma holder_inv token_ h i a p s s' (h' : option nat) :
  live_inv token_ h s -> agents s !! i = Some a -> agents s' = move i a p s ->
  in_flight a = true -> h' = (if in_flight {| message := message a; pc := p |} then Some i else None) ->
  (busy s' = true <-> is_Some h') ->
  (passed {| message := message a; pc := p |} = true -> passed a = true) ->
  (forall n, p = Counted n -> n = sequence s') ->
  (forall k lost, 0 <= lost -> sent s = u64 <$> seqZ 1 (Z.of_nat k) ->
     sequence s = u64 (Z.of_nat k + counted (pc a) + lost) -> (connected s = true -> lost = 0) ->
     exists k' lost', 0 <= lost' /\ sent s' = u64 <$> seqZ 1 (Z.of_nat k') /\
       sequence s' = u64 (Z.of_nat k' + counted p + lost') /\ (connected s' = true -> lost' = 0)) ->
  live_inv token_ h' s'.
Proof.
  intros Hinv Hi Hm Ha Hh' Hb Hp Hcnt Hs.
  pose proof (in_flight_at _ _ _ _ _ Hinv Hi Ha) as ->.
  apply (move_inv token_ (Some i) h' i a p s s'); try done.
  - rewrite Hh'. by destruct (in_flight {| message := message a; pc := p |}).
  - intros j Hj. rewrite Hh'. destruct (in_flight {| message := message a; pc := p |}); split; congruence.
  - auto.
  - by right.
  - destruct (li_sent _ _ _ Hinv) as (k & lost & Hl & Hsent & Hq & Hc).
    rewrite (pending_at i a) in Hq by done.
    destruct (Hs k lost Hl Hsent Hq Hc) as (k' & lost' & ? & ? & Hq' & ?). exists k', lost'.
    split_and!; try done. rewrite Hq'. f_equal. f_equal. f_equal. subst h'.
    destruct (in_flight {| message := message a; pc := p |}) eqn:Hfl; [by rewrite (pending_moved i a p s s')|].
    unfold pending_count. cbn. by destruct p.
Qed.

Lemma agent_step_inv token_ h s i a s' :
  live_inv token_ h s -> agents s !! i = Some a -> agent_step token_ s i a s' ->
  exists h', live_inv token_ h' s'.
Proof.
  intros Hinv Hi Hstep.
  assert (forall p, pc a = p -> in_flight a = in_flight {| message := message a; pc := p |}) as Hfl.
  { intros p Hp. unfold in_flight. by rewrite Hp. }
  assert (forall p, pc a = p -> passed a = passed {| message := message a; pc := p |}) as Hps.
  { intros p Hp. unfold passed. by rewrite Hp. }
  destruct Hstep as [Hp|Hp|full Hp|Hp|Hp|n Hp|Hp];
    specialize (Hfl _ Hp); specialize (Hps _ Hp); cbn in Hfl, Hps.
  - exists h. eapply bystander_inv; try done.
    + destruct (examine_spec token_ (sequence s) (message a)) as [[E _]|[E|E]];
        unfold in_flight; cbn [pc]; [by rewrite E|by rewrite E|]. by destruct (examine _ _ _).
    + cbn. by intros [? _]%andb_true_iff.
    + destruct (examine_spec token_ (sequence s) (message a)) as [[E ?]|[E|E]];
        unfold passed; cbn [pc]; [by right | by rewrite E |]. by destruct (examine _ _ _).
  - destruct (busy s) eqn:Hb.
    + exists h. eapply (bystander_inv _ _ i a Ignored); try done; cbn; by rewrite Hb.
    + assert (h = None) as ->.
      { destruct h as [j|]; [|done]. assert (busy s = true) by (by apply Hinv; exists j). congruence. }
      exists (Some i). eapply (move_inv token_ None (Some i) i a Claimed); try done.
      * cbn. by rewrite Hb.
      * naive_solver.
      * cbn. naive_solver.
      * by left.
      * destruct (li_sent _ _ _ Hinv) as (k & lost & ? & ? & ? & ?). exists k, lost. split_and!; try done.
        rewrite (pending_moved i a Claimed s) by (try done; cbn; by rewrite Hb). done.
  - exists (Some i). eapply (holder_inv token_ h i a (if full then Replying else Queued)); try done.
    + by destruct full.
    + cbn. split; [done|]. intros _. apply Hinv. by exists i; eapply in_flight_at.
    + by destruct full.
    + intros k lost ? ? ? ?. exists k, lost. rewrite Hp in *. by destruct full.
  - exists (Some i). eapply (holder_inv token_ h i a Replying); try done.
    + cbn. split; [done|]. intros _. apply Hinv. by exists i; eapply in_flight_at.
    + intros k lost ? ? ? ?. exists k, lost. by rewrite Hp in *.
  - exists (Some i). eapply (holder_inv token_ h i a (Counted (u64 (sequence s + 1)))); try done.
    + cbn. split; [done|]. intros _. apply Hinv. by exists i; eapply in_flight_at.
    + by intros n [= <-].
    + intros k lost ? ? Hq ?. exists k, lost. split_and!; try done. rewrite Hp in Hq. cbn in *.
      rewrite Hq, u64_succ. f_equal. lia.
  - pose proof (li_counted _ _ _ Hinv i a n Hi Hp) as ->.
    exists (Some i). eapply (holder_inv token_ h i a Sent); try done.
    + cbn. split; [done|]. intros _. apply Hinv. by exists i; eapply in_flight_at.
    + intros k lost ? Hs Hq Hc. rewrite Hp in Hq. cbn in *. destruct (connected s) eqn:E.
      * exists (S k), 0. split_and!; try done.
        -- rewrite Hs, Hq, Hc, Z.add_0_r by done. apply sent_succ.
        -- rewrite Hq, Hc by done. f_equal. lia.
      * exists k, (lost + 1). split_and!; try done; [lia|]. rewrite Hq. f_equal. lia.
  - exists None. eapply (holder_inv token_ h i a Finished); try done.
    intros k lost ? ? ? ?. exists k, lost. by rewrite Hp in *.
Qed.

Lemma live_step_inv token_ h s s' :
  live_inv token_ h s -> live_step token_ s s' -> exists h', live_inv token_ h' s'.
Proof.
  intros Hinv Hstep. destruct Hstep as [s m|s|s i a s' Hi Ha]; [| |by eapply agent_step_inv].
  - exists h. assert (forall j b, agents (receive m s) !! j = Some b ->
        agents s !! j = Some b \/ b = {| message := m; pc := Received |} /\ j = length (agents s)) as Hl.
    { cbn. intros j b [?|[Hj Hb]]%lookup_app_Some; [auto|]. right.
      apply list_lookup_singleton_Some in Hb as [? <-]. split; [done|lia]. }
    assert (h <> Some (length (agents s))) as Hne.
    { intros Hh. destruct (li_range _ _ _ Hinv _ Hh) as [? E%lookup_lt_Some]. lia. }
    destruct Hinv as [Hh Hb Hr Hs Hc Ht]. split; try done.
    + intros j b [Hj|[-> ->]]%Hl; [by apply Hh | done].
    + intros j Hj. destruct (Hr j Hj) as [b E]. exists b. by apply lookup_app_l_Some.
    + destruct Hs as (k & lost & ? & ? & Hq & ?). exists k, lost. split_and!; try done. cbn [sequence receive].
      rewrite Hq. do 3 f_equal. unfold pending_count. destruct h as [j|]; [|done]. cbn.
      destruct (Hr j eq_refl) as [b E]. by rewrite E, (lookup_app_l_Some _ _ _ _ E).
    + intros j b n [Hj|[-> ->]]%Hl; [by eapply Hc|done].
    + intros j b [Hj|[-> ->]]%Hl; [by eapply Ht|done].
  - exists h. destruct Hinv as [Hh Hb Hr Hs Hc Ht]. split; try done.
    destruct Hs as (k & lost & ? & ? & ? & ?). by exists k, lost.
Qed.

Lemma opened_inv token_ : live_inv token_ None opened.
Proof.
  split; cbn; try done. by exists 0%nat, 0.
Qed.

Lemma live_reachable_inv token_ s : live_reachable token_ s -> exists h, live_inv token_ h s.
Proof.
  revert s. apply rtc_ind_r; [exists None; apply opened_inv|].
  intros s s' _ Hstep [h Hinv]. by eapply live_step_inv.
Qed.

(** C17: a live socket carries one request at a time, whatever the interleaving of the event
    loop and the worker: [busy] is set exactly while one message is between its claim and its
    release, never two; the snapshots go out with the sequence numbers 1, 2, 3, ... without gap
    or repetition, the counter being one ahead only while one is about to be sent (or after the
    peer is gone); and only a message carrying the configured token gets that far. *)
Theorem live_flow_control token_ s :
  live_reachable token_ s ->
  (forall i j a b, agents s !! i = Some a -> agents s !! j = Some b ->
     in_flight a = true -> in_flight b = true -> i = j) /\
  (busy s = true <-> exists i a, agents s !! i = Some a /\ in_flight a = true) /\
  (exists k, sent s = u64 <$> seqZ 1 (Z.of_nat k) /\
     (connected s = true -> sequence s = u64 (Z.of_nat k) \/
        (busy s = true /\ sequence s = u64 (Z.of_nat k + 1)))) /\
  (forall i a, agents s !! i = Some a -> passed a = true -> authorised token_ (message a)).
Proof.
  intros [h Hinv]%live_reachable_inv. split_and!.
  - intros i j a b Hi Hj Ha Hb. apply (in_flight_at _ _ _ _ _ Hinv Hi) in Ha.
    apply (in_flight_at _ _ _ _ _ Hinv Hj) in Hb. congruence.
  - rewrite (li_busy _ _ _ Hinv). split.
    + intros [i ->]. destruct (li_range _ _ _ Hinv i eq_refl) as [a Ha]. exists i, a.
      split; [done|]. by apply (li_holder _ _ _ Hinv i a).
    + intros (i & a & Hi & Ha). exists i. by eapply in_flight_at.
  - destruct (li_sent _ _ _ Hinv) as (k & lost & _ & Hs & Hq & Hc). exists k. split; [done|].
    intros Hconn. rewrite (Hc Hconn), Z.add_0_r in Hq. rewrite Hq, (li_busy _ _ _ Hinv).
    unfold pending_count. destruct h as [i|]; cbn; [|left; by rewrite Z.add_0_r].
    destruct (li_range _ _ _ Hinv i eq_refl) as [[m p] ->].
    destruct p; try (left; by rewrite Z.add_0_r). right. by split; [exists i|].
  - apply Hinv.
Qed.
End Live.

(** ** A concrete socket *)

Definition live_document : tree := JObject [("token", JString "secret"); ("ack", JString "0")].
Definition live_message : string := tree_write live_document.

Lemma examine_live_message (n : Z) :
  examine (H := JsonTree) "secret" n live_message =
  if negb (String.eqb "0" (to_string n)) then Ignored else Compared.
Proof.
  unfold examine, live_request, live_message, parse_json.
  change (reader_parse (tree_write live_document)) with (tree_parse (tree_write live_document)).
  rewrite tree_parse_write by (vm_compute; lia). reflexivity.
Qed.

(** ** Schedules *)

(** The next step of agent [i], the control queue having room. *)
Definition advance `{JsonCpp} (token_ : string) (s : socket) (i : nat) : socket :=
  match agents s !! i with
  | None => s
  | Some a =>
      match pc a with
      | Received => load token_ i a s
      | Compared => exchange i a s
      | Claimed => submit_live false i a s
      | Queued => run_queued i a s
      | Replying => count i a s
      | Counted n => send n i a s
      | Sent => release i a s
      | Ignored | Violation | InvalidMessage | Finished => s
      end
  end.

Definition schedule `{JsonCpp} (token_ : string) (l : list nat) (s : socket) : socket :=
  fold_left (advance token_) l s.

Lemma advance_step `{JsonCpp} token_ s i : rtc (live_step token_) s (advance token_ s i).
Proof.
  unfold advance. destruct (agents s !! i) as [a|] eqn:Hi; [|done].
  destruct (pc a) eqn:Hp; try done; apply rtc_once; apply (ls_agent _ _ i a _ Hi);
    by (constructor || apply as_send).
Qed.

Lemma schedule_steps `{JsonCpp} token_ l s : rtc (live_step token_) s (schedule token_ l s).
Proof.
  revert s. induction l as [|i l IH]; intros s; [done|].
  etrans; [apply advance_step|apply IH].
Qed.

(** Two messages that both acknowledge "0". *)
Definition two_messages : @socket := receive live_message (receive live_message opened).

Lemma two_messages_steps : rtc (@live_step JsonTree "secret") opened two_messages.
Proof. do 2 (eapply rtc_l; [apply (ls_receive _ _ live_message)|]). done. Qed.

Lemma live_flow_control_witness :
  let s := @schedule JsonTree "secret" [0; 0; 0; 0; 0; 1; 1]%nat two_messages in
  @live_reachable JsonTree "secret" s /\ agents s !! 1%nat = Some {| message := live_message; pc := Ignored |} /\
  (busy s = true <-> exists i a, agents s !! i = Some a /\ in_flight a = true).
Proof.
  intros s.
  assert (@live_reachable JsonTree "secret" s) as Hs.
  { unfold live_reachable; etrans; [apply two_messages_steps|apply schedule_steps]. }
  split; [exact Hs|]. split; [vm_compute; reflexivity|].
  destruct (@live_flow_control JsonTree "secret" s Hs) as (_ & Hb & _). exact Hb.
Defined.

(** The comparison of the acknowledgement and the claim of [busy] are two atomic operations: a
    message that acknowledges "0" can compare before the first snapshot is counted and claim
    after it is released, and is then answered without an acknowledgement of the first. *)
Example stale_acknowledgement :
  exists s, @live_reachable JsonTree "secret" s /\ sent s = [1; 2] /\
    Forall (fun a => message a = live_message) (agents s).
Proof.
  exists (@schedule JsonTree "secret" [0; 0; 0; 0; 1; 0; 0; 0; 1; 1; 1; 1; 1]%nat two_messages).
  split; [unfold live_reachable; etrans; [apply two_messages_steps|apply schedule_steps]|].
  split; [vm_compute; reflexivity|]. unfold schedule. vm_compute. by repeat constructor.
Qed.
