(* ===== verification/Runtime.v ===== *)
(** * The runtime (src/server.cpp, [ApplianceRuntime] and [run_appliance])

    The composition of the components: the runtime owns the network controller, the capture
    engine, the tables of the metrics and the store; its operations are the backend of the
    control plane (Server.v), and its worker's loop interleaves the controller's [tick], one
    task and one sample.

    What libraries, clocks and the capture thread answer is an oracle: the [n]-th consultation
    gets [oracle n].  Every theorem holds for every oracle. *)
From stdpp Require Import relations.
From S2P Require Import Prelude CppStd Inet Config Json Serialize Packet Capture Engine Effects.
From S2P Require Import Network NetworkSafety NetworkRollback NetworkControl NetworkSound.
From S2P Require Import Store Schema Sample Metrics Server.

(** ** What the world answers *)

Record answers := {
  an_opening : pcap_opening;                     (** libpcap, to [live_capture] *)
  an_spawn : result unit;                        (** the creation of the capture thread *)
  an_progress : CaptureEngine -> CaptureEngine;  (** what the thread did since last time *)
  an_exit : CaptureEngine -> CaptureEngine;      (** what it does once asked to stop *)
  an_steady : Z;                                 (** steady clock, nanoseconds *)
  an_seconds : Z;                                (** system clock, seconds *)
  an_sql_seconds : Z;                            (** [strftime('%s','now')] *)
  an_fault : option string;                      (** faults of the statements *)
  an_sample_faults : option string * option string;
  an_flow_faults : flow_faults
}.

(** ** Startup checks (lines 267-278) *)

Record startup := {
  su_stat : option (bool * Z);   (** the token file: regular, and its mode *)
  su_line : string;              (** its first line *)
  su_lock : Z; su_locked : bool; (** [open] and [flock] of the database lock *)
  su_index : bool                (** index.html is a regular file *)
}.

Definition check_startup (u : startup) : result string :=
  match su_stat u with
  | None => throw_runtime "Token file must exist and have mode 0600 (or 0400)"
  | Some (regular, mode) =>
      if negb regular || negb (Z.land mode 63 =? 0)
      then throw_runtime "Token file must exist and have mode 0600 (or 0400)"
      else let token := su_line u in
      if (size token <? 32) || (256 <? size token)
      then throw_runtime "Token must be 32–256 characters"
      else if su_lock u <? 0 then throw_runtime "Cannot open database lock"
      else if negb (su_locked u) then throw_runtime "Another appliance instance owns this database"
      else if negb (su_index u) then throw_runtime "Missing dashboard; set --web-root"
      else Ok token
  end.

Section Runtime.
Context `{IN : Inet} `{JC : JsonCpp} `{PF : @Platform JC} `{SQ : Sqlite} `{RT : @Rates JC}
  `{SO : StdSort}.
Context (allow_network : bool) (oracle : nat -> answers).

Record runtime := {
  network_ : net;
  engine_ : option CaptureEngine;
  tables : aggregates;       (** [capture_interface_], [storage_error_], the maps, the counters *)
  metrics_ : Value;
  capture_error_ : string;
  store_ : db;
  consulted : nat            (** how often the oracle was asked *)
}.

Definition with_network (s : runtime) (n : net) : runtime :=
  {| network_ := n; engine_ := engine_ s; tables := tables s; metrics_ := metrics_ s;
     capture_error_ := capture_error_ s; store_ := store_ s; consulted := consulted s |}.
Definition with_engine (s : runtime) (e : option CaptureEngine) : runtime :=
  {| network_ := network_ s; engine_ := e; tables := tables s; metrics_ := metrics_ s;
     capture_error_ := capture_error_ s; store_ := store_ s; consulted := consulted s |}.
Definition with_tables (s : runtime) (a : aggregates) : runtime :=
  {| network_ := network_ s; engine_ := engine_ s; tables := a; metrics_ := metrics_ s;
     capture_error_ := capture_error_ s; store_ := store_ s; consulted := consulted s |}.
Definition with_metrics (s : runtime) (v : Value) : runtime :=
  {| network_ := network_ s; engine_ := engine_ s; tables := tables s; metrics_ := v;
     capture_error_ := capture_error_ s; store_ := store_ s; consulted := consulted s |}.
Definition with_capture_error (s : runtime) (e : string) : runtime :=
  {| network_ := network_ s; engine_ := engine_ s; tables := tables s; metrics_ := metrics_ s;
     capture_error_ := e; store_ := store_ s; consulted := consulted s |}.
Definition with_store (s : runtime) (d : db) : runtime :=
  {| network_ := network_ s; engine_ := engine_ s; tables := tables s; metrics_ := metrics_ s;
     capture_error_ := capture_error_ s; store_ := d; consulted := consulted s |}.

(** ** The runtime's monad *)

Definition T (A : Type) : Type := runtime -> result A * runtime.
Definition t_ret {A} (x : A) : T A := fun s => (Ok x, s).
Definition t_lift {A} (r : result A) : T A := fun s => (r, s).
Definition t_bind {A B} (m : T A) (k : A -> T B) : T B := fun s =>
  match m s with (Ok x, s') => k x s' | (Throw e, s') => (Throw e, s') end.
Definition t_get : T runtime := fun s => (Ok s, s).
Definition t_set (f : runtime -> runtime) : T unit := fun s => (Ok tt, f s).
Definition t_catch (m : T unit) (handler : exn -> T unit) : T unit := fun s =>
  match m s with (Ok x, s') => (Ok x, s') | (Throw e, s') => handler e s' end.

#[local] Notation "'let*' x ':=' m 'in' k" := (t_bind m (fun x => k))
  (at level 10, x pattern, m at level 100, k at level 200).
#[local] Notation "'do*' m ; k" := (t_bind m (fun _ => k))
  (at level 10, m at level 100, k at level 200).

(** Consult the world; meanwhile the capture thread runs. *)
Definition ask : T answers := fun s =>
  let a := oracle (consulted s) in
  (Ok a, {| network_ := network_ s; engine_ := option_map (an_progress a) (engine_ s);
            tables := tables s; metrics_ := metrics_ s; capture_error_ := capture_error_ s;
            store_ := store_ s; consulted := S (consulted s) |}).

(** An operation of the network controller. *)
Definition t_net {A} (m : M A) : T A := fun s =>
  let '(r, n) := m (network_ s) in (r, with_network s n).

(** [store_.put(key, value)]. *)
Definition put_setting (key : string) (value : Value) : T unit :=
  let* a := ask in fun s =>
  let '(r, d) := put (an_fault a) key value (store_ s) in (r, with_store s d).

(** ** Capture *)

Definition drain_limit : Z := 8192.

(** [engine_->drain(8192)] and [engine_->snapshot()], with an engine. *)
Definition drain_engine : T (list PacketMetadata) := fun s =>
  match engine_ s with
  | None => (Ok [], s)
  | Some e => let '(packets, e') := drain drain_limit e in (Ok packets, with_engine s (Some e'))
  end.
Definition engine_counters : T CaptureSnapshot := fun s =>
  (Ok (match engine_ s with Some e => snapshot e | None => zero_snapshot end), s).

(** Lines 131-158: the tables take in what was captured. *)
Definition take_in : T aggregates :=
  do* ask;
  let* packets := drain_engine in
  let* s := t_get in
  let* aggs := t_lift (let? aggs := process_packets packets (tables s) in trim_recent aggs) in
  do* t_set (fun s => with_tables s aggs); t_ret aggs.

(** Lines 162-189: the metrics document and the flush. *)
Definition publish (now elapsed : Z) (aggs : aggregates) : T unit :=
  let* a := ask in
  let* counters := engine_counters in
  let* s := t_get in
  let* metrics := t_lift (update_metrics (an_seconds a) elapsed
    (u64 (Engine.packets counters - previous_packets_ aggs))
    (u64 (snap_wire_bytes counters - previous_bytes_ aggs))
    (metadata_dropped counters) aggs (metrics_ s)) in
  do* t_set (fun s => with_metrics s metrics);
  let* b := ask in
  t_set (fun s =>
    let '(aggs', d) := flush (an_sample_faults b) (an_flow_faults b) now (an_seconds b)
      (an_sql_seconds b) (Engine.packets counters) (snap_wire_bytes counters) metrics aggs (store_ s) in
    with_store (with_tables s aggs') d).

(** [sample(force)], lines 129-190. *)
Definition sample_packets (force : bool) : T unit :=
  let* s := t_get in
  match engine_ s with
  | None => t_ret tt
  | Some _ =>
      let* aggs := take_in in
      let* a := ask in
      let elapsed := Z.max 1000 (an_steady a - last_sample_ aggs) in
      if (elapsed <? 1000000000) && negb force then t_ret tt
      else publish (an_steady a) elapsed aggs
  end.

(** [engine_->stop()]: the stop request, the worker's last steps, the join. *)
Definition stop_engine (a : answers) (e : CaptureEngine) : CaptureEngine :=
  if joinable e then let e := an_exit a (request_stop e) in default e (join e) else e.

(** [if (engine_) { engine_->stop(); sample(true); }]. *)
Definition stop_and_flush : T unit :=
  let* s := t_get in
  match engine_ s with
  | None => t_ret tt
  | Some _ =>
      let* a := ask in
      do* t_set (fun s => with_engine s (option_map (stop_engine a) (engine_ s)));
      sample_packets true
  end.

Definition capture_name (name : string) : bool :=
  negb (String.eqb name "") && (size name <=? 15) && forallb interface_char (chars name).

(** Lines 123-127. *)
Definition adopt (next : CaptureEngine) (name : string) (now : Z) (s : runtime) : runtime :=
  with_capture_error
    (with_metrics
      (with_tables (with_engine s (Some next)) (fresh_aggregates name (storage_error_ (tables s)) now))
      empty_object) "".

Definition start_capture_ (name : string) : T unit :=
  if negb (capture_name name) then t_lift (throw_invalid "Invalid capture interface") else
  let* a := ask in
  let* next := t_lift (do? open_source (an_opening a); construct true drain_limit) in
  do* stop_and_flush;
  let* b := ask in
  let '(started, next) := start (an_spawn b) next in
  do* t_lift started;
  do* put_setting "capture_interface" (of_string name);
  t_set (adopt next name (an_steady b)).

(** DELETE /api/v1/capture, lines 81-82. *)
Definition forget_capture (s : runtime) : runtime :=
  let a := tables s in
  with_tables (with_engine s None) {|
    capture_interface_ := ""; protocols_ := protocols_ a; talkers_ := talkers_ a; flows_ := flows_ a;
    recent_ := recent_ a; talkers_omitted_ := talkers_omitted_ a; flows_omitted_ := flows_omitted_ a;
    previous_packets_ := previous_packets_ a; previous_bytes_ := previous_bytes_ a;
    last_sample_ := last_sample_ a; storage_error_ := storage_error_ a |}.

Definition stop_capture_ : T unit :=
  do* stop_and_flush;
  do* t_set forget_capture;
  put_setting "capture_interface" (of_string "").

(** ** The documents *)

(** Lines 107-112. *)
Definition counters_members (c : CaptureSnapshot) : list (string * Value) := [
  ("packets", of_string (to_string (Engine.packets c)));
  ("wire_bytes", of_string (to_string (snap_wire_bytes c)));
  ("metadata_dropped", of_string (to_string (metadata_dropped c)));
  ("kernel_dropped", match kernel_dropped c with
                     | Some n => of_string (to_string n) | None => null end);
  ("running", of_bool (running c));
  ("capture_error", of_string (error c))
].

(** [snapshot()], lines 101-114. *)
Definition metrics_snapshot : T Value :=
  do* ask;
  let* s := t_get in
  let* value := t_lift (set_keys (metrics_ s) [
    ("type", of_string "metrics"); ("schema_version", of_int 1);
    ("capture_interface", of_string (capture_interface_ (tables s)))]) in
  let* network := t_net (state allow_network) in
  let* value := t_lift (set_key value "network" network) in
  match engine_ s with
  | Some e => t_lift (set_keys value (counters_members (snapshot e)))
  | None => t_lift (set_key value "running" (of_bool false))
  end.

(** Lines 57-63. *)
Definition status_report : T Value :=
  let* network := t_net (state allow_network) in
  let* s := t_get in
  let* metrics := metrics_snapshot in
  t_lift (set_keys null [
    ("version", of_string "0.2.0"); ("network", network);
    ("capture_interface", of_string (capture_interface_ (tables s)));
    ("capture_error", of_string (capture_error_ s));
    ("storage_error", of_string (storage_error_ (tables s)));
    ("metrics", metrics)]).

(** ** The backend of the control plane *)

#[export] Instance RuntimeBackend : Backend := {|
  App := runtime;
  network_state := t_net (state allow_network);
  network_interfaces := t_net interfaces;
  network_apply c := t_net (apply allow_network c);
  network_confirm := t_net (confirm allow_network);
  network_rollback := t_net (rollback allow_network);
  status_document := status_report;
  snapshot_document := metrics_snapshot;
  start_capture := start_capture_;
  stop_capture := stop_capture_;
  recent_packets s := (Ok (recent_ (tables s)), s);
  store_connections := let* a := ask in fun s => (connections (an_fault a) (store_ s), s);
  store_history from to interval :=
    let* a := ask in fun s => (history (an_fault a) from to interval (store_ s), s);
  now_seconds s := an_seconds (oracle (consulted s))
|}.

(** ** The worker (lines 191-209) *)

(** [network_.tick()], whose exception is logged. *)
Definition tick_network (s : runtime) : runtime := (t_net (tick allow_network) s).2.

(** [sample()], whose exception is recorded. *)
Definition sample_quietly (s : runtime) : runtime :=
  match sample_packets false s with
  | (Ok _, s') => s'
  | (Throw e, s') => with_capture_error s' (what e)
  end.

(** The body of the loop with the task popped from the queue, if any. *)
Definition turn (t : option task) (s : runtime) : option reply * runtime :=
  let s := tick_network s in
  let '(r, s) := match t with
                 | Some t => let '(r, s) := answer_task t s in (Some r, s)
                 | None => (None, s)
                 end in
  (r, sample_quietly s).

(** After the loop. *)
Definition wind_down (s : runtime) : runtime :=
  let s := ((let* a := ask in
             t_set (fun s => with_engine s (option_map (stop_engine a) (engine_ s)))) s).2 in
  let s := (sample_packets true s).2 in
  match t_net (state allow_network) s with
  | (Throw _, s) => s
  | (Ok v, s) =>
      match at_key v "status" with
      | Throw _ => s
      | Ok status =>
          if equals status (of_string "awaiting_confirmation")
          then (t_net (rollback allow_network) s).2 else s
      end
  end.

(** ** Construction (lines 29-36 and 266-279) *)

(** The members before the constructor's body. *)
Definition fresh_runtime (n : net) (d : db) (now : Z) : runtime := {|
  network_ := n; engine_ := None; tables := fresh_aggregates "" "" now; metrics_ := empty_object;
  capture_error_ := ""; store_ := d; consulted := 0
|}.

(** The body of the constructor; [capture_interface] is the option. *)
Definition resume_capture (capture_interface : string) : T unit :=
  let* a := ask in
  let* s := t_get in
  let* saved := t_lift (get (an_fault a) "capture_interface" (store_ s)) in
  if negb (String.eqb capture_interface "") then start_capture_ capture_interface
  else if negb (isString saved) then t_ret tt
  else let* name := t_lift (asString saved) in
       if String.eqb name "" then t_ret tt
       else t_catch (start_capture_ name) (fun e => t_set (fun s => with_capture_error s (what e))).

(** [run_appliance] up to the event loop: the token and the runtime.  [n] is a controller about
    to be constructed on the machine, [file] the database file, if there is one. *)
Definition launch (u : startup) (n : net) (faults : open_faults) (file : option db_file) (now : Z)
  (capture_interface : string) : result (string * runtime) :=
  let? token := check_startup u in
  match open_store faults file with
  | (Throw e, _) => Throw e
  | (Ok _, file) =>
      let d := contents (default new_file file) in
      match construct_controller allow_network n with
      | (Throw e, _) => Throw e
      | (Ok _, n) =>
          match resume_capture capture_interface (fresh_runtime n d now) with
          | (Throw e, _) => Throw e
          | (Ok _, s) => Ok (token, s)
          end
      end
  end.

(** ** Rules *)

(** [m] leaves the assertion true, whatever the outcome. *)
Definition t_keeps {A} (P : runtime -> Prop) (m : T A) : Prop := forall s, P s -> P (m s).2.

Lemma t_keeps_lift {A} P (r : result A) : t_keeps P (t_lift r).
Proof. by intros s. Qed.
Lemma t_keeps_get P : t_keeps P t_get.
Proof. by intros s. Qed.
Lemma t_keeps_set (P : runtime -> Prop) f : (forall s, P s -> P (f s)) -> t_keeps P (t_set f).
Proof. intros Hf s. apply Hf. Qed.
Lemma t_keeps_bind {A B} P (m : T A) (k : A -> T B) :
  t_keeps P m -> (forall x, t_keeps P (k x)) -> t_keeps P (t_bind m k).
Proof.
  intros Hm Hk s Hs. unfold t_bind. specialize (Hm s Hs). destruct (m s) as [[x|e] s']; [|done].
  by apply Hk.
Qed.
Lemma t_keeps_catch P (m : T unit) handler :
  t_keeps P m -> (forall e, t_keeps P (handler e)) -> t_keeps P (t_catch m handler).
Proof.
  intros Hm Hk s Hs. unfold t_catch. specialize (Hm s Hs). destruct (m s) as [[x|e] s']; [done|].
  by apply Hk.
Qed.

Lemma t_bind_ok {A B} (m : T A) (k : A -> T B) s x s1 : m s = (Ok x, s1) -> t_bind m k s = k x s1.
Proof. unfold t_bind. by intros ->. Qed.

(** Assertions on the network controller alone. *)
Definition on_network (P : net -> Prop) (s : runtime) : Prop := P (network_ s).

Lemma t_keeps_net {A} P (m : M A) : keeps P m -> t_keeps (on_network P) (t_net m).
Proof.
  intros Hm s Hs. unfold t_net. specialize (Hm (network_ s) Hs). by destruct (m (network_ s)).
Qed.

(** A computation that does not touch the network controller. *)
Definition offline {A} (m : T A) : Prop := forall s, network_ (m s).2 = network_ s.

Lemma offline_keeps {A} P (m : T A) : offline m -> t_keeps (on_network P) m.
Proof. intros Hm s. unfold on_network. by rewrite Hm. Qed.

Lemma offline_bind {A B} (m : T A) (k : A -> T B) :
  offline m -> (forall x, offline (k x)) -> offline (t_bind m k).
Proof.
  intros Hm Hk s. unfold t_bind. specialize (Hm s). destruct (m s) as [[x|e] s']; [|done].
  by rewrite Hk.
Qed.

Lemma offline_catch (m : T unit) handler :
  offline m -> (forall e, offline (handler e)) -> offline (t_catch m handler).
Proof.
  intros Hm Hk s. unfold t_catch. specialize (Hm s). destruct (m s) as [[x|e] s']; [done|].
  by rewrite Hk.
Qed.

Ltac offline_auto := repeat first
  [ solve [eauto with offline]
  | match goal with |- offline (match ?x with _ => _ end) => destruct x end
  | apply offline_bind; [|intros]
  | apply offline_catch; [|intros]
  | progress cbv zeta
  | solve [intros s; reflexivity] ].

Lemma offline_put key value : offline (put_setting key value).
Proof.
  unfold put_setting. apply offline_bind; [done|]. intros a s. by destruct (put _ _ _ _).
Qed.
#[local] Hint Resolve offline_put : offline.

Lemma offline_drain : offline drain_engine.
Proof. intros s. unfold drain_engine. destruct (engine_ s) as [e|]; [|done]. by destruct (drain _ _). Qed.
#[local] Hint Resolve offline_drain : offline.

Lemma offline_sample force : offline (sample_packets force).
Proof.
  unfold sample_packets, take_in, publish. offline_auto. intros s. cbn. by destruct (flush _ _ _ _ _ _ _ _ _ _).
Qed.
#[local] Hint Resolve offline_sample : offline.

Lemma offline_start name : offline (start_capture_ name).
Proof. unfold start_capture_, stop_and_flush. offline_auto. Qed.

Lemma offline_stop : offline stop_capture_.
Proof. unfold stop_capture_, stop_and_flush. offline_auto. Qed.
#[local] Hint Resolve offline_start offline_stop : offline.

Lemma offline_resume name : offline (resume_capture name).
Proof. unfold resume_capture. offline_auto. Qed.

(** ** The controller's state, through the whole process *)

Context `{IL : !InetLaws} `{JL : !JsonCppLaws}.

(** What the controller's operations keep of its state. *)
Definition kept (P : Value -> Prop) : Prop :=
  forall op, op <> Construct -> op_typed op -> keeps (state_in P) (perform allow_network op).

Section Kept.
Context (P : Value -> Prop) (HP : kept P).

Lemma kept_perform op :
  op <> Construct -> op_typed op ->
  t_keeps (on_network (state_in P)) (t_net (perform allow_network op)).
Proof. intros. by apply t_keeps_net, HP. Qed.

Lemma kept_state : t_keeps (on_network (state_in P)) (t_net (state allow_network)).
Proof. apply t_keeps_net, state_keeps. Qed.

Lemma kept_snapshot : t_keeps (on_network (state_in P)) metrics_snapshot.
Proof.
  unfold metrics_snapshot. apply t_keeps_bind; [by apply offline_keeps|]. intros ?.
  apply t_keeps_bind; [apply t_keeps_get|]. intros s. apply t_keeps_bind; [apply t_keeps_lift|].
  intros v. apply t_keeps_bind; [apply kept_state|]. intros n.
  apply t_keeps_bind; [apply t_keeps_lift|]. intros w. destruct (engine_ s); apply t_keeps_lift.
Qed.

Lemma kept_backend : BackendKeeps (BK := RuntimeBackend) (on_network (state_in P)).
Proof.
  split.
  - apply kept_state.
  - apply t_keeps_net, interfaces_keeps.
  - intros c Hc _. by apply (kept_perform (Apply c)).
  - by apply (kept_perform Confirm).
  - by apply (kept_perform Rollback).
  - change (t_keeps (on_network (state_in P)) status_report). unfold status_report.
    apply t_keeps_bind; [apply kept_state|]. intros n. apply t_keeps_bind; [apply t_keeps_get|].
    intros s. apply t_keeps_bind; [apply kept_snapshot|]. intros m. apply t_keeps_lift.
  - apply kept_snapshot.
  - intros name. apply offline_keeps, offline_start.
  - apply offline_keeps, offline_stop.
  - by intros s.
  - apply offline_keeps. by intros s.
  - intros from to interval. apply offline_keeps. by intros s.
Qed.

Lemma sample_quietly_network s : network_ (sample_quietly s) = network_ s.
Proof.
  unfold sample_quietly. pose proof (offline_sample false s) as Hn.
  by destruct (sample_packets false s) as [[?|?] s'].
Qed.

Lemma kept_turn t s : on_network (state_in P) s -> on_network (state_in P) (turn t s).2.
Proof.
  intros Hs. unfold turn. assert (on_network (state_in P) (tick_network s)) as Ht
    by (by apply (kept_perform Tick)).
  destruct t as [t|]; cbn.
  - pose proof (@answer_task_keeps _ _ _ _ _ _ kept_backend t _ Ht) as Ha.
    set (o := @answer_task _ _ _ t _) in *. destruct o as [r s']. cbn in *.
    unfold on_network in *. by rewrite sample_quietly_network.
  - unfold on_network in *. by rewrite sample_quietly_network.
Qed.
End Kept.

(** ** Executions of the process *)

(** One turn of the worker's loop, with or without a task. *)
Definition loop_step (s s' : runtime) : Prop := exists t, s' = (turn t s).2.

(** The runtimes of a process that was started and has run its loop. *)
Definition running_process (s : runtime) : Prop :=
  exists u n faults file now interface token s0,
    log n = [] /\ launch u n faults file now interface = Ok (token, s0) /\ rtc loop_step s0 s.

Lemma launch_network u n faults file now interface token s :
  launch u n faults file now interface = Ok (token, s) ->
  exists x, construct_controller allow_network n = (Ok x, network_ s).
Proof.
  unfold launch. destruct (check_startup u); cbn [rbind]; [|done].
  destruct (open_store faults file) as [[?|?] f]; [|done]. cbv zeta.
  generalize (contents (default new_file f)). intros d.
  destruct (construct_controller allow_network n) as [[x|e] n'] eqn:Hc; [|done].
  pose proof (offline_resume interface (fresh_runtime n' d now)) as Hoff.
  destruct (resume_capture interface (fresh_runtime n' d now)) as [[?|?] s1]; [|done].
  cbn in Hoff. intros [= _ <-]. exists x. by rewrite Hoff.
Qed.

Lemma process_kept P s :
  kept P ->
  (forall n u n', construct_controller allow_network n = (Ok u, n') -> state_in P n') ->
  running_process s -> on_network (state_in P) s.
Proof.
  intros HP Hstart (u & n & faults & file & now & i & token & s0 & _ & Hl & Hr).
  apply launch_network in Hl as [x Hc]. apply Hstart in Hc.
  change (on_network (state_in P) s0) in Hc. revert Hc.
  induction Hr as [|s s1 s2 [t ->] _ IH]; [done|]. intros Hs. by apply IH, kept_turn.
Qed.

(** The controller's state is an object; where it may change the network, a pending
    configuration is one that can be rolled back. *)
Lemma process_keyed s : running_process s -> keyed (state_ (network_ s)).
Proof.
  intros Hrun. refine (process_kept keyed s _ _ Hrun).
  - intros op Hop _. by apply keyed_perform.
  - intros n u n' Hc. exact (proj1 (construct_sound _ _ _ _ Hc)).
Qed.

Lemma process_sound s : allow_network = true -> running_process s -> sound (state_ (network_ s)).
Proof.
  intros Hallow Hrun. refine (process_kept sound s _ _ Hrun).
  - intros op Hop Ht. exact (sound_perform allow_network op Hop Ht).
  - intros n u n' Hc. exact (proj2 (construct_sound _ _ _ _ Hc) Hallow).
Qed.

(** ** Shutdown and the deadline *)

Definition is_pending (s : runtime) : Prop := status (state_ (network_ s)) "awaiting_confirmation".

Lemma sound_rollback_quiet n :
  sound (state_ n) -> status (state_ n) "awaiting_confirmation" ->
  state_in quiet (rollback true n).2.
Proof.
  intros Hs Hst. destruct (proj2 Hs Hst) as [c Hc]. unfold rollback. cbn [negb].
  destruct (status_is_spec "inactive" n (proj1 Hs)) as (v' & b & Heq & Hsame & Hb).
  rewrite (bind_ok _ _ _ _ _ Heq). destruct b.
  { discriminate (status_inj _ _ _ Hst (proj1 Hb eq_refl)). }
  cbn [negb when]. pose proof (restore_quiet c (with_state n v')) as Hq.
  specialize (Hq (holds_config_members c _ _ Hc Hsame)).
  by destruct (restore (with_state n v')) as [[?|?] n'].
Qed.

(** C6: no configuration outlives the process unconfirmed. However the process was started
    with [--allow-network], whatever tasks it ran and whatever failed, when its worker has
    wound down no configuration awaits a confirmation. *)
Theorem shutdown_leaves_nothing_pending s :
  allow_network = true -> running_process s -> ~ is_pending (wind_down s).
Proof.
  intros Hallow Hrun. pose proof (process_sound s Hallow Hrun) as Hs. clear Hrun.
  unfold wind_down. set (s1 := (t_bind ask _ s).2).
  assert (on_network (state_in sound) s1) as Hs1 by exact Hs. clearbody s1. clear Hs.
  set (s2 := (sample_packets true s1).2).
  pose proof (offline_keeps (state_in sound) _ (offline_sample true) s1 Hs1) as Hs2. fold s2 in Hs2.
  clearbody s2. clear s1 Hs1. unfold on_network, state_in in Hs2. unfold t_net.
  destruct (state_document allow_network (network_ s2) (proj1 Hs2)) as (v & n & -> & Hn & Hk & _ & Hst & _).
  rewrite (Hst "status") by done. destruct (at_key_keyed (state_ (network_ s2)) "status" (proj1 Hs2)) as [x Hx].
  rewrite Hx. cbn [network_ with_network]. unfold is_pending.
  destruct (equals x (of_string "awaiting_confirmation")) eqn:He.
  - assert (status (state_ n) "awaiting_confirmation") as Hp.
    { rewrite Hn. split; [apply Hs2|]. by exists x. }
    pose proof (sound_rollback_quiet n) as Hq. rewrite Hn in Hq. specialize (Hq Hs2).
    rewrite <- Hn in Hq. specialize (Hq Hp). rewrite Hallow.
    destruct (rollback true n) as [r n']. by apply Hq.
  - cbn. rewrite Hn. intros (_ & y & Hy & Hye). congruence.
Qed.

(** ** Shapes and sizes, through the whole process *)

Record shaped (s : runtime) : Prop := {
  sh_metrics : keyed (metrics_ s);
  sh_tables : tables_bounded (tables s);
  sh_recent : (length (elements (recent_ (tables s))) <= recent_limit)%nat
}.

Lemma fresh_bounded name err now : tables_bounded (fresh_aggregates name err now).
Proof. split; [apply type_empty_array | apply Nat.le_0_l | apply Nat.le_0_l]. Qed.

Lemma fresh_shaped n d now : shaped (fresh_runtime n d now).
Proof.
  split; [right; apply type_empty_object | apply fresh_bounded |]. cbn. rewrite elements_empty. cbn. lia.
Qed.

(** Only these members matter. *)
Lemma shaped_same s s' :
  metrics_ s' = metrics_ s -> tables s' = tables s -> shaped s -> shaped s'.
Proof. intros Hm Ht [H1 H2 H3]. split; by rewrite ?Hm, ?Ht. Qed.

Ltac shaped_auto := repeat first
  [ solve [eauto with shaped]
  | solve [let s0 := fresh in let Hs0 := fresh in intros s0 Hs0;
           apply (shaped_same s0); [reflexivity|reflexivity|exact Hs0]]
  | match goal with |- t_keeps _ (match ?x with _ => _ end) => destruct x end
  | apply t_keeps_bind; [|intros]
  | apply t_keeps_catch; [|intros]
  | progress cbv zeta ].

Lemma shaped_net {A} (m : M A) : t_keeps shaped (t_net m).
Proof. intros s Hs. unfold t_net. destruct (m (network_ s)). by apply (shaped_same s). Qed.

Lemma shaped_put key value : t_keeps shaped (put_setting key value).
Proof.
  unfold put_setting. apply t_keeps_bind; [shaped_auto|]. intros a s Hs.
  destruct (put _ _ _ _). by apply (shaped_same s).
Qed.

Lemma shaped_drain : t_keeps shaped drain_engine.
Proof.
  intros s Hs. unfold drain_engine. destruct (engine_ s) as [e|]; [|done]. destruct (drain _ _).
  by apply (shaped_same s).
Qed.
#[local] Hint Resolve shaped_net shaped_put shaped_drain : shaped.

(** The tables after a batch. *)
Definition batch_tables (a : aggregates) : Prop :=
  tables_bounded a /\ (length (elements (recent_ a)) <= recent_limit)%nat.

Lemma take_in_tables ps a a' :
  tables_bounded a -> (let? aggs := process_packets ps a in trim_recent aggs) = Ok a' -> batch_tables a'.
Proof.
  intros Ha Hp. apply rbind_ok_inv in Hp as (a1 & H1 & H2).
  apply process_packets_bounded in H1; [|done].
  destruct (trim_recent_spec a1 (tb_recent _ H1)) as (v & Hv & Ht & He).
  rewrite Hv in H2. injection H2 as <-. split; [split; [done|apply H1|apply H1]|].
  cbn. rewrite He, length_drop. unfold recent_limit. lia.
Qed.

Lemma shaped_with_tables s a : batch_tables a -> shaped s -> shaped (with_tables s a).
Proof. intros [? ?] [? ? ?]. by split. Qed.

Lemma flush_tables f1 f2 now sec sql p b m a d :
  batch_tables a -> batch_tables (flush f1 f2 now sec sql p b m a d).1.
Proof.
  intros [[Hr _ _] Hl]. unfold flush. destruct (sample _ _ _ _ _ _ _) as [r d1].
  match goal with |- batch_tables (let '(_, _) := ?x in _).1 => destruct x end.
  split; [split; [done | apply Nat.le_0_l | apply Nat.le_0_l]|done].
Qed.

Lemma shaped_publish now elapsed a : batch_tables a -> t_keeps shaped (publish now elapsed a).
Proof.
  intros Ha. unfold publish. apply t_keeps_bind; [shaped_auto|]. intros x.
  apply t_keeps_bind; [shaped_auto|]. intros c s Hs. unfold t_bind at 1, t_get.
  unfold t_bind at 1, t_lift. destruct (update_metrics _ _ _ _ _ _ _) as [m|] eqn:Hm; [|done].
  apply update_metrics_keyed in Hm; [|apply Hs].
  assert (shaped (with_metrics s m)) as Hs1 by (destruct Hs; by split).
  unfold t_bind at 1, t_set at 1. revert Hs1. generalize (with_metrics s m). clear -Ha JL.
  intros s Hs. revert s Hs. apply t_keeps_bind; [shaped_auto|]. intros b. apply t_keeps_set.
  intros s Hs. pose proof (flush_tables (an_sample_faults b) (an_flow_faults b) now (an_seconds b)
    (an_sql_seconds b) (Engine.packets c) (snap_wire_bytes c) m a (store_ s) Ha) as Hf.
  destruct (flush _ _ _ _ _ _ _ _ _ _) as [a' d].
  apply (shaped_same (with_tables s a')); [done|done|]. by apply shaped_with_tables.
Qed.

(** Intake: the tables it returns are those it leaves. *)
Lemma take_in_shaped s :
  shaped s ->
  shaped (take_in s).2 /\ match (take_in s).1 with Ok a => batch_tables a | Throw _ => True end.
Proof.
  intros Hs. unfold take_in, t_bind, t_get, t_lift, t_set, t_ret.
  assert (shaped (ask s).2) as Hs1 by (apply (shaped_same s); done).
  destruct (ask s) as [[x|e] s1]; [|done]. pose proof (shaped_drain s1 Hs1) as Hs2.
  destruct (drain_engine s1) as [[ps|e] s2]; [|done]. cbn in Hs2.
  destruct (let? aggs := process_packets ps (tables s2) in trim_recent aggs) as [a|] eqn:Ha; [|done].
  apply take_in_tables in Ha; [|apply Hs2]. split; [by apply shaped_with_tables|done].
Qed.

Lemma shaped_sample force : t_keeps shaped (sample_packets force).
Proof.
  intros s Hs. unfold sample_packets. unfold t_bind at 1, t_get. destruct (engine_ s); [|done].
  destruct (take_in_shaped s Hs) as [Hs1 Ha]. unfold t_bind at 1.
  destruct (take_in s) as [[a|e] s1]; [|done]. cbn in Hs1, Ha. revert s1 Hs1.
  apply t_keeps_bind; [shaped_auto|]. intros b. cbv zeta. destruct (_ && _); [by intros s1|].
  by apply shaped_publish.
Qed.
#[local] Hint Resolve shaped_sample : shaped.

Lemma shaped_adopt next name now s : shaped (adopt next name now s).
Proof.
  split; [right; apply type_empty_object | apply fresh_bounded |]. cbn. rewrite elements_empty. cbn. lia.
Qed.

Lemma shaped_start name : t_keeps shaped (start_capture_ name).
Proof.
  unfold start_capture_, stop_and_flush. shaped_auto. apply t_keeps_set. intros s0 _. apply shaped_adopt.
Qed.
#[local] Hint Resolve shaped_start : shaped.

Lemma shaped_forget s : shaped s -> shaped (forget_capture s).
Proof. intros [Hm [Hr Hf Ht] Hl]. split; [done|by split|done]. Qed.

Lemma shaped_stop : t_keeps shaped stop_capture_.
Proof.
  unfold stop_capture_, stop_and_flush. shaped_auto. apply t_keeps_set. apply shaped_forget.
Qed.

Lemma shaped_snapshot : t_keeps shaped metrics_snapshot.
Proof. unfold metrics_snapshot. shaped_auto. Qed.
#[local] Hint Resolve shaped_snapshot : shaped.

#[export] Instance shaped_backend : BackendKeeps (BK := RuntimeBackend) shaped.
Proof.
  split; try (intros; apply shaped_net).
  - change (t_keeps shaped status_report). unfold status_report. shaped_auto.
  - apply shaped_snapshot.
  - apply shaped_start.
  - apply shaped_stop.
  - by intros s.
  - change (t_keeps shaped (t_bind ask (fun a s => (connections (an_fault a) (store_ s), s)))).
    shaped_auto.
  - intros from to interval.
    change (t_keeps shaped (t_bind ask (fun a s => (history (an_fault a) from to interval (store_ s), s)))).
    shaped_auto.
Qed.

Lemma turn_shaped t s : shaped s -> shaped (turn t s).2.
Proof.
  intros Hs. unfold turn. assert (shaped (tick_network s)) as Ht by (by apply shaped_net).
  assert (forall s, shaped s -> shaped (sample_quietly s)) as Hq.
  { clear -JL. intros s Hs. unfold sample_quietly. pose proof (shaped_sample false s Hs) as Hx.
    destruct (sample_packets false s) as [[?|e] s']; [done|]. by apply (shaped_same s'). }
  destruct t as [t|]; cbn; [|by apply Hq].
  pose proof (answer_task_keeps shaped t _ Ht) as Ha.
  set (o := @answer_task _ _ _ t _) in *. destruct o as [r s']. by apply Hq.
Qed.

Lemma process_shaped s : running_process s -> shaped s.
Proof.
  intros (u & n & faults & file & now & i & token & s0 & _ & Hl & Hr).
  assert (shaped s0) as Hs0.
  { unfold launch in Hl. destruct (check_startup u); cbn [rbind] in Hl; [|done].
    destruct (open_store faults file) as [[?|?] f]; [|done]. cbv zeta in Hl.
    revert Hl. generalize (contents (default new_file f)). intros d Hl.
    destruct (construct_controller allow_network n) as [[x|e] n']; [|done].
    assert (t_keeps shaped (resume_capture i)) as Hk by (unfold resume_capture; shaped_auto).
    specialize (Hk _ (fresh_shaped n' d now)).
    destruct (resume_capture i (fresh_runtime n' d now)) as [[?|?] s1]; [|done].
    by injection Hl as _ <-. }
  clear Hl. induction Hr as [|s s1 s2 [t ->] _ IH]; [done|]. by apply IH, turn_shaped.
Qed.

(** ** The confirmation window *)

(** How a rollback of [c] from [s] ends: the actions it took, and what they leave. *)
Definition rollback_ends (c : NetworkConfig) (s : net) (r : result unit) (s' : net) : Prop :=
  rollback_run c s r s' /\
  match r with
  | Ok _ => rolled_back s' /\ network_restored (state_ s) (since s s')
  | Throw e => rollback_incomplete e s' \/ (state_in rollback_status s' /\ put_failed e s')
  end.

Lemma restore_ends c s : holds_config c (state_ s) -> rollback_ends c s (restore s).1 (restore s).2.
Proof.
  intros Hc. pose proof (restore_run c s Hc) as Hrun. split; [done|].
  pose proof (restore_outcome_spec c s Hc) as Ho. destruct (restore s) as [[u|e] s']; [|done].
  split; [done|]. by eapply rollback_run_ok.
Qed.

Lemma rollback_ends_quiet c s r s' : rollback_ends c s r s' -> state_in quiet s'.
Proof.
  intros [_ Hr]. apply rollback_status_quiet. destruct r as [u|e].
  - right; right. apply Hr.
  - destruct Hr as [[[Hs _] _]|[Hs _]]; [right; by left | done].
Qed.

Lemma after_clock_log s : log (after_clock s) = log s ++ [Did SteadyNow (clock s)].
Proof. unfold after_clock, clock, call. by destruct (answer SteadyNow (machine s)). Qed.

Lemma sound_tick_pending n :
  sound (state_ n) -> deadline_ n <= clock n -> status (state_ n) "awaiting_confirmation" ->
  exists c n1 r, holds_config c (state_ n) /\ same_members (state_ n) (state_ n1) /\
    log n1 = log n ++ [Did SteadyNow (clock n)] /\ rollback_ends c n1 r (tick true n).2.
Proof.
  intros Hs Hd Hst. destruct (tick_pending n Hst) as (v' & Hsame & ->).
  rewrite (proj2 (Z.leb_le _ _) Hd). destruct (proj2 Hs Hst) as [c Hc].
  set (n1 := after_clock (with_state n v')).
  assert (same_members (state_ n) (state_ n1)) as Hn1
    by (subst n1; by rewrite (proj1 (after_clock_state _))).
  exists c, n1, (restore n1).1. split; [done|]. split; [done|].
  split; [exact (after_clock_log (with_state n v'))|]. apply restore_ends. by eapply holds_config_members.
Qed.

Lemma sound_tick_expired n :
  sound (state_ n) -> deadline_ n <= clock n ->
  ~ status (state_ (tick true n).2) "awaiting_confirmation".
Proof.
  intros Hs Hd. destruct (status_is_spec "awaiting_confirmation" n (proj1 Hs)) as (_ & b & _ & _ & Hb).
  destruct b.
  - destruct (sound_tick_pending n Hs Hd (proj1 Hb eq_refl)) as (c & n1 & r & _ & _ & _ & He).
    by apply rollback_ends_quiet in He as [_ He].
  - assert (~ status (state_ n) "awaiting_confirmation") as Hn by (by rewrite <- Hb).
    destruct (tick_other n (proj1 Hs) Hn) as (v' & Hsame & ->).
    intros Hst. apply Hn. exact (same_status _ v' _ (proj1 Hs) Hsame Hst).
Qed.

(** C5: the confirmation window closes. In a process that may change the network, the first
    turn of the worker at or after the deadline deals with an unconfirmed configuration before
    anything else. Its [tick] reads the clock and rolls the recorded configuration back
    (NetworkRollback.rollback_run: every undoing action is run, whatever fails, unless the store
    refuses the record of the rollback); the status it leaves is [inactive], with the switches
    and interfaces of the baseline written back and acknowledged, when the rollback returns,
    and otherwise that of a failed or unrecorded rollback. In every case nothing is pending any
    more: the task of that turn is answered from that state, and a turn without a task ends in
    it. *)
Theorem deadline_enforced s :
  allow_network = true -> running_process s ->
  deadline_ (network_ s) <= clock (network_ s) ->
  (is_pending s -> exists c n r,
     holds_config c (state_ (network_ s)) /\ same_members (state_ (network_ s)) (state_ n) /\
     log n = log (network_ s) ++ [Did SteadyNow (clock (network_ s))] /\
     rollback_ends c n r (network_ (tick_network s))) /\
  ~ is_pending (tick_network s) /\ ~ is_pending (turn None s).2 /\
  forall t, (turn (Some t) s).1 = Some (answer_task t (tick_network s : App)).1.
Proof.
  intros Hallow Hrun Hd. pose proof (process_sound s Hallow Hrun) as Hs.
  assert (network_ (tick_network s) = (tick true (network_ s)).2) as Htick.
  { unfold tick_network, t_net. rewrite Hallow. by destruct (tick true (network_ s)). }
  assert (~ is_pending (tick_network s)) as Ht
    by (unfold is_pending; rewrite Htick; by apply sound_tick_expired).
  split; [intros Hp; rewrite Htick; by apply sound_tick_pending|]. split; [done|]. split.
  - cbn. unfold is_pending. by rewrite sample_quietly_network.
  - intros t. unfold turn. set (o := @answer_task _ _ _ t _). by destruct o.
Qed.

(** ** The documents are always produced *)

(** C21: the bounds of the process. Whatever it captures and whatever it is asked, at any
    moment its tables hold at most 4096 flows, 1024 talkers and 200 recent packets, the recent
    list is an array and the metrics are an object. *)
Theorem process_bounded s :
  running_process s ->
  (base.size (flows_ (tables s)) <= 4096)%nat /\ (base.size (talkers_ (tables s)) <= 1024)%nat /\
  type (recent_ (tables s)) = arrayValue /\ (length (elements (recent_ (tables s))) <= 200)%nat /\
  keyed (metrics_ s).
Proof.
  intros [Hm [Hr Hf Ht] Hl]%process_shaped. unfold flow_limit_, talker_limit_, recent_limit in *.
  split_and!; done || lia.
Qed.

(** The members of the live document that are not the metrics of the last sample. *)
Definition live_members : list string := ["type"; "schema_version"; "capture_interface"; "network"; "running"].
Definition counter_names : list string :=
  ["packets"; "wire_bytes"; "metadata_dropped"; "kernel_dropped"; "capture_error"].

(** The document of a live snapshot asked for in [s] and written in [s']. *)
Record live_document (s s' : runtime) (v : Value) : Prop := {
  ld_object : type v = objectValue;
  ld_type : at_key v "type" = Ok (of_string "metrics");
  ld_version : at_key v "schema_version" = Ok (of_int 1);
  ld_interface : at_key v "capture_interface" = Ok (of_string (capture_interface_ (tables s)));
  ld_network : exists n, at_key v "network" = Ok n /\ reported allow_network (network_ s) n;
  ld_engine : match engine_ s' with
    | Some e =>
        at_key v "packets" = Ok (of_string (to_string (Engine.packets (counters e)))) /\
        at_key v "wire_bytes" = Ok (of_string (to_string (snap_wire_bytes (counters e)))) /\
        at_key v "metadata_dropped" = Ok (of_string (to_string (metadata_dropped (counters e)))) /\
        at_key v "kernel_dropped" = Ok match kernel_dropped (counters e) with
                                       | Some n => of_string (to_string n) | None => null end /\
        at_key v "running" = Ok (of_bool (running (counters e))) /\
        at_key v "capture_error" = Ok (of_string (error (counters e)))
    | None =>
        at_key v "running" = Ok (of_bool false) /\
        forall k, k ∈ counter_names -> at_key v k = at_key (metrics_ s) k
    end;
  ld_metrics k : k ∉ live_members -> k ∉ counter_names -> at_key v k = at_key (metrics_ s) k
}.

(** Asking changes nothing but the clock; meanwhile the capture thread runs. *)
Definition asked (s s' : runtime) : Prop :=
  state_ (network_ s') = state_ (network_ s) /\ tables s' = tables s /\ metrics_ s' = metrics_ s /\
  store_ s' = store_ s /\ capture_error_ s' = capture_error_ s /\
  engine_ s' = option_map (an_progress (oracle (consulted s))) (engine_ s).

Lemma assoc_last_other (l : list (string * Value)) k : k ∉ map fst l -> assoc_last l k = None.
Proof.
  induction l as [|[k' x] l IH]; cbn; [done|]. intros [Hne Hk]%not_elem_of_cons.
  rewrite (IH Hk). by destruct (String.eqb_spec k k').
Qed.

Lemma snapshot_ok s :
  keyed (metrics_ s) -> keyed (state_ (network_ s)) ->
  exists v s', metrics_snapshot s = (Ok v, s') /\ live_document s s' v /\ asked s s'.
Proof.
  intros Hm Hk. unfold metrics_snapshot.
  rewrite (t_bind_ok ask _ s (oracle (consulted s)) (ask s).2) by done.
  set (s1 := (ask s).2). rewrite (t_bind_ok t_get _ s1 s1 s1) by done.
  change (metrics_ s1) with (metrics_ s). change (tables s1) with (tables s).
  match goal with |- context [set_keys (metrics_ s) ?l] =>
    destruct (set_keys_keyed (metrics_ s) l Hm) as (v1 & -> & _ & Hk1 & Hat1 & _) end.
  rewrite (t_bind_ok (t_lift (Ok v1)) _ s1 v1 s1) by done.
  destruct (state_document allow_network (network_ s) Hk) as (w & n & Hw & Hn & Hrep).
  rewrite (t_bind_ok _ _ s1 w (with_network s1 n))
    by (unfold t_net; change (network_ s1) with (network_ s); by rewrite Hw).
  destruct (set_key_keyed v1 "network" w Hk1) as (v2 & -> & Ht2 & Hat2 & _).
  rewrite (t_bind_ok (t_lift (Ok v2)) _ _ v2 (with_network s1 n)) by done.
  assert (asked s (with_network s1 n)) as Hasked by done.
  assert (forall k, k ∉ live_members -> at_key v2 k = at_key (metrics_ s) k) as Hrest.
  { intros k Hne. rewrite Hat2, Hat1, assoc_last_other by (cbn; set_solver).
    destruct (String.eqb_spec k "network"); [set_solver|done]. }
  destruct (engine_ s1) as [e|] eqn:He.
  - destruct (set_keys_keyed v2 (counters_members (snapshot e)) ltac:(by right))
      as (v & Hv & Htv & _ & Hat & _).
    exists v, (with_network s1 n). unfold t_lift. rewrite Hv. split; [done|]. split; [|done].
    split; cbn [engine_ with_network]; rewrite ?He; try (rewrite !Hat; cbn; rewrite ?Hat2; cbn; by rewrite ?Hat1).
    + by apply Htv.
    + exists w. split; [|done]. rewrite Hat. cbn. by rewrite Hat2.
    + intros k H1 H2. rewrite Hat, assoc_last_other; [by apply Hrest|]. cbn. set_solver.
  - destruct (set_key_keyed v2 "running" (of_bool false) ltac:(by right)) as (v & Hv & Htv & Hat & _).
    exists v, (with_network s1 n). unfold t_lift. rewrite Hv. split; [done|]. split; [|done].
    assert (forall k, k ∉ live_members -> at_key v k = at_key (metrics_ s) k) as Hother.
    { intros k Hne. rewrite Hat. destruct (String.eqb_spec k "running"); [set_solver|by apply Hrest]. }
    split; cbn [engine_ with_network]; rewrite ?He; try (rewrite !Hat; cbn; rewrite ?Hat2; cbn; by rewrite ?Hat1).
    + done.
    + exists w. split; [|done]. rewrite Hat. cbn. by rewrite Hat2.
    + split; [by rewrite Hat|]. intros k Hin. apply Hother. unfold counter_names, live_members in *. set_solver.
    + intros k Hne _. by apply Hother.
Qed.

(** The document of [GET /api/v1/status], asked for in [s]. *)
Definition status_answer (s s' : runtime) (v : Value) : Prop :=
  at_key v "version" = Ok (of_string "0.2.0") /\
  (exists n, at_key v "network" = Ok n /\ reported allow_network (network_ s) n) /\
  at_key v "capture_interface" = Ok (of_string (capture_interface_ (tables s))) /\
  at_key v "capture_error" = Ok (of_string (capture_error_ s)) /\
  at_key v "storage_error" = Ok (of_string (storage_error_ (tables s))) /\
  exists m, at_key v "metrics" = Ok m /\
    live_document (with_network s (state allow_network (network_ s)).2) s' m.

Lemma status_ok s :
  keyed (metrics_ s) -> keyed (state_ (network_ s)) ->
  exists v s', status_report s = (Ok v, s') /\ status_answer s s' v /\ asked s s'.
Proof.
  intros Hm Hk. unfold status_report, status_answer.
  destruct (state_document allow_network (network_ s) Hk) as (w & n & Hw & Hn & Hrep). rewrite Hw.
  cbn [snd]. rewrite (t_bind_ok _ _ s w (with_network s n)) by (unfold t_net; by rewrite Hw).
  rewrite (t_bind_ok t_get _ _ (with_network s n) (with_network s n)) by done.
  destruct (snapshot_ok (with_network s n)) as (m & s' & Hs' & Hdoc & Hasked);
    [done | cbn; by rewrite Hn |].
  rewrite (t_bind_ok _ _ _ _ _ Hs').
  match goal with |- context [set_keys null ?l] =>
    destruct (set_keys_keyed null l ltac:(left; apply type_null)) as (v & Hv & _ & _ & Hat & _) end.
  exists v, s'. unfold t_lift. rewrite Hv. split; [done|]. split.
  - rewrite !Hat. split_and!; try done; [by exists w | by exists m].
  - destruct Hasked as (H1 & H2). split; [|exact H2]. by rewrite H1.
Qed.

(** C20: the live snapshot and the status never fail. At any moment of a process, whether it
    may change the network or not, the task of a live socket is answered with status 200 and
    one complete document: its type and schema version, the captured interface, the network
    controller's state with [enabled] and the seconds left; with an engine its counters
    [packets], [wire_bytes], [metadata_dropped] in decimal, [kernel_dropped] in decimal or
    null, whether it runs and its error, and without one [running] false; the other members are
    the metrics of the last sample. [GET /api/v1/status] is answered with status 200, the
    version, the network state, the interface, both errors and that document. Neither changes
    the state, the tables or the store. *)
Theorem snapshot_answers s :
  running_process s ->
  (exists v s', answer_task LiveTask (s : App) = ((v, 200), s') /\ live_document s s' v /\ asked s s') /\
  forall r, route_is r "/api/v1/status" Get = true ->
    exists v s', answer_task (HttpTask r) (s : App) = ((v, 200), s') /\ status_answer s s' v /\
      asked s s'.
Proof.
  intros Hrun. pose proof (process_keyed s Hrun) as Hk.
  pose proof (sh_metrics _ (process_shaped s Hrun)) as Hm.
  unfold answer_task, run_task. split.
  - destruct (snapshot_ok s Hm Hk) as (v & s' & Hv & Hrest). exists v, s'. split; [|exact Hrest].
    cbn [snapshot_document RuntimeBackend]. by rewrite Hv.
  - intros r Hr. destruct (status_ok s Hm Hk) as (v & s' & Hv & Hrest). exists v, s'. split; [|exact Hrest].
    unfold request. rewrite Hr. cbn [status_document RuntimeBackend]. by rewrite Hv.
Qed.

(** ** Changing the captured interface *)

(** What a refused change leaves alone. *)
Definition same_capture (s s' : runtime) : Prop :=
  capture_interface_ (tables s') = capture_interface_ (tables s) /\
  (is_Some (engine_ s') <-> is_Some (engine_ s)) /\ settings (store_ s') = settings (store_ s).

(** While [i] is captured, [m] leaves those alone and returns a value in [Q]. *)
Definition continues {A} (i : string) (m : T A) (Q : A -> Prop) : Prop := forall s,
  capture_interface_ (tables s) = i ->
  same_capture s (m s).2 /\ forall x, (m s).1 = Ok x -> Q x.

Definition anything {A} (x : A) : Prop := True.

Lemma same_capture_trans s1 s2 s3 : same_capture s1 s2 -> same_capture s2 s3 -> same_capture s1 s3.
Proof. intros (H1 & H2 & H3) (H4 & H5 & H6). split; [congruence|]. split; [by rewrite H5|congruence]. Qed.

Lemma continues_bind {A B} i (m : T A) (k : A -> T B) Q Q' :
  continues i m Q -> (forall x, Q x -> continues i (k x) Q') -> continues i (t_bind m k) Q'.
Proof.
  intros Hm Hk s Hi. unfold t_bind. destruct (Hm s Hi) as [Hs HQ].
  destruct (m s) as [[x|e] s']; [|by split]. cbn in Hs.
  destruct (Hk x (HQ x eq_refl) s') as [Hs' HQ']; [destruct Hs; congruence|].
  split; [|done]. by eapply same_capture_trans.
Qed.

Lemma continues_local {A} i (m : T A) :
  (forall s, same_capture s (m s).2) -> continues i m anything.
Proof. intros Hm s _. by split. Qed.

Lemma continues_ask i : continues i ask anything.
Proof. apply continues_local. intros s. split; [done|]. split; [|done]. cbn. by destruct (engine_ s). Qed.

Lemma continues_drain i : continues i drain_engine anything.
Proof.
  apply continues_local. intros s. unfold drain_engine. destruct (engine_ s) as [e|] eqn:He; [|done].
  destruct (drain drain_limit e). split; [done|]. split; [|done]. cbn. by rewrite He.
Qed.

Lemma flush_interface f1 f2 now sec sql p b m a d :
  capture_interface_ (flush f1 f2 now sec sql p b m a d).1 = capture_interface_ a /\
  settings (flush f1 f2 now sec sql p b m a d).2 = settings d.
Proof.
  unfold flush, sample. destruct (check f1.1), (check f1.2); cbn; try done.
  destruct (append_all _ _ _) as [v|]; cbn; [|done].
  match goal with |- context [record_flows ?b ?u ?c ?e ?n ?l ?d1] =>
    pose proof (record_flows_settings b u c e n l d1) as Hs; destruct (record_flows b u c e n l d1) end.
  done.
Qed.

Lemma continues_publish i now elapsed a :
  capture_interface_ a = i -> continues i (publish now elapsed a) anything.
Proof.
  intros Ha. unfold publish. eapply continues_bind; [apply continues_ask|]. intros x _.
  eapply continues_bind; [by apply continues_local|]. intros c _.
  eapply continues_bind; [by apply continues_local|]. intros s _.
  eapply continues_bind; [by apply continues_local|]. intros m _.
  eapply continues_bind; [by apply continues_local|]. intros ? _.
  eapply continues_bind; [apply continues_ask|]. intros b _ s1 Hi. split; [|done]. cbn.
  match goal with |- context [flush ?f1 ?f2 ?n ?sc ?sq ?p ?q ?mm ?aa ?d] =>
    pose proof (flush_interface f1 f2 n sc sq p q mm aa d) as [Hf Hd];
    destruct (flush f1 f2 n sc sq p q mm aa d) as [a' d'] end.
  cbn in *. split; cbn; [congruence|]. by split.
Qed.

Lemma continues_take_in i : continues i take_in (fun a => capture_interface_ a = i).
Proof.
  unfold take_in. eapply continues_bind; [apply continues_ask|]. intros x _.
  eapply continues_bind; [apply continues_drain|]. intros ps _ s Hi.
  unfold t_bind, t_get, t_lift, t_set, t_ret.
  destruct (process_packets ps (tables s)) as [a|] eqn:Hp; cbn [rbind]; [|done].
  apply process_packets_interface in Hp.
  unfold trim_recent. destruct (_ <? _)%nat.
  - destruct (append_all _ _ _); cbn; [|done]. split; [split; cbn; [done|done]|].
    intros ? [= <-]. cbn. congruence.
  - cbn. split; [split; cbn; [done|done]|]. intros ? [= <-]. congruence.
Qed.

Lemma continues_sample i force : continues i (sample_packets force) anything.
Proof.
  unfold sample_packets. eapply continues_bind; [by apply continues_local|]. intros s _.
  destruct (engine_ s); [|by apply continues_local].
  eapply continues_bind; [apply continues_take_in|]. intros a Ha.
  eapply continues_bind; [apply continues_ask|]. intros b _. cbv zeta.
  destruct (_ && _); [by apply continues_local|]. by apply continues_publish.
Qed.

Lemma continues_stop_and_flush i : continues i stop_and_flush anything.
Proof.
  unfold stop_and_flush. eapply continues_bind; [by apply continues_local|]. intros s _.
  destruct (engine_ s); [|by apply continues_local].
  eapply continues_bind; [apply continues_ask|]. intros a _.
  eapply continues_bind; [|intros ? _; apply continues_sample].
  apply continues_local. intros s1. split; [done|]. split; [|done]. cbn. by destruct (engine_ s1).
Qed.

(** C19: changing the capture. A successful [start_capture] leaves a running engine of 8192
    packets with an empty queue and zero counters, fresh tables for the new interface, and the
    choice in the store for the next start. A failed one, at whatever step (a bad name, a source
    that does not open, a thread that does not start, a store that refuses), leaves the stored
    choice, the captured interface and the presence of an engine as they were; a bad name changes
    nothing at all and is an [invalid_argument]. *)
Theorem start_capture_outcome name s :
  match start_capture_ name s with
  | (Ok _, s') =>
      capture_name name = true /\
      engine_ s' = Some {| capacity := 8192; queue := []; counters := set_running zero_snapshot true;
                           started := true; stop_requested := false; pc := Loop; joined := false |} /\
      (exists err now, tables s' = fresh_aggregates name err now) /\ metrics_ s' = empty_object /\
      capture_error_ s' = "" /\
      settings (store_ s') !! "capture_interface" = Some (json_text (of_string name))
  | (Throw e, s') =>
      same_capture s s' /\
      (capture_name name = false -> s' = s /\ exn_class e = invalid_argument)
  end.
Proof.
  unfold start_capture_. destruct (capture_name name) eqn:Hname; cbn [negb]; [|by split].
  pose proof (continues_ask (capture_interface_ (tables s)) s eq_refl) as [H1 _].
  rewrite (t_bind_ok ask _ s (oracle (consulted s)) (ask s).2) by done.
  revert H1. generalize (ask s).2. intros s1 H1. unfold t_bind at 1, t_lift at 1.
  destruct (open_source _) as [src|e]; cbn [rbind]; [|by split].
  change (construct true drain_limit) with (Ok {| capacity := 8192; queue := [];
    counters := zero_snapshot; started := false; stop_requested := false; pc := NoThread;
    joined := false |}). cbv iota beta.
  destruct (continues_stop_and_flush _ s1 eq_refl) as [H2 _]. unfold t_bind at 1.
  destruct (stop_and_flush s1) as [[?|e] s2]; cbn in H2;
    [|split; [by eapply same_capture_trans|done]].
  pose proof (same_capture_trans _ _ _ H1 H2) as H12. clear H1 H2 s1.
  rewrite (t_bind_ok ask _ s2 (oracle (consulted s2)) (ask s2).2) by done.
  pose proof (continues_ask _ s2 eq_refl) as [H3 _]. revert H3.
  generalize (oracle (consulted s2)) (ask s2).2. intros b s3 H3.
  pose proof (same_capture_trans _ _ _ H12 H3) as H13. clear H12 H3 s2.
  unfold start. cbn [started]. destruct (an_spawn b) as [u|e]; [|by split].
  unfold t_bind at 1, t_lift at 1, put_setting.
  unfold t_bind at 1. rewrite (t_bind_ok ask _ s3 (oracle (consulted s3)) (ask s3).2) by done.
  pose proof (continues_ask _ s3 eq_refl) as [H4 _]. revert H4.
  generalize (oracle (consulted s3)) (ask s3).2. intros c s4 H4.
  pose proof (same_capture_trans _ _ _ H13 H4) as H14. unfold put.
  destruct (check (an_fault c)) as [[]|e]; [|by split].
  unfold t_set, adopt. cbn. split; [done|]. split; [done|]. split; [by do 2 eexists|].
  do 2 (split; [done|]). by rewrite lookup_insert_eq.
Qed.

(** ** The whole process: event loop and worker *)

(** One turn of the worker's loop on the control queue. *)
Definition work_once (s : server) : server :=
  match tasks s with
  | [] => {| app := (turn None (app s)).2 : App; tasks := []; accepted := accepted s;
             served := served s; refused_replies := refused_replies s; replies := replies s;
             arrivals := arrivals s |}
  | t :: q =>
      let '(r, s') := turn (Some t) (app s) in
      {| app := s' : App; tasks := q; accepted := accepted s; served := served s ++ [t];
         refused_replies := refused_replies s; replies := replies s ++ option_list r;
         arrivals := arrivals s |}
  end.

Inductive process_step (token_ : string) : server -> server -> Prop :=
| ps_http s r : process_step token_ s (arrive (HttpTask r) (handle_http token_ r (tasks s)) s)
| ps_live s : process_step token_ s (arrive LiveTask (submit LiveTask (tasks s)) s)
| ps_work s : process_step token_ s (work_once s).

(** The end of [work]: the tasks still pending are dropped with their queue. *)
Definition shut_down (s : server) : server :=
  {| app := wind_down (app s) : App; tasks := []; accepted := accepted s; served := served s;
     refused_replies := refused_replies s; replies := replies s; arrivals := arrivals s |}.

(** A turn is one step of the abstract worker between two of the application's own. *)
Lemma work_simulated token_ s : rtc (server_step token_) s (work_once s).
Proof.
  unfold work_once. destruct (tasks s) as [|t q] eqn:Hq.
  - eapply rtc_l; [apply (st_between token_ s (fun a => (turn None a).2))|]. by rewrite Hq.
  - unfold turn. eapply rtc_l; [apply (st_between token_ s tick_network)|].
    eapply rtc_l; [by eapply st_serve|]. eapply rtc_l; [apply (@st_between _ _ RuntimeBackend token_ _ sample_quietly)|].
    cbn. set (o := @answer_task _ _ _ t _). by destruct o.
Qed.

Lemma process_simulated token_ s s' : process_step token_ s s' -> rtc (server_step token_) s s'.
Proof.
  destruct 1 as [s r|s|s]; [|apply rtc_once, st_live|apply work_simulated].
  apply rtc_once, st_http.
Qed.

Lemma work_turn s : exists t, app (work_once s) = (turn t (app s)).2.
Proof.
  unfold work_once. destruct (tasks s) as [|t q]; [by exists None|].
  exists (Some t). by destruct (turn (Some t) (app s)).
Qed.

(** Every task served was answered by the application of the process at its turn. *)
Definition answered_in_turn (s : server) : Prop :=
  Forall2 (fun t r => exists a, running_process a /\ r = (answer_task t (tick_network a : App)).1)
    (served s) (replies s).

Lemma work_answers s :
  running_process (app s) -> answered_in_turn s -> answered_in_turn (work_once s).
Proof.
  intros Hr Ha. unfold work_once. destruct (tasks s) as [|t q]; [done|].
  unfold turn. set (o := @answer_task _ _ _ t _). destruct o as [r s'] eqn:Ho. cbn.
  apply Forall2_app; [done|]. constructor; [|constructor]. exists (app s). split; [done|].
  subst o. by rewrite Ho.
Qed.

Lemma step_running token_ s s' :
  process_step token_ s s' -> running_process (app s) -> answered_in_turn s ->
  running_process (app s') /\ answered_in_turn s'.
Proof.
  intros Hstep Hr Ha. destruct Hstep as [s r|s|s].
  - by destruct (handle_http token_ r (tasks s)).
  - by destruct (submit LiveTask (tasks s)).
  - split; [|by apply work_answers]. destruct (work_turn s) as [t ->].
    destruct Hr as (u & n & faults & file & now & i & token & s0 & Hn & Hl & Hr).
    exists u, n, faults, file, now, i, token, s0. split; [done|]. split; [done|].
    eapply rtc_r; [exact Hr|]. by exists t.
Qed.

(** C14: the process refines the abstract control plane. Every execution of the composed
    process (requests and live messages arriving at any moment, the worker's loop with its
    [tick], its task and its sample) is an execution of the abstract server, so that all its
    properties hold of the process; its application is always a runtime to which the invariants
    of the process apply; and the reply to each served task, in order, is the answer of the
    application at a turn of the process, after that turn's [tick]. *)
Theorem process_refines_control_plane u n faults file now interface token rt s :
  log n = [] -> launch u n faults file now interface = Ok (token, rt) ->
  rtc (process_step token) (server_start (rt : App)) s ->
  server_reachable token s /\ running_process (app s) /\ answered_in_turn s.
Proof.
  intros Hlog Hl Hr. split.
  - exists (rt : @App _ RuntimeBackend). clear Hlog Hl. revert s Hr. apply rtc_ind_r; [done|].
    intros s s' _ Hstep IH. etrans; [exact IH|]. by apply process_simulated.
  - revert s Hr. apply rtc_ind_r.
    + split; [|constructor]. by exists u, n, faults, file, now, interface, token, rt.
    + intros s s' _ Hstep [IH1 IH2]. by eapply step_running.
Qed.
End Runtime.

(** ** A process on the simulated host *)

From S2P Require Import JsonTree NetworkBench.

(** An Ethernet interface that opens, a capture thread that starts and exits when asked. *)
Definition obliging : answers := {|
  an_opening := {| created := None; configured := [0; 0; 0; 0]; activated := 0; activate_error := "";
                   datalink := 1; nonblocking := 0; nonblock_error := "" |};
  an_spawn := Ok tt; an_progress := fun e => e; an_exit := worker_finish;
  an_steady := 5000000000; an_seconds := 1700000000; an_sql_seconds := 1700000000;
  an_fault := None; an_sample_faults := (None, None); an_flow_faults := no_flow_faults
|}.

Definition bench_oracle (n : nat) : answers := obliging.

Definition no_fault : open_faults := 
  {| of_open := None; of_statement := fun _ => None; of_wal := true |}.

Definition bench_startup : startup := {|
  su_stat := Some (true, 384); su_line := "0123456789abcdef0123456789abcdef"; su_lock := 3;
  su_locked := true; su_index := true |}.

Definition bench_launch : result (string * runtime) :=
  launch true bench_oracle bench_startup (resting []) no_fault None 0 "eth0".

Definition bench_process : runtime :=
  match bench_launch with
  | Ok (_, s) => s | Throw _ => fresh_runtime (resting []) (contents new_file) 0 end.

(** Conversion names these before it runs them. *)
Strategy expand [bench_launch bench_process].

Lemma launched_as {A B} (r : result (A * B)) t d :
  match r with Ok (t', _) => t' = t | Throw _ => False end ->
  r = Ok (t, match r with Ok (_, s) => s | Throw _ => d end).
Proof. by destruct r as [[t' s]|e]; [intros ->|]. Qed.

Lemma bench_launched :
  launch true bench_oracle bench_startup (resting []) no_fault None 0 "eth0" =
  Ok ("0123456789abcdef0123456789abcdef", bench_process).
Proof.
  pose proof (launched_as bench_launch "0123456789abcdef0123456789abcdef"
    (fresh_runtime (resting []) (contents new_file) 0) ltac:(vm_compute; reflexivity)) as Hl.
  unfold bench_launch at 1 in Hl. exact Hl.
Qed.

Lemma bench_running : running_process true bench_oracle bench_process.
Proof.
  exists bench_startup, (resting []), no_fault, None, 0, "eth0", "0123456789abcdef0123456789abcdef",
    bench_process.
  split; [reflexivity|]. split; [exact bench_launched | apply rtc_refl].
Qed.

(** The process after [PUT /api/v1/config]: the configuration is applied and not confirmed. *)
Definition bench_request : http_request := {|
  path := "/api/v1/config"; method := Put;
  body := match config_json sample_config with Ok v => tree_write v | Throw _ => "" end;
  origin := ""; host_header := ""; authorization := ""; parameter := fun _ => "" |}.

Definition bench_pending : runtime :=
  (turn true bench_oracle (Some (HttpTask bench_request)) bench_process).2.

Definition idle_turns (n : nat) (s : runtime) : runtime :=
  Nat.iter n (fun s => (turn true bench_oracle None s).2) s.

(** On the bench a second passes at every reading of the clock: the last moment before the
    expiry is noticed. *)
Definition bench_expired : runtime := idle_turns 58 bench_pending.

Definition pendingb (s : runtime) : bool :=
  match at_key (state_ (network_ s)) "status" with
  | Ok v => equals v (of_string "awaiting_confirmation") | Throw _ => false end.

Lemma idle_running n s :
  running_process true bench_oracle s -> running_process true bench_oracle (idle_turns n s).
Proof.
  intros (u & m & faults & file & now & i & token & s0 & Hm & Hl & Hr).
  exists u, m, faults, file, now, i, token, s0. split; [exact Hm|]. split; [exact Hl|].
  induction n as [|n IH]; [exact Hr|]. eapply rtc_r; [exact IH|]. exists None. reflexivity.
Qed.

Lemma bench_pending_running : running_process true bench_oracle bench_pending.
Proof.
  destruct bench_running as (u & m & faults & file & now & i & token & s0 & Hm & Hl & Hr).
  exists u, m, faults, file, now, i, token, s0. split; [exact Hm|]. split; [exact Hl|].
  eapply rtc_r; [exact Hr|]. exists (Some (HttpTask bench_request)). reflexivity.
Qed.

Lemma shutdown_leaves_nothing_pending_witness :
  pendingb bench_pending = true /\ ~ is_pending (wind_down true bench_oracle bench_pending).
Proof.
  split; [vm_compute; reflexivity|].
  exact (shutdown_leaves_nothing_pending true bench_oracle bench_pending eq_refl bench_pending_running).
Defined.

Lemma deadline_enforced_witness :
  pendingb bench_expired = true /\ ~ is_pending (tick_network true bench_expired).
Proof.
  split; [vm_compute; reflexivity|].
  refine (proj1 (proj2 (deadline_enforced true bench_oracle bench_expired eq_refl
                   (idle_running 58 _ bench_pending_running) _))).
  apply Z.leb_le. vm_compute. reflexivity.
Defined.

Lemma process_bounded_witness : (base.size (flows_ (tables bench_expired)) <= 4096)%nat.
Proof.
  exact (proj1 (process_bounded true bench_oracle bench_expired
                  (idle_running 58 _ bench_pending_running))).
Defined.

Lemma snapshot_answers_witness : exists v s',
  @answer_task _ _ (RuntimeBackend true bench_oracle) LiveTask bench_pending = ((v, 200), s') /\
  type v = objectValue.
Proof.
  destruct (snapshot_answers true bench_oracle bench_pending bench_pending_running)
    as ((v & s' & Ha & Hd & _) & _).
  exists v, s'. split; [exact Ha | exact (ld_object _ _ _ _ Hd)].
Defined.

(** A live message arrives and the worker makes one turn. *)
Definition bench_served : @server _ (RuntimeBackend true bench_oracle) :=
  work_once true bench_oracle
    (@arrive _ (RuntimeBackend true bench_oracle) LiveTask (submit LiveTask [])
       (@server_start _ (RuntimeBackend true bench_oracle) bench_process)).

Lemma process_refines_control_plane_witness :
  @server_reachable _ _ (RuntimeBackend true bench_oracle) "0123456789abcdef0123456789abcdef" bench_served /\
  length (@replies _ (RuntimeBackend true bench_oracle) bench_served) = 1%nat.
Proof.
  split; [|vm_compute; reflexivity].
  refine (proj1 (process_refines_control_plane true bench_oracle bench_startup (resting []) no_fault
    None 0 "eth0" _ bench_process bench_served eq_refl bench_launched _)).
  eapply rtc_l; [apply ps_live|]. apply rtc_once. apply ps_work.
Defined.
